(** * fusion-c: character classes and the FSM validation engine

    A shallow embedding of [src/Abnf/src/abnf.cpp] and [src/Fsm/src/fsm.cpp]
    together with the properties of the validation engine that the design
    document states about them.

    Conventions of the embedding
    - a [char] / [uint8_t] is a [byte]; a [std::string] holding input or
      captured text is a [list byte]; names and descriptions are [string]s;
    - [std::bitset<256>] is a [Z] read through [Z.testbit];
    - [std::unordered_map<StateID, State>] and
      [std::unordered_set<StateID>] hash and compare a [StateID] by its
      numeric id only, so they are a [gmap N State] and a [gset N];
    - a callback ([std::function]) is the list of calls it makes to the
      capture interface of the machine it is attached to, which is what
      the callbacks of the repository do to a machine;
    - a C++ exception leaving a member function is the result [None];
    - [std::sort], which the repository calls and does not define, is a
      parameter of the executors; [Libstdcxx] holds the one of
      libstdc++. *)

From Stdlib Require Import ZArith NArith Lia.
From Stdlib Require Import Strings.Byte.
From stdpp Require Import base option list gmap strings pretty sorting.

Local Open Scope string_scope.
Local Open Scope Z_scope.

(** ** ABNF character classes ([abnf.hpp], [abnf.cpp]) *)

Module Abnf.

(** [class ABNF]: the 256-bit membership set and the debug description. *)
Record ABNF := mkABNF {
  char_set_ : Z;
  description_ : string
}.

(** [static_cast<uint8_t>(ch)], the position of a byte in the bitset. *)
Definition bit_index (ch : byte) : Z := Z.of_N (Byte.to_N ch).

(** All 256 positions of a [std::bitset<256>]. *)
Definition all_bits : Z := Z.ones 256.

(** The representation invariant of [std::bitset<256>]: no bit outside
    positions 0..255. *)
Definition wf (a : ABNF) : Prop := 0 <= char_set_ a < 2 ^ 256.

(** [ABNF::ABNF()] *)
Definition empty : ABNF := mkABNF 0 "EMPTY".

(** [ABNF::setBit] *)
Definition setBit (cs : Z) (value : byte) : Z := Z.setbit cs (bit_index value).

(** [ABNF::setRange]: [for (unsigned i = start; i <= end; ++i) set(i)]. *)
Definition setRange (cs : Z) (first last : Z) : Z :=
  fold_left (fun acc i => Z.setbit acc (first + Z.of_nat i))
            (seq 0 (Z.to_nat (last - first + 1))) cs.

Definition hex_digit (n : N) : Ascii.ascii :=
  Ascii.ascii_of_N (if (n <? 10)%N then 48 + n else 55 + n)%N.

(** [std::hex << std::uppercase << std::setw(2) << std::setfill('0')] *)
Definition hex2 (ch : byte) : string :=
  let n := Byte.to_N ch in
  String (hex_digit (n / 16)) (String (hex_digit (n mod 16)) EmptyString).

(** [ABNF::ABNF(char ch)] *)
Definition of_char (ch : byte) : ABNF :=
  let n := Byte.to_N ch in
  mkABNF (setBit 0 ch)
    (if ((32 <=? n) && (n <=? 126) && negb (n =? 39))%N
     then "'" +:+ String (Ascii.ascii_of_byte ch) "'"
     else "%x" +:+ hex2 ch).

(** [ABNF::ABNF(uint8_t value)] *)
Definition of_value (value : byte) : ABNF :=
  mkABNF (setBit 0 value) ("%x" +:+ hex2 value).

(** [ABNF::ABNF(uint8_t start, uint8_t end)]; [None] is the
    [std::invalid_argument] thrown when [start > end]. *)
Definition of_range (first last : byte) : option ABNF :=
  if (Byte.to_N last <? Byte.to_N first)%N then None
  else Some (mkABNF (setRange 0 (bit_index first) (bit_index last))
                    ("%x" +:+ hex2 first +:+ "-" +:+ hex2 last)).

Inductive CoreRule :=
| ALPHA | BIT | CHAR | CR | CRLF | CTL | DIGIT | DQUOTE
| HEXDIG | HTAB | LF | LWSP | OCTET | SP | VCHAR | WSP.

(** [ABNF::initFromCoreRule], started from the empty set. *)
Definition initFromCoreRule (rule : CoreRule) : Z :=
  match rule with
  | ALPHA => setRange (setRange 0 0x41 0x5A) 0x61 0x7A
  | BIT => Z.setbit (Z.setbit 0 0x30) 0x31
  | CHAR => setRange 0 0x01 0x7F
  | CR => Z.setbit 0 0x0D
  | CRLF => Z.setbit (Z.setbit 0 0x0D) 0x0A
  | CTL => Z.setbit (setRange 0 0x00 0x1F) 0x7F
  | DIGIT => setRange 0 0x30 0x39
  | DQUOTE => Z.setbit 0 0x22
  | HEXDIG => setRange (setRange (setRange 0 0x30 0x39) 0x41 0x46) 0x61 0x66
  | HTAB => Z.setbit 0 0x09
  | LF => Z.setbit 0 0x0A
  | LWSP => Z.setbit (Z.setbit 0 0x20) 0x09
  | OCTET => setRange 0 0x00 0xFF
  | SP => Z.setbit 0 0x20
  | VCHAR => setRange 0 0x21 0x7E
  | WSP => Z.setbit (Z.setbit 0 0x20) 0x09
  end.

(** [ABNF::coreRuleToString] *)
Definition coreRuleToString (rule : CoreRule) : string :=
  match rule with
  | ALPHA => "ALPHA" | BIT => "BIT" | CHAR => "CHAR" | CR => "CR"
  | CRLF => "CRLF" | CTL => "CTL" | DIGIT => "DIGIT" | DQUOTE => "DQUOTE"
  | HEXDIG => "HEXDIG" | HTAB => "HTAB" | LF => "LF" | LWSP => "LWSP"
  | OCTET => "OCTET" | SP => "SP" | VCHAR => "VCHAR" | WSP => "WSP"
  end.

(** [ABNF::ABNF(CoreRule rule)] *)
Definition of_core (rule : CoreRule) : ABNF :=
  mkABNF (initFromCoreRule rule) (coreRuleToString rule).

Definition alpha : ABNF := of_core ALPHA.
Definition digit : ABNF := of_core DIGIT.

(** [ABNF::matches]: [char_set_[static_cast<uint8_t>(ch)]]. *)
Definition matches (a : ABNF) (ch : byte) : bool :=
  Z.testbit (char_set_ a) (bit_index ch).

(** [ABNF::excludes] *)
Definition excludes (a : ABNF) (ch : byte) : bool := negb (matches a ch).

(** [ABNF::unionWith]: [char_set_ | other.char_set_]. *)
Definition unionWith (a other : ABNF) : ABNF :=
  mkABNF (Z.lor (char_set_ a) (char_set_ other))
         ("(" +:+ description_ a +:+ " / " +:+ description_ other +:+ ")").

(** [ABNF::intersectWith]: [char_set_ & other.char_set_]. *)
Definition intersectWith (a other : ABNF) : ABNF :=
  mkABNF (Z.land (char_set_ a) (char_set_ other))
         ("(" +:+ description_ a +:+ " & " +:+ description_ other +:+ ")").

(** [ABNF::complement]: [~char_set_] flips each of the 256 bits. *)
Definition complement (a : ABNF) : ABNF :=
  mkABNF (Z.lxor (char_set_ a) all_bits)
         ("~(" +:+ description_ a +:+ ")").

(** [ABNF::isEmpty]: [char_set_.none()]. *)
Definition isEmpty (a : ABNF) : bool := Z.eqb (char_set_ a) 0.

(** [ABNF::toString] *)
Definition toString (a : ABNF) : string := description_ a.

(** *** The remaining constructors *)

(** The value of the [char] that holds the byte [ch].  Whether [char] is
    a signed type is left to the implementation by the C++ standard;
    [char_signed] tells (it is signed with GCC and Clang on x86). *)
Definition char_value (char_signed : bool) (ch : byte) : Z :=
  if char_signed && (128 <=? bit_index ch) then bit_index ch - 256
  else bit_index ch.

(** [ABNF::ABNF(char start, char end)]: the test [start > end] compares
    the two [char]s; the range is set between their [uint8_t] casts. *)
Definition of_char_range (char_signed : bool) (first last : byte)
    : option ABNF :=
  if char_value char_signed last <? char_value char_signed first then None
  else Some (mkABNF (setRange 0 (bit_index first) (bit_index last))
                    ("%x" +:+ hex2 first +:+ "-" +:+ hex2 last)).

(** What the constructors write for one [char]: the character between
    quotes when it is printable and not a quote, its code otherwise. *)
Definition char_text (ch : byte) : string :=
  let n := Byte.to_N ch in
  if ((32 <=? n) && (n <=? 126) && negb (n =? 39))%N
  then "'" +:+ String (Ascii.ascii_of_byte ch) "'"
  else "%x" +:+ hex2 ch.

(** The loop shared by the three initializer-list constructors: [set]
    adds an element to the bitset, [text] is what is written for it,
    [sep] what is written between two elements. *)
Definition of_list {A : Type} (set : Z -> A -> Z) (text : A -> string)
    (opening sep closing : string) (elements : list A) : ABNF :=
  let '(cs, oss, _) :=
    fold_left
      (fun '(cs, oss, first) x =>
         (set cs x,
          (if first : bool then oss else oss +:+ sep) +:+ text x,
          false))
      elements (0, opening, true) in
  mkABNF cs (oss +:+ closing).

(** [ABNF::ABNF(std::initializer_list<char>)] *)
Definition of_chars (chars : list byte) : ABNF :=
  of_list setBit char_text "[" ", " "]" chars.

(** [ABNF::ABNF(std::initializer_list<uint8_t>)] *)
Definition of_values (values : list byte) : ABNF :=
  of_list setBit (fun value => "%x" +:+ hex2 value) "[" ", " "]" values.

(** [ABNF::ABNF(std::initializer_list<ABNF>)] *)
Definition of_rules (rules : list ABNF) : ABNF :=
  of_list (fun cs rule => Z.lor cs (char_set_ rule)) description_
          "(" " / " ")" rules.

(** [ABNF::count]: [char_set_.count()], the number of positions set. *)
Definition count (a : ABNF) : nat :=
  length (List.filter (fun i => Z.testbit (char_set_ a) (Z.of_nat i))
                      (seq 0 256)).

(** *** [class ABNF::Builder] *)

Module Builder.

Record Builder := mkBuilder { abnf_ : ABNF }.

(** [Builder() = default]: the member is a default-constructed [ABNF]. *)
Definition new : Builder := mkBuilder empty.

(** An assignment to [abnf_.char_set_]. *)
Definition set_char_set (cs : Z) (b : Builder) : Builder :=
  mkBuilder (mkABNF cs (description_ (abnf_ b))).

(** [Builder::addChar], for a [char] and for a [uint8_t] alike. *)
Definition addChar (value : byte) (b : Builder) : Builder :=
  set_char_set (setBit (char_set_ (abnf_ b)) value) b.

(** [Builder::addRange(char start, char end)] *)
Definition addCharRange (char_signed : bool) (first last : byte)
    (b : Builder) : option Builder :=
  if char_value char_signed last <? char_value char_signed first then None
  else Some (set_char_set
               (setRange (char_set_ (abnf_ b)) (bit_index first)
                         (bit_index last)) b).

(** [Builder::addRange(uint8_t start, uint8_t end)] *)
Definition addRange (first last : byte) (b : Builder) : option Builder :=
  if (Byte.to_N last <? Byte.to_N first)%N then None
  else Some (set_char_set
               (setRange (char_set_ (abnf_ b)) (bit_index first)
                         (bit_index last)) b).

(** [Builder::addRule] *)
Definition addRule (rule : ABNF) (b : Builder) : Builder :=
  set_char_set (Z.lor (char_set_ (abnf_ b)) (char_set_ rule)) b.

(** [Builder::addCoreRule] *)
Definition addCoreRule (rule : CoreRule) (b : Builder) : Builder :=
  let temp := of_core rule in
  set_char_set (Z.lor (char_set_ (abnf_ b)) (char_set_ temp)) b.

(** [Builder::build] *)
Definition build (b : Builder) : ABNF := abnf_ b.

End Builder.

End Abnf.

(** ** [std::sort] as libstdc++ has it

    The C++ standard leaves open how [std::sort] orders elements that
    its comparator does not tell apart.  This is the algorithm of
    libstdc++ 12 ([bits/stl_algo.h], [bits/stl_heap.h]), function by
    function, on a vector held as a list: positions are offsets from the
    start of the vector, and a loop takes as many rounds as the vector
    has elements at most. *)

Module Libstdcxx.

Local Open Scope nat_scope.

Section Sort.

Context {A : Type}.

(** The comparator, and what reading outside the vector would give (the
    algorithm makes no such read). *)
Variable comp : A -> A -> bool.
Variable d : A.

Definition get (l : list A) (i : nat) : A := nth i l d.

(** [std::iter_swap] *)
Definition iter_swap (i j : nat) (l : list A) : list A :=
  <[j := get l i]> (<[i := get l j]> l).

(** [__move_median_to_first] *)
Definition move_median_to_first (result a b c : nat) (l : list A)
    : list A :=
  if comp (get l a) (get l b) then
    if comp (get l b) (get l c) then iter_swap result b l
    else if comp (get l a) (get l c) then iter_swap result c l
    else iter_swap result a l
  else if comp (get l a) (get l c) then iter_swap result a l
  else if comp (get l b) (get l c) then iter_swap result c l
  else iter_swap result b l.

(** [while (__comp(__first, __pivot)) ++__first;] *)
Fixpoint scan_up (fuel first pivot : nat) (l : list A) : nat :=
  match fuel with
  | O => first
  | S fuel' =>
      if comp (get l first) (get l pivot)
      then scan_up fuel' (S first) pivot l else first
  end.

(** [while (__comp(__pivot, __last)) --__last;] *)
Fixpoint scan_down (fuel last pivot : nat) (l : list A) : nat :=
  match fuel with
  | O => last
  | S fuel' =>
      if comp (get l pivot) (get l last)
      then scan_down fuel' (pred last) pivot l else last
  end.

(** [__unguarded_partition] *)
Fixpoint unguarded_partition (fuel first last pivot : nat) (l : list A)
    : nat * list A :=
  match fuel with
  | O => (first, l)
  | S fuel' =>
      let first1 := scan_up (length l) first pivot l in
      let last1 := scan_down (length l) (pred last) pivot l in
      if negb (first1 <? last1) then (first1, l)
      else unguarded_partition fuel' (S first1) last1 pivot
             (iter_swap first1 last1 l)
  end.

(** [__unguarded_partition_pivot] *)
Definition unguarded_partition_pivot (first last : nat) (l : list A)
    : nat * list A :=
  let mid := first + (last - first) / 2 in
  let l1 := move_median_to_first first (S first) mid (pred last) l in
  unguarded_partition (length l) (S first) last first l1.

(** [__push_heap], on the heap that starts at [first] *)
Fixpoint push_heap (fuel first holeIndex topIndex : nat) (value : A)
    (l : list A) : list A :=
  match fuel with
  | O => <[first + holeIndex := value]> l
  | S fuel' =>
      let parent := (holeIndex - 1) / 2 in
      if (topIndex <? holeIndex) && comp (get l (first + parent)) value
      then push_heap fuel' first parent topIndex value
             (<[first + holeIndex := get l (first + parent)]> l)
      else <[first + holeIndex := value]> l
  end.

(** The [while (__secondChild < (__len - 1) / 2)] loop of
    [__adjust_heap]; the result is the hole, the second child and the
    vector. *)
Fixpoint sift_down (fuel first holeIndex secondChild len : nat)
    (l : list A) : nat * nat * list A :=
  match fuel with
  | O => (holeIndex, secondChild, l)
  | S fuel' =>
      if secondChild <? (len - 1) / 2 then
        let c := 2 * (secondChild + 1) in
        let c := if comp (get l (first + c)) (get l (first + (c - 1)))
                 then c - 1 else c in
        sift_down fuel' first c c len
          (<[first + holeIndex := get l (first + c)]> l)
      else (holeIndex, secondChild, l)
  end.

(** [__adjust_heap] *)
Definition adjust_heap (first holeIndex len : nat) (value : A)
    (l : list A) : list A :=
  let topIndex := holeIndex in
  let '(hole, secondChild, l1) :=
    sift_down len first holeIndex holeIndex len l in
  let '(hole2, l2) :=
    if Nat.even len && (secondChild =? (len - 2) / 2)
    then
      let c := 2 * (secondChild + 1) in
      (c - 1, <[first + hole := get l1 (first + (c - 1))]> l1)
    else (hole, l1) in
  push_heap len first hole2 topIndex value l2.

(** [__pop_heap] *)
Definition pop_heap (first last result : nat) (l : list A) : list A :=
  let value := get l result in
  adjust_heap first 0 (last - first) value (<[result := get l first]> l).

(** The [while (true)] loop of [__make_heap] from [parent] down. *)
Fixpoint make_heap_from (parent first len : nat) (l : list A) : list A :=
  let l1 := adjust_heap first parent len (get l (first + parent)) l in
  match parent with
  | O => l1
  | S parent' => make_heap_from parent' first len l1
  end.

(** [__make_heap] *)
Definition make_heap (first last : nat) (l : list A) : list A :=
  if last - first <? 2 then l
  else make_heap_from ((last - first - 2) / 2) first (last - first) l.

(** [__sort_heap] *)
Fixpoint sort_heap (fuel first last : nat) (l : list A) : list A :=
  match fuel with
  | O => l
  | S fuel' =>
      if 1 <? last - first
      then sort_heap fuel' first (pred last)
             (pop_heap first (pred last) (pred last) l)
      else l
  end.

(** [__heap_select] *)
Definition heap_select (first middle last : nat) (l : list A) : list A :=
  fold_left
    (fun l i =>
       if comp (get l i) (get l first) then pop_heap first middle i l
       else l)
    (seq middle (last - middle)) (make_heap first middle l).

(** [__partial_sort] *)
Definition partial_sort (first middle last : nat) (l : list A) : list A :=
  sort_heap (length l) first middle (heap_select first middle last l).

(** [enum { _S_threshold = 16 }] *)
Definition S_threshold : nat := 16.

(** [__introsort_loop]: every round of its [while] loop, and every call
    it makes, lowers [depth_limit] by one. *)
Fixpoint introsort_loop (depth_limit first last : nat) (l : list A)
    : list A :=
  if S_threshold <? last - first then
    match depth_limit with
    | O => partial_sort first last last l
    | S depth_limit' =>
        let '(cut, l1) := unguarded_partition_pivot first last l in
        introsort_loop depth_limit' first cut
          (introsort_loop depth_limit' cut last l1)
    end
  else l.

(** The loop of [__unguarded_linear_insert], with [__val] held aside. *)
Fixpoint linear_insert_loop (fuel : nat) (val : A) (last : nat)
    (l : list A) : list A :=
  match fuel, last with
  | S fuel', S next =>
      if comp val (get l next)
      then linear_insert_loop fuel' val next (<[last := get l next]> l)
      else <[last := val]> l
  | _, _ => <[last := val]> l
  end.

(** [__unguarded_linear_insert] *)
Definition unguarded_linear_insert (last : nat) (l : list A) : list A :=
  linear_insert_loop (length l) (get l last) last l.

(** [std::move_backward(__first, __i, __i + 1); *__first = __val;] *)
Definition move_to_front (first i : nat) (l : list A) : list A :=
  take first l ++ get l i :: take (i - first) (drop first l)
    ++ drop (S i) l.

(** [__insertion_sort] *)
Definition insertion_sort (first last : nat) (l : list A) : list A :=
  if first =? last then l
  else
    fold_left
      (fun l i =>
         if comp (get l i) (get l first) then move_to_front first i l
         else unguarded_linear_insert i l)
      (seq (S first) (last - S first)) l.

(** [__unguarded_insertion_sort] *)
Definition unguarded_insertion_sort (first last : nat) (l : list A)
    : list A :=
  fold_left (fun l i => unguarded_linear_insert i l)
            (seq first (last - first)) l.

(** [__final_insertion_sort] *)
Definition final_insertion_sort (first last : nat) (l : list A) : list A :=
  if S_threshold <? last - first
  then unguarded_insertion_sort (first + S_threshold) last
         (insertion_sort first (first + S_threshold) l)
  else insertion_sort first last l.

End Sort.

(** [std::sort(first, last, comp)] on the whole vector; [std::__lg] is
    the binary logarithm rounded down. *)
Definition sort {A : Type} (comp : A -> A -> bool) (l : list A) : list A :=
  match l with
  | [] => []
  | d :: _ =>
      final_insertion_sort comp d 0 (length l)
        (introsort_loop comp d (Nat.log2 (length l) * 2) 0 (length l) l)
  end.

End Libstdcxx.

(** ** The state machine ([fsm.hpp], [fsm.cpp]) *)

Module Fsm.

Import Abnf.

(** *** Debug flags *)

(** [enum class DebugFlags : uint8_t] *)
Definition NONE : Z := 0.
Definition TRACE_TRANSITIONS : Z := 1.
Definition TRACE_STATE_CHANGES : Z := 2.
Definition VERBOSE_ERRORS : Z := 4.
Definition COLLECT_METRICS : Z := 8.
Definition EXPORT_DOT_ON_ERROR : Z := 16.
Definition BASIC : Z := Z.lor TRACE_TRANSITIONS VERBOSE_ERRORS.
Definition FULL : Z :=
  Z.lor (Z.lor (Z.lor TRACE_TRANSITIONS TRACE_STATE_CHANGES) VERBOSE_ERRORS)
        COLLECT_METRICS.

(** [hasFlag]: [(flags & flag) == flag]. *)
Definition hasFlag (flags flag : Z) : bool := Z.land flags flag =? flag.

(** [struct DebugConfig]; the log stream only receives text and is left
    out. *)
Record DebugConfig := mkDebugConfig { flags : Z }.

Definition hasTraceTransitions (c : DebugConfig) : bool :=
  hasFlag (flags c) TRACE_TRANSITIONS.
Definition hasTraceStateChanges (c : DebugConfig) : bool :=
  hasFlag (flags c) TRACE_STATE_CHANGES.
Definition hasCollectMetrics (c : DebugConfig) : bool :=
  hasFlag (flags c) COLLECT_METRICS.

(** *** Identifiers, callbacks, captures *)

(** [struct StateID]; [operator==] and the hash look at [id] only. *)
Record StateID := mkStateID { sid_id : N; sid_name : string }.

Definition StateID_eqb (a b : StateID) : bool := (sid_id a =? sid_id b)%N.

(** [StateID::isValid] *)
Definition isValid (s : StateID) : bool := negb (sid_id s =? 0)%N.

(** [StateID::toString] *)
Definition StateID_toString (s : StateID) : string :=
  if String.eqb (sid_name s) "" then "State_" +:+ pretty (sid_id s)
  else sid_name s.

(** What a callback does to the machine it is attached to.  The callbacks
    of the repository reach the machine through [user_data] and drive its
    capture interface; [Try] is a call wrapped in [try { } catch (...) { }]. *)
Inductive CaptureOp :=
| BeginCapture (name : string)
| EndCapture (name : string)
| Try (op : CaptureOp).

(** [struct StateContext] (without the [user_data] pointer). *)
Record StateContext := mkStateContext {
  ctx_state : StateID;
  ctx_position : nat;
  ctx_current_char : byte
}.

(** [struct TransitionContext]; the transition is named by its id. *)
Record TransitionContext := mkTransitionContext {
  ctx_from_state : StateID;
  ctx_to_state : StateID;
  ctx_input_char : byte;
  ctx_trans_position : nat;
  ctx_transition : N
}.

Definition StateCallback := StateContext -> list CaptureOp.
Definition TransitionCallback := TransitionContext -> list CaptureOp.

(** [struct CaptureGroup] *)
Record CaptureGroup := mkCaptureGroup {
  cg_name : string;
  start_position : nat;
  end_position : nat;
  value : list byte
}.

(** [struct ActiveCapture] *)
Record ActiveCapture := mkActiveCapture {
  ac_name : string;
  ac_start_position : nat;
  buffer : list byte
}.

Inductive StreamState :=
| READY | PROCESSING | WAITING_FOR_INPUT | COMPLETE | ERROR.

Definition StreamState_eqb (a b : StreamState) : bool :=
  match a, b with
  | READY, READY | PROCESSING, PROCESSING
  | WAITING_FOR_INPUT, WAITING_FOR_INPUT
  | COMPLETE, COMPLETE | ERROR, ERROR => true
  | _, _ => false
  end.

(** *** States and transitions *)

Inductive StateType := NORMAL | START | ACCEPT | ERROR_STATE.

(** [class State] *)
Record State := mkState {
  st_id : StateID;
  st_type : StateType;
  st_description : string;
  is_choice_point : bool;
  on_entry : option StateCallback;
  on_exit : option StateCallback
}.

Inductive TransitionType := ABNF_RULE | FSM_INSTANCE | EPSILON.

Definition PRIORITY_LOWEST : Z := 0.
Definition PRIORITY_LOW : Z := 25.
Definition PRIORITY_NORMAL : Z := 50.
Definition PRIORITY_HIGH : Z := 75.
Definition PRIORITY_HIGHEST : Z := 100.

(** [class Transition].  The [embedded_fsm] pointer of an [FSM_INSTANCE]
    transition is read only by [mergeStatesAndTransitions] and by the
    printers, never by an executor, and is not part of the record. *)
Record Transition := mkTransition {
  t_id : N;
  t_from : StateID;
  t_to : StateID;
  t_type : TransitionType;
  on_transition : option TransitionCallback;
  rule : option ABNF;
  priority : Z;
  t_description : string
}.

(** The three constructors of [Transition] that the executors meet. *)
Definition Transition_rule (trans_id : N) (from_state to_state : StateID)
    (abnf_rule : ABNF) (prio : Z) : Transition :=
  mkTransition trans_id from_state to_state ABNF_RULE None (Some abnf_rule)
               prio (toString abnf_rule).

Definition Transition_epsilon (trans_id : N) (from_state to_state : StateID)
    : Transition :=
  mkTransition trans_id from_state to_state EPSILON None None
               PRIORITY_NORMAL "Epsilon".

(** [Transition::matches] *)
Definition Transition_matches (t : Transition) (ch : byte) : bool :=
  match t_type t, rule t with
  | ABNF_RULE, Some r => matches r ch
  | _, _ => false
  end.

Definition is_ABNF_RULE (t : Transition) : bool :=
  match t_type t with ABNF_RULE => true | _ => false end.

Definition is_EPSILON (t : Transition) : bool :=
  match t_type t with EPSILON => true | _ => false end.

(** *** Errors, trace, metrics *)

(** [enum class FSM::ErrorType] *)
Inductive ErrorType :=
| NO_MATCHING_TRANSITION
| UNEXPECTED_END_OF_INPUT
| NOT_IN_ACCEPT_STATE
| EMBEDDED_FSM_FAILED
| INVALID_STATE
| INVALID_TRANSITION
| AMBIGUOUS_TRANSITION
| NO_START_STATE
| UNREACHABLE_STATES.

(** [struct FSM::ValidationError] *)
Record ValidationError := mkValidationError {
  err_type : ErrorType;
  err_position : nat;
  err_character : byte;
  err_current_state : StateID;
  err_message : string;
  err_attempted_states : list StateID;
  err_input_context : string
}.

(** [struct FSM::TraceEntry] *)
Record TraceEntry := mkTraceEntry {
  te_step : nat;
  te_from_state : StateID;
  te_to_state : StateID;
  te_input_char : byte;
  te_transition_id : N;
  te_description : string
}.

(** [struct FSM::Metrics] *)
Record Metrics := mkMetrics {
  transitions_taken : nat;
  states_visited : nat;
  characters_processed : nat;
  epsilon_transitions : nat;
  validation_time_ns : nat;
  processing_time : nat
}.

(** [Metrics::reset] *)
Definition Metrics_reset : Metrics := mkMetrics 0 0 0 0 0 0.

(** *** Backtracking records *)

(** [struct BacktrackingStats] *)
Record BacktrackingStats := mkBacktrackingStats {
  choice_points_created : nat;
  backtracks_performed : nat;
  max_stack_depth : nat;
  paths_explored : nat
}.

(** [BacktrackingStats::reset] *)
Definition BacktrackingStats_reset : BacktrackingStats :=
  mkBacktrackingStats 0 0 0 0.

(** [struct ChoicePoint] *)
Record ChoicePoint := mkChoicePoint {
  cp_state : StateID;
  cp_position : nat;
  remaining : list Transition;
  captures_snapshot : list CaptureGroup;
  active_captures_snapshot : list ActiveCapture;
  input_position_snapshot : nat
}.

(** *** The machine *)

(** [class FSM].  [std::stack<ChoicePoint>] is a list whose head is the
    top.  The cached [transition_map_] holds pointers into [transitions_]
    and is rebuilt whenever [transitions_] changed, so reading it is
    [getTransitionsFrom] below, computed from [transitions_].  The name,
    the numeric id, [user_data_] and the SIMD switch do not reach the
    executors. *)
Record FSM := mkFSM {
  states_ : gmap N State;
  transitions_ : list Transition;
  start_state_ : StateID;
  accept_states_ : gset N;
  current_state_ : StateID;
  debug_config_ : DebugConfig;
  trace_ : list TraceEntry;
  last_error_ : option ValidationError;
  metrics_ : Metrics;
  next_state_id_ : N;
  next_transition_id_ : N;
  captures_ : list CaptureGroup;
  active_captures_ : list ActiveCapture;
  current_input_position_ : nat;
  current_input_ : list byte;
  stream_state_ : StreamState;
  streaming_mode_ : bool;
  choice_stack_ : list ChoicePoint;
  backtracking_stats_ : BacktrackingStats;
  max_backtrack_depth_ : nat
}.

(** Assignment to one member.  A statement guarded by a flag, as in
    [if (debug_config_.hasCollectMetrics()) metrics_.x++;], is below the
    assignment of a value chosen by the flag. *)

Definition set_states_ (v : gmap N State) (m : FSM) : FSM :=
  mkFSM v (transitions_ m) (start_state_ m) (accept_states_ m)
    (current_state_ m) (debug_config_ m) (trace_ m) (last_error_ m)
    (metrics_ m) (next_state_id_ m) (next_transition_id_ m) (captures_ m)
    (active_captures_ m) (current_input_position_ m) (current_input_ m)
    (stream_state_ m) (streaming_mode_ m) (choice_stack_ m)
    (backtracking_stats_ m) (max_backtrack_depth_ m).

Definition set_transitions_ (v : list Transition) (m : FSM) : FSM :=
  mkFSM (states_ m) v (start_state_ m) (accept_states_ m) (current_state_ m)
    (debug_config_ m) (trace_ m) (last_error_ m) (metrics_ m)
    (next_state_id_ m) (next_transition_id_ m) (captures_ m)
    (active_captures_ m) (current_input_position_ m) (current_input_ m)
    (stream_state_ m) (streaming_mode_ m) (choice_stack_ m)
    (backtracking_stats_ m) (max_backtrack_depth_ m).

Definition set_start_state_ (v : StateID) (m : FSM) : FSM :=
  mkFSM (states_ m) (transitions_ m) v (accept_states_ m) (current_state_ m)
    (debug_config_ m) (trace_ m) (last_error_ m) (metrics_ m)
    (next_state_id_ m) (next_transition_id_ m) (captures_ m)
    (active_captures_ m) (current_input_position_ m) (current_input_ m)
    (stream_state_ m) (streaming_mode_ m) (choice_stack_ m)
    (backtracking_stats_ m) (max_backtrack_depth_ m).

Definition set_accept_states_ (v : gset N) (m : FSM) : FSM :=
  mkFSM (states_ m) (transitions_ m) (start_state_ m) v (current_state_ m)
    (debug_config_ m) (trace_ m) (last_error_ m) (metrics_ m)
    (next_state_id_ m) (next_transition_id_ m) (captures_ m)
    (active_captures_ m) (current_input_position_ m) (current_input_ m)
    (stream_state_ m) (streaming_mode_ m) (choice_stack_ m)
    (backtracking_stats_ m) (max_backtrack_depth_ m).

Definition set_current_state_ (v : StateID) (m : FSM) : FSM :=
  mkFSM (states_ m) (transitions_ m) (start_state_ m) (accept_states_ m) v
    (debug_config_ m) (trace_ m) (last_error_ m) (metrics_ m)
    (next_state_id_ m) (next_transition_id_ m) (captures_ m)
    (active_captures_ m) (current_input_position_ m) (current_input_ m)
    (stream_state_ m) (streaming_mode_ m) (choice_stack_ m)
    (backtracking_stats_ m) (max_backtrack_depth_ m).

Definition set_debug_config_ (v : DebugConfig) (m : FSM) : FSM :=
  mkFSM (states_ m) (transitions_ m) (start_state_ m) (accept_states_ m)
    (current_state_ m) v (trace_ m) (last_error_ m) (metrics_ m)
    (next_state_id_ m) (next_transition_id_ m) (captures_ m)
    (active_captures_ m) (current_input_position_ m) (current_input_ m)
    (stream_state_ m) (streaming_mode_ m) (choice_stack_ m)
    (backtracking_stats_ m) (max_backtrack_depth_ m).

Definition set_trace_ (v : list TraceEntry) (m : FSM) : FSM :=
  mkFSM (states_ m) (transitions_ m) (start_state_ m) (accept_states_ m)
    (current_state_ m) (debug_config_ m) v (last_error_ m) (metrics_ m)
    (next_state_id_ m) (next_transition_id_ m) (captures_ m)
    (active_captures_ m) (current_input_position_ m) (current_input_ m)
    (stream_state_ m) (streaming_mode_ m) (choice_stack_ m)
    (backtracking_stats_ m) (max_backtrack_depth_ m).

Definition set_last_error_ (v : option ValidationError) (m : FSM) : FSM :=
  mkFSM (states_ m) (transitions_ m) (start_state_ m) (accept_states_ m)
    (current_state_ m) (debug_config_ m) (trace_ m) v (metrics_ m)
    (next_state_id_ m) (next_transition_id_ m) (captures_ m)
    (active_captures_ m) (current_input_position_ m) (current_input_ m)
    (stream_state_ m) (streaming_mode_ m) (choice_stack_ m)
    (backtracking_stats_ m) (max_backtrack_depth_ m).

Definition set_metrics_ (v : Metrics) (m : FSM) : FSM :=
  mkFSM (states_ m) (transitions_ m) (start_state_ m) (accept_states_ m)
    (current_state_ m) (debug_config_ m) (trace_ m) (last_error_ m) v
    (next_state_id_ m) (next_transition_id_ m) (captures_ m)
    (active_captures_ m) (current_input_position_ m) (current_input_ m)
    (stream_state_ m) (streaming_mode_ m) (choice_stack_ m)
    (backtracking_stats_ m) (max_backtrack_depth_ m).

Definition set_next_state_id_ (v : N) (m : FSM) : FSM :=
  mkFSM (states_ m) (transitions_ m) (start_state_ m) (accept_states_ m)
    (current_state_ m) (debug_config_ m) (trace_ m) (last_error_ m)
    (metrics_ m) v (next_transition_id_ m) (captures_ m)
    (active_captures_ m) (current_input_position_ m) (current_input_ m)
    (stream_state_ m) (streaming_mode_ m) (choice_stack_ m)
    (backtracking_stats_ m) (max_backtrack_depth_ m).

Definition set_next_transition_id_ (v : N) (m : FSM) : FSM :=
  mkFSM (states_ m) (transitions_ m) (start_state_ m) (accept_states_ m)
    (current_state_ m) (debug_config_ m) (trace_ m) (last_error_ m)
    (metrics_ m) (next_state_id_ m) v (captures_ m) (active_captures_ m)
    (current_input_position_ m) (current_input_ m) (stream_state_ m)
    (streaming_mode_ m) (choice_stack_ m) (backtracking_stats_ m)
    (max_backtrack_depth_ m).

Definition set_captures_ (v : list CaptureGroup) (m : FSM) : FSM :=
  mkFSM (states_ m) (transitions_ m) (start_state_ m) (accept_states_ m)
    (current_state_ m) (debug_config_ m) (trace_ m) (last_error_ m)
    (metrics_ m) (next_state_id_ m) (next_transition_id_ m) v
    (active_captures_ m) (current_input_position_ m) (current_input_ m)
    (stream_state_ m) (streaming_mode_ m) (choice_stack_ m)
    (backtracking_stats_ m) (max_backtrack_depth_ m).

Definition set_active_captures_ (v : list ActiveCapture) (m : FSM) : FSM :=
  mkFSM (states_ m) (transitions_ m) (start_state_ m) (accept_states_ m)
    (current_state_ m) (debug_config_ m) (trace_ m) (last_error_ m)
    (metrics_ m) (next_state_id_ m) (next_transition_id_ m) (captures_ m) v
    (current_input_position_ m) (current_input_ m) (stream_state_ m)
    (streaming_mode_ m) (choice_stack_ m) (backtracking_stats_ m)
    (max_backtrack_depth_ m).

Definition set_current_input_position_ (v : nat) (m : FSM) : FSM :=
  mkFSM (states_ m) (transitions_ m) (start_state_ m) (accept_states_ m)
    (current_state_ m) (debug_config_ m) (trace_ m) (last_error_ m)
    (metrics_ m) (next_state_id_ m) (next_transition_id_ m) (captures_ m)
    (active_captures_ m) v (current_input_ m) (stream_state_ m)
    (streaming_mode_ m) (choice_stack_ m) (backtracking_stats_ m)
    (max_backtrack_depth_ m).

Definition set_current_input_ (v : list byte) (m : FSM) : FSM :=
  mkFSM (states_ m) (transitions_ m) (start_state_ m) (accept_states_ m)
    (current_state_ m) (debug_config_ m) (trace_ m) (last_error_ m)
    (metrics_ m) (next_state_id_ m) (next_transition_id_ m) (captures_ m)
    (active_captures_ m) (current_input_position_ m) v (stream_state_ m)
    (streaming_mode_ m) (choice_stack_ m) (backtracking_stats_ m)
    (max_backtrack_depth_ m).

Definition set_stream_state_ (v : StreamState) (m : FSM) : FSM :=
  mkFSM (states_ m) (transitions_ m) (start_state_ m) (accept_states_ m)
    (current_state_ m) (debug_config_ m) (trace_ m) (last_error_ m)
    (metrics_ m) (next_state_id_ m) (next_transition_id_ m) (captures_ m)
    (active_captures_ m) (current_input_position_ m) (current_input_ m) v
    (streaming_mode_ m) (choice_stack_ m) (backtracking_stats_ m)
    (max_backtrack_depth_ m).

Definition set_streaming_mode_ (v : bool) (m : FSM) : FSM :=
  mkFSM (states_ m) (transitions_ m) (start_state_ m) (accept_states_ m)
    (current_state_ m) (debug_config_ m) (trace_ m) (last_error_ m)
    (metrics_ m) (next_state_id_ m) (next_transition_id_ m) (captures_ m)
    (active_captures_ m) (current_input_position_ m) (current_input_ m)
    (stream_state_ m) v (choice_stack_ m) (backtracking_stats_ m)
    (max_backtrack_depth_ m).

Definition set_choice_stack_ (v : list ChoicePoint) (m : FSM) : FSM :=
  mkFSM (states_ m) (transitions_ m) (start_state_ m) (accept_states_ m)
    (current_state_ m) (debug_config_ m) (trace_ m) (last_error_ m)
    (metrics_ m) (next_state_id_ m) (next_transition_id_ m) (captures_ m)
    (active_captures_ m) (current_input_position_ m) (current_input_ m)
    (stream_state_ m) (streaming_mode_ m) v (backtracking_stats_ m)
    (max_backtrack_depth_ m).

Definition set_backtracking_stats_ (v : BacktrackingStats) (m : FSM) : FSM :=
  mkFSM (states_ m) (transitions_ m) (start_state_ m) (accept_states_ m)
    (current_state_ m) (debug_config_ m) (trace_ m) (last_error_ m)
    (metrics_ m) (next_state_id_ m) (next_transition_id_ m) (captures_ m)
    (active_captures_ m) (current_input_position_ m) (current_input_ m)
    (stream_state_ m) (streaming_mode_ m) (choice_stack_ m) v
    (max_backtrack_depth_ m).

Definition set_max_backtrack_depth_ (v : nat) (m : FSM) : FSM :=
  mkFSM (states_ m) (transitions_ m) (start_state_ m) (accept_states_ m)
    (current_state_ m) (debug_config_ m) (trace_ m) (last_error_ m)
    (metrics_ m) (next_state_id_ m) (next_transition_id_ m) (captures_ m)
    (active_captures_ m) (current_input_position_ m) (current_input_ m)
    (stream_state_ m) (streaming_mode_ m) (choice_stack_ m)
    (backtracking_stats_ m) v.

(** *** Building a machine *)

(** [FSM::FSM()] *)
Definition FSM_new : FSM :=
  mkFSM ∅ [] (mkStateID 0 "") ∅ (mkStateID 0 "") (mkDebugConfig NONE) []
        None Metrics_reset 1%N 1%N [] [] 0%nat [] READY false []
        BacktrackingStats_reset 0%nat.

(** [uint32_t] post-increment. *)
Definition incr32 (n : N) : N := ((n + 1) mod 2 ^ 32)%N.

(** [FSM::hasState] *)
Definition hasState (m : FSM) (s : StateID) : bool :=
  bool_decide (is_Some (states_ m !! sid_id s)).

(** [FSM::addState(name, description, type)]; the two-argument overload
    is the case of an empty description. *)
Definition addState (name description : string) (type : StateType)
    (m : FSM) : StateID * FSM :=
  let sid := mkStateID (next_state_id_ m) name in
  (sid,
   set_states_
     (<[sid_id sid := mkState sid type description false None None]>
        (states_ m))
     (set_next_state_id_ (incr32 (next_state_id_ m)) m)).

Definition State_set_type (ty : StateType) (st : State) : State :=
  mkState (st_id st) ty (st_description st) (is_choice_point st)
          (on_entry st) (on_exit st).

(** [FSM::setStartState] *)
Definition setStartState (s : StateID) (m : FSM) : option FSM :=
  if negb (hasState m s) then None
  else Some (set_states_ (alter (State_set_type START) (sid_id s) (states_ m))
               (set_current_state_ s (set_start_state_ s m))).

(** [FSM::addAcceptState] *)
Definition addAcceptState (s : StateID) (m : FSM) : option FSM :=
  if negb (hasState m s) then None
  else
    let m1 := set_accept_states_ ({[sid_id s]} ∪ accept_states_ m) m in
    Some (set_states_
            (alter (fun st => match st_type st with
                              | START => st
                              | _ => State_set_type ACCEPT st
                              end) (sid_id s) (states_ m1)) m1).

(** [FSM::removeAcceptState] *)
Definition removeAcceptState (s : StateID) (m : FSM) : FSM :=
  set_accept_states_ (accept_states_ m ∖ {[sid_id s]}) m.

(** [FSM::isAcceptState] *)
Definition isAcceptState (m : FSM) (s : StateID) : bool :=
  bool_decide (sid_id s ∈ accept_states_ m).

(** [FSM::isInAcceptState] *)
Definition isInAcceptState (m : FSM) : bool :=
  isAcceptState m (current_state_ m).

(** [FSM::addTransition(from, to, rule, priority)] *)
Definition addTransition (from to : StateID) (r : ABNF) (prio : Z)
    (m : FSM) : option (N * FSM) :=
  if negb (hasState m from) || negb (hasState m to) then None
  else
    let trans := Transition_rule (next_transition_id_ m) from to r prio in
    Some (t_id trans,
          set_transitions_ (transitions_ m ++ [trans])
            (set_next_transition_id_ (incr32 (next_transition_id_ m)) m)).

(** [FSM::addEpsilonTransition] *)
Definition addEpsilonTransition (from to : StateID) (m : FSM)
    : option (N * FSM) :=
  if negb (hasState m from) || negb (hasState m to) then None
  else
    let trans := Transition_epsilon (next_transition_id_ m) from to in
    Some (t_id trans,
          set_transitions_ (transitions_ m ++ [trans])
            (set_next_transition_id_ (incr32 (next_transition_id_ m)) m)).

(** [FSM::markAsChoicePoint] *)
Definition markAsChoicePoint (s : StateID) (m : FSM) : option FSM :=
  match states_ m !! sid_id s with
  | None => None
  | Some st =>
      Some (set_states_
              (<[sid_id s := mkState (st_id st) (st_type st)
                               (st_description st) true (on_entry st)
                               (on_exit st)]> (states_ m)) m)
  end.

(** [FSM::isChoicePoint] *)
Definition isChoicePoint (m : FSM) (s : StateID) : bool :=
  match states_ m !! sid_id s with
  | None => false
  | Some st => is_choice_point st
  end.

(** [FSM::setStateEntryCallback] *)
Definition setStateEntryCallback (s : StateID) (callback : StateCallback)
    (m : FSM) : option FSM :=
  match states_ m !! sid_id s with
  | None => None
  | Some st =>
      Some (set_states_
              (<[sid_id s := mkState (st_id st) (st_type st)
                               (st_description st) (is_choice_point st)
                               (Some callback) (on_exit st)]> (states_ m)) m)
  end.

(** [FSM::setStateExitCallback] *)
Definition setStateExitCallback (s : StateID) (callback : StateCallback)
    (m : FSM) : option FSM :=
  match states_ m !! sid_id s with
  | None => None
  | Some st =>
      Some (set_states_
              (<[sid_id s := mkState (st_id st) (st_type st)
                               (st_description st) (is_choice_point st)
                               (on_entry st) (Some callback)]> (states_ m)) m)
  end.

(** [FSM::setDebugConfig], [FSM::setMaxBacktrackDepth] *)
Definition setDebugConfig (c : DebugConfig) (m : FSM) : FSM :=
  set_debug_config_ c m.
Definition setMaxBacktrackDepth (depth : nat) (m : FSM) : FSM :=
  set_max_backtrack_depth_ depth m.

(** *** Capture groups *)

(** [FSM::beginCapture]; [None] is the [std::logic_error] for a name that
    is already active. *)
Definition beginCapture (name : string) (m : FSM) : option FSM :=
  if existsb (fun a => String.eqb (ac_name a) name) (active_captures_ m)
  then None
  else Some (set_active_captures_
               (active_captures_ m
                  ++ [mkActiveCapture name (current_input_position_ m) []])
               m).

(** [active_captures_.erase(it)] for the first capture called [name]. *)
Fixpoint erase_active (name : string) (l : list ActiveCapture)
    : list ActiveCapture :=
  match l with
  | [] => []
  | a :: l' =>
      if String.eqb (ac_name a) name then l' else a :: erase_active name l'
  end.

(** [FSM::endCapture]; [None] is the [std::logic_error] for a name that
    is not active. *)
Definition endCapture (name : string) (m : FSM)
    : option (CaptureGroup * FSM) :=
  match List.find (fun a => String.eqb (ac_name a) name)
                  (active_captures_ m) with
  | None => None
  | Some it =>
      let capture :=
        mkCaptureGroup (ac_name it) (ac_start_position it)
                       (current_input_position_ m) (buffer it) in
      Some (capture,
            set_active_captures_ (erase_active name (active_captures_ m))
              (set_captures_ (captures_ m ++ [capture]) m))
  end.

(** [FSM::recordCharInCaptures] *)
Definition recordCharInCaptures (ch : byte) (m : FSM) : FSM :=
  set_active_captures_
    (map (fun a => mkActiveCapture (ac_name a) (ac_start_position a)
                                   (buffer a ++ [ch]))
         (active_captures_ m)) m.

(** [FSM::clearCaptures] *)
Definition clearCaptures (m : FSM) : FSM :=
  set_active_captures_ [] (set_captures_ [] m).

(** [FSM::updateCapturePosition] *)
Definition updateCapturePosition (pos : nat) (m : FSM) : FSM :=
  set_current_input_position_ pos m.

(** [FSM::getCapture]: the first closed capture of that name. *)
Definition getCapture (name : string) (m : FSM) : option CaptureGroup :=
  List.find (fun c => String.eqb (cg_name c) name) (captures_ m).

(** *** Running callbacks *)

Fixpoint run_op (op : CaptureOp) (m : FSM) : option FSM :=
  match op with
  | BeginCapture name => beginCapture name m
  | EndCapture name => snd <$> endCapture name m
  | Try op' =>
      match run_op op' m with
      | Some m' => Some m'
      | None => Some m
      end
  end.

Fixpoint run_ops (ops : list CaptureOp) (m : FSM) : option FSM :=
  match ops with
  | [] => Some m
  | op :: ops' => m' ← run_op op m; run_ops ops' m'
  end.

(** Calling a [std::function] member if it holds a target. *)
Definition fire {Ctx : Type} (callback : option (Ctx -> list CaptureOp))
    (ctx : Ctx) (m : FSM) : option FSM :=
  match callback with
  | None => Some m
  | Some f => run_ops (f ctx) m
  end.

(** *** The executors

    [rebuildTransitionMap] orders the outgoing transitions of each state
    with [std::sort] and the comparator [a->priority > b->priority].
    [std::sort] belongs to the C++ library, not to the repository: the
    executors take it as the parameter [std_sort]. *)

Section Executor.

Variable std_sort : list Transition -> list Transition.

(** [FSM::getTransitionsFrom] after [rebuildTransitionMap]: the
    transitions whose [from] has the id of [state], in the order of
    [transitions_], sorted; the empty vector for a state without an
    entry in the map. *)
Definition getTransitionsFrom (m : FSM) (state : StateID)
    : list Transition :=
  match List.filter (fun t => StateID_eqb (t_from t) state)
                    (transitions_ m) with
  | [] => []
  | l => std_sort l
  end.

Definition count_transition (state_changed : bool) (mt : Metrics)
    : Metrics :=
  mkMetrics (S (transitions_taken mt))
            (if state_changed then S (states_visited mt)
             else states_visited mt)
            (characters_processed mt) (epsilon_transitions mt)
            (validation_time_ns mt) (processing_time mt).

Definition count_character (mt : Metrics) : Metrics :=
  mkMetrics (transitions_taken mt) (states_visited mt)
            (S (characters_processed mt)) (epsilon_transitions mt)
            (validation_time_ns mt) (processing_time mt).

Definition count_epsilon (mt : Metrics) : Metrics :=
  mkMetrics (transitions_taken mt) (states_visited mt)
            (characters_processed mt) (S (epsilon_transitions mt))
            (validation_time_ns mt) (processing_time mt).

(** [if (debug_config_.hasCollectMetrics()) metrics_.characters_processed++] *)
Definition count_character_if_enabled (m : FSM) : FSM :=
  set_metrics_
    (if hasCollectMetrics (debug_config_ m)
     then count_character (metrics_ m) else metrics_ m) m.

(** The exit callback of the state left, if that state exists. *)
Definition fire_exit (s : StateID) (position : nat) (ch : byte) (m : FSM)
    : option FSM :=
  match states_ m !! sid_id s with
  | Some st => fire (on_exit st) (mkStateContext s position ch) m
  | None => Some m
  end.

(** The entry callback of the state entered, if that state exists. *)
Definition fire_entry (s : StateID) (position : nat) (ch : byte)
    (m : FSM) : option FSM :=
  match states_ m !! sid_id s with
  | Some st => fire (on_entry st) (mkStateContext s position ch) m
  | None => Some m
  end.

(** The block that [processCharImpl] and the main loop of
    [validateWithBacktracking] both run, text for text, once they hold
    the transition to take: exit callback, transition callback, move,
    entry callback, metrics, trace.  ([logStateChange] and
    [logTransition] only print.) *)
Definition takeTransition (trans : Transition) (ch : byte)
    (position : nat) (m : FSM) : option FSM :=
  let old_state := current_state_ m in
  let new_state := t_to trans in
  let state_changed := negb (StateID_eqb old_state new_state) in
  m1 ← (if state_changed then fire_exit old_state position ch m
        else Some m);
  m2 ← fire (on_transition trans)
            (mkTransitionContext old_state new_state ch position
                                 (t_id trans)) m1;
  let m3 := set_current_state_ new_state m2 in
  m4 ← (if state_changed then fire_entry new_state position ch m3
        else Some m3);
  let m5 :=
    set_metrics_
      (if hasCollectMetrics (debug_config_ m4)
       then count_transition state_changed (metrics_ m4)
       else metrics_ m4) m4 in
  Some (set_trace_
          (if hasTraceTransitions (debug_config_ m5)
           then trace_ m5
                  ++ [mkTraceEntry (length (trace_ m5)) old_state
                        (current_state_ m5) ch (t_id trans)
                        (t_description trans)]
           else trace_ m5) m5).

Definition no_transition_message (s : StateID) (ch : byte) : string :=
  "No transition found from " +:+ StateID_toString s
    +:+ " for character '" +:+ String (Ascii.ascii_of_byte ch) "'".

Definition no_matching_transition (position : nat) (ch : byte)
    (m : FSM) : ValidationError :=
  mkValidationError NO_MATCHING_TRANSITION position ch (current_state_ m)
    (no_transition_message (current_state_ m) ch) [] "".

(** The test of both executors on a candidate transition. *)
Definition admits (ch : byte) (t : Transition) : bool :=
  is_ABNF_RULE t && Transition_matches t ch.

(** [FSM::processCharImpl]: the flag is the returned [bool]. *)
Definition processCharImpl (ch : byte) (position : nat) (m : FSM)
    : option (bool * FSM) :=
  match List.find (admits ch) (getTransitionsFrom m (current_state_ m)) with
  | None =>
      Some (false,
            set_last_error_ (Some (no_matching_transition position ch m)) m)
  | Some best_match =>
      m' ← takeTransition best_match ch position m;
      Some (true, m')
  end.

(** One epsilon move of [processEpsilonTransitions]; the byte handed to
    the callbacks and to the trace is the sentinel ['\0']. *)
Definition takeEpsilon (trans : Transition) (position : nat) (m : FSM)
    : option FSM :=
  let old_state := current_state_ m in
  let new_state := t_to trans in
  m1 ← fire_exit old_state position x00 m;
  m2 ← fire (on_transition trans)
            (mkTransitionContext old_state new_state x00 position
                                 (t_id trans)) m1;
  let m3 := set_current_state_ new_state m2 in
  m4 ← fire_entry new_state position x00 m3;
  let m5 :=
    set_metrics_
      (if hasCollectMetrics (debug_config_ m4)
       then count_epsilon (metrics_ m4) else metrics_ m4) m4 in
  Some (set_trace_
          (if hasTraceTransitions (debug_config_ m5)
           then trace_ m5
                  ++ [mkTraceEntry (length (trace_ m5)) old_state
                        (current_state_ m5) x00 (t_id trans) "Epsilon"]
           else trace_ m5) m5).

(** The inner [for] of [processEpsilonTransitions] stops at the first
    EPSILON transition whose target was not visited. *)
Definition next_epsilon (visited : gset N) (m : FSM) : option Transition :=
  List.find (fun t => is_EPSILON t
                      && negb (bool_decide (sid_id (t_to t) ∈ visited)))
            (getTransitionsFrom m (current_state_ m)).

(** The [while (found_epsilon)] loop, unrolled at most [fuel] times. *)
Fixpoint epsilon_loop (fuel : nat) (position : nat) (visited : gset N)
    (m : FSM) : option FSM :=
  match fuel with
  | O => Some m
  | S fuel' =>
      match next_epsilon visited m with
      | None => Some m
      | Some trans =>
          m' ← takeEpsilon trans position m;
          epsilon_loop fuel' position
                       ({[sid_id (t_to trans)]} ∪ visited) m'
      end
  end.

(** [FSM::processEpsilonTransitions].  Every round of the loop enters a
    state that is the target of a transition and was not visited, so
    there are at most [length transitions_] rounds that move and one
    that finds nothing; the closure lemmas among the properties show
    that the bound is never what ends the loop. *)
Definition processEpsilonTransitions (position : nat) (m : FSM)
    : option FSM :=
  epsilon_loop (S (length (transitions_ m))) position
               {[sid_id (current_state_ m)]} m.

(** [FSM::reset] *)
Definition reset (m : FSM) : FSM :=
  let m1 := set_last_error_ None (set_current_state_ (start_state_ m) m) in
  let m2 :=
    set_trace_
      (if hasTraceTransitions (debug_config_ m1)
          || hasTraceStateChanges (debug_config_ m1)
       then [] else trace_ m1) m1 in
  let m3 :=
    set_metrics_
      (if hasCollectMetrics (debug_config_ m2)
       then Metrics_reset else metrics_ m2) m2 in
  let m4 := set_current_input_ [] (set_current_input_position_ 0 m3) in
  let m5 := set_streaming_mode_ false (set_stream_state_ READY m4) in
  set_backtracking_stats_ BacktrackingStats_reset (set_choice_stack_ [] m5).

Definition no_start_state (position : nat) (ch : byte) (m : FSM)
    : ValidationError :=
  mkValidationError NO_START_STATE position ch (current_state_ m)
    "No start state defined" [] "".

(** The [for] loop of [FSM::validate] from index [i] on; the flag is
    [false] when the loop left the function through [return false]. *)
Fixpoint validate_loop (input : list byte) (i : nat) (m : FSM)
    : option (bool * FSM) :=
  match input with
  | [] => Some (true, m)
  | ch :: rest =>
      match processCharImpl ch i (updateCapturePosition i m) with
      | None => None
      | Some (false, m1) => Some (false, m1)
      | Some (true, m1) =>
          validate_loop rest (S i)
            (recordCharInCaptures ch (count_character_if_enabled m1))
      end
  end.

(** The statements of [FSM::validate] before its loop. *)
Definition validate_begin (input : list byte) (m : FSM) : FSM :=
  updateCapturePosition 0
    (clearCaptures
       (set_current_input_ input (set_last_error_ None (reset m)))).

Definition not_in_accept_state (position : nat) (text : string)
    (m : FSM) : ValidationError :=
  mkValidationError NOT_IN_ACCEPT_STATE position x00 (current_state_ m)
    (text +:+ StateID_toString (current_state_ m)) [] "".

(** [metrics_.validation_time_ns] and [metrics_.processing_time] from
    the two readings of the clock, [elapsed_ns] apart. *)
Definition record_time (elapsed_ns : nat) (mt : Metrics) : Metrics :=
  mkMetrics (transitions_taken mt) (states_visited mt)
            (characters_processed mt) (epsilon_transitions mt)
            elapsed_ns (elapsed_ns / 1000)%nat.

(** The statements of [FSM::validate] after its loop. *)
Definition validate_end (elapsed_ns : nat) (input : list byte) (m : FSM)
    : option (bool * FSM) :=
  m2 ← processEpsilonTransitions (length input)
         (updateCapturePosition (length input) m);
  if negb (isInAcceptState m2)
  then Some (false,
             set_last_error_
               (Some (not_in_accept_state (length input)
                        "Input consumed but not in accept state.  Current state: "
                        m2)) m2)
  else Some (true,
             set_metrics_
               (if hasCollectMetrics (debug_config_ m2)
                then record_time elapsed_ns (metrics_ m2)
                else metrics_ m2) m2).

(** [FSM::validate].  [elapsed_ns] is the time the two readings of the
    clock are apart. *)
Definition validate (elapsed_ns : nat) (input : list byte) (m : FSM)
    : option (bool * FSM) :=
  let m0 := validate_begin input m in
  if negb (isValid (start_state_ m0))
  then Some (false, set_last_error_ (Some (no_start_state 0 x00 m0)) m0)
  else
    match validate_loop input 0 m0 with
    | None => None
    | Some (false, m1) => Some (false, m1)
    | Some (true, m1) => validate_end elapsed_ns input m1
    end.

(** *** Streaming *)

(** The statements of [FSM::feed(char)] that follow the bookkeeping of
    a first call. *)
Definition feed_consume (ch : byte) (m : FSM)
    : option (StreamState * FSM) :=
  let m2 := updateCapturePosition (current_input_position_ m) m in
  match processCharImpl ch (current_input_position_ m2) m2 with
  | None => None
  | Some (false, m') => Some (ERROR, set_stream_state_ ERROR m')
  | Some (true, m') =>
      let m3 := recordCharInCaptures ch (count_character_if_enabled m') in
      let m4 :=
        set_current_input_position_ (S (current_input_position_ m3)) m3 in
      let m5 := updateCapturePosition (current_input_position_ m4) m4 in
      if isInAcceptState m5
      then Some (COMPLETE, set_stream_state_ COMPLETE m5)
      else Some (WAITING_FOR_INPUT, set_stream_state_ WAITING_FOR_INPUT m5)
  end.

(** [FSM::feed(char)] *)
Definition feed (ch : byte) (m : FSM) : option (StreamState * FSM) :=
  if negb (streaming_mode_ m)
  then
    let m1 :=
      set_current_input_ (current_input_ m ++ [ch])
        (set_stream_state_ PROCESSING (set_streaming_mode_ true m)) in
    if negb (isValid (start_state_ m1))
    then
      Some (ERROR,
            set_stream_state_ ERROR
              (set_last_error_
                 (Some (no_start_state (current_input_position_ m1) ch m1))
                 m1))
    else feed_consume ch m1
  else feed_consume ch (set_current_input_ (current_input_ m ++ [ch]) m).

(** [FSM::feed(std::string_view)] *)
Fixpoint feed_chunk (chunk : list byte) (m : FSM)
    : option (StreamState * FSM) :=
  match chunk with
  | [] => Some (stream_state_ m, m)
  | ch :: rest =>
      match feed ch m with
      | None => None
      | Some (state, m') =>
          if StreamState_eqb state ERROR then Some (state, m')
          else feed_chunk rest m'
      end
  end.

(** [FSM::endOfStream] *)
Definition endOfStream (m : FSM) : option (StreamState * FSM) :=
  if negb (streaming_mode_ m)
  then
    Some (ERROR,
          set_stream_state_ ERROR
            (set_last_error_
               (Some (mkValidationError UNEXPECTED_END_OF_INPUT 0 x00
                        (current_state_ m)
                        "End of stream called before any input was fed"
                        [] "")) m))
  else
    m1 ← processEpsilonTransitions (current_input_position_ m) m;
    if negb (isInAcceptState m1)
    then
      Some (ERROR,
            set_stream_state_ ERROR
              (set_last_error_
                 (Some (not_in_accept_state (current_input_position_ m1)
                          "End of stream but not in accept state.  Current state: "
                          m1)) m1))
    else Some (COMPLETE, set_stream_state_ COMPLETE m1).

(** [FSM::resetStream] *)
Definition resetStream (m : FSM) : FSM :=
  set_streaming_mode_ false (set_stream_state_ READY m).

(** [FSM::isStreamComplete] *)
Definition isStreamComplete (m : FSM) : bool :=
  StreamState_eqb (stream_state_ m) COMPLETE.

(** A caller that streams [input]: [feed(x[0])], ..., [feed(x[n-1])],
    each in a call of its own whatever the call before answered, with
    the answers collected in order. *)
Fixpoint feed_each (input : list byte) (m : FSM)
    : option (list StreamState * FSM) :=
  match input with
  | [] => Some ([], m)
  | ch :: rest =>
      match feed ch m with
      | None => None
      | Some (state, m') =>
          match feed_each rest m' with
          | None => None
          | Some (states, m'') => Some (state :: states, m'')
          end
      end
  end.

(** ... followed by [endOfStream()]: the answers of the feeds, the
    answer of [endOfStream] and the machine left behind. *)
Definition stream_run (input : list byte) (m : FSM)
    : option (list StreamState * StreamState * FSM) :=
  match feed_each input m with
  | None => None
  | Some (states, m') =>
      match endOfStream m' with
      | None => None
      | Some (state, m'') => Some (states, state, m'')
      end
  end.

(** *** Backtracking *)

(** [FSM::getValidTransitions] *)
Definition getValidTransitions (ch : byte) (m : FSM) : list Transition :=
  List.filter (admits ch) (getTransitionsFrom m (current_state_ m)).

(** [FSM::shouldCreateChoicePoint] *)
Definition shouldCreateChoicePoint (m : FSM)
    (valid_transitions : list Transition) : bool :=
  if (length valid_transitions <=? 1)%nat then false
  else if isChoicePoint m (current_state_ m) then true
  else (1 <? length valid_transitions)%nat.

Definition stats_choice_point (depth : nat) (st : BacktrackingStats)
    : BacktrackingStats :=
  mkBacktrackingStats (S (choice_points_created st))
    (backtracks_performed st)
    (if (max_stack_depth st <? depth)%nat then depth
     else max_stack_depth st)
    (paths_explored st).

Definition stats_backtrack (st : BacktrackingStats) : BacktrackingStats :=
  mkBacktrackingStats (choice_points_created st)
    (S (backtracks_performed st)) (max_stack_depth st) (paths_explored st).

Definition stats_path (st : BacktrackingStats) : BacktrackingStats :=
  mkBacktrackingStats (choice_points_created st) (backtracks_performed st)
    (max_stack_depth st) (S (paths_explored st)).

(** [backtracking_stats_.paths_explored++] *)
Definition count_path (m : FSM) : FSM :=
  set_backtracking_stats_ (stats_path (backtracking_stats_ m)) m.

(** [FSM::saveChoicePoint] *)
Definition saveChoicePoint (alternatives : list Transition)
    (position : nat) (m : FSM) : FSM :=
  if (0 <? max_backtrack_depth_ m)%nat
     && (max_backtrack_depth_ m <=? length (choice_stack_ m))%nat
  then m
  else
    let stack :=
      mkChoicePoint (current_state_ m) position alternatives
                    (captures_ m) (active_captures_ m)
                    (current_input_position_ m)
        :: choice_stack_ m in
    set_backtracking_stats_
      (stats_choice_point (length stack) (backtracking_stats_ m))
      (set_choice_stack_ stack m).

(** [FSM::restoreFromChoicePoint] *)
Definition restoreFromChoicePoint (cp : ChoicePoint) (m : FSM) : FSM :=
  set_current_input_position_ (input_position_snapshot cp)
    (set_active_captures_ (active_captures_snapshot cp)
       (set_captures_ (captures_snapshot cp)
          (set_current_state_ (cp_state cp) m))).

(** The [while (!choice_stack_.empty())] loop of [FSM::backtrack] over
    what is left of the stack. *)
Fixpoint backtrack_loop (stack : list ChoicePoint) (m : FSM)
    : bool * FSM :=
  match stack with
  | [] => (false, set_choice_stack_ [] m)
  | cp :: rest =>
      match remaining cp with
      | [] => backtrack_loop rest m
      | _ :: _ =>
          let m1 := restoreFromChoicePoint cp (set_choice_stack_ stack m) in
          (true,
           set_backtracking_stats_
             (stats_backtrack (backtracking_stats_ m1)) m1)
      end
  end.

(** [FSM::backtrack] *)
Definition backtrack (m : FSM) : bool * FSM :=
  backtrack_loop (choice_stack_ m) m.

Definition ChoicePoint_set_remaining (r : list Transition)
    (cp : ChoicePoint) : ChoicePoint :=
  mkChoicePoint (cp_state cp) (cp_position cp) r (captures_snapshot cp)
    (active_captures_snapshot cp) (input_position_snapshot cp).

(** How a run of [validateWithBacktracking] (or of one of its loops)
    ends: by [return], by an exception of a callback, or, in the
    embedding, by using up the steps it was given. *)
Inductive Outcome :=
| Returned (result : bool) (m : FSM)
| Threw
| OutOfFuel.

(** The branch [valid_transitions.empty()] of the main loop once
    [backtrack()] answered [true]: take the first remaining alternative
    of the choice point on top.  The result carries the position at
    which the loop goes on; [None] is the fall through to the
    [NO_MATCHING_TRANSITION] error ([backtrack] answers [true] only
    with a choice point on top that has an alternative left, see
    [backtrack_true_top]). *)
Definition resume_in_loop (ch : byte) (m : FSM) : option (nat * FSM) :=
  match choice_stack_ m with
  | [] => None
  | cp :: rest =>
      match remaining cp with
      | [] => None
      | next_trans :: others =>
          let m1 :=
            set_choice_stack_
              (ChoicePoint_set_remaining others cp :: rest) m in
          let m2 := set_current_state_ (t_to next_trans) m1 in
          let m3 := recordCharInCaptures ch (count_path m2) in
          let position := S (cp_position cp) in
          Some (position,
                count_character_if_enabled
                  (set_current_input_position_ position m3))
      end
  end.

(** The [while (position < input.size())] loop of
    [validateWithBacktracking].  [Returned true] leaves the loop at the
    end of the input; [Returned false] is [return false]. *)
Fixpoint backtracking_loop (fuel : nat) (input : list byte)
    (position : nat) (m : FSM) : Outcome :=
  match fuel with
  | O => OutOfFuel
  | S fuel' =>
      match nth_error input position with
      | None => Returned true m
      | Some ch =>
          let m1 := updateCapturePosition position m in
          let valid_transitions := getValidTransitions ch m1 in
          match valid_transitions with
          | [] =>
              let (found, m2) := backtrack m1 in
              match (if found then resume_in_loop ch m2 else None) with
              | Some (position', m3) =>
                  backtracking_loop fuel' input position' m3
              | None =>
                  Returned false
                    (set_last_error_
                       (Some (no_matching_transition position ch m2)) m2)
              end
          | trans :: alternatives =>
              let m2 :=
                if shouldCreateChoicePoint m1 valid_transitions
                then saveChoicePoint alternatives position m1
                else m1 in
              match takeTransition trans ch position (count_path m2) with
              | None => Threw
              | Some m3 =>
                  let m4 := recordCharInCaptures ch m3 in
                  let m5 :=
                    set_current_input_position_
                      (S (current_input_position_ m4)) m4 in
                  backtracking_loop fuel' input (S position)
                    (count_character_if_enabled m5)
              end
          end
      end
  end.

Definition not_in_accept_state_bt (input : list byte) (m : FSM)
    : ValidationError :=
  not_in_accept_state (length input)
    "Input consumed but not in accept state. Current state: " m.

(** The statements of [validateWithBacktracking] before its loop. *)
Definition backtracking_begin (input : list byte) (m : FSM) : FSM :=
  updateCapturePosition 0
    (clearCaptures
       (set_current_input_ input
          (set_choice_stack_ []
             (set_last_error_ None
                (set_backtracking_stats_ BacktrackingStats_reset
                   (reset m)))))).

(** [FSM::validateWithBacktracking], and its closing
    [while (backtrack())] loop, which calls the function again on the
    rest of the input with [start_state_] replaced for the call. *)
Fixpoint validateWithBacktracking_fuel (fuel : nat) (input : list byte)
    (m : FSM) {struct fuel} : Outcome :=
  match fuel with
  | O => OutOfFuel
  | S fuel' =>
      let m0 := backtracking_begin input m in
      if negb (isValid (start_state_ m0))
      then Returned false
             (set_last_error_ (Some (no_start_state 0 x00 m0)) m0)
      else
        match backtracking_loop fuel' input 0 m0 with
        | Returned true m1 =>
            match processEpsilonTransitions (length input)
                    (updateCapturePosition (length input) m1) with
            | None => Threw
            | Some m2 =>
                if isInAcceptState m2 then Returned true m2
                else resume_after_input fuel' input m2
            end
        | other => other
        end
  end
with resume_after_input (fuel : nat) (input : list byte) (m : FSM)
    {struct fuel} : Outcome :=
  match fuel with
  | O => OutOfFuel
  | S fuel' =>
      match backtrack m with
      | (false, m1) =>
          Returned false
            (set_last_error_ (Some (not_in_accept_state_bt input m1)) m1)
      | (true, m1) =>
          match choice_stack_ m1 with
          | [] =>
              Returned false
                (set_last_error_ (Some (not_in_accept_state_bt input m1))
                                 m1)
          | cp :: rest =>
              match remaining cp with
              | [] => resume_after_input fuel' input
                        (set_choice_stack_ rest m1)
              | next_trans :: others =>
                  let m2 :=
                    set_choice_stack_
                      (ChoicePoint_set_remaining others cp :: rest) m1 in
                  let m3 :=
                    set_current_state_ (t_to next_trans) (count_path m2) in
                  let resume_pos := S (cp_position cp) in
                  if (length input <=? resume_pos)%nat
                  then
                    match processEpsilonTransitions (length input) m3 with
                    | None => Threw
                    | Some m4 =>
                        if isInAcceptState m4 then Returned true m4
                        else resume_after_input fuel' input m4
                    end
                  else
                    let remaining_input := drop resume_pos input in
                    let saved_start := start_state_ m3 in
                    match validateWithBacktracking_fuel fuel'
                            remaining_input
                            (set_start_state_ (current_state_ m3) m3) with
                    | Returned success m4 =>
                        let m5 := set_start_state_ saved_start m4 in
                        if success then Returned true m5
                        else resume_after_input fuel' input m5
                    | other => other
                    end
              end
          end
      end
  end.

End Executor.

(** [struct FSM::InitialConfig] *)
Record InitialConfig := mkInitialConfig {
  cfg_states : list State;
  cfg_transitions : list Transition;
  cfg_start_state : StateID;
  cfg_accept_states : list StateID
}.

(** [FSM::FSM(const InitialConfig &)] *)
Definition FSM_of_config (config : InitialConfig) : FSM :=
  let m1 :=
    fold_left
      (fun m st =>
         set_next_state_id_
           (if (next_state_id_ m <=? sid_id (st_id st))%N
            then incr32 (sid_id (st_id st)) else next_state_id_ m)
           (set_states_ (<[sid_id (st_id st) := st]> (states_ m)) m))
      (cfg_states config) FSM_new in
  let m2 :=
    fold_left
      (fun m trans =>
         set_next_transition_id_
           (if (next_transition_id_ m <=? t_id trans)%N
            then incr32 (t_id trans) else next_transition_id_ m)
           (set_transitions_ (transitions_ m ++ [trans]) m))
      (cfg_transitions config) m1 in
  let m3 :=
    set_current_state_ (cfg_start_state config)
      (set_start_state_ (cfg_start_state config) m2) in
  fold_left
    (fun m accept =>
       set_accept_states_ ({[sid_id accept]} ∪ accept_states_ m) m)
    (cfg_accept_states config) m3.

(** *** Orderings that [std::sort] may produce

    Insertion sort that keeps transitions of equal priority in the order
    it met them: the ordering of a stable sort. *)
Fixpoint insert_by_priority (t : Transition) (l : list Transition)
    : list Transition :=
  match l with
  | [] => [t]
  | x :: l' =>
      if priority t <? priority x then x :: insert_by_priority t l'
      else t :: l
  end.

Definition insertion_sort (l : list Transition) : list Transition :=
  foldr insert_by_priority [] l.

(** [std::sort] of libstdc++ with the comparator of
    [rebuildTransitionMap], [a->priority > b->priority]. *)
Definition libstdcxx_sort (l : list Transition) : list Transition :=
  Libstdcxx.sort (fun a b => priority b <? priority a) l.


(** *** Debug flags: the remaining operations ([fsm.hpp]) *)

Definition ALL : Z := 31.

(** [operator~] on [DebugFlags]: the complement of the [uint8_t]. *)
Definition DebugFlags_not (a : Z) : Z := Z.lxor a 255.

(** [DebugConfig::isEnabled] *)
Definition isEnabled (c : DebugConfig) : bool := negb (flags c =? NONE).

Definition hasVerboseErrors (c : DebugConfig) : bool :=
  hasFlag (flags c) VERBOSE_ERRORS.
Definition hasExportDotOnError (c : DebugConfig) : bool :=
  hasFlag (flags c) EXPORT_DOT_ON_ERROR.

(** [DebugConfig::enable]: [flags |= flag]. *)
Definition enable (flag : Z) (c : DebugConfig) : DebugConfig :=
  mkDebugConfig (Z.lor (flags c) flag).

(** [DebugConfig::disable]: [flags &= ~flag]. *)
Definition disable (flag : Z) (c : DebugConfig) : DebugConfig :=
  mkDebugConfig (Z.land (flags c) (DebugFlags_not flag)).

(** [DebugConfig::toggle] *)
Definition toggle (flag : Z) (c : DebugConfig) : DebugConfig :=
  mkDebugConfig (Z.lxor (flags c) flag).

(** *** The remaining accessors and mutators of a machine *)

(** [FSM::getStateCount], [FSM::getTransitionCount] *)
Definition getStateCount (m : FSM) : nat := size (states_ m).
Definition getTransitionCount (m : FSM) : nat := length (transitions_ m).

(** [FSM::addTransition(from, to, rule, description, priority)] *)
Definition Transition_set_description (description : string)
    (t : Transition) : Transition :=
  mkTransition (t_id t) (t_from t) (t_to t) (t_type t) (on_transition t)
               (rule t) (priority t) description.

Definition addTransition_described (from to : StateID) (r : ABNF)
    (description : string) (prio : Z) (m : FSM) : option (N * FSM) :=
  '(id, m1) ← addTransition from to r prio m;
  Some (id,
        set_transitions_
          (match reverse (transitions_ m1) with
           | [] => []
           | back :: others =>
               reverse (Transition_set_description description back
                        :: others)
           end) m1).

Definition Transition_set_callback (callback : TransitionCallback)
    (t : Transition) : Transition :=
  mkTransition (t_id t) (t_from t) (t_to t) (t_type t) (Some callback)
               (rule t) (priority t) (t_description t).

(** The loop of [FSM::setTransitionCallback]: the first transition with
    the id gets the callback; [None] when the loop ends without one. *)
Fixpoint set_callback_of (transition_id : N) (callback : TransitionCallback)
    (l : list Transition) : option (list Transition) :=
  match l with
  | [] => None
  | trans :: l' =>
      if (t_id trans =? transition_id)%N
      then Some (Transition_set_callback callback trans :: l')
      else (fun r => trans :: r) <$> set_callback_of transition_id callback l'
  end.

(** [FSM::setTransitionCallback]; [None] is the [std::invalid_argument]
    for an id no transition has. *)
Definition setTransitionCallback (transition_id : N)
    (callback : TransitionCallback) (m : FSM) : option FSM :=
  (fun l => set_transitions_ l m)
    <$> set_callback_of transition_id callback (transitions_ m).

(** [FSM::clearTrace], [FSM::resetMetrics], [FSM::resetBacktrackingStats] *)
Definition clearTrace (m : FSM) : FSM := set_trace_ [] m.
Definition resetMetrics (m : FSM) : FSM := set_metrics_ Metrics_reset m.
Definition resetBacktrackingStats (m : FSM) : FSM :=
  set_backtracking_stats_ BacktrackingStats_reset m.

(** [FSM::needsMoreInput] *)
Definition needsMoreInput (m : FSM) : bool :=
  StreamState_eqb (stream_state_ m) WAITING_FOR_INPUT.

(** [FSM::getCaptureByIndex] *)
Definition getCaptureByIndex (index : nat) (m : FSM)
    : option CaptureGroup :=
  if (index <? length (captures_ m))%nat then captures_ m !! index
  else None.

(** [FSM::hasCapture] *)
Definition hasCapture (name : string) (m : FSM) : bool :=
  match getCapture name m with Some _ => true | None => false end.

(** *** Structural validation *)

(** An entry of the vector that [validateStructure] returns.  The source
    pushes a message; the entries are the messages with the state they
    name in place of its text. *)
Inductive Issue :=
| NoValidStartState
| NoAcceptStates
| AcceptStateMissing (id : N)
| TransitionFromMissing (s : StateID)
| TransitionToMissing (s : StateID).

(** [FSM::validateStructure].  The loop over [accept_states_] visits
    each member of the [std::unordered_set] once, in the order of its
    buckets, which the language leaves to the library; the
    [AcceptStateMissing] entries stand here in the order of [elements],
    so that the list is the vector of the source up to the order of
    these entries among themselves.  Whether the vector is empty, which
    is all [isValid] reads, and which entries it holds do not depend on
    that order. *)
Definition validateStructure (m : FSM) : list Issue :=
  ((if negb (isValid (start_state_ m)) || negb (hasState m (start_state_ m))
    then [NoValidStartState] else [])
   ++ (if bool_decide (accept_states_ m = ∅) then [NoAcceptStates] else [])
   ++ flat_map
        (fun accept =>
           if negb (hasState m (mkStateID accept ""))
           then [AcceptStateMissing accept] else [])
        (elements (accept_states_ m))
   ++ flat_map
        (fun trans =>
           (if negb (hasState m (t_from trans))
            then [TransitionFromMissing (t_from trans)] else [])
           ++ (if negb (hasState m (t_to trans))
               then [TransitionToMissing (t_to trans)] else []))
        (transitions_ m))%list.

(** [FSM::isValid]: [validateStructure().empty()]. *)
Definition FSM_isValid (m : FSM) : bool :=
  match validateStructure m with [] => true | _ :: _ => false end.

(** *** [class FSM::Builder]

    The builder without the two [addTransition] overloads that take a
    machine to embed: [pending_fsm_merges_] is empty, and the loop of
    [build] over it does nothing.  The name, the numeric id and the user
    data do not reach the graph. *)

Module Builder.

Record Builder := mkBuilder {
  states_ : list State;
  transitions_ : list Transition;
  name_to_id_ : gmap string StateID;
  start_state_ : option StateID;
  accept_states_ : list StateID;
  debug_config_ : DebugConfig;
  next_id_ : N
}.

(** [Builder::Builder(name)] *)
Definition new : Builder :=
  mkBuilder [] [] ∅ None [] (mkDebugConfig NONE) 1%N.

Definition set_states_ (v : list State) (b : Builder) : Builder :=
  mkBuilder v (transitions_ b) (name_to_id_ b) (start_state_ b)
            (accept_states_ b) (debug_config_ b) (next_id_ b).
Definition set_transitions_ (v : list Transition) (b : Builder) : Builder :=
  mkBuilder (states_ b) v (name_to_id_ b) (start_state_ b)
            (accept_states_ b) (debug_config_ b) (next_id_ b).
Definition set_name_to_id_ (v : gmap string StateID) (b : Builder)
    : Builder :=
  mkBuilder (states_ b) (transitions_ b) v (start_state_ b)
            (accept_states_ b) (debug_config_ b) (next_id_ b).
Definition set_start_state_ (v : option StateID) (b : Builder) : Builder :=
  mkBuilder (states_ b) (transitions_ b) (name_to_id_ b) v
            (accept_states_ b) (debug_config_ b) (next_id_ b).
Definition set_accept_states_ (v : list StateID) (b : Builder) : Builder :=
  mkBuilder (states_ b) (transitions_ b) (name_to_id_ b) (start_state_ b)
            v (debug_config_ b) (next_id_ b).
Definition set_debug_config_ (v : DebugConfig) (b : Builder) : Builder :=
  mkBuilder (states_ b) (transitions_ b) (name_to_id_ b) (start_state_ b)
            (accept_states_ b) v (next_id_ b).
Definition set_next_id_ (v : N) (b : Builder) : Builder :=
  mkBuilder (states_ b) (transitions_ b) (name_to_id_ b) (start_state_ b)
            (accept_states_ b) (debug_config_ b) v.

(** [Builder::withInitialConfig] *)
Definition withInitialConfig (config : InitialConfig) (b : Builder)
    : Builder :=
  let b1 :=
    set_accept_states_ (cfg_accept_states config)
      (set_start_state_ (Some (cfg_start_state config))
         (set_transitions_ (cfg_transitions config)
            (set_states_ (cfg_states config) b))) in
  fold_left
    (fun b state =>
       set_next_id_
         (if (next_id_ b <=? sid_id (st_id state))%N
          then incr32 (sid_id (st_id state)) else next_id_ b)
         (set_name_to_id_
            (<[sid_name (st_id state) := st_id state]> (name_to_id_ b)) b))
    (states_ b1) b1.

(** [Builder::addState(name, description, type)]; the two-argument
    overload is the case of an empty description. *)
Definition addState (name description : string) (type : StateType)
    (b : Builder) : Builder :=
  let sid := mkStateID (next_id_ b) name in
  set_name_to_id_ (<[name := sid]> (name_to_id_ b))
    (set_states_
       (states_ b ++ [mkState sid type description false None None])
       (set_next_id_ (incr32 (next_id_ b)) b)).

(** [Builder::getOrCreateState] *)
Definition getOrCreateState (name : string) (b : Builder)
    : StateID * Builder :=
  match name_to_id_ b !! name with
  | Some sid => (sid, b)
  | None =>
      let sid := mkStateID (next_id_ b) name in
      (sid,
       set_name_to_id_ (<[name := sid]> (name_to_id_ b))
         (set_states_
            (states_ b ++ [mkState sid NORMAL "" false None None])
            (set_next_id_ (incr32 (next_id_ b)) b)))
  end.

(** [Builder::setStartState] *)
Definition setStartState (name : string) (b : Builder) : Builder :=
  let '(sid, b1) := getOrCreateState name b in
  set_start_state_ (Some sid) b1.

(** [Builder::addAcceptState] *)
Definition addAcceptState (name : string) (b : Builder) : Builder :=
  let '(sid, b1) := getOrCreateState name b in
  set_accept_states_ (accept_states_ b1 ++ [sid]) b1.

(** [static_cast<Transition::TransitionID>(transitions_.size() + 1)] *)
Definition next_transition_id (b : Builder) : N :=
  (N.of_nat (length (transitions_ b) + 1) mod 2 ^ 32)%N.

(** [Builder::addTransition(from, to, rule, priority)] *)
Definition addTransition (from to : string) (r : ABNF) (prio : Z)
    (b : Builder) : Builder :=
  let '(from_id, b1) := getOrCreateState from b in
  let '(to_id, b2) := getOrCreateState to b1 in
  set_transitions_
    (transitions_ b2
       ++ [Transition_rule (next_transition_id b2) from_id to_id r prio])
    b2.

(** [Builder::addTransition(from, to, rule, description, priority)] *)
Definition addTransition_described (from to : string) (r : ABNF)
    (description : string) (prio : Z) (b : Builder) : Builder :=
  let b1 := addTransition from to r prio b in
  set_transitions_
    (match reverse (transitions_ b1) with
     | [] => []
     | back :: others =>
         reverse (Transition_set_description description back :: others)
     end) b1.

(** [Builder::addEpsilonTransition] *)
Definition addEpsilonTransition (from to : string) (b : Builder)
    : Builder :=
  let '(from_id, b1) := getOrCreateState from b in
  let '(to_id, b2) := getOrCreateState to b1 in
  set_transitions_
    (transitions_ b2
       ++ [Transition_epsilon (next_transition_id b2) from_id to_id])
    b2.

(** [Builder::setDebugFlags], [enableDebugFlag], [disableDebugFlag],
    [enableBasicDebug], [enableFullDebug], [disableDebug] *)
Definition setDebugFlags (flags : Z) (b : Builder) : Builder :=
  set_debug_config_ (mkDebugConfig flags) b.
Definition enableDebugFlag (flag : Z) (b : Builder) : Builder :=
  set_debug_config_ (enable flag (debug_config_ b)) b.
Definition disableDebugFlag (flag : Z) (b : Builder) : Builder :=
  set_debug_config_ (disable flag (debug_config_ b)) b.
Definition enableBasicDebug (b : Builder) : Builder := setDebugFlags BASIC b.
Definition enableFullDebug (b : Builder) : Builder := setDebugFlags FULL b.
Definition disableDebug (b : Builder) : Builder := setDebugFlags NONE b.

(** The loops of [onStateEntry], [onStateExit] and [markChoicePoint]:
    [change] is applied to the first state with the id of [sid]. *)
Fixpoint change_first (sid : StateID) (change : State -> State)
    (l : list State) : list State :=
  match l with
  | [] => []
  | state :: l' =>
      if StateID_eqb (st_id state) sid then change state :: l'
      else state :: change_first sid change l'
  end.

(** [Builder::onStateEntry] *)
Definition onStateEntry (state_name : string) (callback : StateCallback)
    (b : Builder) : Builder :=
  let '(sid, b1) := getOrCreateState state_name b in
  set_states_
    (change_first sid
       (fun st => mkState (st_id st) (st_type st) (st_description st)
                          (is_choice_point st) (Some callback) (on_exit st))
       (states_ b1)) b1.

(** [Builder::onStateExit] *)
Definition onStateExit (state_name : string) (callback : StateCallback)
    (b : Builder) : Builder :=
  let '(sid, b1) := getOrCreateState state_name b in
  set_states_
    (change_first sid
       (fun st => mkState (st_id st) (st_type st) (st_description st)
                          (is_choice_point st) (on_entry st) (Some callback))
       (states_ b1)) b1.

(** [Builder::onTransition]; [None] is the [std::logic_error] thrown
    before a transition was added. *)
Definition onTransition (callback : TransitionCallback) (b : Builder)
    : option Builder :=
  match reverse (transitions_ b) with
  | [] => None
  | back :: others =>
      Some (set_transitions_
              (reverse (Transition_set_callback callback back :: others)) b)
  end.

(** [Builder::markChoicePoint] *)
Definition markChoicePoint (state_name : string) (b : Builder) : Builder :=
  let '(sid, b1) := getOrCreateState state_name b in
  set_states_
    (change_first sid
       (fun st => mkState (st_id st) (st_type st) (st_description st)
                          true (on_entry st) (on_exit st))
       (states_ b1)) b1.

(** [Builder::build]; [None] is the [std::logic_error] for a missing
    start state or an empty list of accept states. *)
Definition build (b : Builder) : option FSM :=
  match start_state_ b with
  | None => None
  | Some start =>
      match accept_states_ b with
      | [] => None
      | _ :: _ =>
          Some (setDebugConfig (debug_config_ b)
                  (FSM_of_config
                     (mkInitialConfig (states_ b) (transitions_ b) start
                                      (accept_states_ b))))
      end
  end.

End Builder.
End Fsm.


Import Abnf Fsm.

(** ** Vocabulary of the statements *)

(** What a caller learns from [validate]: the returned flag and the closed
    captures ([getAllCaptures]). *)
Definition verdict_of_validate (r : option (bool * FSM))
    : option (bool * list CaptureGroup) :=
  (fun p => (p.1, captures_ p.2)) <$> r.

(** What a caller learns from a streaming run: whether [endOfStream]
    answered [COMPLETE], and the closed captures. *)
Definition verdict_of_stream
    (r : option (list StreamState * StreamState * FSM))
    : option (bool * list CaptureGroup) :=
  (fun p => (StreamState_eqb p.1.2 COMPLETE, captures_ p.2)) <$> r.

Section ChunkedStreaming.

Variable std_sort : list Transition -> list Transition.

(** A caller that streams [input] with [feed(std::string_view)], which
    stops at the first ERROR, and calls [endOfStream()] unless that
    [feed] answered ERROR. *)
Definition stream_chunk_run (input : list byte) (m : FSM)
    : option (StreamState * FSM) :=
  match feed_chunk std_sort input m with
  | None => None
  | Some (ERROR, m') => Some (ERROR, m')
  | Some (_, m') => endOfStream std_sort m'
  end.

End ChunkedStreaming.

(** What a caller learns from it. *)
Definition verdict_of_chunk_run (r : option (StreamState * FSM))
    : option (bool * list CaptureGroup) :=
  (fun p => (StreamState_eqb p.1 COMPLETE, captures_ p.2)) <$> r.

(** Whether the last greedy run stopped before the end of its input: at
    a byte no transition admits, or for want of a start state. *)
Definition stopped_before_end (m : FSM) : bool :=
  match err_type <$> last_error_ m with
  | Some NO_MATCHING_TRANSITION | Some NO_START_STATE => true
  | _ => false
  end.

(** What the C++ standard promises of [std::sort] with the comparator of
    [rebuildTransitionMap]: the result is a rearrangement of the input in
    which no element is followed by one of higher priority.  The order of
    elements of equal priority is left open. *)
Definition std_sort_contract (std_sort : list Transition -> list Transition)
    : Prop :=
  forall l,
    Permutation (std_sort l) l
    /\ StronglySorted (fun a b => priority b <= priority a) (std_sort l).

(** The outgoing transitions of [s] in insertion order. *)
Definition outgoing (m : FSM) (s : StateID) : list Transition :=
  List.filter (fun t => StateID_eqb (t_from t) s) (transitions_ m).

(** The transition of highest priority in a list and, among those of
    that priority, the first. *)
Fixpoint first_of_highest_priority (l : list Transition)
    : option Transition :=
  match l with
  | [] => None
  | a :: l' =>
      match first_of_highest_priority l' with
      | None => Some a
      | Some b => if (priority a <? priority b)%Z then Some b else Some a
      end
  end.

(** The ids of the states some transition leads to. *)
Definition transition_targets (m : FSM) : gset N :=
  list_to_set (map (fun t => sid_id (t_to t)) (transitions_ m)).

(** A machine whose states carry other [type] tags: [f] rewrites the tag of
    every state and nothing else. *)
Definition retype (f : StateType -> StateType) (m : FSM) : FSM :=
  set_states_ ((fun st => State_set_type (f (st_type st)) st) <$> states_ m) m.

(** The outcome of a run on a changed machine. *)
Definition Outcome_map (T : FSM -> FSM) (o : Outcome) : Outcome :=
  match o with
  | Returned result m => Returned result (T m)
  | Threw => Threw
  | OutOfFuel => OutOfFuel
  end.

(** The invariant of C3 for a machine that has consumed the bytes
    [consumed]: the buffer of every open capture is the input from where
    the capture began, and the value of every closed capture is the input
    between its two positions. *)
Definition captures_ok (consumed : list byte) (m : FSM) : Prop :=
  Forall (fun a =>
            (ac_start_position a <= length consumed)%nat
            /\ buffer a = drop (ac_start_position a) consumed)
         (active_captures_ m)
  /\ Forall (fun c =>
               (start_position c <= end_position c)%nat
               /\ (end_position c <= length consumed)%nat
               /\ value c
                  = drop (start_position c) (take (end_position c) consumed))
            (captures_ m).

(** ... at a point of the run where the capture position is that of the
    next byte. *)
Definition captures_ok_at (consumed : list byte) (m : FSM) : Prop :=
  captures_ok consumed m /\ current_input_position_ m = length consumed.

(** ** Walks of the graph *)

Section Walks.

Variable std_sort : list Transition -> list Transition.

(** The state reached from [s] by one CLASS transition per byte and no
    epsilon move: at each byte the first admitting transition of the
    priority-sorted list, as [processCharImpl] picks it. *)
Fixpoint class_walk (m : FSM) (input : list byte) (s : StateID)
    : option StateID :=
  match input with
  | [] => Some s
  | ch :: rest =>
      match List.find (admits ch) (getTransitionsFrom std_sort m s) with
      | None => None
      | Some t => class_walk m rest (t_to t)
      end
  end.

(** The states entered by one run of the loop of
    [processEpsilonTransitions] from [s], in order: at each round the
    target of the first EPSILON transition of the sorted list whose target
    was not visited. *)
Fixpoint epsilon_path (m : FSM) (fuel : nat) (visited : gset N)
    (s : StateID) : list StateID :=
  match fuel with
  | O => []
  | S fuel' =>
      match List.find (fun t => is_EPSILON t
                                && negb (bool_decide
                                           (sid_id (t_to t) ∈ visited)))
                      (getTransitionsFrom std_sort m s) with
      | None => []
      | Some t =>
          t_to t
          :: epsilon_path m fuel' ({[sid_id (t_to t)]} ∪ visited) (t_to t)
      end
  end.

(** The state in which one call of [processEpsilonTransitions] leaves a
    machine that was in [s]. *)
Definition epsilon_walk (m : FSM) (s : StateID) : StateID :=
  List.last (epsilon_path m (S (length (transitions_ m))) {[sid_id s]} s) s.

End Walks.

(** ** The executor of the design document *)

Section Reference.

Variable std_sort : list Transition -> list Transition.

(** Follows the wording of the design document (4.3 and 4.4), not the
    source: the loop of the greedy executor with an epsilon closure after
    every consumed byte. *)
Fixpoint documented_loop (input : list byte) (i : nat) (m : FSM)
    : option (bool * FSM) :=
  match input with
  | [] => Some (true, m)
  | ch :: rest =>
      match processCharImpl std_sort ch i (updateCapturePosition i m) with
      | None => None
      | Some (false, m1) => Some (false, m1)
      | Some (true, m1) =>
          match processEpsilonTransitions std_sort (S i)
                  (updateCapturePosition (S i)
                     (recordCharInCaptures ch
                        (count_character_if_enabled m1))) with
          | None => None
          | Some m2 => documented_loop rest (S i) m2
          end
      end
  end.

(** Follows the wording of the design document: [validate] over
    [documented_loop], the closure "once more at end of input" included. *)
Definition documented_validate (elapsed_ns : nat) (input : list byte)
    (m : FSM) : option (bool * FSM) :=
  let m0 := validate_begin input m in
  if negb (isValid (start_state_ m0))
  then Some (false, set_last_error_ (Some (no_start_state 0 x00 m0)) m0)
  else
    match documented_loop input 0 m0 with
    | None => None
    | Some (false, m1) => Some (false, m1)
    | Some (true, m1) => validate_end std_sort elapsed_ns input m1
    end.

End Reference.

(** Follows the wording of the design document (4.3), not the source: of
    the CLASS transitions in [outgoing] (in insertion order) that admit
    [ch], the one first in priority-descending order and, within equal
    priority, in insertion order. *)
Definition documented_choice (ch : byte) (outgoing : list Transition)
    : option Transition :=
  first_of_highest_priority (List.filter (admits ch) outgoing).

(** ** Members a step does not look at *)

(** A change of the machine that the greedy step neither reads nor
    overwrites: it keeps every member the step reads and commutes with
    every assignment the step makes. *)
Record Frame (T : FSM -> FSM) : Prop := mkFrame {
  frame_transitions : forall m, transitions_ (T m) = transitions_ m;
  frame_current_state : forall m, current_state_ (T m) = current_state_ m;
  frame_debug_config : forall m, debug_config_ (T m) = debug_config_ m;
  frame_metrics : forall m, metrics_ (T m) = metrics_ m;
  frame_trace : forall m, trace_ (T m) = trace_ m;
  frame_captures : forall m, captures_ (T m) = captures_ m;
  frame_active_captures :
    forall m, active_captures_ (T m) = active_captures_ m;
  frame_position :
    forall m, current_input_position_ (T m) = current_input_position_ m;
  frame_accept_states : forall m, accept_states_ (T m) = accept_states_ m;
  frame_on_exit :
    forall m k, on_exit <$> (states_ (T m) !! k) = on_exit <$> (states_ m !! k);
  frame_on_entry :
    forall m k,
      on_entry <$> (states_ (T m) !! k) = on_entry <$> (states_ m !! k);
  frame_set_current_state :
    forall v m, T (set_current_state_ v m) = set_current_state_ v (T m);
  frame_set_metrics : forall v m, T (set_metrics_ v m) = set_metrics_ v (T m);
  frame_set_trace : forall v m, T (set_trace_ v m) = set_trace_ v (T m);
  frame_set_captures :
    forall v m, T (set_captures_ v m) = set_captures_ v (T m);
  frame_set_active_captures :
    forall v m, T (set_active_captures_ v m) = set_active_captures_ v (T m);
  frame_set_last_error :
    forall v m, T (set_last_error_ v m) = set_last_error_ v (T m);
  frame_set_position :
    forall v m,
      T (set_current_input_position_ v m) = set_current_input_position_ v (T m)
}.

Ltac frame_rw HT :=
  repeat first
    [ rewrite (frame_transitions _ HT)
    | rewrite (frame_current_state _ HT)
    | rewrite (frame_debug_config _ HT)
    | rewrite (frame_metrics _ HT)
    | rewrite (frame_trace _ HT)
    | rewrite (frame_captures _ HT)
    | rewrite (frame_active_captures _ HT)
    | rewrite (frame_position _ HT)
    | rewrite (frame_accept_states _ HT)
    | rewrite <- (frame_set_current_state _ HT)
    | rewrite <- (frame_set_metrics _ HT)
    | rewrite <- (frame_set_trace _ HT)
    | rewrite <- (frame_set_captures _ HT)
    | rewrite <- (frame_set_active_captures _ HT)
    | rewrite <- (frame_set_last_error _ HT)
    | rewrite <- (frame_set_position _ HT) ].

(** A change of the machine that no executor reads or overwrites: a
    [Frame] that also keeps what the backtracking executor reads besides
    and commutes with the remaining assignments of the executors. *)
Record ExecFrame (T : FSM -> FSM) : Prop := mkExecFrame {
  ef_frame : Frame T;
  ef_isChoicePoint : forall m s, isChoicePoint (T m) s = isChoicePoint m s;
  ef_start_state : forall m, start_state_ (T m) = start_state_ m;
  ef_choice_stack : forall m, choice_stack_ (T m) = choice_stack_ m;
  ef_backtracking_stats :
    forall m, backtracking_stats_ (T m) = backtracking_stats_ m;
  ef_max_backtrack_depth :
    forall m, max_backtrack_depth_ (T m) = max_backtrack_depth_ m;
  ef_streaming_mode : forall m, streaming_mode_ (T m) = streaming_mode_ m;
  ef_current_input : forall m, current_input_ (T m) = current_input_ m;
  ef_set_choice_stack :
    forall v m, T (set_choice_stack_ v m) = set_choice_stack_ v (T m);
  ef_set_backtracking_stats :
    forall v m,
      T (set_backtracking_stats_ v m) = set_backtracking_stats_ v (T m);
  ef_set_current_input :
    forall v m, T (set_current_input_ v m) = set_current_input_ v (T m);
  ef_set_start_state :
    forall v m, T (set_start_state_ v m) = set_start_state_ v (T m);
  ef_set_stream_state :
    forall v m, T (set_stream_state_ v m) = set_stream_state_ v (T m);
  ef_set_streaming_mode :
    forall v m, T (set_streaming_mode_ v m) = set_streaming_mode_ v (T m)
}.

(** ** What a step may overwrite *)

Definition step_write (cs : StateID) (mt : Metrics) (tr : list TraceEntry)
    (cp : list CaptureGroup) (ac : list ActiveCapture)
    (le : option ValidationError) (m : FSM) : FSM :=
  set_last_error_ le
    (set_active_captures_ ac
       (set_captures_ cp
          (set_trace_ tr (set_metrics_ mt (set_current_state_ cs m))))).

(** [m'] differs from [m] at most in the current state, the metrics, the
    trace, the two capture lists and the error slot. *)
Definition footprint (m m' : FSM) : Prop :=
  m' = step_write (current_state_ m') (metrics_ m') (trace_ m') (captures_ m')
                  (active_captures_ m') (last_error_ m') m.

(** [m'] differs from [m] at most in the two capture lists: all a callback
    can do. *)
Definition capture_footprint (m m' : FSM) : Prop :=
  m' = set_active_captures_ (active_captures_ m')
         (set_captures_ (captures_ m') m).

(** [s] is the machine of a streaming run that has consumed [i] bytes when
    the loop of [validate] holds [g] before its iteration [i]. *)
Definition stream_of (i : nat) (g s : FSM) : Prop :=
  exists T, Frame T /\ s = T (updateCapturePosition i g).

Create HintDb footprint.

(** ** Machines of the test suite and of the design document *)

Definition bytes (s : string) : list byte := String.list_byte_of_string s.

Definition plain_state (id : N) (name : string) (type : StateType) : State :=
  mkState (mkStateID id name) type "" false None None.

Definition sSTART : StateID := mkStateID 1 "START".
Definition sA : StateID := mkStateID 2 "A".
Definition sDIGITS : StateID := mkStateID 2 "DIGITS".
Definition sACCEPT : StateID := mkStateID 3 "ACCEPT".

(** Scenario S1: START -DIGIT-> A, A -DIGIT-> A, A accepting. *)
Definition digits_graph : FSM :=
  FSM_of_config
    (mkInitialConfig
       [plain_state 1 "START" START; plain_state 2 "A" ACCEPT]
       [Transition_rule 1 sSTART sA digit PRIORITY_NORMAL;
        Transition_rule 2 sA sA digit PRIORITY_NORMAL]
       sSTART [sA]).

(** The same graph with the state A tagged NORMAL. *)
Definition digits_graph_untagged : FSM :=
  FSM_of_config
    (mkInitialConfig
       [plain_state 1 "START" START; plain_state 2 "A" NORMAL]
       [Transition_rule 1 sSTART sA digit PRIORITY_NORMAL;
        Transition_rule 2 sA sA digit PRIORITY_NORMAL]
       sSTART [sA]).

(** Scenario S1 after [removeAcceptState(A)]: A keeps its type ACCEPT. *)
Definition digits_graph_removed : FSM := removeAcceptState sA digits_graph.

(** The machine of scenario S1 with every debug flag set. *)
Definition digits_graph_traced : FSM :=
  setDebugConfig (mkDebugConfig FULL) digits_graph.

(** The machine of scenario S1 after a streaming run that was fed [a]:
    its stream state is ERROR. *)
Definition digits_graph_after_error : FSM :=
  match feed libstdcxx_sort "a" (reset digits_graph) with
  | Some (_, s) => s
  | None => digits_graph
  end.

(** [BacktrackingTest.EdgeCase_EmptyInput]: one state, start and accept. *)
Definition start_accepting_graph : FSM :=
  FSM_of_config
    (mkInitialConfig [plain_state 1 "START" START] [] sSTART [sSTART]).

(** [StreamingTest.EndOfStream_Success]: START -DIGIT-> DIGITS,
    DIGITS -DIGIT-> DIGITS, DIGITS -epsilon-> ACCEPT. *)
Definition digits_epsilon_transitions : list Transition :=
  [Transition_rule 1 sSTART sDIGITS digit PRIORITY_NORMAL;
   Transition_rule 2 sDIGITS sDIGITS digit PRIORITY_NORMAL;
   Transition_epsilon 3 sDIGITS sACCEPT].

Definition digits_epsilon_graph : FSM :=
  FSM_of_config
    (mkInitialConfig
       [plain_state 1 "START" START; plain_state 2 "DIGITS" NORMAL;
        plain_state 3 "ACCEPT" ACCEPT]
       digits_epsilon_transitions sSTART [sACCEPT]).

(** The machine [validate] leaves behind on [12]. *)
Definition digits_epsilon_graph_after_12 : FSM :=
  match validate libstdcxx_sort 0 (bytes "12") digits_epsilon_graph with
  | Some (_, mv) => mv
  | None => digits_epsilon_graph
  end.

(** Scenario S7 ([CallbacksCapturesTest.BasicCapture]): the same graph with
    the capture [number] begun on entry to DIGITS and closed on its exit. *)
Definition capture_graph : FSM :=
  FSM_of_config
    (mkInitialConfig
       [plain_state 1 "START" START;
        mkState sDIGITS NORMAL "" false
                (Some (fun _ => [BeginCapture "number"]))
                (Some (fun _ => [EndCapture "number"]));
        plain_state 3 "ACCEPT" ACCEPT]
       digits_epsilon_transitions sSTART [sACCEPT]).

(** [BacktrackingTest.UserDefinedChoicePoint]: START -DIGIT-> CHOICE,
    CHOICE -a-> PATH1, CHOICE -b-> PATH2, CHOICE marked as a choice point. *)
Definition sCHOICE : StateID := mkStateID 2 "CHOICE".
Definition sPATH1 : StateID := mkStateID 3 "PATH1".
Definition sPATH2 : StateID := mkStateID 4 "PATH2".

Definition user_choice_graph : FSM :=
  FSM_of_config
    (mkInitialConfig
       [plain_state 1 "START" START;
        mkState sCHOICE NORMAL "" true None None;
        plain_state 3 "PATH1" ACCEPT; plain_state 4 "PATH2" ACCEPT]
       [Transition_rule 1 sSTART sCHOICE digit PRIORITY_NORMAL;
        Transition_rule 2 sCHOICE sPATH1 (of_char "a") PRIORITY_NORMAL;
        Transition_rule 3 sCHOICE sPATH2 (of_char "b") PRIORITY_NORMAL]
       sSTART [sPATH1; sPATH2]).

(** [user_choice_graph] once its run has consumed a digit. *)
Definition at_choice_state : FSM :=
  set_current_state_ sCHOICE user_choice_graph.

(** Scenario S6: two edges from START on [a] to PATH1 and PATH2,
    PATH2 -c-> ACCEPT. *)
Definition sP1 : StateID := mkStateID 2 "PATH1".
Definition sP2 : StateID := mkStateID 3 "PATH2".
Definition sACC : StateID := mkStateID 4 "ACCEPT".

Definition two_paths_graph : FSM :=
  FSM_of_config
    (mkInitialConfig
       [plain_state 1 "START" START; plain_state 2 "PATH1" NORMAL;
        plain_state 3 "PATH2" NORMAL; plain_state 4 "ACCEPT" ACCEPT]
       [Transition_rule 1 sSTART sP1 (of_char "a") PRIORITY_NORMAL;
        Transition_rule 2 sSTART sP2 (of_char "a") PRIORITY_NORMAL;
        Transition_rule 3 sP2 sACC (of_char "c") PRIORITY_NORMAL]
       sSTART [sACC]).

(** A capture that is open when a choice point is saved:
    S0 -a-> S1 (entering S1 begins the capture [c]), S1 -b-> P1,
    S1 -b-> P2, P2 -z-> ACC. *)
Definition sS0 : StateID := mkStateID 1 "S0".
Definition sS1 : StateID := mkStateID 2 "S1".
Definition sQ1 : StateID := mkStateID 3 "P1".
Definition sQ2 : StateID := mkStateID 4 "P2".
Definition sEND : StateID := mkStateID 5 "ACC".

Definition capture_backtrack_graph : FSM :=
  FSM_of_config
    (mkInitialConfig
       [plain_state 1 "S0" START;
        mkState sS1 NORMAL "" false (Some (fun _ => [BeginCapture "c"])) None;
        plain_state 3 "P1" NORMAL; plain_state 4 "P2" NORMAL;
        plain_state 5 "ACC" ACCEPT]
       [Transition_rule 1 sS0 sS1 (of_char "a") PRIORITY_NORMAL;
        Transition_rule 2 sS1 sQ1 (of_char "b") PRIORITY_NORMAL;
        Transition_rule 3 sS1 sQ2 (of_char "b") PRIORITY_NORMAL;
        Transition_rule 4 sQ2 sEND (of_char "z") PRIORITY_NORMAL]
       sS0 [sEND]).

(** A state with [n] outgoing transitions of one priority, all on a
    digit: START -DIGIT-> T1, ..., START -DIGIT-> Tn, inserted in this
    order; transition [i] has the id [i] and leads to the state of id
    [i + 1]. *)
Definition fan_state (i : nat) : StateID := mkStateID (N.of_nat (S i)) "T".

Definition fan_transition (i : nat) : Transition :=
  Transition_rule (N.of_nat i) sSTART (fan_state i) digit PRIORITY_NORMAL.

Definition fan_graph (n : nat) : FSM :=
  FSM_of_config
    (mkInitialConfig
       (plain_state 1 "START" START
        :: map (fun i => plain_state (N.of_nat (S i)) "T" ACCEPT) (seq 1 n))
       (map fan_transition (seq 1 n))
       sSTART (map fan_state (seq 1 n))).

(** ** Vocabulary for the remaining interfaces *)

(** A caller of [ABNF::Builder]: one of its [add] calls. *)
Inductive BuilderCall :=
| AddChar (value : byte)
| AddCharRange (first last : byte)
| AddRange (first last : byte)
| AddRule (rule : ABNF)
| AddCoreRule (rule : CoreRule).

Definition builder_call (char_signed : bool) (c : BuilderCall)
    (b : Abnf.Builder.Builder) : option Abnf.Builder.Builder :=
  match c with
  | AddChar value => Some (Abnf.Builder.addChar value b)
  | AddCharRange first last => Abnf.Builder.addCharRange char_signed first last b
  | AddRange first last => Abnf.Builder.addRange first last b
  | AddRule rule => Some (Abnf.Builder.addRule rule b)
  | AddCoreRule rule => Some (Abnf.Builder.addCoreRule rule b)
  end.

(** ... and a chain of them, which an exception ends. *)
Fixpoint builder_calls (char_signed : bool) (cs : list BuilderCall)
    (b : Abnf.Builder.Builder) : option Abnf.Builder.Builder :=
  match cs with
  | [] => Some b
  | c :: cs' => b' ← builder_call char_signed c b; builder_calls char_signed cs' b'
  end.

(** [lo <= n <= hi] *)
Definition within (lo hi n : Z) : bool := (lo <=? n)%Z && (n <=? hi)%Z.

(** The bytes between [first] and [last], as unsigned values. *)
Definition between (first last ch : byte) : bool :=
  (bit_index first <=? bit_index ch)%Z && (bit_index ch <=? bit_index last)%Z.

(** Whether a call of the builder names the byte [ch]. *)
Definition call_covers (ch : byte) (c : BuilderCall) : bool :=
  match c with
  | AddChar value => Byte.eqb ch value
  | AddCharRange first last | AddRange first last => between first last ch
  | AddRule rule => matches rule ch
  | AddCoreRule rule => matches (of_core rule) ch
  end.

(** The machine after the bytes [chars] were recorded, one call of
    [recordCharInCaptures] each. *)
Definition record_all (chars : list byte) (m : FSM) : FSM :=
  fold_left (fun m ch => recordCharInCaptures ch m) chars m.

(** A machine with one closed capture [n] and an open capture [n]. *)
Definition recaptured : FSM :=
  set_captures_ [mkCaptureGroup "n" 0 1 (bytes "1")]
    (set_active_captures_ [mkActiveCapture "n" 2 (bytes "3")]
       (updateCapturePosition 3 digits_graph)).

(** A call of the interface with which a caller builds a graph. *)
Inductive GraphCall :=
| AddState (name description : string) (type : StateType)
| SetStartState (s : StateID)
| AddAcceptState (s : StateID)
| RemoveAcceptState (s : StateID)
| AddTransition (from to : StateID) (r : ABNF) (prio : Z)
| AddTransitionDescribed (from to : StateID) (r : ABNF)
                         (description : string) (prio : Z)
| AddEpsilonTransition (from to : StateID)
| MarkAsChoicePoint (s : StateID)
| SetStateEntryCallback (s : StateID) (callback : StateCallback)
| SetStateExitCallback (s : StateID) (callback : StateCallback)
| SetTransitionCallback (transition_id : N) (callback : TransitionCallback)
| SetDebugConfig (c : DebugConfig)
| SetMaxBacktrackDepth (depth : nat).

Definition graph_call (c : GraphCall) (m : FSM) : option FSM :=
  match c with
  | AddState name description type => Some (addState name description type m).2
  | SetStartState s => setStartState s m
  | AddAcceptState s => addAcceptState s m
  | RemoveAcceptState s => Some (removeAcceptState s m)
  | AddTransition from to r prio => snd <$> addTransition from to r prio m
  | AddTransitionDescribed from to r description prio =>
      snd <$> addTransition_described from to r description prio m
  | AddEpsilonTransition from to => snd <$> addEpsilonTransition from to m
  | MarkAsChoicePoint s => markAsChoicePoint s m
  | SetStateEntryCallback s callback => setStateEntryCallback s callback m
  | SetStateExitCallback s callback => setStateExitCallback s callback m
  | SetTransitionCallback transition_id callback =>
      setTransitionCallback transition_id callback m
  | SetDebugConfig c => Some (setDebugConfig c m)
  | SetMaxBacktrackDepth depth => Some (setMaxBacktrackDepth depth m)
  end.

(** ... and a sequence of them on a machine; an exception ends it. *)
Fixpoint graph_calls (cs : list GraphCall) (m : FSM) : option FSM :=
  match cs with
  | [] => Some m
  | c :: cs' => m' ← graph_call c m; graph_calls cs' m'
  end.

(** Every transition and every accept state of [m] names states of
    [m], and so does a start state that was set. *)
Definition endpoints_exist (m : FSM) : Prop :=
  Forall (fun t => hasState m (t_from t) = true /\ hasState m (t_to t) = true)
         (transitions_ m)
  /\ (forall k, k ∈ accept_states_ m -> is_Some (states_ m !! k))
  /\ (isValid (start_state_ m) = true -> hasState m (start_state_ m) = true).

(** The counters of [m] are ahead of every id in use, and ids in use are
    not 0 and not shared by two transitions; [n] bounds the counters. *)
Definition ids_fresh (n : N) (m : FSM) : Prop :=
  (1 <= next_state_id_ m <= 1 + n)%N
  /\ (forall k, is_Some (states_ m !! k) -> (1 <= k < next_state_id_ m)%N)
  /\ (1 <= next_transition_id_ m <= 1 + n)%N
  /\ Forall (fun t => (1 <= t_id t < next_transition_id_ m)%N)
            (transitions_ m)
  /\ NoDup (map t_id (transitions_ m)).

Definition same_keys (m m' : FSM) : Prop :=
  forall k, is_Some (states_ m' !! k) <-> is_Some (states_ m !! k).

Definition same_arrows (l l' : list Transition) : Prop :=
  map t_id l' = map t_id l /\ map t_from l' = map t_from l
  /\ map t_to l' = map t_to l.

(** A graph of two states and one transition. *)
Definition two_state_calls : list GraphCall :=
  [AddState "A" "" NORMAL; AddState "B" "" NORMAL;
   SetStartState (mkStateID 1 "A"); AddAcceptState (mkStateID 2 "B");
   AddTransition (mkStateID 1 "A") (mkStateID 2 "B") digit PRIORITY_NORMAL].

Definition two_state_graph : FSM :=
  match graph_calls two_state_calls FSM_new with
  | Some m => m
  | None => FSM_new
  end.

(** A call on an [FSM::Builder]. *)
Inductive MachineBuilderCall :=
| BAddState (name description : string) (type : StateType)
| BSetStartState (name : string)
| BAddAcceptState (name : string)
| BAddTransition (from to : string) (r : ABNF) (prio : Z)
| BAddTransitionDescribed (from to : string) (r : ABNF)
                          (description : string) (prio : Z)
| BAddEpsilonTransition (from to : string)
| BSetDebugFlags (flags : Z)
| BEnableDebugFlag (flag : Z)
| BDisableDebugFlag (flag : Z)
| BOnStateEntry (state_name : string) (callback : StateCallback)
| BOnStateExit (state_name : string) (callback : StateCallback)
| BOnTransition (callback : TransitionCallback)
| BMarkChoicePoint (state_name : string).

Definition machine_builder_call (c : MachineBuilderCall)
    (b : Builder.Builder) : option Builder.Builder :=
  match c with
  | BAddState name description type =>
      Some (Builder.addState name description type b)
  | BSetStartState name => Some (Builder.setStartState name b)
  | BAddAcceptState name => Some (Builder.addAcceptState name b)
  | BAddTransition from to r prio =>
      Some (Builder.addTransition from to r prio b)
  | BAddTransitionDescribed from to r description prio =>
      Some (Builder.addTransition_described from to r description prio b)
  | BAddEpsilonTransition from to =>
      Some (Builder.addEpsilonTransition from to b)
  | BSetDebugFlags flags => Some (Builder.setDebugFlags flags b)
  | BEnableDebugFlag flag => Some (Builder.enableDebugFlag flag b)
  | BDisableDebugFlag flag => Some (Builder.disableDebugFlag flag b)
  | BOnStateEntry state_name callback =>
      Some (Builder.onStateEntry state_name callback b)
  | BOnStateExit state_name callback =>
      Some (Builder.onStateExit state_name callback b)
  | BOnTransition callback => Builder.onTransition callback b
  | BMarkChoicePoint state_name =>
      Some (Builder.markChoicePoint state_name b)
  end.

(** ... and a chain of them, which an exception ends. *)
Fixpoint machine_builder_calls (cs : list MachineBuilderCall)
    (b : Builder.Builder) : option Builder.Builder :=
  match cs with
  | [] => Some b
  | c :: cs' => b' ← machine_builder_call c b; machine_builder_calls cs' b'
  end.

Definition is_setStartState (c : MachineBuilderCall) : bool :=
  match c with BSetStartState _ => true | _ => false end.

Definition is_addAcceptState (c : MachineBuilderCall) : bool :=
  match c with BAddAcceptState _ => true | _ => false end.

(** The ids of the states a builder holds. *)
Definition builder_ids (b : Builder.Builder) : list N :=
  map (fun st => sid_id (st_id st)) (Builder.states_ b).

(** The builder names states it holds only, under ids that are not 0 and
    behind its counter, which [n] bounds. *)
Definition builder_consistent (n : N) (b : Builder.Builder) : Prop :=
  (1 <= Builder.next_id_ b <= 1 + n)%N
  /\ Forall (fun k => (1 <= k < Builder.next_id_ b)%N) (builder_ids b)
  /\ (forall name sid, Builder.name_to_id_ b !! name = Some sid ->
                       sid_id sid ∈ builder_ids b)
  /\ Forall (fun t => sid_id (t_from t) ∈ builder_ids b
                      /\ sid_id (t_to t) ∈ builder_ids b)
            (Builder.transitions_ b)
  /\ (forall sid, Builder.start_state_ b = Some sid ->
                  sid_id sid ∈ builder_ids b)
  /\ Forall (fun sid => sid_id sid ∈ builder_ids b)
            (Builder.accept_states_ b).

(** The builder of scenario S1: START -DIGIT-> A, A -DIGIT-> A. *)
Definition digits_builder_calls : list MachineBuilderCall :=
  [BSetStartState "START"; BAddAcceptState "A";
   BAddTransition "START" "A" digit PRIORITY_NORMAL;
   BAddTransition "A" "A" digit PRIORITY_NORMAL].

Definition digits_builder : Builder.Builder :=
  match machine_builder_calls digits_builder_calls Builder.new with
  | Some b => b
  | None => Builder.new
  end.

(** [m'] has the graph and the settings of [m]: the states, the
    transitions, the start state, the accept states, the debug
    configuration, the depth limit and the two id counters. *)
Definition same_graph (m m' : FSM) : Prop :=
  states_ m' = states_ m /\ transitions_ m' = transitions_ m
  /\ start_state_ m' = start_state_ m /\ accept_states_ m' = accept_states_ m
  /\ debug_config_ m' = debug_config_ m
  /\ max_backtrack_depth_ m' = max_backtrack_depth_ m
  /\ next_state_id_ m' = next_state_id_ m
  /\ next_transition_id_ m' = next_transition_id_ m.

(** Two edges from START on [a], to P1 and to P2; P1 -c-> DEAD,
    P2 -c-> ACCEPT.  The first path consumes [ac] and ends in DEAD, so
    that the executor goes back to START after the end of the input and
    calls itself on [c] from P2. *)
Definition sDEAD : StateID := mkStateID 4 "DEAD".
Definition sLATE : StateID := mkStateID 5 "ACCEPT".

Definition late_choice_graph : FSM :=
  FSM_of_config
    (mkInitialConfig
       [plain_state 1 "START" START; plain_state 2 "PATH1" NORMAL;
        plain_state 3 "PATH2" NORMAL; plain_state 4 "DEAD" NORMAL;
        plain_state 5 "ACCEPT" ACCEPT]
       [Transition_rule 1 sSTART sP1 (of_char "a") PRIORITY_NORMAL;
        Transition_rule 2 sSTART sP2 (of_char "a") PRIORITY_NORMAL;
        Transition_rule 3 sP1 sDEAD (of_char "c") PRIORITY_NORMAL;
        Transition_rule 4 sP2 sLATE (of_char "c") PRIORITY_NORMAL]
       sSTART [sLATE]).

(** The three counters that count bytes and CLASS moves. *)
Definition byte_counters (mt : Metrics) : nat * nat * nat :=
  (characters_processed mt, transitions_taken mt, states_visited mt).

(** A machine with another trace and other counters. *)
Definition relog (tr : list TraceEntry) (mt : Metrics) (m : FSM) : FSM :=
  set_trace_ tr (set_metrics_ mt m).

(** A machine without its trace and its counters. *)
Definition unlogged (m : FSM) : FSM := relog [] Metrics_reset m.

(** What a caller of [validate] can read of the run besides the trace and
    the counters: the returned flag, the closed captures, the error and
    the state the machine is left in. *)
Definition outcome_of_validate (r : option (bool * FSM))
    : option (bool * list CaptureGroup * option ValidationError * StateID) :=
  (fun p => (p.1, captures_ p.2, last_error_ p.2, current_state_ p.2)) <$> r.

(** * Properties *)

Local Close Scope Z_scope.
Local Open Scope list_scope.

(** ** Frames *)

Lemma Frame_compose T1 T2 : Frame T1 -> Frame T2 -> Frame (fun m => T1 (T2 m)).
Proof.
  intros H1 H2. split; intros.
  all: try (frame_rw H1; frame_rw H2; reflexivity).
  - rewrite (frame_on_exit _ H1). apply (frame_on_exit _ H2).
  - rewrite (frame_on_entry _ H1). apply (frame_on_entry _ H2).
Qed.

Lemma Frame_set_stream_state v : Frame (set_stream_state_ v).
Proof. split; reflexivity. Qed.
Lemma Frame_set_streaming_mode v : Frame (set_streaming_mode_ v).
Proof. split; reflexivity. Qed.
Lemma Frame_set_current_input v : Frame (set_current_input_ v).
Proof. split; reflexivity. Qed.
Lemma Frame_set_choice_stack v : Frame (set_choice_stack_ v).
Proof. split; reflexivity. Qed.
Lemma Frame_set_backtracking_stats v : Frame (set_backtracking_stats_ v).
Proof. split; reflexivity. Qed.
Lemma Frame_set_start_state v : Frame (set_start_state_ v).
Proof. split; reflexivity. Qed.
Lemma Frame_id : Frame (fun m => m).
Proof. split; reflexivity. Qed.

Section FrameLemmas.

Variable std_sort : list Transition -> list Transition.
Variable T : FSM -> FSM.
Hypothesis HT : Frame T.

Lemma frame_beginCapture name m :
  beginCapture name (T m) = T <$> beginCapture name m.
Proof.
  unfold beginCapture. frame_rw HT.
  destruct (existsb _ _); simpl; [reflexivity|].
  now frame_rw HT.
Qed.

Lemma frame_endCapture name m :
  endCapture name (T m) = prod_map (fun c => c) T <$> endCapture name m.
Proof.
  unfold endCapture. frame_rw HT.
  destruct (List.find _ _); simpl; [|reflexivity].
  now frame_rw HT.
Qed.

Lemma frame_run_op op m : run_op op (T m) = T <$> run_op op m.
Proof.
  induction op as [name|name|op IH]; simpl.
  - apply frame_beginCapture.
  - rewrite frame_endCapture. now destruct (endCapture name m) as [[c m']|].
  - rewrite IH. now destruct (run_op op m).
Qed.

Lemma frame_run_ops ops m : run_ops ops (T m) = T <$> run_ops ops m.
Proof.
  revert m. induction ops as [|op ops IH]; intros m; simpl; [reflexivity|].
  rewrite frame_run_op. destruct (run_op op m) as [m'|]; simpl; [apply IH|reflexivity].
Qed.

Lemma frame_fire {Ctx} (cb : option (Ctx -> list CaptureOp)) ctx m :
  fire cb ctx (T m) = T <$> fire cb ctx m.
Proof. destruct cb; simpl; [apply frame_run_ops|reflexivity]. Qed.

Lemma frame_fire_exit s position ch m :
  fire_exit s position ch (T m) = T <$> fire_exit s position ch m.
Proof.
  unfold fire_exit.
  pose proof (frame_on_exit _ HT m (sid_id s)) as E.
  destruct (states_ (T m) !! sid_id s) as [st'|], (states_ m !! sid_id s) as [st|];
    simpl in E; try discriminate; [|reflexivity].
  injection E as ->. apply frame_fire.
Qed.

Lemma frame_fire_entry s position ch m :
  fire_entry s position ch (T m) = T <$> fire_entry s position ch m.
Proof.
  unfold fire_entry.
  pose proof (frame_on_entry _ HT m (sid_id s)) as E.
  destruct (states_ (T m) !! sid_id s) as [st'|], (states_ m !! sid_id s) as [st|];
    simpl in E; try discriminate; [|reflexivity].
  injection E as ->. apply frame_fire.
Qed.

Lemma frame_getTransitionsFrom m s :
  getTransitionsFrom std_sort (T m) s = getTransitionsFrom std_sort m s.
Proof. unfold getTransitionsFrom. now frame_rw HT. Qed.

Lemma frame_takeTransition trans ch position m :
  takeTransition trans ch position (T m)
  = T <$> takeTransition trans ch position m.
Proof.
  unfold takeTransition. frame_rw HT.
  destruct (negb (StateID_eqb (current_state_ m) (t_to trans))).
  - rewrite frame_fire_exit.
    destruct (fire_exit _ _ _ m) as [m1|]; simpl; [|reflexivity].
    rewrite frame_fire.
    destruct (fire (on_transition trans) _ m1) as [m2|]; simpl; [|reflexivity].
    frame_rw HT. rewrite frame_fire_entry.
    destruct (fire_entry _ _ _ _) as [m4|]; simpl; [|reflexivity].
    now frame_rw HT.
  - simpl. rewrite frame_fire.
    destruct (fire (on_transition trans) _ m) as [m2|]; simpl; [|reflexivity].
    now frame_rw HT.
Qed.

Lemma frame_processCharImpl ch position m :
  processCharImpl std_sort ch position (T m)
  = prod_map (fun b => b) T <$> processCharImpl std_sort ch position m.
Proof.
  unfold processCharImpl, no_matching_transition.
  rewrite frame_getTransitionsFrom. frame_rw HT.
  destruct (List.find _ _) as [best|]; simpl.
  - rewrite frame_takeTransition. now destruct (takeTransition _ _ _ m).
  - now frame_rw HT.
Qed.

Lemma frame_takeEpsilon trans position m :
  takeEpsilon trans position (T m) = T <$> takeEpsilon trans position m.
Proof.
  unfold takeEpsilon. frame_rw HT.
  rewrite frame_fire_exit.
  destruct (fire_exit _ _ _ m) as [m1|]; simpl; [|reflexivity].
  rewrite frame_fire.
  destruct (fire (on_transition trans) _ m1) as [m2|]; simpl; [|reflexivity].
  frame_rw HT. rewrite frame_fire_entry.
  destruct (fire_entry _ _ _ _) as [m4|]; simpl; [|reflexivity].
  now frame_rw HT.
Qed.

Lemma frame_next_epsilon visited m :
  next_epsilon std_sort visited (T m) = next_epsilon std_sort visited m.
Proof.
  unfold next_epsilon. rewrite frame_getTransitionsFrom. now frame_rw HT.
Qed.

Lemma frame_epsilon_loop fuel position visited m :
  epsilon_loop std_sort fuel position visited (T m)
  = T <$> epsilon_loop std_sort fuel position visited m.
Proof.
  revert visited m. induction fuel as [|fuel IH]; intros visited m; simpl;
    [reflexivity|].
  rewrite frame_next_epsilon.
  destruct (next_epsilon std_sort visited m) as [trans|]; [|reflexivity].
  rewrite frame_takeEpsilon.
  destruct (takeEpsilon trans position m) as [m'|]; simpl; [apply IH|reflexivity].
Qed.

Lemma frame_processEpsilonTransitions position m :
  processEpsilonTransitions std_sort position (T m)
  = T <$> processEpsilonTransitions std_sort position m.
Proof.
  unfold processEpsilonTransitions. frame_rw HT. apply frame_epsilon_loop.
Qed.

Lemma frame_recordCharInCaptures ch m :
  recordCharInCaptures ch (T m) = T (recordCharInCaptures ch m).
Proof. unfold recordCharInCaptures. now frame_rw HT. Qed.

Lemma frame_count_character_if_enabled m :
  count_character_if_enabled (T m) = T (count_character_if_enabled m).
Proof.
  unfold count_character_if_enabled. now frame_rw HT.
Qed.

Lemma frame_updateCapturePosition pos m :
  updateCapturePosition pos (T m) = T (updateCapturePosition pos m).
Proof. unfold updateCapturePosition. now frame_rw HT. Qed.

Lemma frame_isInAcceptState m : isInAcceptState (T m) = isInAcceptState m.
Proof. unfold isInAcceptState, isAcceptState. now frame_rw HT. Qed.

Lemma frame_validate_loop input i m :
  validate_loop std_sort input i (T m)
  = prod_map (fun b => b) T <$> validate_loop std_sort input i m.
Proof.
  revert i m. induction input as [|ch rest IH]; intros i m; simpl;
    [reflexivity|].
  rewrite frame_updateCapturePosition, frame_processCharImpl.
  destruct (processCharImpl _ _ _ _) as [[[] m1]|]; simpl; try reflexivity.
  rewrite frame_count_character_if_enabled, frame_recordCharInCaptures.
  apply IH.
Qed.

End FrameLemmas.

(** ** Footprints *)

Lemma footprint_refl m : footprint m m.
Proof. destruct m; reflexivity. Qed.

Lemma footprint_trans m1 m2 m3 :
  footprint m1 m2 -> footprint m2 m3 -> footprint m1 m3.
Proof. unfold footprint. intros H12 H23. rewrite H23 at 1. rewrite H12 at 1. reflexivity. Qed.

Lemma footprint_step_write cs mt tr cp ac le m :
  footprint m (step_write cs mt tr cp ac le m).
Proof. reflexivity. Qed.

Lemma footprint_set_current_state v m : footprint m (set_current_state_ v m).
Proof. destruct m; reflexivity. Qed.
Lemma footprint_set_metrics v m : footprint m (set_metrics_ v m).
Proof. destruct m; reflexivity. Qed.
Lemma footprint_set_trace v m : footprint m (set_trace_ v m).
Proof. destruct m; reflexivity. Qed.
Lemma footprint_set_captures v m : footprint m (set_captures_ v m).
Proof. destruct m; reflexivity. Qed.
Lemma footprint_set_active_captures v m :
  footprint m (set_active_captures_ v m).
Proof. destruct m; reflexivity. Qed.
Lemma footprint_set_last_error v m : footprint m (set_last_error_ v m).
Proof. destruct m; reflexivity. Qed.

#[local] Hint Resolve footprint_refl footprint_set_current_state
  footprint_set_metrics footprint_set_trace footprint_set_captures
  footprint_set_active_captures footprint_set_last_error : footprint.

Lemma footprint_position m m' :
  footprint m m' -> current_input_position_ m' = current_input_position_ m.
Proof. intros ->. reflexivity. Qed.
Lemma footprint_transitions m m' :
  footprint m m' -> transitions_ m' = transitions_ m.
Proof. intros ->. reflexivity. Qed.
Lemma footprint_states m m' : footprint m m' -> states_ m' = states_ m.
Proof. intros ->. reflexivity. Qed.
Lemma footprint_accept_states m m' :
  footprint m m' -> accept_states_ m' = accept_states_ m.
Proof. intros ->. reflexivity. Qed.
Lemma footprint_debug_config m m' :
  footprint m m' -> debug_config_ m' = debug_config_ m.
Proof. intros ->. reflexivity. Qed.
Lemma footprint_start_state m m' :
  footprint m m' -> start_state_ m' = start_state_ m.
Proof. intros ->. reflexivity. Qed.
Lemma footprint_streaming_mode m m' :
  footprint m m' -> streaming_mode_ m' = streaming_mode_ m.
Proof. intros ->. reflexivity. Qed.
Lemma footprint_stream_state m m' :
  footprint m m' -> stream_state_ m' = stream_state_ m.
Proof. intros ->. reflexivity. Qed.
Lemma footprint_choice_stack m m' :
  footprint m m' -> choice_stack_ m' = choice_stack_ m.
Proof. intros ->. reflexivity. Qed.
Lemma footprint_backtracking_stats m m' :
  footprint m m' -> backtracking_stats_ m' = backtracking_stats_ m.
Proof. intros ->. reflexivity. Qed.
Lemma footprint_max_backtrack_depth m m' :
  footprint m m' -> max_backtrack_depth_ m' = max_backtrack_depth_ m.
Proof. intros ->. reflexivity. Qed.
Lemma footprint_current_input m m' :
  footprint m m' -> current_input_ m' = current_input_ m.
Proof. intros ->. reflexivity. Qed.

Lemma footprint_beginCapture name m m' :
  beginCapture name m = Some m' -> footprint m m'.
Proof.
  unfold beginCapture. destruct (existsb _ _); [discriminate|].
  intros [= <-]. auto with footprint.
Qed.

Lemma footprint_endCapture name m c m' :
  endCapture name m = Some (c, m') -> footprint m m'.
Proof.
  unfold endCapture. destruct (List.find _ _); [|discriminate].
  intros [= <- <-].
  eapply footprint_trans; [apply footprint_set_captures|apply footprint_set_active_captures].
Qed.

Lemma footprint_run_op op m m' : run_op op m = Some m' -> footprint m m'.
Proof.
  revert m'. induction op as [name|name|op IH]; simpl; intros m' H.
  - eauto using footprint_beginCapture.
  - destruct (endCapture name m) as [[c m1]|] eqn:E; simpl in H; [|discriminate].
    injection H as <-. eauto using footprint_endCapture.
  - destruct (run_op op m) as [m1|].
    + injection H as <-. auto.
    + injection H as <-. auto with footprint.
Qed.

Lemma footprint_run_ops ops m m' : run_ops ops m = Some m' -> footprint m m'.
Proof.
  revert m. induction ops as [|op ops IH]; simpl; intros m H.
  - injection H as <-. auto with footprint.
  - destruct (run_op op m) as [m1|] eqn:E; simpl in H; [|discriminate].
    eapply footprint_trans; [eapply footprint_run_op; eauto|eauto].
Qed.

Lemma footprint_fire {Ctx} (cb : option (Ctx -> list CaptureOp)) ctx m m' :
  fire cb ctx m = Some m' -> footprint m m'.
Proof.
  destruct cb; simpl.
  - apply footprint_run_ops.
  - intros [= <-]. auto with footprint.
Qed.

Lemma footprint_fire_exit s p ch m m' :
  fire_exit s p ch m = Some m' -> footprint m m'.
Proof.
  unfold fire_exit. destruct (states_ m !! sid_id s).
  - apply footprint_fire.
  - intros [= <-]. auto with footprint.
Qed.

Lemma footprint_fire_entry s p ch m m' :
  fire_entry s p ch m = Some m' -> footprint m m'.
Proof.
  unfold fire_entry. destruct (states_ m !! sid_id s).
  - apply footprint_fire.
  - intros [= <-]. auto with footprint.
Qed.

Lemma footprint_if (b : bool) m m1 m2 :
  footprint m m1 -> footprint m m2 -> footprint m (if b then m1 else m2).
Proof. now destruct b. Qed.

Lemma footprint_takeTransition trans ch p m m' :
  takeTransition trans ch p m = Some m' -> footprint m m'.
Proof.
  unfold takeTransition. intros H.
  destruct (if negb _ then fire_exit _ _ _ _ else Some m) as [m1|] eqn:E1;
    simpl in H; [|discriminate].
  assert (footprint m m1) as F1.
  { destruct (negb _); [eauto using footprint_fire_exit|].
    injection E1 as <-. auto with footprint. }
  destruct (fire (on_transition trans) _ m1) as [m2|] eqn:E2;
    simpl in H; [|discriminate].
  apply footprint_fire in E2.
  destruct (if negb _ then fire_entry _ _ _ _ else Some _) as [m4|] eqn:E4;
    simpl in H; [|discriminate].
  assert (footprint (set_current_state_ (t_to trans) m2) m4) as F4.
  { destruct (negb _); [eauto using footprint_fire_entry|].
    injection E4 as <-. auto with footprint. }
  injection H as <-.
  assert (footprint m m4) as F.
  { eapply footprint_trans; [exact F1|].
    eapply footprint_trans; [exact E2|].
    eapply footprint_trans; [apply footprint_set_current_state|exact F4]. }
  eapply footprint_trans; [|apply footprint_set_trace].
  eapply footprint_trans; [exact F|apply footprint_set_metrics].
Qed.

Section Foot.
Variable std_sort : list Transition -> list Transition.

Lemma footprint_processCharImpl ch p m b m' :
  processCharImpl std_sort ch p m = Some (b, m') -> footprint m m'.
Proof.
  unfold processCharImpl. destruct (List.find _ _) as [best|].
  - destruct (takeTransition best ch p m) as [m1|] eqn:E; simpl; [|discriminate].
    intros [= <- <-]. eauto using footprint_takeTransition.
  - intros [= <- <-]. auto with footprint.
Qed.

Lemma footprint_takeEpsilon trans p m m' :
  takeEpsilon trans p m = Some m' -> footprint m m'.
Proof.
  unfold takeEpsilon. intros H.
  destruct (fire_exit _ _ _ m) as [m1|] eqn:E1; simpl in H; [|discriminate].
  apply footprint_fire_exit in E1.
  destruct (fire (on_transition trans) _ m1) as [m2|] eqn:E2;
    simpl in H; [|discriminate].
  apply footprint_fire in E2.
  destruct (fire_entry _ _ _ _) as [m4|] eqn:E4; simpl in H; [|discriminate].
  apply footprint_fire_entry in E4.
  injection H as <-.
  assert (footprint m m4) as F.
  { eapply footprint_trans; [exact E1|].
    eapply footprint_trans; [exact E2|].
    eapply footprint_trans; [apply footprint_set_current_state|exact E4]. }
  eapply footprint_trans; [|apply footprint_set_trace].
  eapply footprint_trans; [exact F|apply footprint_set_metrics].
Qed.

Lemma footprint_epsilon_loop fuel p visited m m' :
  epsilon_loop std_sort fuel p visited m = Some m' -> footprint m m'.
Proof.
  revert visited m. induction fuel as [|fuel IH]; intros visited m; simpl.
  - intros [= <-]. auto with footprint.
  - destruct (next_epsilon std_sort visited m) as [trans|].
    + destruct (takeEpsilon trans p m) as [m1|] eqn:E; simpl; [|discriminate].
      intros H. eapply footprint_trans; [eapply footprint_takeEpsilon; eauto|eauto].
    + intros [= <-]. auto with footprint.
Qed.

Lemma footprint_processEpsilonTransitions p m m' :
  processEpsilonTransitions std_sort p m = Some m' -> footprint m m'.
Proof. apply footprint_epsilon_loop. Qed.

End Foot.

(** ** One-shot and streaming runs *)

Section Agreement.
Variable std_sort : list Transition -> list Transition.

Lemma position_count m :
  current_input_position_ (count_character_if_enabled m)
  = current_input_position_ m.
Proof.
  reflexivity.
Qed.

Lemma position_record_count ch m :
  current_input_position_ (recordCharInCaptures ch (count_character_if_enabled m))
  = current_input_position_ m.
Proof.
  reflexivity.
Qed.

Lemma feed_streaming ch s :
  streaming_mode_ s = true ->
  feed std_sort ch s
  = feed_consume std_sort ch (set_current_input_ (current_input_ s ++ [ch]) s).
Proof. intros H. unfold feed. now rewrite H. Qed.

Lemma feed_first ch s :
  streaming_mode_ s = false -> isValid (start_state_ s) = true ->
  feed std_sort ch s
  = feed_consume std_sort ch
      (set_current_input_ (current_input_ s ++ [ch])
         (set_stream_state_ PROCESSING (set_streaming_mode_ true s))).
Proof.
  intros H Hv. unfold feed. rewrite H. cbn [negb].
  change (start_state_ (set_current_input_ (current_input_ s ++ [ch])
            (set_stream_state_ PROCESSING (set_streaming_mode_ true s))))
    with (start_state_ s).
  now rewrite Hv.
Qed.

Lemma feed_consume_unfold ch m :
  feed_consume std_sort ch m
  = match processCharImpl std_sort ch (current_input_position_ m)
            (updateCapturePosition (current_input_position_ m) m) with
    | None => None
    | Some (false, m') => Some (ERROR, set_stream_state_ ERROR m')
    | Some (true, m') =>
        let m4 :=
          updateCapturePosition (S (current_input_position_ m'))
            (recordCharInCaptures ch (count_character_if_enabled m')) in
        let st := if isInAcceptState m4 then COMPLETE
                  else WAITING_FOR_INPUT in
        Some (st, set_stream_state_ st m4)
    end.
Proof.
  unfold feed_consume. cbn zeta.
  change (current_input_position_
            (updateCapturePosition (current_input_position_ m) m))
    with (current_input_position_ m).
  destruct (processCharImpl _ _ _ _) as [[[] m']|]; try reflexivity.
  rewrite position_record_count.
  change (current_input_position_
            (set_current_input_position_ (S (current_input_position_ m'))
               (recordCharInCaptures ch (count_character_if_enabled m'))))
    with (S (current_input_position_ m')).
  change (updateCapturePosition (S (current_input_position_ m'))
            (set_current_input_position_ (S (current_input_position_ m'))
               (recordCharInCaptures ch (count_character_if_enabled m'))))
    with (updateCapturePosition (S (current_input_position_ m'))
            (recordCharInCaptures ch (count_character_if_enabled m'))).
  now destruct (isInAcceptState _).
Qed.

Lemma feed_consume_sim ch i g T1 :
  Frame T1 ->
  (forall m, streaming_mode_ (T1 m) = true) ->
  match processCharImpl std_sort ch i (updateCapturePosition i g) with
  | None => feed_consume std_sort ch (T1 (updateCapturePosition i g)) = None
  | Some (true, g') =>
      exists st s',
        feed_consume std_sort ch (T1 (updateCapturePosition i g))
        = Some (st, s')
        /\ st <> ERROR /\ streaming_mode_ s' = true
        /\ stream_of (S i)
             (recordCharInCaptures ch (count_character_if_enabled g')) s'
  | Some (false, g') =>
      exists s',
        feed_consume std_sort ch (T1 (updateCapturePosition i g))
        = Some (ERROR, s')
  end.
Proof.
  intros HT1 Hmode.
  set (g0 := updateCapturePosition i g).
  rewrite feed_consume_unfold.
  rewrite (frame_position _ HT1).
  change (current_input_position_ g0) with i.
  rewrite (frame_updateCapturePosition _ HT1).
  change (updateCapturePosition i g0) with g0.
  rewrite (frame_processCharImpl _ _ HT1).
  destruct (processCharImpl std_sort ch i g0) as [[[] g']|] eqn:E;
    cbn [fmap option_fmap option_map prod_map fst snd];
    [|eauto|reflexivity].
  apply footprint_processCharImpl, footprint_position in E.
  change (current_input_position_ g0) with i in E.
  rewrite (frame_count_character_if_enabled _ HT1),
          (frame_recordCharInCaptures _ HT1).
  rewrite (frame_position _ HT1), E.
  set (g1 := recordCharInCaptures ch (count_character_if_enabled g')).
  rewrite (frame_updateCapturePosition _ HT1).
  cbn zeta.
  set (st := if isInAcceptState _ then COMPLETE else WAITING_FOR_INPUT).
  exists st, (set_stream_state_ st (T1 (updateCapturePosition (S i) g1))).
  split; [reflexivity|]. split; [unfold st; now destruct (isInAcceptState _)|].
  split; [apply Hmode|].
  exists (fun m => set_stream_state_ st (T1 m)). split; [|reflexivity].
  apply (Frame_compose (set_stream_state_ _)); [apply Frame_set_stream_state|exact HT1].
Qed.

Lemma set_streaming_mode_true_id s :
  streaming_mode_ s = true ->
  set_stream_state_ (stream_state_ s) (set_streaming_mode_ true s) = s.
Proof. destruct s; simpl. now intros ->. Qed.

Lemma feed_sim ch i g s :
  stream_of i g s ->
  streaming_mode_ s = true \/ isValid (start_state_ s) = true ->
  match processCharImpl std_sort ch i (updateCapturePosition i g) with
  | None => feed std_sort ch s = None
  | Some (true, g') =>
      exists st s',
        feed std_sort ch s = Some (st, s') /\ st <> ERROR
        /\ streaming_mode_ s' = true
        /\ stream_of (S i)
             (recordCharInCaptures ch (count_character_if_enabled g')) s'
  | Some (false, g') => exists s', feed std_sort ch s = Some (ERROR, s')
  end.
Proof.
  intros (T & HT & ->) Hstart.
  set (g0 := updateCapturePosition i g) in *.
  destruct (streaming_mode_ (T g0)) eqn:Hmode.
  - rewrite feed_streaming by exact Hmode.
    replace (set_current_input_ (current_input_ (T g0) ++ [ch]) (T g0))
      with (set_current_input_ (current_input_ (T g0) ++ [ch])
              (set_stream_state_ (stream_state_ (T g0))
                 (set_streaming_mode_ true (T g0))))
      by now rewrite set_streaming_mode_true_id.
    apply (feed_consume_sim ch i g
             (fun m => set_current_input_ (current_input_ (T g0) ++ [ch])
                         (set_stream_state_ (stream_state_ (T g0))
                            (set_streaming_mode_ true (T m))))).
    + apply (Frame_compose (set_current_input_ _)); [apply Frame_set_current_input|].
      apply (Frame_compose (set_stream_state_ _)); [apply Frame_set_stream_state|].
      apply (Frame_compose (set_streaming_mode_ _)); [apply Frame_set_streaming_mode|].
      exact HT.
    + reflexivity.
  - destruct Hstart as [?|Hval]; [discriminate|].
    rewrite feed_first by assumption.
    apply (feed_consume_sim ch i g
             (fun m => set_current_input_ (current_input_ (T g0) ++ [ch])
                         (set_stream_state_ PROCESSING
                            (set_streaming_mode_ true (T m))))).
    + apply (Frame_compose (set_current_input_ _)); [apply Frame_set_current_input|].
      apply (Frame_compose (set_stream_state_ _)); [apply Frame_set_stream_state|].
      apply (Frame_compose (set_streaming_mode_ _)); [apply Frame_set_streaming_mode|].
      exact HT.
    + reflexivity.
Qed.

Lemma stream_of_position i g s :
  stream_of i g s -> current_input_position_ s = i.
Proof. intros (T & HT & ->). now rewrite (frame_position _ HT). Qed.

Lemma stream_of_update i g s :
  stream_of i (updateCapturePosition i g) s <-> stream_of i g s.
Proof. reflexivity. Qed.

Lemma feed_each_sim x : forall i g s,
  stream_of i g s ->
  streaming_mode_ s = true \/ isValid (start_state_ s) = true ->
  match validate_loop std_sort x i g with
  | None => feed_each std_sort x s = None
  | Some (true, g') =>
      exists states s',
        feed_each std_sort x s = Some (states, s')
        /\ Forall (fun st => st <> ERROR) states
        /\ stream_of (i + length x) g' s'
        /\ (streaming_mode_ s = true \/ x <> [] -> streaming_mode_ s' = true)
  | Some (false, g') => True
  end.
Proof.
  induction x as [|ch rest IH]; intros i g s Hs Hstart; simpl.
  - exists [], s. rewrite Nat.add_0_r.
    repeat split; [constructor|exact Hs|]. intros [H|H]; congruence.
  - pose proof (feed_sim ch i g s Hs Hstart) as Hfeed.
    destruct (processCharImpl std_sort ch i (updateCapturePosition i g))
      as [[[] g1]|]; [| exact I |now rewrite Hfeed].
    destruct Hfeed as (st & s1 & -> & Hst & Hmode & Hs1).
    specialize (IH (S i) _ s1 Hs1 (or_introl Hmode)).
    destruct (validate_loop std_sort rest (S i) _) as [[[] g2]|];
      [| exact I |now rewrite IH].
    destruct IH as (states & s2 & -> & Hall & Hs2 & Hm2).
    exists (st :: states), s2.
    replace (i + S (length rest)) with (S i + length rest) by lia.
    repeat split; [now constructor|exact Hs2|]. auto.
Qed.

Lemma validate_loop_false x : forall i g g',
  validate_loop std_sort x i g = Some (false, g') ->
  err_type <$> last_error_ g' = Some NO_MATCHING_TRANSITION.
Proof.
  induction x as [|ch rest IH]; intros i g g'; simpl; [discriminate|].
  destruct (processCharImpl std_sort ch i (updateCapturePosition i g))
    as [[[] g1]|] eqn:E; [eauto| |discriminate].
  intros [= <-]. unfold processCharImpl in E.
  destruct (List.find _ _) as [best|].
  - destruct (takeTransition _ _ _ _); discriminate.
  - now injection E as <-.
Qed.

Lemma reset_as_stream m :
  captures_ m = [] -> active_captures_ m = [] ->
  reset m
  = set_current_input_ []
      (updateCapturePosition 0
         (updateCapturePosition 0
            (clearCaptures
               (set_current_input_ (current_input_ m)
                  (set_last_error_ None (reset m)))))).
Proof.
  intros Hc Ha. unfold reset, clearCaptures, updateCapturePosition.
  destruct m; simpl in *. now subst.
Qed.

Lemma stream_of_reset x m :
  captures_ m = [] -> active_captures_ m = [] ->
  stream_of 0 (validate_begin x m) (reset m).
Proof.
  intros Hc Ha. exists (set_current_input_ []). split.
  - apply Frame_set_current_input.
  - rewrite (reset_as_stream m Hc Ha) at 1. now cbn.
Qed.

Lemma reset_start_state m : start_state_ (reset m) = start_state_ m.
Proof.
  now cbn.
Qed.

Lemma endOfStream_sim elapsed_ns x g T :
  Frame T ->
  streaming_mode_ (T (updateCapturePosition (length x) g)) = true ->
  (fun p => (StreamState_eqb p.1 COMPLETE, captures_ p.2))
    <$> endOfStream std_sort (T (updateCapturePosition (length x) g))
  = verdict_of_validate (validate_end std_sort elapsed_ns x g).
Proof.
  intros HT Hmode. unfold endOfStream, validate_end. rewrite Hmode. cbn [negb].
  rewrite (frame_position _ HT).
  change (current_input_position_ (updateCapturePosition (length x) g))
    with (length x).
  rewrite (frame_processEpsilonTransitions _ _ HT).
  destruct (processEpsilonTransitions std_sort (length x)
              (updateCapturePosition (length x) g)) as [m2|];
    [|reflexivity].
  cbn [fmap option_fmap option_map mbind option_bind].
  rewrite (frame_isInAcceptState _ HT).
  unfold verdict_of_validate.
  destruct (isInAcceptState m2); cbn [negb fmap option_fmap option_map fst snd].
  - f_equal. f_equal.
    change (captures_ (set_stream_state_ COMPLETE (T m2))) with (captures_ (T m2)).
    now rewrite (frame_captures _ HT).
  - f_equal. f_equal.
    change (captures_ (set_stream_state_ ERROR (set_last_error_ _ (T m2))))
      with (captures_ (T m2)).
    now rewrite (frame_captures _ HT).
Qed.

Lemma validate_unfold elapsed_ns x m :
  validate std_sort elapsed_ns x m
  = if negb (isValid (start_state_ m))
    then Some (false,
               set_last_error_
                 (Some (no_start_state 0 x00 (validate_begin x m)))
                 (validate_begin x m))
    else
      match validate_loop std_sort x 0 (validate_begin x m) with
      | None => None
      | Some (false, m1) => Some (false, m1)
      | Some (true, m1) => validate_end std_sort elapsed_ns x m1
      end.
Proof. reflexivity. Qed.

(** C1 (as the code has it).  On a machine that holds no capture of an
    earlier run, and for a non-empty input on which [validate] does not
    stop before the end (it accepts, or it rejects with
    NOT_IN_ACCEPT_STATE), the streaming run [reset], [feed] of every
    byte, [endOfStream] and the one-shot [validate] give the same verdict
    and the same closed captures; when a callback throws in one it throws
    in the other. *)
Theorem validate_streaming_agree elapsed_ns x m :
  x <> [] -> captures_ m = [] -> active_captures_ m = [] ->
  (forall mv, validate std_sort elapsed_ns x m = Some (false, mv) ->
              stopped_before_end mv = false) ->
  verdict_of_stream (stream_run std_sort x (reset m))
  = verdict_of_validate (validate std_sort elapsed_ns x m).
Proof.
  intros Hx Hc Ha Hconsumed.
  pose proof (feed_each_sim x 0 _ (reset m) (stream_of_reset x m Hc Ha)) as Hsim.
  rewrite reset_start_state in Hsim.
  rewrite validate_unfold. 
  destruct (isValid (start_state_ m)) eqn:Hvalid; cbn [negb].
  2:{ rewrite validate_unfold, Hvalid in Hconsumed.
      specialize (Hconsumed _ eq_refl). discriminate. }
  specialize (Hsim (or_intror eq_refl)).
  destruct (validate_loop std_sort x 0 (validate_begin x m))
    as [[[] g']|] eqn:Eloop.
  - destruct Hsim as (states & s' & Hfeed & Hall & (T & HT & ->) & Hmode).
    specialize (Hmode (or_intror Hx)).
    unfold stream_run. rewrite Hfeed.
    rewrite <- (endOfStream_sim elapsed_ns x g' T HT Hmode).
    unfold verdict_of_stream.
    now destruct (endOfStream _ _) as [[st ms]|].
  - pose proof (validate_loop_false _ _ _ _ Eloop) as Herr.
    rewrite validate_unfold, Hvalid, Eloop in Hconsumed.
    specialize (Hconsumed _ eq_refl). unfold stopped_before_end in Hconsumed.
    rewrite Herr in Hconsumed. discriminate.
  - unfold stream_run. now rewrite Hsim.
Qed.

End Agreement.

(** ** Greedy and backtracking runs *)

Lemma find_filter {A} (P : A -> bool) l x :
  List.find P l = Some x -> exists l', List.filter P l = x :: l'.
Proof.
  induction l as [|a l IH]; simpl; [discriminate|].
  destruct (P a) eqn:E.
  - intros [= <-]. eauto.
  - exact IH.
Qed.

Lemma filter_find {A} (P : A -> bool) l :
  List.find P l = hd_error (List.filter P l).
Proof.
  induction l as [|a l IH]; simpl; [reflexivity|].
  now destruct (P a).
Qed.

Section GreedyBacktracking.
Variable std_sort : list Transition -> list Transition.

Lemma backtracking_begin_validate_begin x m :
  backtracking_begin x m = validate_begin x m.
Proof. destruct m. vm_compute. reflexivity. Qed.

Lemma saveChoicePoint_frame alternatives position T m :
  Frame T ->
  exists T', Frame T' /\ saveChoicePoint alternatives position (T m) = T' m.
Proof.
  intros HT. unfold saveChoicePoint.
  destruct (_ && _).
  - now exists T.
  - set (stack := mkChoicePoint (current_state_ (T m)) position alternatives
                    (captures_ (T m)) (active_captures_ (T m))
                    (current_input_position_ (T m)) :: choice_stack_ (T m)).
    exists (fun x => set_backtracking_stats_
                       (stats_choice_point (length stack)
                                           (backtracking_stats_ (T m)))
                       (set_choice_stack_ stack (T x))).
    split; [|reflexivity].
    apply (Frame_compose (set_backtracking_stats_ _));
      [apply Frame_set_backtracking_stats|].
    apply (Frame_compose (set_choice_stack_ _));
      [apply Frame_set_choice_stack|exact HT].
Qed.

Lemma count_record_commute ch i m :
  count_character_if_enabled
    (set_current_input_position_ i (recordCharInCaptures ch m))
  = updateCapturePosition i
      (recordCharInCaptures ch (count_character_if_enabled m)).
Proof. reflexivity. Qed.

Lemma backtracking_loop_step input i ch g g1 T :
  nth_error input i = Some ch ->
  processCharImpl std_sort ch i (updateCapturePosition i g) = Some (true, g1) ->
  Frame T ->
  exists T3, Frame T3 /\ forall fuel,
    backtracking_loop std_sort (S fuel) input i (T (updateCapturePosition i g))
    = backtracking_loop std_sort fuel input (S i)
        (T3 (updateCapturePosition (S i)
               (recordCharInCaptures ch (count_character_if_enabled g1)))).
Proof.
  intros Hnth Estep HT.
  pose proof (footprint_position _ _ (footprint_processCharImpl _ _ _ _ _ _ Estep)) as Hpos.
  change (current_input_position_ (updateCapturePosition i g)) with i in Hpos.
  unfold processCharImpl in Estep.
  destruct (List.find (admits ch) _) as [best|] eqn:Efind; [|discriminate].
  destruct (takeTransition best ch i (updateCapturePosition i g))
    as [g1'|] eqn:Etake; [|discriminate].
  cbn in Estep. injection Estep as ->.
  apply find_filter in Efind as [alts Hfilter].
  set (g0 := updateCapturePosition i g) in *.
  set (m2 := if shouldCreateChoicePoint (T g0) (best :: alts)
             then saveChoicePoint alts i (T g0) else T g0).
  assert (exists T2, Frame T2 /\ m2 = T2 g0) as (T2 & HT2 & Hm2).
  { unfold m2. destruct (shouldCreateChoicePoint _ _).
    - now apply saveChoicePoint_frame.
    - now exists T. }
  set (T3 := fun x => set_backtracking_stats_
                        (stats_path (backtracking_stats_ (T2 g0))) (T2 x)).
  assert (Frame T3) as HT3.
  { apply (Frame_compose (set_backtracking_stats_ _));
      [apply Frame_set_backtracking_stats|exact HT2]. }
  exists T3. split; [exact HT3|]. intros fuel.
  cbn [backtracking_loop]. rewrite Hnth.
  rewrite (frame_updateCapturePosition _ HT).
  change (updateCapturePosition i g0) with g0.
  unfold getValidTransitions.
  rewrite (frame_getTransitionsFrom _ _ HT), (frame_current_state _ HT), Hfilter.
  fold m2. rewrite Hm2.
  unfold count_path.
  change (set_backtracking_stats_ (stats_path (backtracking_stats_ (T2 g0))) (T2 g0))
    with (T3 g0).
  rewrite (frame_takeTransition _ HT3), Etake.
  cbn [fmap option_fmap option_map].
  rewrite (frame_recordCharInCaptures _ HT3), (frame_position _ HT3).
  change (current_input_position_ (recordCharInCaptures ch g1))
    with (current_input_position_ g1).
  rewrite Hpos.
  rewrite <- (frame_set_position _ HT3), (frame_count_character_if_enabled _ HT3).
  now rewrite count_record_commute.
Qed.

Lemma backtracking_loop_follows_greedy rest : forall pre input g g' T,
  input = pre ++ rest ->
  Frame T ->
  validate_loop std_sort rest (length pre) g = Some (true, g') ->
  exists T', Frame T' /\ forall fuel,
    length rest + 1 <= fuel ->
    backtracking_loop std_sort fuel input (length pre)
      (T (updateCapturePosition (length pre) g))
    = Returned true (T' (updateCapturePosition (length input) g')).
Proof.
  induction rest as [|ch rest IH]; intros pre input g g' T Hin HT Hloop.
  - simpl in Hloop. injection Hloop as <-.
    exists T. split; [exact HT|]. intros fuel Hfuel.
    destruct fuel as [|fuel]; [simpl in Hfuel; lia|]. simpl.
    rewrite app_nil_r in Hin. subst input.
    replace (nth_error pre (length pre)) with (@None byte)
      by (symmetry; now apply nth_error_None).
    reflexivity.
  - simpl in Hloop.
    destruct (processCharImpl std_sort ch (length pre)
                (updateCapturePosition (length pre) g))
      as [[[] g1]|] eqn:Estep; try discriminate.
    assert (nth_error input (length pre) = Some ch) as Hnth.
    { subst input. rewrite nth_error_app2 by lia.
      now rewrite Nat.sub_diag. }
    destruct (backtracking_loop_step input _ ch g g1 T Hnth Estep HT)
      as (T3 & HT3 & Hstep).
    destruct (IH (pre ++ [ch]) input
                (recordCharInCaptures ch (count_character_if_enabled g1)) g' T3)
      as (T' & HT' & Hrest).
    + subst input. now rewrite <- app_assoc.
    + exact HT3.
    + rewrite length_app. simpl. replace (length pre + 1) with (S (length pre)) by lia.
      exact Hloop.
    + exists T'. split; [exact HT'|]. intros fuel Hfuel.
      destruct fuel as [|fuel]; [simpl in Hfuel; lia|].
      rewrite Hstep.
      replace (S (length pre)) with (length (pre ++ [ch]))
        by (rewrite length_app; simpl; lia).
      apply Hrest. simpl in Hfuel. lia.
Qed.

Lemma validateWithBacktracking_unfold fuel x m :
  validateWithBacktracking_fuel std_sort (S fuel) x m
  = if negb (isValid (start_state_ m))
    then Returned false
           (set_last_error_
              (Some (no_start_state 0 x00 (backtracking_begin x m)))
              (backtracking_begin x m))
    else
      match backtracking_loop std_sort fuel x 0 (backtracking_begin x m) with
      | Returned true m1 =>
          match processEpsilonTransitions std_sort (length x)
                  (updateCapturePosition (length x) m1) with
          | None => Threw
          | Some m2 =>
              if isInAcceptState m2 then Returned true m2
              else resume_after_input std_sort fuel x m2
          end
      | other => other
      end.
Proof. reflexivity. Qed.

Lemma validate_end_true elapsed_ns x g mv :
  validate_end std_sort elapsed_ns x g = Some (true, mv) ->
  exists g2,
    processEpsilonTransitions std_sort (length x)
      (updateCapturePosition (length x) g) = Some g2
    /\ isInAcceptState g2 = true
    /\ captures_ mv = captures_ g2
    /\ current_state_ mv = current_state_ g2.
Proof.
  unfold validate_end.
  destruct (processEpsilonTransitions _ _ _) as [g2|]; [|discriminate].
  cbn [mbind option_bind].
  destruct (isInAcceptState g2) eqn:Hacc; cbn [negb]; [|discriminate].
  intros [= <-]. exists g2. repeat split; try reflexivity. exact Hacc.
Qed.

(** C5.  If the greedy [validate] accepts an input, then
    [validateWithBacktracking] accepts it too: with the steps the input
    needs it returns [true], in the same state and with the same closed
    captures. *)
Theorem greedy_success_backtracking_success elapsed_ns x m mv :
  validate std_sort elapsed_ns x m = Some (true, mv) ->
  exists mb,
    (forall fuel, length x + 2 <= fuel ->
       validateWithBacktracking_fuel std_sort fuel x m = Returned true mb)
    /\ captures_ mb = captures_ mv
    /\ current_state_ mb = current_state_ mv.
Proof.
  rewrite validate_unfold.
  destruct (isValid (start_state_ m)) eqn:Hvalid; cbn [negb]; [|discriminate].
  destruct (validate_loop std_sort x 0 (validate_begin x m))
    as [[[] g1]|] eqn:Eloop; try discriminate.
  intros Hend. apply validate_end_true in Hend as (g2 & Heps & Hacc & Hcap & Hcur).
  destruct (backtracking_loop_follows_greedy x [] x (validate_begin x m) g1
              (fun y => y) eq_refl Frame_id Eloop)
    as (T' & HT' & Hbt).
  exists (T' g2). split; [|split].
  - intros fuel Hfuel.
    destruct fuel as [|fuel]; [lia|].
    rewrite validateWithBacktracking_unfold, Hvalid. cbn [negb].
    rewrite backtracking_begin_validate_begin.
    change (validate_begin x m)
      with (updateCapturePosition (@length byte []) (validate_begin x m)) at 1.
    rewrite Hbt by (simpl; lia).
    rewrite (frame_updateCapturePosition _ HT').
    change (updateCapturePosition (length x) (updateCapturePosition (length x) g1))
      with (updateCapturePosition (length x) g1).
    rewrite (frame_processEpsilonTransitions _ _ HT'), Heps.
    cbn [fmap option_fmap option_map].
    now rewrite (frame_isInAcceptState _ HT'), Hacc.
  - now rewrite (frame_captures _ HT').
  - now rewrite (frame_current_state _ HT').
Qed.

End GreedyBacktracking.

(** ** What callbacks leave alone *)

Lemma capture_footprint_refl m : capture_footprint m m.
Proof. destruct m; reflexivity. Qed.

Lemma capture_footprint_trans m1 m2 m3 :
  capture_footprint m1 m2 -> capture_footprint m2 m3 -> capture_footprint m1 m3.
Proof.
  unfold capture_footprint. intros H12 H23.
  rewrite H23 at 1. rewrite H12 at 1. reflexivity.
Qed.

Lemma capture_footprint_beginCapture name m m' :
  beginCapture name m = Some m' -> capture_footprint m m'.
Proof.
  unfold beginCapture. destruct (existsb _ _); [discriminate|].
  intros [= <-]. destruct m; reflexivity.
Qed.

Lemma capture_footprint_endCapture name m c m' :
  endCapture name m = Some (c, m') -> capture_footprint m m'.
Proof.
  unfold endCapture. destruct (List.find _ _); [|discriminate].
  intros [= <- <-]. reflexivity.
Qed.

Lemma capture_footprint_run_op op m m' :
  run_op op m = Some m' -> capture_footprint m m'.
Proof.
  revert m'. induction op as [name|name|op IH]; simpl; intros m' H.
  - eauto using capture_footprint_beginCapture.
  - destruct (endCapture name m) as [[c m1]|] eqn:E; simpl in H; [|discriminate].
    injection H as <-. eauto using capture_footprint_endCapture.
  - destruct (run_op op m) as [m1|].
    + injection H as <-. auto.
    + injection H as <-. apply capture_footprint_refl.
Qed.

Lemma capture_footprint_run_ops ops m m' :
  run_ops ops m = Some m' -> capture_footprint m m'.
Proof.
  revert m. induction ops as [|op ops IH]; simpl; intros m H.
  - injection H as <-. apply capture_footprint_refl.
  - destruct (run_op op m) as [m1|] eqn:E; simpl in H; [|discriminate].
    eapply capture_footprint_trans; [eapply capture_footprint_run_op; eauto|eauto].
Qed.

Lemma capture_footprint_fire {Ctx} (cb : option (Ctx -> list CaptureOp)) ctx m m' :
  fire cb ctx m = Some m' -> capture_footprint m m'.
Proof.
  destruct cb; simpl.
  - apply capture_footprint_run_ops.
  - intros [= <-]. apply capture_footprint_refl.
Qed.

Lemma capture_footprint_fire_exit s p ch m m' :
  fire_exit s p ch m = Some m' -> capture_footprint m m'.
Proof.
  unfold fire_exit. destruct (states_ m !! sid_id s).
  - apply capture_footprint_fire.
  - intros [= <-]. apply capture_footprint_refl.
Qed.

Lemma capture_footprint_fire_entry s p ch m m' :
  fire_entry s p ch m = Some m' -> capture_footprint m m'.
Proof.
  unfold fire_entry. destruct (states_ m !! sid_id s).
  - apply capture_footprint_fire.
  - intros [= <-]. apply capture_footprint_refl.
Qed.

Lemma capture_footprint_current_state m m' :
  capture_footprint m m' -> current_state_ m' = current_state_ m.
Proof. intros ->. reflexivity. Qed.

(** The callbacks of a move cannot redirect it: after [takeTransition] the
    machine is in the target of the transition taken. *)
Lemma takeTransition_current_state trans ch p m m' :
  takeTransition trans ch p m = Some m' -> current_state_ m' = t_to trans.
Proof.
  unfold takeTransition. intros H.
  destruct (if negb _ then fire_exit _ _ _ _ else Some m) as [m1|];
    simpl in H; [|discriminate].
  destruct (fire (on_transition trans) _ m1) as [m2|]; simpl in H; [|discriminate].
  destruct (if negb _ then fire_entry _ _ _ _ else Some _) as [m4|] eqn:E4;
    simpl in H; [|discriminate].
  injection H as <-.
  change (current_state_ m4 = t_to trans).
  destruct (negb _).
  - apply capture_footprint_fire_entry, capture_footprint_current_state in E4.
    exact E4.
  - now injection E4 as <-.
Qed.

Lemma takeEpsilon_current_state trans p m m' :
  takeEpsilon trans p m = Some m' -> current_state_ m' = t_to trans.
Proof.
  unfold takeEpsilon. intros H.
  destruct (fire_exit _ _ _ m) as [m1|]; simpl in H; [|discriminate].
  destruct (fire (on_transition trans) _ m1) as [m2|]; simpl in H; [|discriminate].
  destruct (fire_entry _ _ _ _) as [m4|] eqn:E4; simpl in H; [|discriminate].
  injection H as <-.
  change (current_state_ m4 = t_to trans).
  apply capture_footprint_fire_entry, capture_footprint_current_state in E4.
  exact E4.
Qed.

Lemma takeTransition_epsilon_count trans ch p m m' :
  takeTransition trans ch p m = Some m' ->
  epsilon_transitions (metrics_ m') = epsilon_transitions (metrics_ m).
Proof.
  unfold takeTransition. intros H.
  destruct (if negb _ then fire_exit _ _ _ _ else Some m) as [m1|] eqn:E1;
    simpl in H; [|discriminate].
  assert (capture_footprint m m1) as F1.
  { destruct (negb _); [eauto using capture_footprint_fire_exit|].
    injection E1 as <-. apply capture_footprint_refl. }
  destruct (fire (on_transition trans) _ m1) as [m2|] eqn:E2;
    simpl in H; [|discriminate].
  apply capture_footprint_fire in E2.
  destruct (if negb _ then fire_entry _ _ _ _ else Some _) as [m4|] eqn:E4;
    simpl in H; [|discriminate].
  assert (capture_footprint (set_current_state_ (t_to trans) m2) m4) as F4.
  { destruct (negb _); [eauto using capture_footprint_fire_entry|].
    injection E4 as <-. apply capture_footprint_refl. }
  injection H as <-.
  cbn [metrics_ set_trace_ set_metrics_].
  assert (metrics_ m4 = metrics_ m) as Hm.
  { rewrite F4. cbn. rewrite E2. cbn. rewrite F1. reflexivity. }
  rewrite Hm. now destruct (hasCollectMetrics _).
Qed.

(** ** Character classes *)

Lemma bit_index_range (x : byte) : (0 <= bit_index x < 256)%Z.
Proof.
  unfold bit_index. pose proof (Byte.to_N_bounded x). lia.
Qed.

Lemma all_bits_testbit (x : byte) : Z.testbit all_bits (bit_index x) = true.
Proof.
  unfold all_bits. apply Z.ones_spec_low. pose proof (bit_index_range x). lia.
Qed.

(** C9.  For all classes [a], [b] and every byte [x]: the complement
    matches [x] exactly when [a] does not, the union exactly when [a] or
    [b] does, the intersection exactly when both do.  The three operations
    are [const] members that build their result in a fresh object; the
    embedding renders them as functions, which leave [a] and [b] as they
    were. *)
Theorem set_operations_pointwise (a b : ABNF) (x : byte) :
  matches (complement a) x = negb (matches a x)
  /\ matches (unionWith a b) x = matches a x || matches b x
  /\ matches (intersectWith a b) x = matches a x && matches b x.
Proof.
  unfold matches, complement, unionWith, intersectWith; cbn.
  rewrite Z.lxor_spec, Z.lor_spec, Z.land_spec, all_bits_testbit.
  now destruct (Z.testbit (char_set_ a) (bit_index x)).
Qed.

(** The results stay within the 256 positions of the bitset. *)
Lemma complement_wf (a : ABNF) : wf a -> wf (complement a).
Proof.
  unfold wf, complement, all_bits; cbn. intros [Hlo Hhi].
  assert (Hnn : (0 <= Z.lxor (char_set_ a) (Z.ones 256))%Z).
  { apply Z.lxor_nonneg. rewrite Z.ones_equiv. lia. }
  split; [exact Hnn|].
  destruct (Z.eq_dec (Z.lxor (char_set_ a) (Z.ones 256)) 0%Z) as [->|Hne]; [lia|].
  apply Z.log2_lt_pow2; [lia|].
  destruct (Z.lt_ge_cases (Z.log2 (Z.lxor (char_set_ a) (Z.ones 256))) 256%Z)
    as [?|Hge]; [assumption|exfalso].
  assert (Hpos : (0 < Z.lxor (char_set_ a) (Z.ones 256))%Z) by lia.
  pose proof (Z.bit_log2 _ Hpos) as Hbit.
  rewrite Z.lxor_spec, Z.ones_spec_high in Hbit by lia.
  rewrite Z.bits_above_log2 in Hbit; [discriminate|lia|].
  destruct (Z.eq_dec (char_set_ a) 0%Z) as [->|]; [simpl; lia|].
  assert (Z.log2 (char_set_ a) < 256)%Z by (apply Z.log2_lt_pow2; lia). lia.
Qed.

(** ** Choice points and [reset] *)

Lemma backtrack_loop_true_top stack : forall m m',
  backtrack_loop stack m = (true, m') ->
  exists cp rest t others,
    choice_stack_ m' = cp :: rest /\ remaining cp = t :: others.
Proof.
  induction stack as [|cp rest IH]; intros m m'; simpl; [discriminate|].
  destruct (remaining cp) as [|t others] eqn:E; [apply IH|].
  intros [= <-]. exists cp, rest, t, others. now split.
Qed.

(** [backtrack] answers [true] only with a choice point on top of the
    stack that has an alternative left. *)
Lemma backtrack_true_top m m' :
  backtrack m = (true, m') ->
  exists cp rest t others,
    choice_stack_ m' = cp :: rest /\ remaining cp = t :: others.
Proof. apply backtrack_loop_true_top. Qed.

(** The decision [shouldCreateChoicePoint] and [saveChoicePoint] take
    together on the non-empty list [trans :: alternatives]: a choice
    point is pushed exactly when there is more than one transition and
    the stack is below [max_backtrack_depth_] (0: no bound). *)
Lemma push_decision (m : FSM) (trans : Transition)
    (alternatives : list Transition) (position : nat) :
  let m' :=
    if shouldCreateChoicePoint m (trans :: alternatives)
    then saveChoicePoint alternatives position m else m in
  let pushed :=
    ((1 <=? length alternatives)
     && ((max_backtrack_depth_ m =? 0)
         || (length (choice_stack_ m) <? max_backtrack_depth_ m)))%nat in
  choice_stack_ m'
  = (if pushed
     then mkChoicePoint (current_state_ m) position alternatives
            (captures_ m) (active_captures_ m) (current_input_position_ m)
          :: choice_stack_ m
     else choice_stack_ m)
  /\ choice_points_created (backtracking_stats_ m')
     = (if pushed then S (choice_points_created (backtracking_stats_ m))
        else choice_points_created (backtracking_stats_ m)).
Proof.
  cbv zeta. unfold shouldCreateChoicePoint, saveChoicePoint.
  destruct alternatives as [|t2 rest]; [split; reflexivity|].
  cbn [length Nat.leb andb].
  replace (if isChoicePoint m (current_state_ m) then true
           else (1 <? S (S (length rest)))%nat) with true
    by now destruct (isChoicePoint _ _).
  destruct (Nat.eqb_spec (max_backtrack_depth_ m) 0) as [H0|H0].
  - rewrite H0. split; reflexivity.
  - destruct (Nat.ltb_spec 0 (max_backtrack_depth_ m)); [|lia].
    cbn [andb orb].
    destruct (Nat.leb_spec (max_backtrack_depth_ m) (length (choice_stack_ m)));
      destruct (Nat.ltb_spec (length (choice_stack_ m)) (max_backtrack_depth_ m));
      try lia; split; reflexivity.
Qed.

Section MainLoopChoicePoints.

Variable std_sort : list Transition -> list Transition.

Lemma backtracking_loop_S fuel input position m :
  backtracking_loop std_sort (S fuel) input position m
  = match nth_error input position with
    | None => Returned true m
    | Some ch =>
        let m1 := updateCapturePosition position m in
        let valid_transitions := getValidTransitions std_sort ch m1 in
        match valid_transitions with
        | [] =>
            let (found, m2) := backtrack m1 in
            match (if found then resume_in_loop ch m2 else None) with
            | Some (position', m3) =>
                backtracking_loop std_sort fuel input position' m3
            | None =>
                Returned false
                  (set_last_error_
                     (Some (no_matching_transition position ch m2)) m2)
            end
        | trans :: alternatives =>
            let m2 :=
              if shouldCreateChoicePoint m1 valid_transitions
              then saveChoicePoint alternatives position m1
              else m1 in
            match takeTransition trans ch position (count_path m2) with
            | None => Threw
            | Some m3 =>
                let m4 := recordCharInCaptures ch m3 in
                let m5 :=
                  set_current_input_position_
                    (S (current_input_position_ m4)) m4 in
                backtracking_loop std_sort fuel input (S position)
                  (count_character_if_enabled m5)
            end
        end
    end.
Proof. reflexivity. Qed.

Lemma getValidTransitions_updateCapturePosition ch position m :
  getValidTransitions std_sort ch (updateCapturePosition position m)
  = getValidTransitions std_sort ch m.
Proof. reflexivity. Qed.

Lemma saveChoicePoint_paths_explored alternatives position m :
  paths_explored (backtracking_stats_ (saveChoicePoint alternatives position m))
  = paths_explored (backtracking_stats_ m).
Proof. unfold saveChoicePoint. destruct (_ && _); reflexivity. Qed.

Lemma saveChoicePoint_position alternatives position m :
  current_input_position_ (saveChoicePoint alternatives position m)
  = current_input_position_ m.
Proof. unfold saveChoicePoint. destruct (_ && _); reflexivity. Qed.

(** C6 (as the code has it).  In every iteration of the main loop of
    [validateWithBacktracking] that finds the non-empty list
    [trans :: alternatives] of valid transitions for the byte at
    [position], the loop takes [trans]: it throws when the callbacks of
    that move throw, and goes on at the next position otherwise, with a
    machine whose choice stack has one more choice point exactly when
    there is more than one valid transition and the stack was below
    [max_backtrack_depth_] (0: no bound).  The choice point records the
    state, the position, the alternatives after the first and the
    captures of the iteration, and [choice_points_created] counts it.
    Otherwise the stack and the count are left as they were.  The
    choice-point flag of the current state has no part in it.
    ([getValidTransitions] is called nowhere else, and
    [validateWithBacktracking_unfold] shows the function entering this
    loop at position 0.) *)
Theorem main_loop_pushes_choice_point_iff (input : list byte)
    (position : nat) (ch : byte) (m : FSM) (trans : Transition)
    (alternatives : list Transition) :
  nth_error input position = Some ch ->
  getValidTransitions std_sort ch m = trans :: alternatives ->
  let pushed :=
    ((1 <=? length alternatives)
     && ((max_backtrack_depth_ m =? 0)
         || (length (choice_stack_ m) <? max_backtrack_depth_ m)))%nat in
  match takeTransition trans ch position
          (updateCapturePosition position m) with
  | None =>
      forall fuel,
        backtracking_loop std_sort (S fuel) input position m = Threw
  | Some _ =>
      exists m',
        (forall fuel,
           backtracking_loop std_sort (S fuel) input position m
           = backtracking_loop std_sort fuel input (S position) m')
        /\ current_state_ m' = t_to trans
        /\ current_input_position_ m' = S position
        /\ choice_stack_ m'
           = (if pushed
              then mkChoicePoint (current_state_ m) position alternatives
                     (captures_ m) (active_captures_ m) position
                   :: choice_stack_ m
              else choice_stack_ m)
        /\ choice_points_created (backtracking_stats_ m')
           = (if pushed
              then S (choice_points_created (backtracking_stats_ m))
              else choice_points_created (backtracking_stats_ m))
        /\ paths_explored (backtracking_stats_ m')
           = S (paths_explored (backtracking_stats_ m))
  end.
Proof.
  intros Hnth Hvalid. cbv zeta.
  pose proof (push_decision (updateCapturePosition position m) trans
                alternatives position) as Hpush.
  cbv zeta in Hpush.
  remember (if shouldCreateChoicePoint (updateCapturePosition position m)
                 (trans :: alternatives)
            then saveChoicePoint alternatives position
                   (updateCapturePosition position m)
            else updateCapturePosition position m) as m2 eqn:Em2.
  assert (forall fuel,
            backtracking_loop std_sort (S fuel) input position m
            = match takeTransition trans ch position (count_path m2) with
              | None => Threw
              | Some m3 =>
                  backtracking_loop std_sort fuel input (S position)
                    (count_character_if_enabled
                       (set_current_input_position_
                          (S (current_input_position_
                                (recordCharInCaptures ch m3)))
                          (recordCharInCaptures ch m3)))
              end) as Hstep.
  { intros fuel. rewrite backtracking_loop_S, Hnth. cbv zeta.
    rewrite getValidTransitions_updateCapturePosition, Hvalid.
    rewrite <- Em2. reflexivity. }
  assert (paths_explored (backtracking_stats_ m2)
          = paths_explored (backtracking_stats_ m)) as Hpaths.
  { rewrite Em2. destruct (shouldCreateChoicePoint _ _); [|reflexivity].
    rewrite saveChoicePoint_paths_explored. reflexivity. }
  assert (current_input_position_ m2 = position) as Hposm2.
  { rewrite Em2. destruct (shouldCreateChoicePoint _ _); [|reflexivity].
    rewrite saveChoicePoint_position. reflexivity. }
  assert (exists T, Frame T
                    /\ count_path m2 = T (updateCapturePosition position m))
    as (T & HT & ET).
  { destruct (saveChoicePoint_frame alternatives position (fun x => x)
                (updateCapturePosition position m) Frame_id)
      as (T1 & HT1 & E1).
    exists (fun x => set_backtracking_stats_
                       (stats_path (backtracking_stats_ m2))
                       (if shouldCreateChoicePoint
                             (updateCapturePosition position m)
                             (trans :: alternatives)
                        then T1 x else x)).
    split.
    - apply (Frame_compose (set_backtracking_stats_ _));
        [apply Frame_set_backtracking_stats|].
      destruct (shouldCreateChoicePoint _ _); [exact HT1|exact Frame_id].
    - unfold count_path. f_equal. rewrite Em2.
      destruct (shouldCreateChoicePoint _ _); [exact E1|reflexivity]. }
  clear Em2.
  rewrite ET, (frame_takeTransition T HT) in Hstep.
  destruct (takeTransition trans ch position
              (updateCapturePosition position m)) as [g|] eqn:Eg;
    [|exact Hstep].
  assert (takeTransition trans ch position (count_path m2) = Some (T g))
    as Et by (now rewrite ET, (frame_takeTransition T HT), Eg).
  change (T <$> Some g) with (Some (T g)) in Hstep.
  remember (T g) as m3 eqn:Em3. clear Em3.
  eexists. split; [exact Hstep|].
  pose proof (takeTransition_current_state _ _ _ _ _ Et) as Hcs.
  pose proof (footprint_takeTransition _ _ _ _ _ Et) as Hf.
  pose proof (footprint_choice_stack _ _ Hf) as Hst.
  pose proof (footprint_backtracking_stats _ _ Hf) as Hbs.
  pose proof (footprint_position _ _ Hf) as Hpos.
  destruct Hpush as [Hp1 Hp2].
  repeat split.
  - exact Hcs.
  - change (S (current_input_position_ m3) = S position).
    rewrite Hpos. f_equal. exact Hposm2.
  - change (choice_stack_ m3 = if (1 <=? length alternatives)%nat
                                   && ((max_backtrack_depth_ m =? 0)%nat
                                       || (length (choice_stack_ m)
                                           <? max_backtrack_depth_ m)%nat)
                                then mkChoicePoint (current_state_ m) position
                                       alternatives (captures_ m)
                                       (active_captures_ m) position
                                     :: choice_stack_ m
                                else choice_stack_ m).
    rewrite Hst. exact Hp1.
  - change (choice_points_created (backtracking_stats_ m3)
            = if (1 <=? length alternatives)%nat
                 && ((max_backtrack_depth_ m =? 0)%nat
                     || (length (choice_stack_ m)
                         <? max_backtrack_depth_ m)%nat)
              then S (choice_points_created (backtracking_stats_ m))
              else choice_points_created (backtracking_stats_ m)).
    rewrite Hbs. exact Hp2.
  - change (paths_explored (backtracking_stats_ m3)
            = S (paths_explored (backtracking_stats_ m))).
    rewrite Hbs. rewrite <- Hpaths. reflexivity.
Qed.

End MainLoopChoicePoints.

Lemma main_loop_pushes_choice_point_iff_witness :
  exists m',
    (forall fuel,
       backtracking_loop libstdcxx_sort (S fuel) (bytes "ac") 0
         (backtracking_begin (bytes "ac") two_paths_graph)
       = backtracking_loop libstdcxx_sort fuel (bytes "ac") 1 m')
    /\ current_state_ m' = sP1
    /\ choice_stack_ m'
       = [mkChoicePoint sSTART 0
            [Transition_rule 2 sSTART sP2 (of_char "a") PRIORITY_NORMAL]
            [] [] 0]
    /\ choice_points_created (backtracking_stats_ m') = 1
    /\ exists mb,
         validateWithBacktracking_fuel libstdcxx_sort 10 (bytes "ac")
           two_paths_graph = Returned true mb
         /\ backtracking_stats_ mb = mkBacktrackingStats 1 1 1 3.
Proof.
  assert (getValidTransitions libstdcxx_sort "a"
            (backtracking_begin (bytes "ac") two_paths_graph)
          = [Transition_rule 1 sSTART sP1 (of_char "a") PRIORITY_NORMAL;
             Transition_rule 2 sSTART sP2 (of_char "a") PRIORITY_NORMAL])
    as Hvalid by (vm_compute; reflexivity).
  pose proof (main_loop_pushes_choice_point_iff libstdcxx_sort (bytes "ac")
                0 "a" _ _ _ eq_refl Hvalid) as H.
  cbv zeta in H.
  assert (exists g,
            takeTransition
              (Transition_rule 1 sSTART sP1 (of_char "a") PRIORITY_NORMAL)
              "a" 0
              (updateCapturePosition 0
                 (backtracking_begin (bytes "ac") two_paths_graph))
            = Some g) as [g Eg] by (eexists; vm_compute; reflexivity).
  rewrite Eg in H.
  destruct H as (m' & Hloop & Hcs & _ & Hst & Hcr & _).
  exists m'. split; [exact Hloop|]. split; [exact Hcs|].
  split; [rewrite Hst; vm_compute; reflexivity|].
  split; [rewrite Hcr; vm_compute; reflexivity|].
  eexists. split; vm_compute; reflexivity.
Defined.

(** C6 (as stated) fails: the state CHOICE of
    [BacktrackingTest.UserDefinedChoicePoint] is flagged as a choice
    point, one transition admits [a] there, and nothing is pushed; the run
    on [1a] accepts without having created a choice point. *)
Lemma flagged_state_one_alternative_pushes_nothing :
  isChoicePoint at_choice_state (current_state_ at_choice_state) = true
  /\ length (getValidTransitions libstdcxx_sort "a" at_choice_state) = 1
  /\ shouldCreateChoicePoint at_choice_state
       (getValidTransitions libstdcxx_sort "a" at_choice_state) = false
  /\ exists mb,
       validateWithBacktracking_fuel libstdcxx_sort 10 (bytes "1a")
         user_choice_graph = Returned true mb
       /\ current_state_ mb = sPATH1
       /\ choice_stack_ mb = []
       /\ choice_points_created (backtracking_stats_ mb) = 0.
Proof.
  repeat split; try (vm_compute; reflexivity).
  eexists. split; [vm_compute; reflexivity|].
  repeat split.
Qed.



(** ** The stream state *)

Lemma updateCapturePosition_same m :
  updateCapturePosition (current_input_position_ m) m = m.
Proof. now destruct m. Qed.

Section Streaming.

Variable std_sort : list Transition -> list Transition.

Lemma processCharImpl_unfold ch p m :
  processCharImpl std_sort ch p m
  = match List.find (admits ch)
            (getTransitionsFrom std_sort m (current_state_ m)) with
    | None =>
        Some (false,
              set_last_error_ (Some (no_matching_transition p ch m)) m)
    | Some best_match =>
        match takeTransition best_match ch p m with
        | None => None
        | Some m' => Some (true, m')
        end
    end.
Proof.
  unfold processCharImpl. destruct (List.find _ _); [|reflexivity].
  now destruct (takeTransition _ _ _ _).
Qed.

(** What [feed] does in streaming mode, read off the machine before the
    call: the stream state is not among the things it looks at. *)
Lemma feed_streaming_cases ch m :
  streaming_mode_ m = true ->
  match List.find (admits ch)
          (getTransitionsFrom std_sort m (current_state_ m)) with
  | None =>
      exists m',
        feed std_sort ch m = Some (ERROR, m')
        /\ stream_state_ m' = ERROR
        /\ current_state_ m' = current_state_ m
        /\ current_input_position_ m' = current_input_position_ m
        /\ captures_ m' = captures_ m
        /\ active_captures_ m' = active_captures_ m
  | Some t =>
      match takeTransition t ch (current_input_position_ m) m with
      | None => feed std_sort ch m = None
      | Some _ =>
          exists st m',
            feed std_sort ch m = Some (st, m')
            /\ st = (if isAcceptState m (t_to t) then COMPLETE
                     else WAITING_FOR_INPUT)
            /\ stream_state_ m' = st
            /\ current_state_ m' = t_to t
            /\ current_input_position_ m'
               = S (current_input_position_ m)
      end
  end.
Proof.
  intros Hmode. rewrite (feed_streaming std_sort ch m Hmode).
  rewrite feed_consume_unfold.
  pose proof (Frame_set_current_input (current_input_ m ++ [ch])) as HT.
  rewrite (frame_position _ HT), (frame_updateCapturePosition _ HT),
          updateCapturePosition_same, (frame_processCharImpl _ _ HT).
  rewrite processCharImpl_unfold.
  destruct (List.find _ _) as [t|].
  - destruct (takeTransition t ch (current_input_position_ m) m) as [m1|] eqn:E;
      [|reflexivity].
    cbn [fmap option_fmap option_map prod_map fst snd]. cbn zeta.
    pose proof (takeTransition_current_state _ _ _ _ _ E) as Hcur.
    apply footprint_takeTransition in E.
    pose proof (footprint_position _ _ E) as Hpos.
    pose proof (footprint_accept_states _ _ E) as Hacc.
    set (st := if isInAcceptState _ then COMPLETE else WAITING_FOR_INPUT).
    eexists st, _. split; [reflexivity|].
    split.
    { unfold st, isInAcceptState, isAcceptState. cbn.
      now rewrite Hcur, Hacc. }
    split; [reflexivity|]. split; [cbn; exact Hcur|].
    cbn. now rewrite Hpos.
  - cbn [fmap option_fmap option_map prod_map fst snd].
    eexists. split; [reflexivity|]. repeat split.
Qed.

(** C7 (as the code has it).  [feed] does not look at the stream state.
    Called on a machine whose stream state is ERROR, it answers ERROR once
    more and stays put when no CLASS transition of the current state
    admits the byte; when one does, it takes it as in any other call: the
    machine moves to the target, the position advances by one, and the
    answer is COMPLETE or WAITING_FOR_INPUT (unless a callback of the move
    throws). *)
Theorem feed_after_error ch m :
  stream_state_ m = ERROR -> streaming_mode_ m = true ->
  match List.find (admits ch)
          (getTransitionsFrom std_sort m (current_state_ m)) with
  | None =>
      exists m',
        feed std_sort ch m = Some (ERROR, m')
        /\ stream_state_ m' = ERROR
        /\ current_state_ m' = current_state_ m
        /\ current_input_position_ m' = current_input_position_ m
  | Some t =>
      match takeTransition t ch (current_input_position_ m) m with
      | None => feed std_sort ch m = None
      | Some _ =>
          exists st m',
            feed std_sort ch m = Some (st, m')
            /\ st = (if isAcceptState m (t_to t) then COMPLETE
                     else WAITING_FOR_INPUT)
            /\ stream_state_ m' = st
            /\ current_state_ m' = t_to t
            /\ current_input_position_ m'
               = S (current_input_position_ m)
      end
  end.
Proof.
  intros _ Hmode. pose proof (feed_streaming_cases ch m Hmode) as H.
  destruct (List.find _ _) as [t|]; [exact H|].
  destruct H as (m' & ? & ? & ? & ? & _). eauto.
Qed.

End Streaming.

(** C7 (as stated) fails on the machine of scenario S1: fed [a] it
    answers ERROR; fed [5] next, without a reset, it answers COMPLETE,
    has moved from START to A and has advanced its position. *)
Lemma error_is_not_terminal :
  stream_state_ digits_graph_after_error = ERROR
  /\ current_state_ digits_graph_after_error = sSTART
  /\ current_input_position_ digits_graph_after_error = 0
  /\ exists s,
       feed libstdcxx_sort "5" digits_graph_after_error = Some (COMPLETE, s)
       /\ stream_state_ s = COMPLETE
       /\ current_state_ s = sA
       /\ current_input_position_ s = 1.
Proof.
  repeat split; try (vm_compute; reflexivity).
  eexists. split; [vm_compute; reflexivity|]. repeat split.
Qed.

(** The machine of scenario S1 in the stream state ERROR, fed [5]. *)
Lemma feed_after_error_witness :
  exists st m',
    feed libstdcxx_sort "5" digits_graph_after_error = Some (st, m')
    /\ st = COMPLETE
    /\ stream_state_ m' = st
    /\ current_state_ m' = sA
    /\ current_input_position_ m' = 1.
Proof.
  exact (feed_after_error libstdcxx_sort "5"%byte digits_graph_after_error
           eq_refl eq_refl).
Defined.

(** ** Acceptance *)

Ltac exec_rw HT :=
  repeat first
    [ progress frame_rw (ef_frame _ HT)
    | rewrite (ef_start_state _ HT)
    | rewrite (ef_choice_stack _ HT)
    | rewrite (ef_backtracking_stats _ HT)
    | rewrite (ef_max_backtrack_depth _ HT)
    | rewrite (ef_streaming_mode _ HT)
    | rewrite (ef_current_input _ HT)
    | rewrite (ef_isChoicePoint _ HT)
    | rewrite <- (ef_set_choice_stack _ HT)
    | rewrite <- (ef_set_backtracking_stats _ HT)
    | rewrite <- (ef_set_current_input _ HT)
    | rewrite <- (ef_set_start_state _ HT)
    | rewrite <- (ef_set_stream_state _ HT)
    | rewrite <- (ef_set_streaming_mode _ HT) ].

Lemma retype_lookup f m k :
  states_ (retype f m) !! k
  = (fun st => State_set_type (f (st_type st)) st) <$> (states_ m !! k).
Proof. unfold retype. cbn [states_ set_states_]. apply lookup_fmap. Qed.

Lemma Frame_retype f : Frame (retype f).
Proof.
  split; try reflexivity.
  - intros m k. rewrite retype_lookup. now destruct (states_ m !! k).
  - intros m k. rewrite retype_lookup. now destruct (states_ m !! k).
Qed.

Lemma ExecFrame_retype f : ExecFrame (retype f).
Proof.
  split; try reflexivity; [apply Frame_retype|].
  intros m s. unfold isChoicePoint. rewrite retype_lookup.
  now destruct (states_ m !! sid_id s).
Qed.

Lemma reset_unfold m :
  reset m
  = set_backtracking_stats_ BacktrackingStats_reset
      (set_choice_stack_ []
         (set_streaming_mode_ false
            (set_stream_state_ READY
               (set_current_input_ []
                  (set_current_input_position_ 0
                     (set_metrics_
                        (if hasCollectMetrics (debug_config_ m)
                         then Metrics_reset else metrics_ m)
                        (set_trace_
                           (if hasTraceTransitions (debug_config_ m)
                               || hasTraceStateChanges (debug_config_ m)
                            then [] else trace_ m)
                           (set_last_error_ None
                              (set_current_state_ (start_state_ m) m))))))))).
Proof. reflexivity. Qed.

Section ExecFrameLemmas.

Variable std_sort : list Transition -> list Transition.
Variable T : FSM -> FSM.
Hypothesis HT : ExecFrame T.

Lemma ef_reset m : reset (T m) = T (reset m).
Proof. rewrite !reset_unfold. now exec_rw HT. Qed.

Lemma ef_validate_begin x m : validate_begin x (T m) = T (validate_begin x m).
Proof.
  unfold validate_begin, clearCaptures, updateCapturePosition.
  rewrite ef_reset. now exec_rw HT.
Qed.

Lemma ef_backtracking_begin x m :
  backtracking_begin x (T m) = T (backtracking_begin x m).
Proof.
  unfold backtracking_begin, clearCaptures, updateCapturePosition.
  rewrite ef_reset. now exec_rw HT.
Qed.

Lemma ef_validate_end elapsed_ns x m :
  validate_end std_sort elapsed_ns x (T m)
  = prod_map (fun b => b) T <$> validate_end std_sort elapsed_ns x m.
Proof.
  pose proof (ef_frame _ HT) as HF.
  unfold validate_end, not_in_accept_state.
  rewrite (frame_updateCapturePosition _ HF),
          (frame_processEpsilonTransitions _ _ HF).
  destruct (processEpsilonTransitions std_sort (length x) _) as [m2|];
    [|reflexivity].
  cbn [fmap option_fmap option_map mbind option_bind].
  rewrite (frame_isInAcceptState _ HF).
  destruct (isInAcceptState m2); cbn [negb prod_map fst snd];
    now frame_rw HF.
Qed.

Lemma ef_validate elapsed_ns x m :
  validate std_sort elapsed_ns x (T m)
  = prod_map (fun b => b) T <$> validate std_sort elapsed_ns x m.
Proof.
  pose proof (ef_frame _ HT) as HF.
  rewrite !validate_unfold, (ef_start_state _ HT), ef_validate_begin.
  destruct (negb (isValid (start_state_ m))).
  - unfold no_start_state. now frame_rw HF.
  - rewrite (frame_validate_loop _ _ HF).
    destruct (validate_loop std_sort x 0 (validate_begin x m))
      as [[[] m1]|]; cbn [fmap option_fmap option_map prod_map fst snd];
      [apply ef_validate_end|reflexivity|reflexivity].
Qed.

Lemma ef_endOfStream m :
  endOfStream std_sort (T m)
  = prod_map (fun st => st) T <$> endOfStream std_sort m.
Proof.
  pose proof (ef_frame _ HT) as HF.
  unfold endOfStream, not_in_accept_state.
  rewrite (ef_streaming_mode _ HT).
  destruct (negb (streaming_mode_ m)).
  - now exec_rw HT.
  - rewrite (frame_position _ HF), (frame_processEpsilonTransitions _ _ HF).
    destruct (processEpsilonTransitions std_sort _ m) as [m1|];
      [|reflexivity].
    cbn [fmap option_fmap option_map mbind option_bind].
    rewrite (frame_isInAcceptState _ HF).
    destruct (isInAcceptState m1); cbn [negb prod_map fst snd];
      now exec_rw HT.
Qed.

Lemma ef_feed_consume ch m :
  feed_consume std_sort ch (T m)
  = prod_map (fun st => st) T <$> feed_consume std_sort ch m.
Proof.
  pose proof (ef_frame _ HT) as HF.
  rewrite !feed_consume_unfold.
  rewrite (frame_position _ HF), (frame_updateCapturePosition _ HF),
          (frame_processCharImpl _ _ HF).
  destruct (processCharImpl std_sort ch _ _) as [[[] m1]|];
    cbn [fmap option_fmap option_map prod_map fst snd]; cbn zeta;
    [|now exec_rw HT|reflexivity].
  rewrite (frame_position _ HF), (frame_count_character_if_enabled _ HF),
          (frame_recordCharInCaptures _ HF),
          (frame_updateCapturePosition _ HF), (frame_isInAcceptState _ HF).
  now exec_rw HT.
Qed.

Lemma ef_feed ch m :
  feed std_sort ch (T m) = prod_map (fun st => st) T <$> feed std_sort ch m.
Proof.
  unfold feed, no_start_state. rewrite (ef_streaming_mode _ HT).
  destruct (negb (streaming_mode_ m)).
  - cbn zeta. exec_rw HT.
    set (m1 := set_current_input_ _
                 (set_stream_state_ _ (set_streaming_mode_ _ m))).
    destruct (negb (isValid (start_state_ m1))); [reflexivity|].
    apply ef_feed_consume.
  - exec_rw HT. apply ef_feed_consume.
Qed.

Lemma ef_getValidTransitions ch m :
  getValidTransitions std_sort ch (T m) = getValidTransitions std_sort ch m.
Proof.
  pose proof (ef_frame _ HT) as HF. unfold getValidTransitions.
  now rewrite (frame_getTransitionsFrom _ _ HF), (frame_current_state _ HF).
Qed.

Lemma ef_shouldCreateChoicePoint m valid :
  shouldCreateChoicePoint (T m) valid = shouldCreateChoicePoint m valid.
Proof. unfold shouldCreateChoicePoint. now exec_rw HT. Qed.

Lemma ef_saveChoicePoint alternatives position m :
  saveChoicePoint alternatives position (T m)
  = T (saveChoicePoint alternatives position m).
Proof.
  unfold saveChoicePoint. exec_rw HT.
  destruct (_ && _); [reflexivity|]. cbn zeta. now exec_rw HT.
Qed.

Lemma ef_count_path m : count_path (T m) = T (count_path m).
Proof. unfold count_path. now exec_rw HT. Qed.

Lemma ef_restoreFromChoicePoint cp m :
  restoreFromChoicePoint cp (T m) = T (restoreFromChoicePoint cp m).
Proof. unfold restoreFromChoicePoint. now exec_rw HT. Qed.

Lemma ef_backtrack_loop stack m :
  backtrack_loop stack (T m)
  = prod_map (fun b => b) T (backtrack_loop stack m).
Proof.
  induction stack as [|cp rest IH]; simpl.
  - unfold prod_map; simpl. now exec_rw HT.
  - destruct (remaining cp); [exact IH|].
    unfold prod_map; simpl. rewrite <- (ef_set_choice_stack _ HT).
    rewrite ef_restoreFromChoicePoint. now exec_rw HT.
Qed.

Lemma ef_backtrack m :
  backtrack (T m) = prod_map (fun b => b) T (backtrack m).
Proof. unfold backtrack. rewrite (ef_choice_stack _ HT). apply ef_backtrack_loop. Qed.

Lemma ef_resume_in_loop ch m :
  resume_in_loop ch (T m)
  = prod_map (fun p => p) T <$> resume_in_loop ch m.
Proof.
  pose proof (ef_frame _ HT) as HF.
  unfold resume_in_loop. rewrite (ef_choice_stack _ HT).
  destruct (choice_stack_ m) as [|cp rest]; [reflexivity|].
  destruct (remaining cp) as [|next_trans others]; [reflexivity|].
  cbn zeta. cbn [fmap option_fmap option_map prod_map fst snd].
  rewrite <- (ef_set_choice_stack _ HT), <- (frame_set_current_state _ HF),
          ef_count_path, (frame_recordCharInCaptures _ HF),
          <- (frame_set_position _ HF),
          (frame_count_character_if_enabled _ HF).
  reflexivity.
Qed.

Lemma ef_backtracking_loop fuel input : forall position m,
  backtracking_loop std_sort fuel input position (T m)
  = Outcome_map T (backtracking_loop std_sort fuel input position m).
Proof.
  pose proof (ef_frame _ HT) as HF.
  induction fuel as [|fuel IH]; intros position m; [reflexivity|].
  cbn [backtracking_loop].
  destruct (nth_error input position) as [ch|]; [|reflexivity].
  cbn zeta.
  rewrite (frame_updateCapturePosition _ HF), ef_getValidTransitions.
  destruct (getValidTransitions std_sort ch _) as [|trans alternatives] eqn:Ev.
  - rewrite ef_backtrack.
    destruct (backtrack (updateCapturePosition position m)) as [found m2].
    cbn [prod_map fst snd].
    destruct found.
    + rewrite ef_resume_in_loop.
      destruct (resume_in_loop ch m2) as [[position' m3]|];
        cbn [fmap option_fmap option_map prod_map fst snd].
      * apply IH.
      * unfold no_matching_transition. cbn [Outcome_map]. now frame_rw HF.
    + unfold no_matching_transition. cbn [Outcome_map]. now frame_rw HF.
  - rewrite ef_shouldCreateChoicePoint, ef_saveChoicePoint.
    set (m1 := updateCapturePosition position m).
    set (push := shouldCreateChoicePoint m1 (trans :: alternatives)).
    replace (if push then T (saveChoicePoint alternatives position m1)
             else T m1)
      with (T (if push then saveChoicePoint alternatives position m1
               else m1)) by now destruct push.
    set (m2 := if push then _ else m1).
    rewrite ef_count_path, (frame_takeTransition _ HF).
    destruct (takeTransition trans ch position (count_path m2)) as [m3|];
      [|reflexivity].
    cbn [fmap option_fmap option_map].
    rewrite (frame_recordCharInCaptures _ HF), (frame_position _ HF),
            <- (frame_set_position _ HF),
            (frame_count_character_if_enabled _ HF).
    apply IH.
Qed.

End ExecFrameLemmas.

Section ExecFrameRuns.

Variable std_sort : list Transition -> list Transition.
Variable T : FSM -> FSM.
Hypothesis HT : ExecFrame T.

Lemma ef_not_in_accept_state_bt x m :
  set_last_error_ (Some (not_in_accept_state_bt x (T m))) (T m)
  = T (set_last_error_ (Some (not_in_accept_state_bt x m)) m).
Proof.
  pose proof (ef_frame _ HT) as HF.
  unfold not_in_accept_state_bt, not_in_accept_state. now frame_rw HF.
Qed.

Lemma ef_validateWithBacktracking_both fuel : forall x m,
  validateWithBacktracking_fuel std_sort fuel x (T m)
  = Outcome_map T (validateWithBacktracking_fuel std_sort fuel x m)
  /\ resume_after_input std_sort fuel x (T m)
     = Outcome_map T (resume_after_input std_sort fuel x m).
Proof.
  pose proof (ef_frame _ HT) as HF.
  induction fuel as [|fuel IH]; intros x m; [split; reflexivity|].
  assert (IHv := fun x m => proj1 (IH x m)).
  assert (IHr := fun x m => proj2 (IH x m)).
  clear IH. split.
  - rewrite !validateWithBacktracking_unfold.
    rewrite (ef_start_state _ HT), (ef_backtracking_begin _ HT).
    destruct (negb (isValid (start_state_ m))).
    + unfold no_start_state. cbn [Outcome_map]. now frame_rw HF.
    + rewrite (ef_backtracking_loop _ _ HT).
      destruct (backtracking_loop std_sort fuel x 0 (backtracking_begin x m))
        as [[] m1| |]; cbn [Outcome_map]; try reflexivity.
      rewrite (frame_updateCapturePosition _ HF),
              (frame_processEpsilonTransitions _ _ HF).
      destruct (processEpsilonTransitions std_sort (length x) _) as [m2|];
        cbn [fmap option_fmap option_map]; [|reflexivity].
      rewrite (frame_isInAcceptState _ HF).
      destruct (isInAcceptState m2); [reflexivity|apply IHr].
  - cbn [resume_after_input].
    rewrite (ef_backtrack _ HT).
    destruct (backtrack m) as [found m1]. cbn [prod_map fst snd].
    destruct found; [|cbn [Outcome_map]; now rewrite ef_not_in_accept_state_bt].
    rewrite (ef_choice_stack _ HT).
    destruct (choice_stack_ m1) as [|cp rest];
      [cbn [Outcome_map]; now rewrite ef_not_in_accept_state_bt|].
    destruct (remaining cp) as [|next_trans others].
    + rewrite <- (ef_set_choice_stack _ HT). apply IHr.
    + cbn zeta.
      rewrite <- (ef_set_choice_stack _ HT), (ef_count_path _ HT),
              <- (frame_set_current_state _ HF).
      set (m3 := set_current_state_ (t_to next_trans) _).
      destruct (length x <=? S (cp_position cp))%nat.
      * rewrite (frame_processEpsilonTransitions _ _ HF).
        destruct (processEpsilonTransitions std_sort (length x) m3) as [m4|];
          cbn [fmap option_fmap option_map]; [|reflexivity].
        rewrite (frame_isInAcceptState _ HF).
        destruct (isInAcceptState m4); [reflexivity|apply IHr].
      * rewrite (frame_current_state _ HF), (ef_start_state _ HT),
                <- (ef_set_start_state _ HT), IHv.
        destruct (validateWithBacktracking_fuel std_sort fuel _ _)
          as [success m4| |]; cbn [Outcome_map]; try reflexivity.
        rewrite <- (ef_set_start_state _ HT).
        destruct success; [reflexivity|apply IHr].
Qed.

Lemma ef_validateWithBacktracking fuel x m :
  validateWithBacktracking_fuel std_sort fuel x (T m)
  = Outcome_map T (validateWithBacktracking_fuel std_sort fuel x m).
Proof. apply ef_validateWithBacktracking_both. Qed.

End ExecFrameRuns.

Section Acceptance.

Variable std_sort : list Transition -> list Transition.

Lemma validate_end_flag elapsed_ns x g b mv :
  validate_end std_sort elapsed_ns x g = Some (b, mv) ->
  b = isInAcceptState mv.
Proof.
  unfold validate_end.
  destruct (processEpsilonTransitions std_sort (length x) _) as [m2|];
    [|discriminate].
  cbn [mbind option_bind].
  destruct (isInAcceptState m2) eqn:Hacc; cbn [negb]; intros [= <- <-];
    now cbn.
Qed.

Lemma validate_true_accept elapsed_ns x m mv :
  validate std_sort elapsed_ns x m = Some (true, mv) ->
  isInAcceptState mv = true.
Proof.
  rewrite validate_unfold.
  destruct (negb (isValid (start_state_ m))); [discriminate|].
  destruct (validate_loop std_sort x 0 (validate_begin x m))
    as [[[] m1]|]; try discriminate.
  intros H. symmetry. exact (validate_end_flag _ _ _ _ _ H).
Qed.

Lemma validate_false_at_end elapsed_ns x m mv :
  validate std_sort elapsed_ns x m = Some (false, mv) ->
  stopped_before_end mv = false ->
  isInAcceptState mv = false.
Proof.
  rewrite validate_unfold.
  destruct (negb (isValid (start_state_ m))).
  { intros [= <-]. discriminate. }
  destruct (validate_loop std_sort x 0 (validate_begin x m))
    as [[[] m1]|] eqn:Eloop; try discriminate.
  - intros H _. symmetry. exact (validate_end_flag _ _ _ _ _ H).
  - intros [= <-]. apply validate_loop_false in Eloop.
    unfold stopped_before_end. now rewrite Eloop.
Qed.

Lemma endOfStream_flag m st m' :
  streaming_mode_ m = true ->
  endOfStream std_sort m = Some (st, m') ->
  st = if isInAcceptState m' then COMPLETE else ERROR.
Proof.
  intros Hmode. unfold endOfStream. rewrite Hmode. cbn [negb].
  destruct (processEpsilonTransitions std_sort _ m) as [m1|];
    [|discriminate].
  cbn [mbind option_bind].
  destruct (isInAcceptState m1) eqn:Hacc; cbn [negb]; intros [= <- <-].
  - change (isInAcceptState (set_stream_state_ COMPLETE m1))
      with (isInAcceptState m1). now rewrite Hacc.
  - change (isInAcceptState (set_stream_state_ ERROR (set_last_error_ _ m1)))
      with (isInAcceptState m1). now rewrite Hacc.
Qed.

Lemma backtracking_true_accept_both fuel : forall x m mb,
  (validateWithBacktracking_fuel std_sort fuel x m = Returned true mb ->
   isInAcceptState mb = true)
  /\ (resume_after_input std_sort fuel x m = Returned true mb ->
      isInAcceptState mb = true).
Proof.
  induction fuel as [|fuel IH]; intros x m mb; [split; discriminate|].
  assert (IHv := fun x m mb => proj1 (IH x m mb)).
  assert (IHr := fun x m mb => proj2 (IH x m mb)).
  clear IH. split.
  - rewrite validateWithBacktracking_unfold.
    destruct (negb (isValid (start_state_ m))); [discriminate|].
    destruct (backtracking_loop std_sort fuel x 0 (backtracking_begin x m))
      as [[] m1| |]; try discriminate.
    destruct (processEpsilonTransitions std_sort (length x) _) as [m2|];
      [|discriminate].
    destruct (isInAcceptState m2) eqn:Hacc;
      [intros [= Heq]; now rewrite <- Heq|apply IHr].
  - cbn [resume_after_input].
    destruct (backtrack m) as [[] m1]; [|discriminate].
    destruct (choice_stack_ m1) as [|cp rest]; [discriminate|].
    destruct (remaining cp) as [|next_trans others]; [apply IHr|].
    cbn zeta.
    set (m3 := set_current_state_ (t_to next_trans) _).
    destruct (length x <=? S (cp_position cp))%nat.
    + destruct (processEpsilonTransitions std_sort (length x) m3) as [m4|];
        [|discriminate].
      destruct (isInAcceptState m4) eqn:Hacc;
        [intros [= Heq]; now rewrite <- Heq|apply IHr].
    + destruct (validateWithBacktracking_fuel std_sort fuel _ _)
        as [[] m4| |] eqn:Erec; try discriminate.
      * intros [= <-]. apply IHv in Erec.
        change (isInAcceptState (set_start_state_ (start_state_ m3) m4))
          with (isInAcceptState m4). exact Erec.
      * apply IHr.
Qed.

Lemma removeAcceptState_rejects s m :
  isAcceptState (removeAcceptState s m) s = false
  /\ states_ (removeAcceptState s m) = states_ m.
Proof.
  split; [|reflexivity].
  unfold isAcceptState, removeAcceptState. cbn [accept_states_ set_accept_states_].
  apply bool_decide_eq_false.
  rewrite elem_of_difference, elem_of_singleton. tauto.
Qed.

(** C10 (as the code has it).  No executor reads the [type] of a state:
    [validate], [validateWithBacktracking] and [endOfStream] answer the
    same, and leave the same machine but for the tags, when the tags are
    rewritten by any [f].  A run that succeeds ends in a state of the
    accept set; [validate], when it did not stop before the end of the
    input, and [endOfStream], in streaming mode, succeed exactly when the
    state they reach is in the accept set.  After [removeAcceptState(s)]
    the state [s] is not accepting and the states, their types included,
    are as before. *)
Theorem acceptance_by_accept_set (f : StateType -> StateType)
    (elapsed_ns fuel : nat) (x : list byte) (m : FSM) (s : StateID) :
  (validate std_sort elapsed_ns x (retype f m)
   = prod_map (fun b => b) (retype f) <$> validate std_sort elapsed_ns x m)
  /\ (validateWithBacktracking_fuel std_sort fuel x (retype f m)
      = Outcome_map (retype f)
          (validateWithBacktracking_fuel std_sort fuel x m))
  /\ (endOfStream std_sort (retype f m)
      = prod_map (fun st => st) (retype f) <$> endOfStream std_sort m)
  /\ (forall mv,
        validate std_sort elapsed_ns x m = Some (true, mv) ->
        isInAcceptState mv = true)
  /\ (forall mv,
        validate std_sort elapsed_ns x m = Some (false, mv) ->
        stopped_before_end mv = false -> isInAcceptState mv = false)
  /\ (forall mb,
        validateWithBacktracking_fuel std_sort fuel x m = Returned true mb ->
        isInAcceptState mb = true)
  /\ (forall st m',
        streaming_mode_ m = true ->
        endOfStream std_sort m = Some (st, m') ->
        st = if isInAcceptState m' then COMPLETE else ERROR)
  /\ isAcceptState (removeAcceptState s m) s = false
  /\ states_ (removeAcceptState s m) = states_ m.
Proof.
  pose proof (ExecFrame_retype f) as HT.
  split; [apply (ef_validate _ _ HT)|].
  split; [apply (ef_validateWithBacktracking _ _ HT)|].
  split; [apply (ef_endOfStream _ _ HT)|].
  split; [apply validate_true_accept|].
  split; [apply validate_false_at_end|].
  split; [intros mb; apply backtracking_true_accept_both|].
  split; [apply endOfStream_flag|].
  apply removeAcceptState_rejects.
Qed.

End Acceptance.

(** C10 (as stated) fails where a run ends in an accepting state without
    succeeding: [validate] on [12a] stops at [a] in the accepting state A
    of scenario S1 and answers [false]; [endOfStream] before any [feed]
    answers ERROR on a machine whose start state is accepting. *)
Lemma rejected_in_accepting_state :
  (exists mv,
     validate libstdcxx_sort 0 (bytes "12a") digits_graph = Some (false, mv)
     /\ current_state_ mv = sA
     /\ isInAcceptState mv = true)
  /\ (exists s,
        endOfStream libstdcxx_sort (reset start_accepting_graph)
        = Some (ERROR, s)
        /\ isInAcceptState s = true).
Proof.
  split; eexists; (split; [vm_compute; reflexivity|]);
    repeat split; vm_compute; reflexivity.
Qed.

(** The state A of scenario S1 accepts when tagged NORMAL and rejects,
    still tagged ACCEPT, once it is removed from the accept set. *)
Lemma acceptance_by_accept_set_witness :
  (exists mv,
     validate libstdcxx_sort 0 (bytes "123") digits_graph_untagged
     = Some (true, mv)
     /\ st_type <$> (states_ mv !! sid_id (current_state_ mv)) = Some NORMAL
     /\ isInAcceptState mv = true)
  /\ (exists mv,
        validate libstdcxx_sort 0 (bytes "123") digits_graph_removed
        = Some (false, mv)
        /\ st_type <$> (states_ mv !! sid_id (current_state_ mv))
           = Some ACCEPT
        /\ isInAcceptState mv = false).
Proof.
  split.
  - destruct (acceptance_by_accept_set libstdcxx_sort (fun t => t) 0 0
                (bytes "123") digits_graph_untagged sA)
      as (_ & _ & _ & Hsuccess & _).
    eexists. split; [vm_compute; reflexivity|].
    split; [vm_compute; reflexivity|].
    apply Hsuccess. vm_compute; reflexivity.
  - destruct (acceptance_by_accept_set libstdcxx_sort (fun t => t) 0 0
                (bytes "123") digits_graph_removed sA)
      as (_ & _ & _ & _ & Hfailure & _).
    eexists. split; [vm_compute; reflexivity|].
    split; [vm_compute; reflexivity|].
    apply Hfailure; vm_compute; reflexivity.
Defined.

(** ** Epsilon closure *)

Section Closure.

Variable std_sort : list Transition -> list Transition.

Lemma getTransitionsFrom_ext m1 m2 s :
  transitions_ m1 = transitions_ m2 ->
  getTransitionsFrom std_sort m1 s = getTransitionsFrom std_sort m2 s.
Proof. unfold getTransitionsFrom. now intros ->. Qed.

Lemma class_walk_ext m1 m2 x : forall s,
  transitions_ m1 = transitions_ m2 ->
  class_walk std_sort m1 x s = class_walk std_sort m2 x s.
Proof.
  induction x as [|ch rest IH]; intros s H; simpl; [reflexivity|].
  rewrite (getTransitionsFrom_ext m1 m2 s H).
  destruct (List.find _ _); [now apply IH|reflexivity].
Qed.

Lemma epsilon_path_ext m1 m2 fuel : forall visited s,
  transitions_ m1 = transitions_ m2 ->
  epsilon_path std_sort m1 fuel visited s
  = epsilon_path std_sort m2 fuel visited s.
Proof.
  induction fuel as [|fuel IH]; intros visited s H; simpl; [reflexivity|].
  rewrite (getTransitionsFrom_ext m1 m2 s H).
  destruct (List.find _ _); [f_equal; now apply IH|reflexivity].
Qed.

Lemma epsilon_walk_ext m1 m2 s :
  transitions_ m1 = transitions_ m2 ->
  epsilon_walk std_sort m1 s = epsilon_walk std_sort m2 s.
Proof.
  intros H. unfold epsilon_walk.
  now rewrite H, (epsilon_path_ext m1 m2 _ _ _ H).
Qed.

Lemma takeEpsilon_epsilon_transitions trans p m m' :
  takeEpsilon trans p m = Some m' -> transitions_ m' = transitions_ m.
Proof.
  intros H. apply footprint_takeEpsilon in H.
  now apply footprint_transitions.
Qed.

Lemma last_cons_default {A} (a d : A) l : List.last (a :: l) d = List.last l a.
Proof.
  revert a d. induction l as [|b l IH]; intros a d; [reflexivity|].
  change (List.last (b :: l) d = List.last (b :: l) a). now rewrite !IH.
Qed.

(** The loop of [processEpsilonTransitions] walks [epsilon_path]. *)
Lemma epsilon_loop_path fuel p : forall visited m m',
  epsilon_loop std_sort fuel p visited m = Some m' ->
  current_state_ m'
  = List.last (epsilon_path std_sort m fuel visited (current_state_ m))
              (current_state_ m).
Proof.
  induction fuel as [|fuel IH]; intros visited m m'; simpl.
  - now intros [= <-].
  - unfold next_epsilon.
    destruct (List.find _ _) as [trans|]; [|now intros [= <-]].
    destruct (takeEpsilon trans p m) as [m1|] eqn:E; [|discriminate].
    cbn [mbind option_bind]. intros H.
    pose proof (takeEpsilon_current_state _ _ _ _ E) as Hcur.
    pose proof (takeEpsilon_epsilon_transitions _ _ _ _ E) as Htr.
    apply IH in H. rewrite H, Hcur.
    rewrite (epsilon_path_ext m1 m _ _ _ Htr).
    now rewrite last_cons_default.
Qed.

Lemma processEpsilonTransitions_walk p m m' :
  processEpsilonTransitions std_sort p m = Some m' ->
  current_state_ m' = epsilon_walk std_sort m (current_state_ m).
Proof. apply epsilon_loop_path. Qed.

End Closure.

Section Greedy.

Variable std_sort : list Transition -> list Transition.

Lemma count_character_if_enabled_epsilon m :
  epsilon_transitions (metrics_ (count_character_if_enabled m))
  = epsilon_transitions (metrics_ m).
Proof.
  unfold count_character_if_enabled. cbn [metrics_ set_metrics_].
  now destruct (hasCollectMetrics _).
Qed.

(** A byte that is consumed takes one CLASS transition and nothing
    else: the machine is in the target of the transition chosen and has
    counted no epsilon move. *)
Lemma processCharImpl_moves ch p m m' :
  processCharImpl std_sort ch p m = Some (true, m') ->
  exists t,
    List.find (admits ch) (getTransitionsFrom std_sort m (current_state_ m))
    = Some t
    /\ takeTransition t ch p m = Some m'
    /\ current_state_ m' = t_to t
    /\ transitions_ m' = transitions_ m
    /\ epsilon_transitions (metrics_ m') = epsilon_transitions (metrics_ m).
Proof.
  rewrite processCharImpl_unfold.
  destruct (List.find _ _) as [t|]; [|discriminate].
  destruct (takeTransition t ch p m) as [m1|] eqn:E; [|discriminate].
  intros [= <-]. exists t. split; [reflexivity|]. split; [exact E|].
  split; [eapply takeTransition_current_state; eauto|].
  split; [eapply footprint_transitions, footprint_takeTransition; eauto|].
  eapply takeTransition_epsilon_count; eauto.
Qed.

Lemma validate_loop_class_walk x : forall i g g',
  validate_loop std_sort x i g = Some (true, g') ->
  class_walk std_sort g x (current_state_ g) = Some (current_state_ g')
  /\ transitions_ g' = transitions_ g
  /\ epsilon_transitions (metrics_ g') = epsilon_transitions (metrics_ g).
Proof.
  induction x as [|ch rest IH]; intros i g g'; simpl.
  - now intros [= <-].
  - destruct (processCharImpl std_sort ch i (updateCapturePosition i g))
      as [[[] g1]|] eqn:E; try discriminate.
    apply processCharImpl_moves in E.
    destruct E as (t & Hfind & _ & Hcur & Htr & Heps).
    change (current_state_ (updateCapturePosition i g))
      with (current_state_ g) in Hfind.
    rewrite (getTransitionsFrom_ext std_sort (updateCapturePosition i g) g)
      in Hfind by reflexivity.
    rewrite Hfind. intros H. apply IH in H.
    destruct H as (Hwalk & Htr' & Heps').
    change (current_state_ (recordCharInCaptures ch
                              (count_character_if_enabled g1)))
      with (current_state_ g1) in Hwalk.
    rewrite Hcur in Hwalk.
    rewrite (class_walk_ext std_sort _ g) in Hwalk
      by (cbn [transitions_ recordCharInCaptures set_active_captures_
                 count_character_if_enabled set_metrics_]; exact Htr).
    split; [exact Hwalk|]. split.
    + rewrite Htr'. exact Htr.
    + rewrite Heps'.
      change (metrics_ (recordCharInCaptures ch
                          (count_character_if_enabled g1)))
        with (metrics_ (count_character_if_enabled g1)).
      rewrite count_character_if_enabled_epsilon. exact Heps.
Qed.

Lemma feed_consume_moves ch T m st m' :
  Frame T ->
  feed_consume std_sort ch (T m) = Some (st, m') -> st <> ERROR ->
  exists t,
    List.find (admits ch) (getTransitionsFrom std_sort m (current_state_ m))
    = Some t
    /\ current_state_ m' = t_to t
    /\ transitions_ m' = transitions_ m
    /\ epsilon_transitions (metrics_ m') = epsilon_transitions (metrics_ m).
Proof.
  intros HT. rewrite feed_consume_unfold.
  rewrite (frame_position _ HT), (frame_updateCapturePosition _ HT),
          updateCapturePosition_same, (frame_processCharImpl _ _ HT).
  destruct (processCharImpl std_sort ch _ m) as [[[] g]|] eqn:E;
    cbn [fmap option_fmap option_map prod_map fst snd]; cbn zeta;
    [|intros [= <- _]; congruence|discriminate].
  apply processCharImpl_moves in E.
  destruct E as (t & Hfind & _ & Hcur & Htr & Heps).
  intros [= _ <-] _. exists t. split; [exact Hfind|].
  rewrite (frame_count_character_if_enabled _ HT),
          (frame_recordCharInCaptures _ HT),
          (frame_updateCapturePosition _ HT).
  cbn [current_state_ transitions_ metrics_ set_stream_state_].
  rewrite (frame_current_state _ HT), (frame_transitions _ HT),
          (frame_metrics _ HT).
  cbn [current_state_ transitions_ metrics_ recordCharInCaptures
       set_active_captures_ updateCapturePosition
       set_current_input_position_].
  rewrite count_character_if_enabled_epsilon.
  split; [exact Hcur|]. split; [exact Htr|exact Heps].
Qed.

(** [feed], when it does not answer ERROR, has taken one CLASS transition
    and no epsilon transition. *)
Lemma feed_moves ch m st m' :
  feed std_sort ch m = Some (st, m') -> st <> ERROR ->
  exists t,
    List.find (admits ch) (getTransitionsFrom std_sort m (current_state_ m))
    = Some t
    /\ current_state_ m' = t_to t
    /\ transitions_ m' = transitions_ m
    /\ epsilon_transitions (metrics_ m') = epsilon_transitions (metrics_ m).
Proof.
  destruct (streaming_mode_ m) eqn:Hmode.
  - rewrite (feed_streaming std_sort ch m Hmode).
    apply (feed_consume_moves ch (set_current_input_ _)).
    apply Frame_set_current_input.
  - destruct (isValid (start_state_ m)) eqn:Hvalid.
    + rewrite (feed_first std_sort ch m Hmode Hvalid).
      apply (feed_consume_moves ch
               (fun m => set_current_input_ _
                           (set_stream_state_ PROCESSING
                              (set_streaming_mode_ true m)))).
      apply (Frame_compose (set_current_input_ _));
        [apply Frame_set_current_input|].
      apply (Frame_compose (set_stream_state_ _));
        [apply Frame_set_stream_state|apply Frame_set_streaming_mode].
    + unfold feed. rewrite Hmode. cbn [negb].
      change (start_state_ (set_current_input_ (current_input_ m ++ [ch])
                (set_stream_state_ PROCESSING (set_streaming_mode_ true m))))
        with (start_state_ m).
      rewrite Hvalid. cbn [negb]. intros [= <- _]. congruence.
Qed.

Lemma feed_each_class_walk x : forall m states m',
  feed_each std_sort x m = Some (states, m') ->
  Forall (fun st => st <> ERROR) states ->
  class_walk std_sort m x (current_state_ m) = Some (current_state_ m')
  /\ transitions_ m' = transitions_ m
  /\ epsilon_transitions (metrics_ m') = epsilon_transitions (metrics_ m).
Proof.
  induction x as [|ch rest IH]; intros m states m'; simpl.
  - now intros [= <- <-].
  - destruct (feed std_sort ch m) as [[st m1]|] eqn:E; [|discriminate].
    destruct (feed_each std_sort rest m1) as [[states1 m2]|] eqn:E1;
      [|discriminate].
    intros [= <- <-] Hall. inversion Hall as [|? ? Hst Hall1]; subst.
    destruct (feed_moves _ _ _ _ E Hst) as (t & Hfind & Hcur & Htr & Heps).
    destruct (IH _ _ _ E1 Hall1) as (Hwalk & Htr1 & Heps1).
    rewrite Hfind. rewrite Hcur in Hwalk.
    rewrite (class_walk_ext std_sort m1 m _ _ Htr) in Hwalk.
    split; [exact Hwalk|]. split; congruence.
Qed.

End Greedy.

Section ClosurePlacement.

Variable std_sort : list Transition -> list Transition.

Lemma validate_end_state elapsed_ns x g b mv :
  validate_end std_sort elapsed_ns x g = Some (b, mv) ->
  current_state_ mv = epsilon_walk std_sort g (current_state_ g).
Proof.
  unfold validate_end.
  destruct (processEpsilonTransitions std_sort (length x) _) as [m2|] eqn:E;
    [|discriminate].
  apply processEpsilonTransitions_walk in E.
  cbn [mbind option_bind].
  destruct (isInAcceptState m2); cbn [negb]; intros [= _ <-];
    cbn [current_state_ set_last_error_ set_metrics_]; rewrite E;
    now apply epsilon_walk_ext.
Qed.

Lemma endOfStream_state m st m' :
  streaming_mode_ m = true ->
  endOfStream std_sort m = Some (st, m') ->
  current_state_ m' = epsilon_walk std_sort m (current_state_ m).
Proof.
  intros Hmode. unfold endOfStream. rewrite Hmode. cbn [negb].
  destruct (processEpsilonTransitions std_sort _ m) as [m1|] eqn:E;
    [|discriminate].
  apply processEpsilonTransitions_walk in E.
  cbn [mbind option_bind].
  destruct (isInAcceptState m1); cbn [negb]; intros [= _ <-];
    cbn [current_state_ set_last_error_ set_stream_state_]; exact E.
Qed.

(** C2 (as the code has it).  The greedy executor follows epsilon edges
    once, at the end of the input, and nowhere between two bytes.  A run of
    [validate] that did not stop before the end of the input has walked
    one CLASS transition per byte from the start state ([class_walk]) and
    then made the one closure of [processEpsilonTransitions]
    ([epsilon_walk]).  A streaming run whose feeds did not answer ERROR
    is, after the last [feed], in the state of [class_walk], has counted
    no epsilon move, and makes its closure in [endOfStream]. *)
Theorem closure_at_end_of_input_only (elapsed_ns : nat) (x : list byte)
    (m : FSM) (b : bool) (mv : FSM) (states : list StreamState)
    (s s' : FSM) (st : StreamState) :
  (validate std_sort elapsed_ns x m = Some (b, mv) ->
   stopped_before_end mv = false ->
   exists q,
     class_walk std_sort m x (start_state_ m) = Some q
     /\ current_state_ mv = epsilon_walk std_sort m q)
  /\ (feed_each std_sort x m = Some (states, s) ->
      Forall (fun st => st <> ERROR) states ->
      class_walk std_sort m x (current_state_ m) = Some (current_state_ s)
      /\ epsilon_transitions (metrics_ s) = epsilon_transitions (metrics_ m)
      /\ (streaming_mode_ s = true ->
          endOfStream std_sort s = Some (st, s') ->
          current_state_ s'
          = epsilon_walk std_sort m (current_state_ s))).
Proof.
  split.
  - rewrite validate_unfold.
    destruct (negb (isValid (start_state_ m))).
    { intros [= _ <-]. discriminate. }
    destruct (validate_loop std_sort x 0 (validate_begin x m))
      as [[[] g]|] eqn:Eloop; try discriminate.
    + intros Hend _.
      apply validate_loop_class_walk in Eloop.
      destruct Eloop as (Hwalk & Htr & _).
      exists (current_state_ g). split.
      * rewrite <- Hwalk. now apply class_walk_ext.
      * rewrite (validate_end_state _ _ _ _ _ Hend).
        apply epsilon_walk_ext. exact Htr.
    + intros [= _ <-]. apply validate_loop_false in Eloop.
      unfold stopped_before_end. now rewrite Eloop.
  - intros Hfeed Hall.
    destruct (feed_each_class_walk _ _ _ _ _ Hfeed Hall)
      as (Hwalk & Htr & Heps).
    split; [exact Hwalk|]. split; [exact Heps|].
    intros Hmode Hend.
    rewrite (endOfStream_state _ _ _ Hmode Hend).
    now apply epsilon_walk_ext.
Qed.

End ClosurePlacement.

(** C2 (as stated) fails on the machine of
    [StreamingTest.EndOfStream_Success].  After [feed('1')] the machine is
    in DIGITS although the epsilon edge to ACCEPT can be followed from
    there; [validate] accepts [12], which an executor that closes after
    every byte rejects, being in ACCEPT when [2] arrives. *)
Lemma no_closure_between_bytes :
  (exists s,
     feed libstdcxx_sort "1" (reset digits_epsilon_graph)
     = Some (WAITING_FOR_INPUT, s)
     /\ current_state_ s = sDIGITS
     /\ next_epsilon libstdcxx_sort {[sid_id (current_state_ s)]} s
        = Some (Transition_epsilon 3 sDIGITS sACCEPT))
  /\ verdict_of_validate
       (validate libstdcxx_sort 0 (bytes "12") digits_epsilon_graph)
     = Some (true, [])
  /\ verdict_of_validate
       (documented_validate libstdcxx_sort 0 (bytes "12")
          digits_epsilon_graph)
     = Some (false, []).
Proof.
  split; [|split; vm_compute; reflexivity].
  eexists. split; [vm_compute; reflexivity|].
  split; vm_compute; reflexivity.
Qed.

(** [validate] on [12]: two CLASS transitions to DIGITS, then the closure
    to ACCEPT. *)
Lemma closure_at_end_of_input_only_witness :
  validate libstdcxx_sort 0 (bytes "12") digits_epsilon_graph
  = Some (true, digits_epsilon_graph_after_12)
  /\ exists q,
       class_walk libstdcxx_sort digits_epsilon_graph (bytes "12")
         (start_state_ digits_epsilon_graph) = Some q
       /\ current_state_ digits_epsilon_graph_after_12
          = epsilon_walk libstdcxx_sort digits_epsilon_graph q.
Proof.
  split; [vm_compute; reflexivity|].
  apply (closure_at_end_of_input_only libstdcxx_sort 0 (bytes "12")
           digits_epsilon_graph true digits_epsilon_graph_after_12 []
           digits_epsilon_graph digits_epsilon_graph READY);
    vm_compute; reflexivity.
Defined.

Lemma size_list_to_set_le (l : list N) :
  size (list_to_set l : gset N) <= length l.
Proof.
  induction l as [|a l IH]; cbn [list_to_set length].
  - rewrite size_empty. lia.
  - rewrite size_union_alt, size_singleton.
    assert (list_to_set l ∖ {[a]} ⊆ (list_to_set l : gset N)) as Hsub
      by (intros k Hk; apply elem_of_difference in Hk; tauto).
    apply subseteq_size in Hsub. lia.
Qed.

Section Sorted.

Variable std_sort : list Transition -> list Transition.
Hypothesis std_sort_ok : std_sort_contract std_sort.

(** After [rebuildTransitionMap] the vector of a state holds exactly its
    outgoing transitions. *)
Lemma getTransitionsFrom_In m s t :
  List.In t (getTransitionsFrom std_sort m s)
  <-> List.In t (transitions_ m) /\ StateID_eqb (t_from t) s = true.
Proof.
  unfold getTransitionsFrom.
  rewrite <- (filter_In (fun t => StateID_eqb (t_from t) s)).
  destruct (List.filter _ (transitions_ m)) as [|a l] eqn:E; [reflexivity|].
  destruct (std_sort_ok (a :: l)) as [Hperm _].
  split; intros H.
  - eapply Permutation_in; [exact Hperm|exact H].
  - eapply Permutation_in; [symmetry; exact Hperm|exact H].
Qed.

Lemma transition_targets_In m t :
  List.In t (transitions_ m) -> sid_id (t_to t) ∈ transition_targets m.
Proof.
  intros H. unfold transition_targets. apply elem_of_list_to_set.
  apply list_elem_of_In, in_map_iff. eauto.
Qed.

Lemma epsilon_path_closed_from m fuel : forall visited s,
  size (transition_targets m ∖ visited) < fuel ->
  forall t,
    List.In t (getTransitionsFrom std_sort m
                 (List.last (epsilon_path std_sort m fuel visited s) s)) ->
    is_EPSILON t = true ->
    sid_id (t_to t)
    ∈ visited
      ∪ list_to_set (sid_id <$> epsilon_path std_sort m fuel visited s).
Proof.
  induction fuel as [|fuel IH]; intros visited s Hsize t; [lia|].
  cbn [epsilon_path].
  destruct (List.find _ (getTransitionsFrom std_sort m s)) as [t0|] eqn:Efind.
  - apply find_some in Efind. destruct Efind as [Hin Hpred].
    apply andb_prop in Hpred. destruct Hpred as [_ Hnew].
    apply negb_true_iff, bool_decide_eq_false in Hnew.
    apply getTransitionsFrom_In in Hin. destruct Hin as [Hin _].
    apply transition_targets_In in Hin.
    rewrite last_cons_default. intros Ht Heps.
    assert (size (transition_targets m ∖ ({[sid_id (t_to t0)]} ∪ visited))
            < fuel) as Hsize'.
    { pose proof (subset_size
                    (transition_targets m ∖ ({[sid_id (t_to t0)]} ∪ visited))
                    (transition_targets m ∖ visited)) as Hlt.
      assert (transition_targets m ∖ ({[sid_id (t_to t0)]} ∪ visited)
              ⊂ transition_targets m ∖ visited) as Hsub.
      { split.
        - intros k Hk. apply elem_of_difference in Hk.
          destruct Hk as [Hk Hnot]. apply elem_of_difference.
          split; [exact Hk|]. intros Hv. apply Hnot.
          apply elem_of_union. now right.
        - intros Hsup.
          assert (sid_id (t_to t0) ∈ transition_targets m ∖ visited) as Hel
            by (apply elem_of_difference; auto).
          apply Hsup, elem_of_difference in Hel. destruct Hel as [_ Hnot].
          apply Hnot, elem_of_union. left. now apply elem_of_singleton. }
      specialize (Hlt Hsub). lia. }
    specialize (IH _ _ Hsize' t Ht Heps).
    cbn [fmap list_fmap list_to_set]. fold (@fmap list _ _ _ sid_id).
    apply elem_of_union in IH. apply elem_of_union.
    destruct IH as [IH|IH].
    + apply elem_of_union in IH. destruct IH as [IH|IH].
      * right. apply elem_of_union. now left.
      * now left.
    + right. apply elem_of_union. now right.
  - cbn [List.last]. intros Ht Heps.
    pose proof (find_none _ _ Efind t Ht) as Hpred. cbn beta in Hpred.
    rewrite Heps in Hpred. cbn [andb] in Hpred.
    apply negb_false_iff, bool_decide_eq_true in Hpred.
    apply elem_of_union. now left.
Qed.

(** X3.  The one closure of [processEpsilonTransitions] is carried to its
    end: the bound of the embedding on the rounds of the loop is never
    what stops it.  In the state [epsilon_walk] ends in, every EPSILON
    transition leads to the state the closure started from or to one it
    has entered. *)
Lemma epsilon_walk_closed m s t :
  List.In t (getTransitionsFrom std_sort m (epsilon_walk std_sort m s)) ->
  is_EPSILON t = true ->
  List.In (sid_id (t_to t))
    (sid_id <$>
       s :: epsilon_path std_sort m (S (length (transitions_ m)))
              {[sid_id s]} s).
Proof.
  intros Ht Heps.
  pose proof (epsilon_path_closed_from m (S (length (transitions_ m)))
                {[sid_id s]} s) as H.
  assert (size (transition_targets m ∖ {[sid_id s]})
          < S (length (transitions_ m))) as Hsize.
  { assert (transition_targets m ∖ {[sid_id s]} ⊆ transition_targets m)
      as Hsub by (intros k Hk; apply elem_of_difference in Hk; tauto).
    apply subseteq_size in Hsub.
    pose proof (size_list_to_set_le
                  (map (fun t => sid_id (t_to t)) (transitions_ m))) as Hle.
    rewrite length_map in Hle. fold (transition_targets m) in Hle. lia. }
  specialize (H Hsize t Ht Heps).
  apply list_elem_of_In. cbn [fmap list_fmap].
  fold (@fmap list _ _ _ sid_id).
  apply elem_of_union in H. destruct H as [H|H].
  - apply elem_of_singleton in H. rewrite H. left.
  - right. now apply elem_of_list_to_set in H.
Qed.

End Sorted.

(** ** One-shot, streaming and backtracking runs compared *)

(** C1 (as stated) fails.  On the empty input [validate] accepts a
    machine whose start state is accepting, while [endOfStream] without a
    [feed] before it answers ERROR.  On [1a] the machine of scenario S1
    is rejected by [validate] at [a]; the streaming run, whose [feed('a')]
    answers ERROR and leaves the machine in the accepting state A, ends
    with COMPLETE. *)
Lemma validate_and_streaming_differ :
  verdict_of_validate (validate libstdcxx_sort 0 [] start_accepting_graph)
  = Some (true, [])
  /\ verdict_of_stream
       (stream_run libstdcxx_sort [] (reset start_accepting_graph))
     = Some (false, [])
  /\ verdict_of_validate (validate libstdcxx_sort 0 (bytes "1a") digits_graph)
     = Some (false, [])
  /\ verdict_of_stream
       (stream_run libstdcxx_sort (bytes "1a") (reset digits_graph))
     = Some (true, []).
Proof. repeat split; vm_compute; reflexivity. Qed.

(** The capture machine of scenario S7 on [12345]: both runs accept and
    close the capture [number] over the whole input. *)
Lemma validate_streaming_agree_witness :
  verdict_of_stream
    (stream_run libstdcxx_sort (bytes "12345") (reset capture_graph))
  = verdict_of_validate
      (validate libstdcxx_sort 0 (bytes "12345") capture_graph)
  /\ verdict_of_validate
       (validate libstdcxx_sort 0 (bytes "12345") capture_graph)
     = Some (true, [mkCaptureGroup "number" 0 5 (bytes "12345")]).
Proof.
  split; [|vm_compute; reflexivity].
  apply validate_streaming_agree.
  - discriminate.
  - reflexivity.
  - reflexivity.
  - vm_compute. discriminate.
Defined.

(** The same machine and input under both executors. *)
Lemma greedy_success_backtracking_success_witness :
  exists mv mb,
    validate libstdcxx_sort 0 (bytes "12345") capture_graph = Some (true, mv)
    /\ validateWithBacktracking_fuel libstdcxx_sort 7 (bytes "12345")
         capture_graph = Returned true mb
    /\ captures_ mb = captures_ mv
    /\ current_state_ mb = current_state_ mv.
Proof.
  eexists.
  edestruct (greedy_success_backtracking_success libstdcxx_sort 0
               (bytes "12345") capture_graph) as (mb & Hrun & Hc & Hs).
  { vm_compute. reflexivity. }
  exists mb. split; [vm_compute; reflexivity|].
  split; [apply Hrun; vm_compute; lia|]. split; assumption.
Defined.

Section ChunkAgreement.

Variable std_sort : list Transition -> list Transition.

Lemma feed_consume_sim_error ch i g T1 g' :
  Frame T1 ->
  processCharImpl std_sort ch i (updateCapturePosition i g)
  = Some (false, g') ->
  exists s',
    feed_consume std_sort ch (T1 (updateCapturePosition i g))
    = Some (ERROR, s')
    /\ captures_ s' = captures_ g'.
Proof.
  intros HT1 E.
  set (g0 := updateCapturePosition i g) in *.
  rewrite feed_consume_unfold.
  rewrite (frame_position _ HT1).
  change (current_input_position_ g0) with i.
  rewrite (frame_updateCapturePosition _ HT1).
  change (updateCapturePosition i g0) with g0.
  rewrite (frame_processCharImpl _ _ HT1), E.
  cbn [fmap option_fmap option_map prod_map fst snd].
  eexists. split; [reflexivity|].
  cbn [captures_ set_stream_state_]. apply (frame_captures _ HT1).
Qed.

Lemma feed_sim_error ch i g s g' :
  stream_of i g s ->
  streaming_mode_ s = true \/ isValid (start_state_ s) = true ->
  processCharImpl std_sort ch i (updateCapturePosition i g)
  = Some (false, g') ->
  exists s',
    feed std_sort ch s = Some (ERROR, s') /\ captures_ s' = captures_ g'.
Proof.
  intros (T & HT & ->) Hstart E.
  set (g0 := updateCapturePosition i g) in *.
  destruct (streaming_mode_ (T g0)) eqn:Hmode.
  - rewrite feed_streaming by exact Hmode.
    apply (feed_consume_sim_error ch i g
             (fun m => set_current_input_ (current_input_ (T g0) ++ [ch])
                         (T m))); [|exact E].
    apply (Frame_compose (set_current_input_ _));
      [apply Frame_set_current_input|exact HT].
  - destruct Hstart as [?|Hval]; [discriminate|].
    rewrite feed_first by assumption.
    apply (feed_consume_sim_error ch i g
             (fun m => set_current_input_ (current_input_ (T g0) ++ [ch])
                         (set_stream_state_ PROCESSING
                            (set_streaming_mode_ true (T m))))); [|exact E].
    apply (Frame_compose (set_current_input_ _));
      [apply Frame_set_current_input|].
    apply (Frame_compose (set_stream_state_ _));
      [apply Frame_set_stream_state|].
    apply (Frame_compose (set_streaming_mode_ _));
      [apply Frame_set_streaming_mode|exact HT].
Qed.

Lemma feed_consume_stream_state ch m st m' :
  feed_consume std_sort ch m = Some (st, m') -> stream_state_ m' = st.
Proof.
  rewrite feed_consume_unfold.
  destruct (processCharImpl std_sort ch _ _) as [[[] g]|];
    [|now intros [= <- <-]|discriminate].
  cbn zeta. now intros [= <- <-].
Qed.

Lemma feed_stream_state ch m st m' :
  feed std_sort ch m = Some (st, m') -> stream_state_ m' = st.
Proof.
  unfold feed. destruct (negb (streaming_mode_ m)).
  - cbn zeta. destruct (negb (isValid _)).
    + now intros [= <- <-].
    + apply feed_consume_stream_state.
  - apply feed_consume_stream_state.
Qed.

Lemma feed_chunk_sim x : forall i g s,
  stream_of i g s ->
  streaming_mode_ s = true \/ isValid (start_state_ s) = true ->
  match validate_loop std_sort x i g with
  | None => feed_chunk std_sort x s = None
  | Some (true, g') =>
      exists st s',
        feed_chunk std_sort x s = Some (st, s')
        /\ (stream_state_ s <> ERROR \/ x <> [] -> st <> ERROR)
        /\ stream_of (i + length x) g' s'
        /\ (streaming_mode_ s = true \/ x <> [] -> streaming_mode_ s' = true)
  | Some (false, g') =>
      exists s',
        feed_chunk std_sort x s = Some (ERROR, s')
        /\ captures_ s' = captures_ g'
  end.
Proof.
  induction x as [|ch rest IH]; intros i g s Hs Hstart; simpl.
  - exists (stream_state_ s), s. rewrite Nat.add_0_r.
    split; [reflexivity|]. split; [intros [H|H]; congruence|].
    split; [exact Hs|]. intros [H|H]; congruence.
  - pose proof (feed_sim std_sort ch i g s Hs Hstart) as Hfeed.
    pose proof (feed_sim_error ch i g s) as Herr.
    destruct (processCharImpl std_sort ch i (updateCapturePosition i g))
      as [[[] g1]|]; [| |now rewrite Hfeed].
    + destruct Hfeed as (st & s1 & Hfeed & Hst & Hmode & Hs1).
      rewrite Hfeed.
      replace (StreamState_eqb st ERROR) with false
        by (destruct st; try reflexivity; congruence).
      apply feed_stream_state in Hfeed.
      specialize (IH (S i) _ s1 Hs1 (or_introl Hmode)).
      destruct (validate_loop std_sort rest (S i) _) as [[[] g2]|];
        [| exact IH |exact IH].
      destruct IH as (st2 & s2 & -> & Hst2 & Hs2 & Hm2).
      exists st2, s2.
      replace (i + S (length rest)) with (S i + length rest) by lia.
      split; [reflexivity|]. split.
      * intros _. apply Hst2. left. congruence.
      * split; [exact Hs2|]. intros _. apply Hm2. now left.
    + destruct (Herr g1 Hs Hstart eq_refl) as (s1 & -> & Hc).
      cbn [StreamState_eqb]. exists s1. now split.
Qed.

(** X6.  The agreement of C1 for a caller that stops at the first ERROR.
    On a machine that holds no capture of an earlier run, and for a
    non-empty input, the streaming run [reset], [feed] of the whole input
    as one chunk, and [endOfStream] unless that [feed] answered ERROR,
    gives the verdict and the closed captures of the one-shot
    [validate], also when no transition admits a byte. *)
Theorem validate_chunk_streaming_agree elapsed_ns x m :
  x <> [] -> captures_ m = [] -> active_captures_ m = [] ->
  verdict_of_chunk_run (stream_chunk_run std_sort x (reset m))
  = verdict_of_validate (validate std_sort elapsed_ns x m).
Proof.
  intros Hx Hc Ha.
  destruct (isValid (start_state_ m)) eqn:Hvalid.
  2:{ rewrite validate_unfold, Hvalid. cbn [negb].
      destruct x as [|ch rest]; [congruence|].
      unfold stream_chunk_run. cbn [feed_chunk]. unfold feed.
      change (streaming_mode_ (reset m)) with false. cbn [negb]. cbn zeta.
      change (start_state_ (set_current_input_ (current_input_ (reset m) ++ [ch])
                (set_stream_state_ PROCESSING
                   (set_streaming_mode_ true (reset m)))))
        with (start_state_ m).
      rewrite Hvalid. cbn [negb StreamState_eqb].
      unfold verdict_of_chunk_run, verdict_of_validate.
      cbn [fmap option_fmap option_map fst snd StreamState_eqb].
      f_equal. f_equal. cbn. exact Hc. }
  pose proof (feed_chunk_sim x 0 _ (reset m) (stream_of_reset x m Hc Ha))
    as Hsim.
  rewrite reset_start_state in Hsim.
  specialize (Hsim (or_intror Hvalid)).
  rewrite validate_unfold, Hvalid. cbn [negb].
  unfold stream_chunk_run.
  destruct (validate_loop std_sort x 0 (validate_begin x m))
    as [[[] g']|] eqn:Eloop.
  - destruct Hsim as (st & s' & -> & Hst & (T & HT & ->) & Hmode).
    specialize (Hmode (or_intror Hx)). specialize (Hst (or_intror Hx)).
    rewrite <- (endOfStream_sim std_sort elapsed_ns x g' T HT Hmode).
    unfold verdict_of_chunk_run.
    destruct st; try reflexivity. congruence.
  - destruct Hsim as (s' & -> & Hcap).
    unfold verdict_of_chunk_run, verdict_of_validate.
    cbn [fmap option_fmap option_map fst snd StreamState_eqb].
    now rewrite Hcap.
  - now rewrite Hsim.
Qed.

End ChunkAgreement.

(** Scenario S1 on [1a]: both runs reject at [a]. *)
Lemma validate_chunk_streaming_agree_witness :
  verdict_of_chunk_run
    (stream_chunk_run libstdcxx_sort (bytes "1a") (reset digits_graph))
  = verdict_of_validate (validate libstdcxx_sort 0 (bytes "1a") digits_graph)
  /\ verdict_of_validate
       (validate libstdcxx_sort 0 (bytes "1a") digits_graph)
     = Some (false, []).
Proof.
  split; [|vm_compute; reflexivity].
  apply validate_chunk_streaming_agree.
  - discriminate.
  - reflexivity.
  - reflexivity.
Defined.

(** Scenario S6: backtracking accepts where the greedy executor rejects.
    On [ac] the greedy run takes START -a-> PATH1 and finds no transition
    for [c]; the backtracking run returns to the choice point, takes
    START -a-> PATH2 and accepts. *)
Lemma backtracking_succeeds_where_greedy_fails :
  (exists mv,
     validate libstdcxx_sort 0 (bytes "ac") two_paths_graph
     = Some (false, mv)
     /\ current_state_ mv = sP1)
  /\ (exists mb,
        validateWithBacktracking_fuel libstdcxx_sort 10 (bytes "ac")
          two_paths_graph = Returned true mb
        /\ current_state_ mb = sACC
        /\ backtracking_stats_ mb = mkBacktrackingStats 1 1 1 3).
Proof.
  split; eexists; (split; [vm_compute; reflexivity|]);
    repeat split; vm_compute; reflexivity.
Qed.

(** ** The transition a byte takes *)

Lemma find_StronglySorted_max {A} (R : A -> A -> Prop) (P : A -> bool) l t :
  StronglySorted R l -> List.find P l = Some t ->
  forall t', List.In t' l -> P t' = true -> t' = t \/ R t t'.
Proof.
  induction 1 as [|a l Hs IH Hall]; simpl; [discriminate|].
  destruct (P a) eqn:Pa.
  - intros [= <-] t' [<-|Hin] _; [now left|right].
    rewrite List.Forall_forall in Hall. now apply Hall.
  - intros Hfind t' [<-|Hin] Pt'; [congruence|]. now apply IH.
Qed.

Section Selection.

Variable std_sort : list Transition -> list Transition.
Hypothesis std_sort_ok : std_sort_contract std_sort.

Lemma getTransitionsFrom_sorted m s :
  StronglySorted (fun a b => (priority b <= priority a)%Z)
                 (getTransitionsFrom std_sort m s).
Proof.
  unfold getTransitionsFrom.
  destruct (List.filter _ _) as [|a l]; [constructor|].
  apply std_sort_ok.
Qed.

(** The transition [processCharImpl] looks for: a CLASS transition out of
    the current state that admits the byte and that no admitting
    transition out of that state exceeds in priority; none is found
    exactly when no transition out of the current state admits the
    byte.  An EPSILON transition admits no byte. *)
Lemma selected_transition ch m s :
  match List.find (admits ch) (getTransitionsFrom std_sort m s) with
  | Some t =>
      List.In t (transitions_ m)
      /\ StateID_eqb (t_from t) s = true
      /\ t_type t = ABNF_RULE
      /\ Transition_matches t ch = true
      /\ forall t',
           List.In t' (transitions_ m) ->
           StateID_eqb (t_from t') s = true ->
           admits ch t' = true -> (priority t' <= priority t)%Z
  | None =>
      forall t',
        List.In t' (transitions_ m) ->
        StateID_eqb (t_from t') s = true -> admits ch t' = false
  end.
Proof.
  destruct (List.find _ _) as [t|] eqn:Efind.
  - pose proof (find_some _ _ Efind) as [Hin Hadm].
    apply (getTransitionsFrom_In _ std_sort_ok) in Hin.
    destruct Hin as [Hin Hfrom].
    unfold admits in Hadm. apply andb_prop in Hadm.
    destruct Hadm as [Hclass Hmatch].
    repeat split; try assumption.
    + unfold is_ABNF_RULE in Hclass. now destruct (t_type t).
    + intros t' Hin' Hfrom' Hadm'.
      destruct (find_StronglySorted_max _ _ _ _
                  (getTransitionsFrom_sorted m s) Efind t') as [->|H];
        [now apply (getTransitionsFrom_In _ std_sort_ok)|exact Hadm'|lia|].
      exact H.
  - intros t' Hin Hfrom.
    apply (find_none _ _ Efind).
    now apply (getTransitionsFrom_In _ std_sort_ok).
Qed.

Lemma admits_not_epsilon ch t : is_EPSILON t = true -> admits ch t = false.
Proof. unfold admits, is_EPSILON, is_ABNF_RULE. now destruct (t_type t). Qed.

End Selection.

(** What [first_of_highest_priority] returns: an element that none
    exceeds in priority and that every element before it falls short
    of. *)
Lemma first_of_highest_priority_spec l t :
  first_of_highest_priority l = Some t ->
  exists pre post,
    l = pre ++ t :: post
    /\ Forall (fun t' => (priority t' < priority t)%Z) pre
    /\ Forall (fun t' => (priority t' <= priority t)%Z) post.
Proof.
  revert t. induction l as [|a l IH]; intros t; simpl; [discriminate|].
  destruct (first_of_highest_priority l) as [b|] eqn:E.
  - destruct (IH b eq_refl) as (pre & post & -> & Hpre & Hpost).
    destruct (Z.ltb_spec (priority a) (priority b)); intros [= <-].
    + exists (a :: pre), post. repeat split; auto.
    + exists [], (pre ++ b :: post). repeat split; [constructor|].
      apply Forall_app. split.
      * eapply Forall_impl; [exact Hpre|]. cbn beta. intros; lia.
      * constructor; [lia|].
        eapply Forall_impl; [exact Hpost|]. cbn beta. intros; lia.
  - intros [= <-]. destruct l; [|simpl in E;
      destruct (first_of_highest_priority l); [destruct (_ <? _)%Z|];
      discriminate].
    exists [], []. repeat split; constructor.
Qed.

(** *** The stable ordering *)

Lemma insert_by_priority_Permutation t l :
  Permutation (insert_by_priority t l) (t :: l).
Proof.
  induction l as [|x l IH]; simpl; [reflexivity|].
  destruct (_ <? _)%Z; [|reflexivity].
  rewrite IH. apply perm_swap.
Qed.

Lemma insert_by_priority_sorted t l :
  StronglySorted (fun a b => (priority b <= priority a)%Z) l ->
  StronglySorted (fun a b => (priority b <= priority a)%Z)
                 (insert_by_priority t l).
Proof.
  induction 1 as [|x l Hs IH Hall]; simpl.
  - repeat constructor.
  - destruct (Z.ltb_spec (priority t) (priority x)).
    + constructor; [exact IH|].
      rewrite (insert_by_priority_Permutation t l).
      constructor; [lia|exact Hall].
    + constructor; [now constructor|].
      constructor; [lia|].
      eapply Forall_impl; [exact Hall|]. cbn beta. intros; lia.
Qed.

Lemma insertion_sort_contract : std_sort_contract insertion_sort.
Proof.
  intros l. unfold insertion_sort. induction l as [|t l [IHp IHs]]; simpl.
  - split; constructor.
  - split.
    + rewrite insert_by_priority_Permutation. now constructor.
    + now apply insert_by_priority_sorted.
Qed.

Lemma insert_by_priority_front t l :
  Forall (fun y => (priority y <= priority t)%Z) l ->
  insert_by_priority t l = t :: l.
Proof.
  destruct 1 as [|x l Hx _]; simpl; [reflexivity|].
  destruct (Z.ltb_spec (priority t) (priority x)); [lia|reflexivity].
Qed.

Lemma filter_insert_by_priority (P : Transition -> bool) t l :
  StronglySorted (fun a b => (priority b <= priority a)%Z) l ->
  List.filter P (insert_by_priority t l)
  = if P t then insert_by_priority t (List.filter P l)
    else List.filter P l.
Proof.
  induction 1 as [|x l Hs IH Hall]; simpl.
  - now destruct (P t).
  - destruct (Z.ltb_spec (priority t) (priority x)) as [Hlt|Hge]; simpl.
    + rewrite IH. destruct (P x), (P t); simpl; try reflexivity.
      destruct (Z.ltb_spec (priority t) (priority x)); [reflexivity|lia].
    + destruct (P t); [|reflexivity].
      rewrite insert_by_priority_front; [reflexivity|].
      assert (Forall (fun y => (priority y <= priority t)%Z) (x :: l)) as Hle.
      { constructor; [lia|].
        eapply Forall_impl; [exact Hall|]. cbn beta. intros; lia. }
      change (if P x then x :: List.filter P l else List.filter P l)
        with (List.filter P (x :: l)).
      apply List.Forall_forall. intros y Hy. apply filter_In in Hy.
      rewrite List.Forall_forall in Hle. now apply Hle.
Qed.

Lemma filter_insertion_sort (P : Transition -> bool) l :
  List.filter P (insertion_sort l) = insertion_sort (List.filter P l).
Proof.
  unfold insertion_sort. induction l as [|t l IH]; simpl; [reflexivity|].
  rewrite filter_insert_by_priority by apply insertion_sort_contract.
  rewrite IH. now destruct (P t).
Qed.

Lemma hd_error_insertion_sort l :
  hd_error (insertion_sort l) = first_of_highest_priority l.
Proof.
  unfold insertion_sort. induction l as [|t l IH]; simpl; [reflexivity|].
  rewrite <- IH. destruct (foldr insert_by_priority [] l) as [|h S]; simpl;
    [reflexivity|].
  now destruct (_ <? _)%Z.
Qed.

(** X2.  With an ordering that keeps transitions of equal priority in
    insertion order, the transition [processCharImpl] looks for is the
    one the design document names. *)
Lemma stable_choice_is_documented ch m s :
  List.find (admits ch) (getTransitionsFrom insertion_sort m s)
  = documented_choice ch (outgoing m s).
Proof.
  unfold documented_choice, outgoing, getTransitionsFrom.
  set (l := List.filter (fun t => StateID_eqb (t_from t) s) (transitions_ m)).
  clearbody l. destruct l as [|a l]; [reflexivity|].
  now rewrite filter_find, filter_insertion_sort, hd_error_insertion_sort.
Qed.

(** C4: where the code leaves the tie-break.  [rebuildTransitionMap]
    orders the transitions of a state with [std::sort], which is free to
    reorder transitions of equal priority, and libstdc++ does so from 17
    elements on.  Of 17 transitions of equal priority that all admit [5],
    the design document names the one inserted first; the executor takes
    the one inserted ninth.  With 16 such transitions it takes the
    first. *)
Theorem seventeen_equal_priorities_lose_insertion_order :
  documented_choice "5" (outgoing (fan_graph 17) sSTART)
  = Some (fan_transition 1)
  /\ List.find (admits "5")
       (getTransitionsFrom libstdcxx_sort (fan_graph 17) sSTART)
     = Some (fan_transition 9)
  /\ (exists m',
        processCharImpl libstdcxx_sort "5" 0 (fan_graph 17)
        = Some (true, m')
        /\ current_state_ m' = fan_state 9)
  /\ t_id <$> getTransitionsFrom libstdcxx_sort (fan_graph 17) sSTART
     = [9; 17; 16; 15; 14; 13; 12; 11; 10; 1; 8; 7; 6; 5; 4; 3; 2]%N
  /\ List.find (admits "5")
       (getTransitionsFrom libstdcxx_sort (fan_graph 16) sSTART)
     = Some (fan_transition 1).
Proof.
  split; [vm_compute; reflexivity|].
  split; [vm_compute; reflexivity|].
  split; [eexists; split; vm_compute; reflexivity|].
  split; vm_compute; reflexivity.
Qed.

Section Step.

Variable std_sort : list Transition -> list Transition.

(** X1.  The part of C4 that holds whatever [std::sort] does with equal
    priorities.  For a byte [ch] at position [p], [processCharImpl]
    moves along a CLASS transition out of the current state that admits
    [ch] and that no admitting transition out of that state exceeds in
    priority; EPSILON transitions admit no byte.  When no CLASS
    transition of the current state admits [ch] it answers [false],
    stays put, and records NO_MATCHING_TRANSITION with the position, the
    byte and the current state. *)
Theorem greedy_step_selection (ch : byte) (p : nat) (m : FSM) :
  std_sort_contract std_sort ->
  (forall t, is_EPSILON t = true -> admits ch t = false)
  /\ match processCharImpl std_sort ch p m with
     | Some (true, m') =>
         exists t,
           List.In t (transitions_ m)
           /\ StateID_eqb (t_from t) (current_state_ m) = true
           /\ t_type t = ABNF_RULE
           /\ Transition_matches t ch = true
           /\ (forall t',
                 List.In t' (transitions_ m) ->
                 StateID_eqb (t_from t') (current_state_ m) = true ->
                 admits ch t' = true -> (priority t' <= priority t)%Z)
           /\ current_state_ m' = t_to t
     | Some (false, m') =>
         (forall t',
            List.In t' (transitions_ m) ->
            StateID_eqb (t_from t') (current_state_ m) = true ->
            admits ch t' = false)
         /\ last_error_ m'
            = Some (mkValidationError NO_MATCHING_TRANSITION p ch
                      (current_state_ m)
                      (no_transition_message (current_state_ m) ch) [] "")
         /\ current_state_ m' = current_state_ m
     | None =>
         exists t,
           List.find (admits ch)
             (getTransitionsFrom std_sort m (current_state_ m)) = Some t
           /\ takeTransition t ch p m = None
     end.
Proof.
  intros Hsort. split; [intros t; apply admits_not_epsilon|].
  rewrite processCharImpl_unfold.
  pose proof (selected_transition std_sort Hsort ch m (current_state_ m)) as H.
  destruct (List.find _ _) as [t|].
  - destruct (takeTransition t ch p m) as [m'|] eqn:E.
    + exists t. destruct H as (H1 & H2 & H3 & H4 & H5).
      repeat split; try assumption.
      eapply takeTransition_current_state; eauto.
    + exists t. split; [reflexivity|exact E].
  - split; [exact H|]. split; reflexivity.
Qed.

End Step.

(** Scenario S1 in state A at the byte [a] of [12a]. *)
Lemma greedy_step_selection_witness :
  exists m',
    processCharImpl insertion_sort "a" 2 (set_current_state_ sA digits_graph)
    = Some (false, m')
    /\ last_error_ m'
       = Some (mkValidationError NO_MATCHING_TRANSITION 2 "a" sA
                 "No transition found from A for character 'a'" [] "")
    /\ current_state_ m' = sA.
Proof.
  eexists. split; [vm_compute; reflexivity|].
  pose proof (proj2 (greedy_step_selection insertion_sort "a" 2
                       (set_current_state_ sA digits_graph)
                       insertion_sort_contract)) as H.
  vm_compute in H. destruct H as (_ & Herr & Hcur).
  split; [vm_compute; exact Herr|vm_compute; exact Hcur].
Defined.

(** *** The closure on a machine of the test suite *)

(** From DIGITS the closure ends in ACCEPT, which no epsilon edge
    leaves. *)
Lemma epsilon_walk_closed_witness :
  epsilon_walk insertion_sort digits_epsilon_graph sDIGITS = sACCEPT
  /\ forall t,
       List.In t (getTransitionsFrom insertion_sort digits_epsilon_graph
                    (epsilon_walk insertion_sort digits_epsilon_graph
                       sDIGITS)) ->
       is_EPSILON t = true ->
       List.In (sid_id (t_to t))
         (sid_id <$>
            sDIGITS
            :: epsilon_path insertion_sort digits_epsilon_graph
                 (S (length (transitions_ digits_epsilon_graph)))
                 {[sid_id sDIGITS]} sDIGITS).
Proof.
  split; [vm_compute; reflexivity|].
  intros t. apply (epsilon_walk_closed insertion_sort insertion_sort_contract).
Defined.

(** ** Captures as slices of the input *)

Lemma capture_footprint_position m m' :
  capture_footprint m m' ->
  current_input_position_ m' = current_input_position_ m.
Proof. intros ->. reflexivity. Qed.

Lemma Forall_erase_active (P : ActiveCapture -> Prop) name l :
  Forall P l -> Forall P (erase_active name l).
Proof.
  induction 1 as [|a l Ha Hl IH]; simpl; [constructor|].
  destruct (String.eqb _ _); [exact Hl|now constructor].
Qed.

Section CapturesOk.

Variable consumed : list byte.

Lemma beginCapture_ok name m m' :
  captures_ok_at consumed m -> beginCapture name m = Some m' ->
  captures_ok_at consumed m'.
Proof.
  intros [[Hact Hclosed] Hpos]. unfold beginCapture.
  destruct (existsb _ _); [discriminate|]. intros [= <-].
  split; [split|exact Hpos]; cbn [active_captures_ captures_
    set_active_captures_]; [|exact Hclosed].
  apply Forall_app. split; [exact Hact|].
  constructor; [|constructor]. cbn [ac_start_position buffer].
  rewrite Hpos. split; [lia|]. now rewrite drop_all.
Qed.

Lemma endCapture_ok name m c m' :
  captures_ok_at consumed m -> endCapture name m = Some (c, m') ->
  captures_ok_at consumed m'.
Proof.
  intros [[Hact Hclosed] Hpos]. unfold endCapture.
  destruct (List.find _ _) as [it|] eqn:Efind; [|discriminate].
  intros [= <- <-].
  apply find_some in Efind. destruct Efind as [Hin _].
  rewrite List.Forall_forall in Hact.
  pose proof (Hact it Hin) as [Hstart Hbuf].
  split; [split|exact Hpos]; cbn [active_captures_ captures_
    set_active_captures_ set_captures_].
  - apply Forall_erase_active, List.Forall_forall. exact Hact.
  - apply Forall_app. split; [exact Hclosed|].
    constructor; [|constructor].
    cbn [start_position end_position value]. rewrite Hpos.
    split; [exact Hstart|]. split; [lia|].
    now rewrite firstn_all.
Qed.

Lemma run_op_ok op : forall m m',
  captures_ok_at consumed m -> run_op op m = Some m' ->
  captures_ok_at consumed m'.
Proof.
  induction op as [name|name|op IH]; simpl; intros m m' Hm.
  - now apply beginCapture_ok.
  - destruct (endCapture name m) as [[c m1]|] eqn:E; [|discriminate].
    intros [= <-]. eapply endCapture_ok; eauto.
  - destruct (run_op op m) as [m1|] eqn:E; intros [= <-]; eauto.
Qed.

Lemma run_ops_ok ops : forall m m',
  captures_ok_at consumed m -> run_ops ops m = Some m' ->
  captures_ok_at consumed m'.
Proof.
  induction ops as [|op ops IH]; simpl; intros m m' Hm.
  - now intros [= <-].
  - destruct (run_op op m) as [m1|] eqn:E; [|discriminate].
    cbn [mbind option_bind]. apply IH. eapply run_op_ok; eauto.
Qed.

Lemma fire_ok {Ctx} (cb : option (Ctx -> list CaptureOp)) ctx m m' :
  captures_ok_at consumed m -> fire cb ctx m = Some m' ->
  captures_ok_at consumed m'.
Proof.
  destruct cb; simpl; [apply run_ops_ok|]. now intros ? [= <-].
Qed.

Lemma fire_exit_ok s p ch m m' :
  captures_ok_at consumed m -> fire_exit s p ch m = Some m' ->
  captures_ok_at consumed m'.
Proof.
  unfold fire_exit. destruct (states_ m !! sid_id s); [apply fire_ok|].
  now intros ? [= <-].
Qed.

Lemma fire_entry_ok s p ch m m' :
  captures_ok_at consumed m -> fire_entry s p ch m = Some m' ->
  captures_ok_at consumed m'.
Proof.
  unfold fire_entry. destruct (states_ m !! sid_id s); [apply fire_ok|].
  now intros ? [= <-].
Qed.

Lemma takeTransition_ok trans ch p m m' :
  captures_ok_at consumed m -> takeTransition trans ch p m = Some m' ->
  captures_ok_at consumed m'.
Proof.
  intros Hm. unfold takeTransition.
  destruct (if negb _ then fire_exit _ _ _ _ else Some m) as [m1|] eqn:E1;
    [|discriminate].
  assert (captures_ok_at consumed m1) as H1.
  { destruct (negb _); [eapply fire_exit_ok; eauto|now injection E1 as <-]. }
  cbn [mbind option_bind].
  destruct (fire (on_transition trans) _ m1) as [m2|] eqn:E2; [|discriminate].
  pose proof (fire_ok _ _ _ _ H1 E2) as H2.
  cbn [mbind option_bind].
  destruct (if negb _ then fire_entry _ _ _ _ else Some _) as [m4|] eqn:E4;
    [|discriminate].
  assert (captures_ok_at consumed m4) as H4.
  { destruct (negb _); [eapply fire_entry_ok; [|exact E4]; exact H2|].
    injection E4 as <-. exact H2. }
  cbn [mbind option_bind]. intros [= <-]. exact H4.
Qed.

Lemma takeEpsilon_ok trans p m m' :
  captures_ok_at consumed m -> takeEpsilon trans p m = Some m' ->
  captures_ok_at consumed m'.
Proof.
  intros Hm. unfold takeEpsilon.
  destruct (fire_exit _ _ _ m) as [m1|] eqn:E1; [|discriminate].
  pose proof (fire_exit_ok _ _ _ _ _ Hm E1) as H1.
  cbn [mbind option_bind].
  destruct (fire (on_transition trans) _ m1) as [m2|] eqn:E2; [|discriminate].
  pose proof (fire_ok _ _ _ _ H1 E2) as H2.
  cbn [mbind option_bind].
  destruct (fire_entry _ _ _ _) as [m4|] eqn:E4; [|discriminate].
  assert (captures_ok_at consumed m4) as H4
    by (eapply fire_entry_ok; [|exact E4]; exact H2).
  cbn [mbind option_bind]. intros [= <-]. exact H4.
Qed.

End CapturesOk.

Lemma recordCharInCaptures_ok consumed ch m :
  captures_ok consumed m ->
  captures_ok (consumed ++ [ch]) (recordCharInCaptures ch m).
Proof.
  intros [Hact Hclosed].
  split; cbn [active_captures_ captures_ recordCharInCaptures
              set_active_captures_].
  - apply Forall_map. eapply Forall_impl; [exact Hact|].
    cbn beta. intros a [Hstart Hbuf]. cbn [ac_start_position buffer].
    rewrite length_app. split; [lia|].
    rewrite Hbuf. now rewrite drop_app_le by exact Hstart.
  - eapply Forall_impl; [exact Hclosed|].
    cbn beta. intros c (H1 & H2 & Hval). rewrite length_app.
    split; [exact H1|]. split; [lia|].
    now rewrite take_app_le by exact H2.
Qed.

Section GreedyCaptures.

Variable std_sort : list Transition -> list Transition.

Lemma processCharImpl_ok consumed ch p m b m' :
  captures_ok_at consumed m ->
  processCharImpl std_sort ch p m = Some (b, m') ->
  captures_ok_at consumed m'.
Proof.
  intros Hm. rewrite processCharImpl_unfold.
  destruct (List.find _ _) as [t|].
  - destruct (takeTransition t ch p m) as [m1|] eqn:E; [|discriminate].
    intros [= _ <-]. eapply takeTransition_ok; eauto.
  - intros [= _ <-]. exact Hm.
Qed.

Lemma epsilon_loop_ok consumed fuel p : forall visited m m',
  captures_ok_at consumed m ->
  epsilon_loop std_sort fuel p visited m = Some m' ->
  captures_ok_at consumed m'.
Proof.
  induction fuel as [|fuel IH]; intros visited m m' Hm; simpl.
  - now intros [= <-].
  - destruct (next_epsilon std_sort visited m) as [trans|];
      [|now intros [= <-]].
    destruct (takeEpsilon trans p m) as [m1|] eqn:E; [|discriminate].
    cbn [mbind option_bind]. apply IH. eapply takeEpsilon_ok; eauto.
Qed.

Lemma processEpsilonTransitions_ok consumed p m m' :
  captures_ok_at consumed m ->
  processEpsilonTransitions std_sort p m = Some m' ->
  captures_ok_at consumed m'.
Proof. apply epsilon_loop_ok. Qed.

(** The invariant along the loop of [validate]: before the iteration of
    each byte, and when the loop is left. *)
Lemma validate_loop_ok rest : forall pre g b g',
  captures_ok pre g ->
  validate_loop std_sort rest (length pre) g = Some (b, g') ->
  exists done rest',
    rest = done ++ rest'
    /\ captures_ok (pre ++ done) g'
    /\ (b = true -> rest' = [])
    /\ (b = false -> current_input_position_ g' = length (pre ++ done)).
Proof.
  induction rest as [|ch rest IH]; intros pre g b g' Hg; simpl.
  - intros [= <- <-]. exists [], []. split; [reflexivity|].
    rewrite app_nil_r. split; [exact Hg|]. split; [reflexivity|discriminate].
  - destruct (processCharImpl std_sort ch (length pre)
                (updateCapturePosition (length pre) g))
      as [[[] g1]|] eqn:E; [| |discriminate].
    + assert (captures_ok_at pre g1) as [H1 _].
      { eapply processCharImpl_ok; [|exact E]. split; [exact Hg|reflexivity]. }
      intros Hloop.
      assert (captures_ok (pre ++ [ch])
                (recordCharInCaptures ch (count_character_if_enabled g1)))
        as Hnext by now apply recordCharInCaptures_ok.
      replace (S (length pre)) with (length (pre ++ [ch])) in Hloop
        by (rewrite length_app; simpl; lia).
      destruct (IH _ _ _ _ Hnext Hloop)
        as (done & rest' & -> & Hok & Hall & Hpos).
      exists (ch :: done), rest'. rewrite <- app_assoc in Hok, Hpos.
      split; [reflexivity|]. split; [exact Hok|]. split; [exact Hall|exact Hpos].
    + intros [= <- <-].
      assert (captures_ok_at pre g1) as [H1 Hp1].
      { eapply processCharImpl_ok; [|exact E]. split; [exact Hg|reflexivity]. }
      exists [], (ch :: rest). split; [reflexivity|].
      rewrite app_nil_r. split; [exact H1|]. split; [discriminate|].
      intros _. exact Hp1.
Qed.

Lemma validate_begin_ok x m : captures_ok [] (validate_begin x m).
Proof. split; constructor. Qed.

Lemma validate_end_ok elapsed_ns x g b mv :
  captures_ok x g ->
  validate_end std_sort elapsed_ns x g = Some (b, mv) ->
  captures_ok_at x mv.
Proof.
  intros Hg. unfold validate_end.
  destruct (processEpsilonTransitions std_sort (length x) _) as [m2|] eqn:E;
    [|discriminate].
  assert (captures_ok_at x m2) as [H2 Hp2].
  { eapply processEpsilonTransitions_ok; [|exact E].
    split; [exact Hg|reflexivity]. }
  cbn [mbind option_bind].
  destruct (isInAcceptState m2); cbn [negb]; intros [= _ <-];
    (split; [exact H2|exact Hp2]).
Qed.

(** X4.  The invariant of C3 in the greedy executor.  When [validate]
    returns, every open capture holds the input from its start position
    to the position the run reached, and every closed capture the input
    between its two positions; the run has reached the end of the input
    unless it stopped at a byte, and [current_input_position_] is the
    position it reached. *)
Theorem validate_captures_are_input_slices elapsed_ns x m b mv :
  validate std_sort elapsed_ns x m = Some (b, mv) ->
  exists done rest,
    x = done ++ rest
    /\ captures_ok done mv
    /\ (stopped_before_end mv = false -> rest = [])
    /\ current_input_position_ mv = length done.
Proof.
  rewrite validate_unfold.
  destruct (negb (isValid (start_state_ m))).
  { intros [= _ <-]. exists [], x. repeat split; try constructor.
    discriminate. }
  destruct (validate_loop std_sort x 0 (validate_begin x m))
    as [[[] g]|] eqn:Eloop; try discriminate.
  - destruct (validate_loop_ok x [] _ _ _ (validate_begin_ok x m) Eloop)
      as (done & rest & -> & Hok & Hall & _).
    rewrite (Hall eq_refl), app_nil_r in *. cbn [app] in Hok.
    intros Hend. exists done, []. split; [now rewrite app_nil_r|].
    destruct (validate_end_ok _ _ _ _ _ Hok Hend) as [Hc Hp].
    split; [exact Hc|]. split; [reflexivity|exact Hp].
  - destruct (validate_loop_ok x [] _ _ _ (validate_begin_ok x m) Eloop)
      as (done & rest & -> & Hok & _ & Hpos).
    intros [= <- <-]. exists done, rest. split; [reflexivity|].
    split; [exact Hok|]. split; [|exact (Hpos eq_refl)].
    apply validate_loop_false in Eloop.
    unfold stopped_before_end. rewrite Eloop. discriminate.
Qed.

End GreedyCaptures.

Lemma captures_ok_at_frame consumed T m :
  Frame T -> captures_ok_at consumed (T m) <-> captures_ok_at consumed m.
Proof.
  intros HT. unfold captures_ok_at, captures_ok.
  now rewrite (frame_captures _ HT), (frame_active_captures _ HT),
              (frame_position _ HT).
Qed.

Section StreamingCaptures.

Variable std_sort : list Transition -> list Transition.

Lemma feed_consume_ok consumed ch T m st m' :
  Frame T -> captures_ok_at consumed m ->
  feed_consume std_sort ch (T m) = Some (st, m') -> st <> ERROR ->
  captures_ok_at (consumed ++ [ch]) m'.
Proof.
  intros HT Hm. rewrite feed_consume_unfold.
  rewrite (frame_position _ HT), (frame_updateCapturePosition _ HT),
          updateCapturePosition_same, (frame_processCharImpl _ _ HT).
  destruct (processCharImpl std_sort ch _ m) as [[[] g]|] eqn:E;
    cbn [fmap option_fmap option_map prod_map fst snd]; cbn zeta;
    [|intros [= <- _]; congruence|discriminate].
  pose proof (processCharImpl_ok _ _ _ _ _ _ _ Hm E) as [Hg Hpos].
  intros [= _ <-] _.
  rewrite (frame_position _ HT), (frame_count_character_if_enabled _ HT),
          (frame_recordCharInCaptures _ HT),
          (frame_updateCapturePosition _ HT).
  apply (captures_ok_at_frame _ (fun m => set_stream_state_ _ (T m))).
  { apply (Frame_compose (set_stream_state_ _));
      [apply Frame_set_stream_state|exact HT]. }
  split.
  - apply (recordCharInCaptures_ok consumed ch (count_character_if_enabled g)).
    exact Hg.
  - cbn [current_input_position_ updateCapturePosition
         set_current_input_position_].
    rewrite Hpos, length_app. simpl. lia.
Qed.

Lemma feed_ok consumed ch m st m' :
  captures_ok_at consumed m ->
  feed std_sort ch m = Some (st, m') -> st <> ERROR ->
  captures_ok_at (consumed ++ [ch]) m'.
Proof.
  intros Hm. destruct (streaming_mode_ m) eqn:Hmode.
  - rewrite (feed_streaming std_sort ch m Hmode).
    apply (feed_consume_ok consumed ch (set_current_input_ _));
      [apply Frame_set_current_input|exact Hm].
  - destruct (isValid (start_state_ m)) eqn:Hvalid.
    + rewrite (feed_first std_sort ch m Hmode Hvalid).
      apply (feed_consume_ok consumed ch
               (fun m => set_current_input_ _
                           (set_stream_state_ PROCESSING
                              (set_streaming_mode_ true m))));
        [|exact Hm].
      apply (Frame_compose (set_current_input_ _));
        [apply Frame_set_current_input|].
      apply (Frame_compose (set_stream_state_ _));
        [apply Frame_set_stream_state|apply Frame_set_streaming_mode].
    + unfold feed. rewrite Hmode. cbn [negb].
      change (start_state_ (set_current_input_ (current_input_ m ++ [ch])
                (set_stream_state_ PROCESSING (set_streaming_mode_ true m))))
        with (start_state_ m).
      rewrite Hvalid. cbn [negb]. intros [= <- _]. congruence.
Qed.

Lemma feed_each_ok rest : forall pre m states m',
  captures_ok_at pre m ->
  feed_each std_sort rest m = Some (states, m') ->
  Forall (fun st => st <> ERROR) states ->
  captures_ok_at (pre ++ rest) m'.
Proof.
  induction rest as [|ch rest IH]; intros pre m states m' Hm; simpl.
  - intros [= <- <-] _. now rewrite app_nil_r.
  - destruct (feed std_sort ch m) as [[st m1]|] eqn:E; [|discriminate].
    destruct (feed_each std_sort rest m1) as [[states1 m2]|] eqn:E1;
      [|discriminate].
    intros [= <- <-] Hall. inversion Hall as [|? ? Hst Hall1]; subst.
    pose proof (feed_ok _ _ _ _ _ Hm E Hst) as H1.
    specialize (IH _ _ _ _ H1 E1 Hall1).
    now rewrite <- app_assoc in IH.
Qed.

Lemma endOfStream_ok consumed m st m' :
  captures_ok_at consumed m ->
  endOfStream std_sort m = Some (st, m') ->
  captures_ok consumed m'.
Proof.
  intros Hm. unfold endOfStream.
  destruct (negb (streaming_mode_ m)).
  { intros [= _ <-]. apply Hm. }
  destruct (processEpsilonTransitions std_sort _ m) as [m1|] eqn:E;
    [|discriminate].
  pose proof (processEpsilonTransitions_ok _ _ _ _ _ Hm E) as [H1 _].
  cbn [mbind option_bind].
  destruct (isInAcceptState m1); cbn [negb]; intros [= _ <-]; exact H1.
Qed.

(** X5.  The invariant of C3 in the streaming executor.  On a machine
    that holds no capture of an earlier run, after feeds that did not
    answer ERROR, and after the [endOfStream] that follows them, every
    open capture holds the bytes fed since it began and every closed
    capture the bytes fed between its two positions. *)
Theorem streaming_captures_are_input_slices x m states s st s' :
  captures_ m = [] -> active_captures_ m = [] ->
  feed_each std_sort x (reset m) = Some (states, s) ->
  Forall (fun st => st <> ERROR) states ->
  captures_ok x s
  /\ current_input_position_ s = length x
  /\ (endOfStream std_sort s = Some (st, s') -> captures_ok x s').
Proof.
  intros Hc Ha Hfeed Hall.
  assert (captures_ok_at [] (reset m)) as H0.
  { split; [|reflexivity]. split.
    - change (active_captures_ (reset m)) with (active_captures_ m).
      rewrite Ha. constructor.
    - change (captures_ (reset m)) with (captures_ m).
      rewrite Hc. constructor. }
  pose proof (feed_each_ok _ _ _ _ _ H0 Hfeed Hall) as Hs.
  cbn [app] in Hs. destruct Hs as [Hok Hpos].
  split; [exact Hok|]. split; [exact Hpos|].
  apply endOfStream_ok. now split.
Qed.

End StreamingCaptures.

(** Scenario S7: the capture [number] of [validate] on [12345]. *)
Lemma validate_captures_are_input_slices_witness :
  exists mv,
    validate libstdcxx_sort 0 (bytes "12345") capture_graph = Some (true, mv)
    /\ captures_ mv = [mkCaptureGroup "number" 0 5 (bytes "12345")]
    /\ captures_ok (bytes "12345") mv.
Proof.
  eexists. split; [vm_compute; reflexivity|].
  split; [vm_compute; reflexivity|].
  edestruct (validate_captures_are_input_slices libstdcxx_sort 0
               (bytes "12345") capture_graph)
    as (done & rest & Hx & Hok & Hall & _).
  { vm_compute. reflexivity. }
  rewrite (Hall eq_refl), app_nil_r in Hx. rewrite Hx. exact Hok.
Defined.

(** Scenario S7: the open capture after three feeds. *)
Lemma streaming_captures_are_input_slices_witness :
  exists s,
    feed_each libstdcxx_sort (bytes "123") (reset capture_graph)
    = Some ([WAITING_FOR_INPUT; WAITING_FOR_INPUT; WAITING_FOR_INPUT], s)
    /\ active_captures_ s = [mkActiveCapture "number" 0 (bytes "123")]
    /\ captures_ok (bytes "123") s.
Proof.
  eexists. split; [vm_compute; reflexivity|].
  split; [vm_compute; reflexivity|].
  eapply (streaming_captures_are_input_slices libstdcxx_sort (bytes "123")
            capture_graph _ _ READY capture_graph).
  - reflexivity.
  - reflexivity.
  - vm_compute. reflexivity.
  - repeat constructor; discriminate.
Defined.

(** *** Under backtracking *)

(** C3: where the code leaves the invariant.  On [abz] the run of
    [validateWithBacktracking] on [capture_backtrack_graph] opens the
    capture [c] at position 0, saves a choice point at [b], fails at [z]
    in P1, and resumes from the choice point in P2.  The resumed move
    consumes the byte at position 1, [b], but appends to the open captures
    the byte at which the other path failed, [z]: at the end of the run,
    position 3, the buffer of [c] is [azz] and not [abz], the input from
    position 0 to 3. *)
Theorem backtracking_restore_records_failing_byte :
  exists mb,
    validateWithBacktracking_fuel libstdcxx_sort 20 (bytes "abz")
      capture_backtrack_graph = Returned true mb
    /\ current_state_ mb = sEND
    /\ current_input_position_ mb = 3
    /\ active_captures_ mb = [mkActiveCapture "c" 0 (bytes "azz")]
    /\ backtracks_performed (backtracking_stats_ mb) = 1
    /\ take 3 (drop 0 (bytes "abz")) = bytes "abz".
Proof.
  eexists. split; [vm_compute; reflexivity|].
  repeat split.
Qed.

(** ** More on character classes *)

Lemma bit_index_inj (a b : byte) : bit_index a = bit_index b -> a = b.
Proof.
  unfold bit_index. intros H. apply N2Z.inj in H.
  apply (f_equal Byte.of_N) in H. rewrite !Byte.of_to_N in H. congruence.
Qed.

Lemma byte_eqb_bit_index (a b : byte) :
  Byte.eqb a b = (bit_index a =? bit_index b)%Z.
Proof.
  destruct (Byte.eqb a b) eqn:E.
  - apply Byte.byte_dec_bl in E. subst. now rewrite Z.eqb_refl.
  - symmetry. apply Z.eqb_neq. intros H. apply bit_index_inj in H. subst.
    now rewrite Byte.byte_dec_lb in E.
Qed.

Lemma testbit_setBit cs value ch :
  Z.testbit (setBit cs value) (bit_index ch)
  = Byte.eqb ch value || Z.testbit cs (bit_index ch).
Proof.
  unfold setBit. pose proof (bit_index_range value).
  rewrite Z.setbit_eqb by lia. rewrite byte_eqb_bit_index.
  now rewrite (Z.eqb_sym (bit_index ch)).
Qed.

Lemma testbit_setRange_fold cs first i (l : list nat) :
  (0 <= first)%Z ->
  Z.testbit (fold_left (fun acc k => Z.setbit acc (first + Z.of_nat k)) l cs) i
  = Z.testbit cs i || existsb (fun k => (first + Z.of_nat k =? i)%Z) l.
Proof.
  intros Hf. revert cs. induction l as [|k l IH]; intros cs; simpl.
  - now rewrite orb_false_r.
  - rewrite IH, Z.setbit_eqb by lia.
    destruct (first + Z.of_nat k =? i)%Z, (Z.testbit cs i); reflexivity.
Qed.

Lemma testbit_setRange cs first last i :
  (0 <= first)%Z ->
  Z.testbit (setRange cs first last) i
  = Z.testbit cs i || ((first <=? i)%Z && (i <=? last)%Z).
Proof.
  intros Hf. unfold setRange. rewrite testbit_setRange_fold by assumption.
  f_equal. apply eq_true_iff_eq.
  rewrite existsb_exists, andb_true_iff, !Z.leb_le. split.
  - intros (k & Hk & E). apply in_seq in Hk. apply Z.eqb_eq in E. lia.
  - intros [H1 H2]. exists (Z.to_nat (i - first)). split.
    + apply in_seq. lia.
    + apply Z.eqb_eq. lia.
Qed.

Lemma matches_setRange cs first last ch d :
  matches (mkABNF (setRange cs (bit_index first) (bit_index last)) d) ch
  = Z.testbit cs (bit_index ch) || between first last ch.
Proof.
  unfold matches, between; cbn [char_set_].
  apply testbit_setRange. apply bit_index_range.
Qed.

(** X7.  [ABNF(uint8_t start, uint8_t end)] throws exactly when
    [start > end]; the class it builds otherwise matches exactly the bytes
    from [start] to [end], both included. *)
Theorem of_range_matches (first last : byte) :
  match of_range first last with
  | None => (bit_index last < bit_index first)%Z
  | Some a =>
      (bit_index first <= bit_index last)%Z
      /\ forall ch, matches a ch = between first last ch
  end.
Proof.
  unfold of_range.
  destruct (N.ltb_spec (Byte.to_N last) (Byte.to_N first)) as [H|H];
    [unfold bit_index; lia|].
  split; [unfold bit_index; lia|].
  intros ch. now rewrite matches_setRange, Z.bits_0.
Qed.

Lemma setRange_empty first last :
  (0 <= first)%Z ->
  (setRange 0 first last =? 0)%Z = (last <? first)%Z.
Proof.
  intros Hf. destruct (Z.ltb_spec last first) as [H|H].
  - unfold setRange. replace (Z.to_nat (last - first + 1)) with 0%nat by lia.
    reflexivity.
  - apply Z.eqb_neq. intros E.
    pose proof (testbit_setRange 0 first last first Hf) as Hb.
    rewrite E, Z.bits_0 in Hb. simpl in Hb.
    destruct (Z.leb_spec first first), (Z.leb_spec first last);
      try lia; discriminate.
Qed.

(** X8.  [ABNF(char start, char end)] makes the test [start > end] on
    the two [char]s and sets the range between their unsigned values.
    Where [char] is signed, it throws for a range from a byte below 0x80
    to one from 0x80 on, and for a range from a byte from 0x80 on to one
    below 0x80 it throws nothing and builds a class without a byte.  The
    class built always matches the bytes from [start] to [end] as unsigned
    values and no other. *)
Theorem of_char_range_matches (char_signed : bool) (first last : byte) :
  match of_char_range char_signed first last with
  | None => (char_value char_signed last < char_value char_signed first)%Z
  | Some a =>
      (char_value char_signed first <= char_value char_signed last)%Z
      /\ (forall ch, matches a ch = between first last ch)
      /\ (isEmpty a = true <-> (bit_index last < bit_index first)%Z)
  end.
Proof.
  unfold of_char_range.
  destruct (Z.ltb_spec (char_value char_signed last)
                       (char_value char_signed first)) as [H|H];
    [exact H|].
  split; [exact H|]. split.
  - intros ch. now rewrite matches_setRange, Z.bits_0.
  - unfold isEmpty; cbn [char_set_].
    rewrite setRange_empty by apply bit_index_range. apply Z.ltb_lt.
Qed.

(** Where [char] is signed: a range that is in order as bytes and
    throws, and a range that is out of order as bytes, does not throw and
    is empty. *)
Example of_char_range_signed :
  of_char_range true "a" xe9 = None
  /\ (isEmpty <$> of_char_range true xe9 "a") = Some true
  /\ (isEmpty <$> of_char_range false "a" xe9) = Some false
  /\ of_char_range false xe9 "a" = None.
Proof. repeat split. Qed.

(** X9.  The catalogue of core rules, byte by byte: the bounds of every
    range are both included; OCTET matches each of the 256 bytes; CRLF is
    the class of the two bytes CR and LF; LWSP is the class of WSP; HEXDIG
    has the lower-case letters [a] to [f] besides the digits and [A] to
    [F]. *)
Theorem core_rule_catalogue (rule : CoreRule) (ch : byte) :
  matches (of_core rule) ch
  = let n := bit_index ch in
    match rule with
    | ALPHA => within 0x41 0x5A n || within 0x61 0x7A n
    | BIT => within 0x30 0x31 n
    | CHAR => within 0x01 0x7F n
    | CR => (n =? 0x0D)%Z
    | CRLF => (n =? 0x0D)%Z || (n =? 0x0A)%Z
    | CTL => within 0x00 0x1F n || (n =? 0x7F)%Z
    | DIGIT => within 0x30 0x39 n
    | DQUOTE => (n =? 0x22)%Z
    | HEXDIG => within 0x30 0x39 n || within 0x41 0x46 n || within 0x61 0x66 n
    | HTAB => (n =? 0x09)%Z
    | LF => (n =? 0x0A)%Z
    | LWSP => (n =? 0x20)%Z || (n =? 0x09)%Z
    | OCTET => true
    | SP => (n =? 0x20)%Z
    | VCHAR => within 0x21 0x7E n
    | WSP => (n =? 0x20)%Z || (n =? 0x09)%Z
    end.
Proof.
  destruct rule; destruct ch; vm_compute; reflexivity.
Qed.

(** *** Counting *)

Lemma length_filter_orb_andb {A} (p q : A -> bool) (l : list A) :
  (length (List.filter (fun x => p x || q x) l)
   + length (List.filter (fun x => p x && q x) l)
   = length (List.filter p l) + length (List.filter q l))%nat.
Proof.
  induction l as [|x l IH]; simpl; [reflexivity|].
  destruct (p x), (q x); simpl; lia.
Qed.

Lemma length_filter_negb {A} (p : A -> bool) (l : list A) :
  (length (List.filter (fun x => negb (p x)) l) + length (List.filter p l)
   = length l)%nat.
Proof.
  induction l as [|x l IH]; simpl; [reflexivity|].
  destruct (p x); simpl; lia.
Qed.

Lemma count_le (a : ABNF) : (count a <= 256)%nat.
Proof.
  unfold count. etransitivity; [apply List.filter_length_le|].
  now rewrite length_seq.
Qed.

Lemma count_zero_bits (a : ABNF) :
  count a = 0%nat ->
  forall i, (0 <= i < 256)%Z -> Z.testbit (char_set_ a) i = false.
Proof.
  unfold count. intros H i Hi.
  apply length_zero_iff_nil in H.
  destruct (Z.testbit (char_set_ a) i) eqn:E; [exfalso|reflexivity].
  assert (List.In (Z.to_nat i)
            (List.filter (fun k => Z.testbit (char_set_ a) (Z.of_nat k))
                         (seq 0 256))) as Hin.
  { apply filter_In. split; [apply in_seq; lia|].
    now rewrite Z2Nat.id by lia. }
  now rewrite H in Hin.
Qed.

Lemma wf_high_bits (a : ABNF) i :
  wf a -> (256 <= i)%Z -> Z.testbit (char_set_ a) i = false.
Proof.
  intros [Hlo Hhi] Hi.
  destruct (Z.eq_dec (char_set_ a) 0%Z) as [E|Hne]; [rewrite E; apply Z.bits_0|].
  apply Z.bits_above_log2; [assumption|].
  assert (Z.log2 (char_set_ a) < 256)%Z by (apply Z.log2_lt_pow2; lia). lia.
Qed.

(** X10.  [count] is the number of bytes a class matches: the counts of
    a union and of the intersection add up to the counts of the two
    classes, the complement has the remaining ones of the 256 bytes, and
    [isEmpty] holds exactly of the classes of count 0. *)
Theorem count_laws (a b : ABNF) :
  wf a ->
  (count (unionWith a b) + count (intersectWith a b) = count a + count b)%nat
  /\ count (complement a) = (256 - count a)%nat
  /\ (isEmpty a = true <-> count a = 0%nat).
Proof.
  intros Hwf. split; [|split].
  - unfold count, unionWith, intersectWith; cbn [char_set_].
    rewrite <- (length_filter_orb_andb
                  (fun i => Z.testbit (char_set_ a) (Z.of_nat i))
                  (fun i => Z.testbit (char_set_ b) (Z.of_nat i))).
    f_equal; f_equal;
      apply List.filter_ext; intros i;
      [apply Z.lor_spec | apply Z.land_spec].
  - pose proof (count_le a).
    enough (count (complement a) + count a = 256)%nat by lia.
    pose proof (length_filter_negb
                  (fun i => Z.testbit (char_set_ a) (Z.of_nat i))
                  (seq 0 256)) as E.
    rewrite length_seq in E.
    etransitivity; [|exact E].
    unfold count, complement; cbn [char_set_].
    f_equal; f_equal. apply List.filter_ext_in. intros i Hi.
    apply in_seq in Hi. rewrite Z.lxor_spec. unfold all_bits.
    rewrite Z.ones_spec_low by lia. apply xorb_true_r.
  - unfold isEmpty. rewrite Z.eqb_eq. split.
    + intros E. unfold count. rewrite E.
      rewrite (List.filter_ext _ (fun _ => false))
        by (intros; apply Z.bits_0).
      now induction (seq 0 256).
    + intros Hc. apply Z.bits_inj'. intros i Hi. rewrite Z.bits_0.
      destruct (Z.lt_ge_cases i 256).
      * apply count_zero_bits; [assumption|lia].
      * now apply wf_high_bits.
Qed.

Lemma count_laws_witness :
  wf digit
  /\ (count (unionWith digit alpha) + count (intersectWith digit alpha)
      = count digit + count alpha)%nat
  /\ count (complement digit) = (256 - count digit)%nat
  /\ (isEmpty digit = true <-> count digit = 0%nat).
Proof.
  assert (wf digit) as H by (vm_compute; split; [discriminate|reflexivity]).
  split; [exact H|]. exact (count_laws digit alpha H).
Defined.

(** *** Initializer lists and the builder *)

Lemma of_list_char_set {A} (set : Z -> A -> Z) text o s c (l : list A) :
  char_set_ (of_list set text o s c l) = fold_left set l 0%Z.
Proof.
  unfold of_list.
  enough (forall cs oss first,
            (let '(cs', _, _) :=
               fold_left
                 (fun '(cs, oss, first) x =>
                    (set cs x,
                     (if first : bool then oss else oss +:+ s) +:+ text x,
                     false)) l (cs, oss, first) in cs')
            = fold_left set l cs) as H.
  { specialize (H 0%Z o true).
    destruct (fold_left _ l (0%Z, o, true)) as [[cs' oss'] f']. exact H. }
  induction l as [|x l IH]; intros cs oss first; [reflexivity|].
  simpl. apply IH.
Qed.

Lemma testbit_fold_setBit (l : list byte) cs ch :
  Z.testbit (fold_left setBit l cs) (bit_index ch)
  = Z.testbit cs (bit_index ch) || existsb (Byte.eqb ch) l.
Proof.
  revert cs. induction l as [|x l IH]; intros cs; simpl.
  - now rewrite orb_false_r.
  - rewrite IH, testbit_setBit.
    destruct (Byte.eqb ch x), (Z.testbit cs (bit_index ch)); reflexivity.
Qed.

Lemma testbit_fold_lor (l : list ABNF) cs i :
  Z.testbit (fold_left (fun cs rule => Z.lor cs (char_set_ rule)) l cs) i
  = Z.testbit cs i || existsb (fun r => Z.testbit (char_set_ r) i) l.
Proof.
  revert cs. induction l as [|x l IH]; intros cs; simpl.
  - now rewrite orb_false_r.
  - rewrite IH, Z.lor_spec. now rewrite orb_assoc.
Qed.

Lemma append_assoc (a b c : string) : (a +:+ b) +:+ c = a +:+ b +:+ c.
Proof.
  induction a as [|x a IH]; [reflexivity|].
  change (String x ((a +:+ b) +:+ c) = String x (a +:+ b +:+ c)).
  now rewrite IH.
Qed.

(** X11.  A class built from an initializer list matches a byte exactly
    when the list names it: as a character, as a value, or through one
    of the listed classes.  The class of two listed classes is their
    [unionWith], description included. *)
Theorem initializer_lists_match (chars : list byte) (rules : list ABNF)
    (a b : ABNF) (ch : byte) :
  matches (of_chars chars) ch = existsb (Byte.eqb ch) chars
  /\ matches (of_values chars) ch = existsb (Byte.eqb ch) chars
  /\ matches (of_rules rules) ch = existsb (fun r => matches r ch) rules
  /\ of_rules [a; b] = unionWith a b.
Proof.
  unfold matches, of_chars, of_values, of_rules.
  rewrite !of_list_char_set, !testbit_fold_setBit, testbit_fold_lor, Z.bits_0.
  repeat split.
  unfold of_list, unionWith; simpl. f_equal. now rewrite !append_assoc.
Qed.

(** An empty list gives an empty class whose description is not that of
    the default constructor. *)
Example of_empty_lists :
  of_chars [] = mkABNF 0 "[]" /\ of_rules [] = mkABNF 0 "()"
  /\ empty = mkABNF 0 "EMPTY".
Proof. repeat split. Qed.

Lemma builder_call_spec char_signed c b b' ch :
  builder_call char_signed c b = Some b' ->
  matches (Abnf.Builder.build b') ch
  = matches (Abnf.Builder.build b) ch || call_covers ch c
  /\ toString (Abnf.Builder.build b') = toString (Abnf.Builder.build b).
Proof.
  unfold Abnf.Builder.build, matches, toString.
  destruct c as [value|first last|first last|rule|rule]; simpl.
  - intros [= <-]; cbn. split; [|reflexivity].
    rewrite testbit_setBit. apply orb_comm.
  - unfold Abnf.Builder.addCharRange. destruct (_ <? _)%Z; [discriminate|].
    intros [= <-]; cbn. split; [|reflexivity].
    apply testbit_setRange, bit_index_range.
  - unfold Abnf.Builder.addRange. destruct (_ <? _)%N; [discriminate|].
    intros [= <-]; cbn. split; [|reflexivity].
    apply testbit_setRange, bit_index_range.
  - intros [= <-]; cbn. split; [|reflexivity]. apply Z.lor_spec.
  - intros [= <-]; cbn. split; [|reflexivity]. apply Z.lor_spec.
Qed.

(** X12.  The class of an [ABNF::Builder] matches a byte exactly when
    one of the [add] calls made on the builder names it; no call writes
    the description, so that [toString] of a built class is [EMPTY]
    whatever the class matches. *)
Theorem builder_matches_added (char_signed : bool) (cs : list BuilderCall)
    (b : Abnf.Builder.Builder) (ch : byte) :
  builder_calls char_signed cs Abnf.Builder.new = Some b ->
  matches (Abnf.Builder.build b) ch = existsb (call_covers ch) cs
  /\ toString (Abnf.Builder.build b) = "EMPTY".
Proof.
  enough (forall b0,
            builder_calls char_signed cs b0 = Some b ->
            matches (Abnf.Builder.build b) ch
            = matches (Abnf.Builder.build b0) ch || existsb (call_covers ch) cs
            /\ toString (Abnf.Builder.build b) = toString (Abnf.Builder.build b0)) as H.
  { intros Hb. apply H in Hb as [Hm Ht]. split; [|exact Ht].
    rewrite Hm. unfold Abnf.Builder.build at 1. unfold matches at 1.
    cbn [Abnf.Builder.new Abnf.Builder.abnf_ empty char_set_].
    now rewrite Z.bits_0. }
  induction cs as [|c cs IH]; intros b0; simpl.
  - intros [= <-]. now rewrite orb_false_r.
  - destruct (builder_call char_signed c b0) as [b1|] eqn:E; [|discriminate].
    simpl. intros Hb. apply IH in Hb as [Hm Ht].
    apply (builder_call_spec _ _ _ _ ch) in E as [Hm1 Ht1].
    rewrite Hm, Hm1, Ht, Ht1. now rewrite orb_assoc.
Qed.

Lemma builder_matches_added_witness :
  builder_calls true [AddCoreRule DIGIT; AddChar "_"; AddRange "a" "f"]
                Abnf.Builder.new
  = Some (Abnf.Builder.mkBuilder
            (mkABNF (setRange (setBit (initFromCoreRule DIGIT) "_") 97 102)
                    "EMPTY"))
  /\ matches (mkABNF (setRange (setBit (initFromCoreRule DIGIT) "_") 97 102)
                     "EMPTY") "c"
     = existsb (call_covers "c")
               [AddCoreRule DIGIT; AddChar "_"; AddRange "a" "f"]
  /\ toString (mkABNF (setRange (setBit (initFromCoreRule DIGIT) "_") 97 102)
                      "EMPTY") = "EMPTY".
Proof.
  split; [reflexivity|].
  exact (builder_matches_added true
           [AddCoreRule DIGIT; AddChar "_"; AddRange "a" "f"] _ "c"
           eq_refl).
Defined.

(** ** Debug flags *)

Lemma uint8_high_bits (a i : Z) :
  (0 <= a < 256)%Z -> (8 <= i)%Z -> Z.testbit a i = false.
Proof.
  intros Ha Hi. rewrite <- (Z.mod_small a (2 ^ 8)) by (simpl; lia).
  apply Z.mod_pow2_bits_high. lia.
Qed.

Lemma land_not_flag (flag : Z) :
  (0 <= flag < 256)%Z -> Z.land (DebugFlags_not flag) flag = 0%Z.
Proof.
  intros H. unfold DebugFlags_not. apply Z.bits_inj'. intros i Hi.
  rewrite Z.land_spec, Z.lxor_spec, Z.bits_0.
  destruct (Z.lt_ge_cases i 8).
  - change 255%Z with (Z.ones 8). rewrite Z.ones_spec_low by lia.
    now destruct (Z.testbit flag i).
  - rewrite (uint8_high_bits flag) by assumption. apply andb_false_r.
Qed.

(** X13.  For every flag value [flag] of the [uint8_t] enumeration:
    after [enable(flag)] the flag is set, after [disable(flag)] it is not
    set unless [flag] is [NONE], a second [toggle(flag)] undoes the
    first, and [enable] and [disable] leave every flag [other] alone
    that shares no bit with [flag].  [hasFlag(flags, NONE)] holds of all
    [flags]. *)
Theorem debug_flag_laws (c : DebugConfig) (flag other : Z) :
  (0 <= flag < 256)%Z ->
  (0 <= other < 256)%Z ->
  Z.land other flag = 0%Z ->
  hasFlag (flags (enable flag c)) flag = true
  /\ (hasFlag (flags (disable flag c)) flag = true <-> flag = NONE)
  /\ toggle flag (toggle flag c) = c
  /\ hasFlag (flags (enable flag c)) other = hasFlag (flags c) other
  /\ hasFlag (flags (disable flag c)) other = hasFlag (flags c) other
  /\ hasFlag (flags c) NONE = true.
Proof.
  intros Hflag Hrange Hother. destruct c as [fl].
  unfold hasFlag, enable, disable, toggle, NONE; cbn [flags].
  repeat split.
  - apply Z.eqb_eq. apply Z.bits_inj'. intros i _.
    rewrite Z.land_spec, Z.lor_spec.
    now destruct (Z.testbit flag i), (Z.testbit fl i).
  - rewrite <- Z.land_assoc, land_not_flag, Z.land_0_r by assumption.
    intros E. apply Z.eqb_eq in E. now symmetry.
  - intros ->. rewrite <- Z.land_assoc, land_not_flag, Z.land_0_r by lia.
    reflexivity.
  - f_equal. rewrite Z.lxor_assoc, Z.lxor_nilpotent. apply Z.lxor_0_r.
  - f_equal. rewrite Z.land_lor_distr_l, (Z.land_comm flag), Hother.
    now rewrite Z.lor_0_r.
  - f_equal. rewrite <- Z.land_assoc. f_equal.
    apply Z.bits_inj'. intros i Hi.
    assert (Z.testbit (Z.land other flag) i = false) as Hb
      by (rewrite Hother; apply Z.bits_0).
    rewrite Z.land_spec in Hb. unfold DebugFlags_not.
    rewrite Z.land_spec, Z.lxor_spec.
    destruct (Z.testbit other i) eqn:Eo; [|apply andb_false_r].
    simpl in Hb. rewrite Hb. simpl.
    destruct (Z.lt_ge_cases i 8).
    + change 255%Z with (Z.ones 8). now rewrite Z.ones_spec_low by lia.
    + now rewrite (uint8_high_bits other) in Eo.
  - now rewrite Z.land_0_r.
Qed.

Lemma debug_flag_laws_witness :
  hasFlag (flags (enable COLLECT_METRICS (mkDebugConfig BASIC)))
          COLLECT_METRICS = true
  /\ (hasFlag (flags (disable COLLECT_METRICS (mkDebugConfig BASIC)))
              COLLECT_METRICS = true <-> COLLECT_METRICS = NONE)
  /\ toggle COLLECT_METRICS (toggle COLLECT_METRICS (mkDebugConfig BASIC))
     = mkDebugConfig BASIC
  /\ hasFlag (flags (enable COLLECT_METRICS (mkDebugConfig BASIC))) BASIC
     = hasFlag (flags (mkDebugConfig BASIC)) BASIC
  /\ hasFlag (flags (disable COLLECT_METRICS (mkDebugConfig BASIC))) BASIC
     = hasFlag (flags (mkDebugConfig BASIC)) BASIC
  /\ hasFlag (flags (mkDebugConfig BASIC)) NONE = true.
Proof.
  apply (debug_flag_laws (mkDebugConfig BASIC) COLLECT_METRICS BASIC).
  - unfold COLLECT_METRICS. lia.
  - vm_compute. split; [discriminate|reflexivity].
  - reflexivity.
Defined.

(** ** The capture interface *)

Lemma record_all_active chars m :
  active_captures_ (record_all chars m)
  = map (fun a => mkActiveCapture (ac_name a) (ac_start_position a)
                                  (buffer a ++ chars))
        (active_captures_ m).
Proof.
  unfold record_all. revert m.
  induction chars as [|ch chars IH]; intros m; simpl.
  - induction (active_captures_ m) as [|[n s b] l IHl]; simpl;
      [reflexivity|]. rewrite app_nil_r. now f_equal.
  - rewrite IH. unfold recordCharInCaptures; cbn.
    rewrite map_map. apply map_ext. intros [n s b]; cbn.
    now rewrite <- app_assoc.
Qed.

Lemma record_all_captures chars m :
  captures_ (record_all chars m) = captures_ m.
Proof.
  unfold record_all. revert m.
  induction chars as [|ch chars IH]; intros m; simpl; [reflexivity|].
  now rewrite IH.
Qed.

Lemma find_active_app name (l : list ActiveCapture) a :
  existsb (fun x => String.eqb (ac_name x) name) l = false ->
  List.find (fun x => String.eqb (ac_name x) name) (l ++ [a])
  = List.find (fun x => String.eqb (ac_name x) name) [a]
  /\ (String.eqb (ac_name a) name = true ->
      erase_active name (l ++ [a]) = l).
Proof.
  induction l as [|x l IH]; simpl.
  - intros _. split; [reflexivity|]. now intros ->.
  - destruct (String.eqb (ac_name x) name); [discriminate|]. simpl.
    intros H. destruct (IH H) as [IH1 IH2]. split; [exact IH1|].
    intros E. now rewrite IH2.
Qed.

Lemma existsb_map_name name (f : ActiveCapture -> ActiveCapture) l :
  (forall a, ac_name (f a) = ac_name a) ->
  existsb (fun x => String.eqb (ac_name x) name) (map f l)
  = existsb (fun x => String.eqb (ac_name x) name) l.
Proof.
  intros Hf. induction l as [|x l IH]; simpl; [reflexivity|].
  now rewrite Hf, IH.
Qed.

Lemma find_none_existsb {A} (p : A -> bool) l :
  List.find p l = None <-> existsb p l = false.
Proof.
  induction l as [|x l IH]; simpl; [tauto|].
  destruct (p x); simpl; [split; discriminate|exact IH].
Qed.

(** X14.  Opening a capture, recording bytes and closing it: when
    [beginCapture(name)] returns, the capture closed by [endCapture(name)]
    after the bytes [chars] were recorded holds exactly [chars], from the
    position of the opening to the position of the closing; it is
    appended to the closed captures, and the captures that were open
    before have the same bytes appended and stay open.  In between a
    second [beginCapture(name)] throws, and so did [endCapture(name)]
    before the capture was opened. *)
Theorem capture_round_trip (name : string) (chars : list byte) (pos : nat)
    (m m1 : FSM) :
  beginCapture name m = Some m1 ->
  let capture :=
    mkCaptureGroup name (current_input_position_ m) pos chars in
  exists m3,
    endCapture name (updateCapturePosition pos (record_all chars m1))
    = Some (capture, m3)
    /\ captures_ m3 = captures_ m ++ [capture]
    /\ active_captures_ m3
       = map (fun a => mkActiveCapture (ac_name a) (ac_start_position a)
                                       (buffer a ++ chars))
             (active_captures_ m)
    /\ beginCapture name (record_all chars m1) = None
    /\ endCapture name m = None.
Proof.
  unfold beginCapture.
  destruct (existsb _ (active_captures_ m)) eqn:Hex; [discriminate|].
  intros Hb. injection Hb as Hb. subst m1.
  set (m1 := set_active_captures_ _ m).
  assert (active_captures_ (updateCapturePosition pos (record_all chars m1))
          = map (fun a => mkActiveCapture (ac_name a) (ac_start_position a)
                                          (buffer a ++ chars))
                (active_captures_ m)
            ++ [mkActiveCapture name (current_input_position_ m) chars])
    as Hact.
  { unfold updateCapturePosition; cbn.
    rewrite record_all_active. subst m1; cbn.
    now rewrite map_app. }
  assert (captures_ (updateCapturePosition pos (record_all chars m1))
          = captures_ m) as Hcap.
  { unfold updateCapturePosition; cbn. now rewrite record_all_captures. }
  assert (existsb (fun x => String.eqb (ac_name x) name)
            (map (fun a => mkActiveCapture (ac_name a) (ac_start_position a)
                                           (buffer a ++ chars))
                 (active_captures_ m)) = false) as Hex'.
  { now rewrite existsb_map_name. }
  destruct (find_active_app name _
              (mkActiveCapture name (current_input_position_ m) chars) Hex')
    as [Hfind Herase].
  unfold endCapture. rewrite Hact, Hfind. cbn [List.find ac_name].
  rewrite String.eqb_refl. eexists. split; [|split; [|split; [|split]]].
  - reflexivity.
  - cbn [captures_ set_active_captures_ set_captures_]. now rewrite Hcap.
  - cbn [active_captures_ set_active_captures_ set_captures_].
    apply Herase. apply String.eqb_refl.
  - rewrite record_all_active. subst m1; cbn.
    rewrite existsb_map_name by reflexivity.
    rewrite existsb_app; cbn. now rewrite String.eqb_refl, orb_true_r.
  - apply find_none_existsb in Hex. now rewrite Hex.
Qed.

Lemma capture_round_trip_witness :
  beginCapture "n" digits_graph
  = Some (set_active_captures_ [mkActiveCapture "n" 0 []] digits_graph)
  /\ exists m3,
       endCapture "n"
         (updateCapturePosition 2
            (record_all (bytes "ab")
               (set_active_captures_ [mkActiveCapture "n" 0 []]
                                     digits_graph)))
       = Some (mkCaptureGroup "n" 0 2 (bytes "ab"), m3)
       /\ captures_ m3 = [] ++ [mkCaptureGroup "n" 0 2 (bytes "ab")]
       /\ active_captures_ m3 = []
       /\ beginCapture "n"
            (record_all (bytes "ab")
               (set_active_captures_ [mkActiveCapture "n" 0 []]
                                     digits_graph)) = None
       /\ endCapture "n" digits_graph = None.
Proof.
  split; [reflexivity|].
  exact (capture_round_trip "n" (bytes "ab") 2 digits_graph _ eq_refl).
Defined.

Lemma find_app {A} (p : A -> bool) (l l' : list A) :
  List.find p (l ++ l')
  = match List.find p l with Some x => Some x | None => List.find p l' end.
Proof.
  induction l as [|x l IH]; simpl; [reflexivity|].
  now destruct (p x).
Qed.

Lemma endCapture_captures name m c m' :
  endCapture name m = Some (c, m') ->
  cg_name c = name /\ captures_ m' = captures_ m ++ [c].
Proof.
  unfold endCapture.
  destruct (List.find _ (active_captures_ m)) as [it|] eqn:Hf;
    [|discriminate].
  intros [= <- <-]. apply find_some in Hf as [_ Hn].
  apply String.eqb_eq in Hn. split; [exact Hn|reflexivity].
Qed.

(** X15.  Looking up a capture that [endCapture(name)] has just closed:
    [hasCapture(name)] holds; [getCaptureByIndex] finds the capture at
    the last index and nothing behind it; [getCapture(name)] answers the
    earliest closed capture of the name, which is the new one only when
    no capture of that name was closed before; the captures of other
    names are found as before. *)
Theorem getCapture_returns_first (name other : string) (m m' : FSM)
    (c : CaptureGroup) :
  endCapture name m = Some (c, m') ->
  hasCapture name m' = true
  /\ getCaptureByIndex (length (captures_ m)) m' = Some c
  /\ getCaptureByIndex (S (length (captures_ m))) m' = None
  /\ getCapture name m'
     = (if hasCapture name m then getCapture name m else Some c)
  /\ (other <> name -> getCapture other m' = getCapture other m).
Proof.
  intros H. apply endCapture_captures in H as [Hn Hc].
  assert (getCapture name m'
          = (if hasCapture name m then getCapture name m else Some c)) as Hg.
  { unfold hasCapture, getCapture. rewrite Hc, find_app.
    destruct (List.find _ (captures_ m)); [reflexivity|].
    simpl. now rewrite Hn, String.eqb_refl. }
  split; [|split; [|split; [|split]]].
  - unfold hasCapture at 1. rewrite Hg. unfold hasCapture.
    now destruct (getCapture name m).
  - unfold getCaptureByIndex. rewrite Hc, length_app; simpl.
    destruct (Nat.ltb_spec (length (captures_ m))
                           (length (captures_ m) + 1)) as [_|?]; [|lia].
    now rewrite lookup_app_r, Nat.sub_diag by lia.
  - unfold getCaptureByIndex. rewrite Hc, length_app; simpl.
    destruct (Nat.ltb_spec (S (length (captures_ m)))
                           (length (captures_ m) + 1)) as [?|_]; [lia|].
    reflexivity.
  - exact Hg.
  - intros Hne. unfold getCapture. rewrite Hc, find_app.
    destruct (List.find _ (captures_ m)); [reflexivity|].
    simpl. rewrite Hn.
    destruct (String.eqb_spec name other); [congruence|reflexivity].
Qed.

Lemma getCapture_returns_first_witness :
  exists m',
    endCapture "n" recaptured = Some (mkCaptureGroup "n" 2 3 (bytes "3"), m')
    /\ hasCapture "n" m' = true
    /\ getCaptureByIndex 1 m' = Some (mkCaptureGroup "n" 2 3 (bytes "3"))
    /\ getCaptureByIndex 2 m' = None
    /\ getCapture "n" m' = Some (mkCaptureGroup "n" 0 1 (bytes "1"))
    /\ ("o" <> "n" -> getCapture "o" m' = getCapture "o" recaptured).
Proof.
  eexists. split; [reflexivity|].
  exact (getCapture_returns_first "n" "o" recaptured _ _ eq_refl).
Defined.

(** ** Graphs built through the interface *)

Lemma hasState_true m s :
  hasState m s = true <-> is_Some (states_ m !! sid_id s).
Proof. unfold hasState. apply bool_decide_eq_true. Qed.

Lemma set_callback_of_spec id cb l l' :
  set_callback_of id cb l = Some l' ->
  map t_id l' = map t_id l
  /\ map t_from l' = map t_from l
  /\ map t_to l' = map t_to l
  /\ length l' = length l.
Proof.
  revert l'. induction l as [|t l IH]; intros l'; simpl; [discriminate|].
  destruct (t_id t =? id)%N.
  - intros [= <-]. simpl. repeat split.
  - destruct (set_callback_of id cb l) as [r|]; [|discriminate].
    simpl. intros [= <-]. destruct (IH r eq_refl) as (H1 & H2 & H3 & H4).
    simpl. now rewrite H1, H2, H3, H4.
Qed.

Lemma Forall_map_eq {A B C} (f : A -> B) (g : A -> C) (P : B -> C -> Prop)
    (l l' : list A) :
  map f l' = map f l -> map g l' = map g l ->
  Forall (fun t => P (f t) (g t)) l -> Forall (fun t => P (f t) (g t)) l'.
Proof.
  revert l'. induction l as [|x l IH]; intros [|y l']; simpl;
    try discriminate; [constructor|].
  intros [= E1 E2] [= E3 E4] H. inversion H; subst.
  constructor; [congruence|]. now apply IH.
Qed.

Lemma same_arrows_refl l : same_arrows l l.
Proof. now repeat split. Qed.

Lemma change_back_spec (f : Transition -> Transition) (l : list Transition) :
  (forall t, t_id (f t) = t_id t /\ t_from (f t) = t_from t
             /\ t_to (f t) = t_to t) ->
  same_arrows l
    (match reverse l with
     | [] => []
     | back :: others => reverse (f back :: others)
     end).
Proof.
  intros Hf. destruct l as [|x l _] using rev_ind.
  - apply same_arrows_refl.
  - rewrite reverse_app. simpl. rewrite reverse_cons, reverse_involutive.
    unfold same_arrows. rewrite !map_app. simpl.
    destruct (Hf x) as (-> & -> & ->). now repeat split.
Qed.

Ltac graph_proj :=
  unfold same_keys, addState, removeAcceptState, setDebugConfig,
         setMaxBacktrackDepth;
  cbn [fst snd fmap option_fmap option_map
       states_ transitions_ start_state_ accept_states_ next_state_id_
       next_transition_id_ set_states_ set_transitions_ set_start_state_
       set_accept_states_ set_current_state_ set_next_state_id_
       set_next_transition_id_ set_debug_config_ set_max_backtrack_depth_
       Transition_rule Transition_epsilon Transition_set_description
       t_id t_from t_to].

(** What one call does to the graph. *)
Lemma graph_call_effect c m m' :
  graph_call c m = Some m' ->
  ((same_keys m m' /\ next_state_id_ m' = next_state_id_ m)
   \/ ((forall k, is_Some (states_ m' !! k)
                  <-> is_Some (states_ m !! k) \/ k = next_state_id_ m)
       /\ next_state_id_ m' = incr32 (next_state_id_ m)))
  /\ ((same_arrows (transitions_ m) (transitions_ m')
       /\ next_transition_id_ m' = next_transition_id_ m)
      \/ (exists l t,
            transitions_ m' = l ++ [t]
            /\ same_arrows (transitions_ m) l
            /\ t_id t = next_transition_id_ m
            /\ hasState m (t_from t) = true /\ hasState m (t_to t) = true
            /\ next_transition_id_ m' = incr32 (next_transition_id_ m)))
  /\ (forall k, k ∈ accept_states_ m' ->
                k ∈ accept_states_ m \/ is_Some (states_ m !! k))
  /\ (start_state_ m' = start_state_ m
      \/ hasState m (start_state_ m') = true).
Proof.
  assert (Hkeep : forall m0 : FSM, same_keys m0 m0) by (intros m0 k; tauto).
  destruct c; simpl.
  - (* addState *)
    intros E; injection E as <-. split; [right|split; [left|split; [|left]]]; graph_proj.
    + split; [|reflexivity]. intros k.
      rewrite lookup_insert_is_Some'. split; intros [?|?]; auto.
    + split; [apply same_arrows_refl|reflexivity].
    + tauto.
    + reflexivity.
  - (* setStartState *)
    unfold setStartState. destruct (hasState m s) eqn:Hs; [|discriminate].
    simpl. intros E; injection E as <-. split; [left|split; [left|split; [|right]]]; graph_proj.
    + split; [|reflexivity]. intros k.
      rewrite lookup_alter_is_Some. tauto.
    + split; [apply same_arrows_refl|reflexivity].
    + tauto.
    + exact Hs.
  - (* addAcceptState *)
    unfold addAcceptState. destruct (hasState m s) eqn:Hs; [|discriminate].
    simpl. intros E; injection E as <-. split; [left|split; [left|split; [|left]]]; graph_proj.
    + split; [|reflexivity]. intros k. rewrite lookup_alter_is_Some. tauto.
    + split; [apply same_arrows_refl|reflexivity].
    + intros k Hk. apply elem_of_union in Hk as [Hk|Hk]; [|now left].
      apply elem_of_singleton in Hk. subst. right.
      now apply hasState_true.
    + reflexivity.
  - (* removeAcceptState *)
    intros E; injection E as <-. split; [left|split; [left|split; [|left]]]; graph_proj.
    + split; [tauto|reflexivity].
    + split; [apply same_arrows_refl|reflexivity].
    + intros k Hk. apply elem_of_difference in Hk as [Hk _]. now left.
    + reflexivity.
  - (* addTransition *)
    unfold addTransition.
    destruct (hasState m from) eqn:Hf; [|discriminate].
    destruct (hasState m to) eqn:Ht; [|discriminate].
    simpl. intros E; injection E as <-. split; [left|split; [right|split; [|left]]]; graph_proj.
    + split; [tauto|reflexivity].
    + eexists _, _. split; [reflexivity|].
      split; [apply same_arrows_refl|]. now repeat split.
    + tauto.
    + reflexivity.
  - (* addTransition with a description *)
    unfold addTransition_described, addTransition.
    destruct (hasState m from) eqn:Hf; [|discriminate].
    destruct (hasState m to) eqn:Ht; [|discriminate].
    simpl. intros E; injection E as <-. split; [left|split; [right|split; [|left]]]; graph_proj.
    + split; [tauto|reflexivity].
    + rewrite reverse_app. simpl.
      rewrite reverse_cons, reverse_involutive.
      eexists _, _. split; [reflexivity|].
      split; [apply same_arrows_refl|]. now repeat split.
    + tauto.
    + reflexivity.
  - (* addEpsilonTransition *)
    unfold addEpsilonTransition.
    destruct (hasState m from) eqn:Hf; [|discriminate].
    destruct (hasState m to) eqn:Ht; [|discriminate].
    simpl. intros E; injection E as <-. split; [left|split; [right|split; [|left]]]; graph_proj.
    + split; [tauto|reflexivity].
    + eexists _, _. split; [reflexivity|].
      split; [apply same_arrows_refl|]. now repeat split.
    + tauto.
    + reflexivity.
  - (* markAsChoicePoint *)
    unfold markAsChoicePoint.
    destruct (states_ m !! sid_id s) as [st|] eqn:Hs; [|discriminate].
    intros E; injection E as <-. split; [left|split; [left|split; [|left]]]; graph_proj.
    + split; [|reflexivity]. intros k.
      rewrite lookup_insert_is_Some'. split; [|tauto].
      intros [E|?]; [rewrite <- E, Hs; eauto|assumption].
    + split; [apply same_arrows_refl|reflexivity].
    + tauto.
    + reflexivity.
  - (* setStateEntryCallback *)
    unfold setStateEntryCallback.
    destruct (states_ m !! sid_id s) as [st|] eqn:Hs; [|discriminate].
    intros E; injection E as <-. split; [left|split; [left|split; [|left]]]; graph_proj.
    + split; [|reflexivity]. intros k.
      rewrite lookup_insert_is_Some'. split; [|tauto].
      intros [E|?]; [rewrite <- E, Hs; eauto|assumption].
    + split; [apply same_arrows_refl|reflexivity].
    + tauto.
    + reflexivity.
  - (* setStateExitCallback *)
    unfold setStateExitCallback.
    destruct (states_ m !! sid_id s) as [st|] eqn:Hs; [|discriminate].
    intros E; injection E as <-. split; [left|split; [left|split; [|left]]]; graph_proj.
    + split; [|reflexivity]. intros k.
      rewrite lookup_insert_is_Some'. split; [|tauto].
      intros [E|?]; [rewrite <- E, Hs; eauto|assumption].
    + split; [apply same_arrows_refl|reflexivity].
    + tauto.
    + reflexivity.
  - (* setTransitionCallback *)
    unfold setTransitionCallback.
    destruct (set_callback_of transition_id callback (transitions_ m))
      as [l|] eqn:Hl; [|discriminate].
    simpl. intros E; injection E as <-. split; [left|split; [left|split; [|left]]]; graph_proj.
    + split; [tauto|reflexivity].
    + split; [|reflexivity].
      apply set_callback_of_spec in Hl as (H1 & H2 & H3 & _).
      now repeat split.
    + tauto.
    + reflexivity.
  - (* setDebugConfig *)
    intros E; injection E as <-. split; [left|split; [left|split; [|left]]]; graph_proj.
    + split; [tauto|reflexivity].
    + split; [apply same_arrows_refl|reflexivity].
    + tauto.
    + reflexivity.
  - (* setMaxBacktrackDepth *)
    intros E; injection E as <-. split; [left|split; [left|split; [|left]]]; graph_proj.
    + split; [tauto|reflexivity].
    + split; [apply same_arrows_refl|reflexivity].
    + tauto.
    + reflexivity.
Qed.

Lemma same_arrows_Forall (P : StateID -> StateID -> Prop) l l' :
  same_arrows l l' ->
  Forall (fun t => P (t_from t) (t_to t)) l ->
  Forall (fun t => P (t_from t) (t_to t)) l'.
Proof.
  intros (_ & H2 & H3). now apply Forall_map_eq.
Qed.

Lemma endpoints_exist_step c m m' :
  graph_call c m = Some m' -> endpoints_exist m -> endpoints_exist m'.
Proof.
  intros Hc (Ht & Ha & Hs).
  destruct (graph_call_effect c m m' Hc) as (Hk & Htr & Hacc & Hst).
  assert (forall k, is_Some (states_ m !! k) -> is_Some (states_ m' !! k))
    as Hmono.
  { intros k Hk0. destruct Hk as [[Hk _]|[Hk _]]; apply Hk; tauto. }
  assert (forall s, hasState m s = true -> hasState m' s = true) as Hmono'.
  { intros s. rewrite !hasState_true. apply Hmono. }
  assert (Forall (fun t => hasState m' (t_from t) = true
                           /\ hasState m' (t_to t) = true) (transitions_ m))
    as Ht'.
  { eapply Forall_impl; [exact Ht|]. cbn beta. intros t [? ?]. auto. }
  split; [|split].
  - destruct Htr as [[Hsame _]|(l & t & -> & Hsame & _ & Hf & Hto & _)].
    + exact (same_arrows_Forall
               (fun a b => hasState m' a = true /\ hasState m' b = true)
               _ _ Hsame Ht').
    + apply Forall_app. split.
      * exact (same_arrows_Forall
                 (fun a b => hasState m' a = true /\ hasState m' b = true)
                 _ _ Hsame Ht').
      * constructor; [auto|constructor].
  - intros k Hk0. apply Hacc in Hk0 as [?|?]; auto.
  - destruct Hst as [->|Hst]; auto.
Qed.

Lemma incr32_small (n : N) : (n + 1 < 2 ^ 32)%N -> incr32 n = (n + 1)%N.
Proof. intros H. unfold incr32. now apply N.mod_small. Qed.

Lemma same_arrows_ids (P : N -> Prop) l l' :
  same_arrows l l' ->
  Forall (fun t => P (t_id t)) l -> Forall (fun t => P (t_id t)) l'.
Proof.
  intros (H1 & _ & _) H.
  apply List.Forall_map. rewrite H1. now apply List.Forall_map.
Qed.

Lemma ids_fresh_step c m m' n :
  graph_call c m = Some m' ->
  (n + 2 < 2 ^ 32)%N ->
  ids_fresh n m -> ids_fresh (n + 1) m'.
Proof.
  intros Hc Hn (Hs & Hkeys & Ht & Hids & Hnd).
  destruct (graph_call_effect c m m' Hc) as (Hk & Htr & _ & _).
  assert ((1 <= next_state_id_ m' <= 1 + (n + 1))%N
          /\ (forall k, is_Some (states_ m' !! k) ->
                        (1 <= k < next_state_id_ m')%N)) as [Hs' Hkeys'].
  { destruct Hk as [[Hk ->]|[Hk ->]].
    - split; [lia|]. intros k Hk0. apply Hkeys, Hk, Hk0.
    - rewrite incr32_small by lia. split; [lia|].
      intros k Hk0. apply Hk in Hk0 as [Hk0| ->]; [|lia].
      apply Hkeys in Hk0. lia. }
  split; [exact Hs'|]. split; [exact Hkeys'|].
  destruct Htr as [[Hsame ->]|(l & t & -> & Hsame & Hid & _ & _ & ->)].
  - split; [lia|]. split.
    + exact (same_arrows_ids
               (fun i => (1 <= i < next_transition_id_ m)%N) _ _ Hsame Hids).
    + destruct Hsame as (-> & _). exact Hnd.
  - rewrite incr32_small by lia. split; [lia|]. split.
    + apply Forall_app. split.
      * apply (same_arrows_ids
                 (fun i => (1 <= i < next_transition_id_ m + 1)%N) _ _ Hsame).
        eapply Forall_impl; [exact Hids|]. cbn beta. intros; lia.
      * constructor; [lia|constructor].
    + rewrite map_app. simpl. destruct Hsame as (E & _). rewrite E.
      apply NoDup_app. split; [exact Hnd|]. split.
      * intros x Hx Hx'. apply list_elem_of_singleton in Hx'. subst x.
        apply list_elem_of_fmap in Hx as (t0 & E0 & Ht0).
        rewrite List.Forall_forall in Hids.
        apply list_elem_of_In in Ht0. apply Hids in Ht0. lia.
      * apply NoDup_singleton.
Qed.

Lemma endpoints_exist_new : endpoints_exist FSM_new.
Proof.
  split; [constructor|]. split.
  - intros k Hk. cbn in Hk. now apply elem_of_empty in Hk.
  - discriminate.
Qed.

Lemma ids_fresh_new : ids_fresh 0 FSM_new.
Proof.
  unfold ids_fresh; cbn. repeat split; try lia.
  - destruct H as [x Hx]. now rewrite lookup_empty in Hx.
  - destruct H as [x Hx]. now rewrite lookup_empty in Hx.
  - constructor.
  - constructor.
Qed.

Lemma graph_calls_endpoints cs : forall m m',
  graph_calls cs m = Some m' -> endpoints_exist m -> endpoints_exist m'.
Proof.
  induction cs as [|c cs IH]; intros m m'; simpl.
  - now intros [= <-].
  - destruct (graph_call c m) as [m1|] eqn:Hc; [|discriminate]. simpl.
    intros H Hm. eapply IH; [exact H|]. eapply endpoints_exist_step; eauto.
Qed.

Lemma graph_calls_ids cs : forall m m' n,
  graph_calls cs m = Some m' ->
  (n + N.of_nat (length cs) + 1 < 2 ^ 32)%N ->
  ids_fresh n m -> ids_fresh (n + N.of_nat (length cs)) m'.
Proof.
  induction cs as [|c cs IH]; intros m m' n; simpl length.
  - simpl. intros [= <-] _. now rewrite N.add_0_r.
  - simpl graph_calls.
    destruct (graph_call c m) as [m1|] eqn:Hc; [|discriminate]. simpl.
    intros H Hn Hm.
    replace (n + N.of_nat (S (length cs)))%N
      with (n + 1 + N.of_nat (length cs))%N by lia.
    eapply IH; [exact H|lia|].
    eapply ids_fresh_step; [exact Hc|lia|exact Hm].
Qed.

Lemma flat_map_nil {A B} (f : A -> list B) (l : list A) :
  Forall (fun x => f x = []) l -> flat_map f l = [].
Proof.
  induction 1 as [|x l Hx _ IH]; simpl; [reflexivity|]. now rewrite Hx, IH.
Qed.

(** X16.  A graph built through the interface of the machine is
    consistent whatever the calls were: every transition runs between
    states of the machine and every accept state is one of its states,
    so that [validateStructure] can only miss a start state or accept
    states, and [isValid] holds exactly when a start state was set and
    the set of accept states is not empty. *)
Theorem built_graph_valid (cs : list GraphCall) (m : FSM) :
  graph_calls cs FSM_new = Some m ->
  Forall (fun issue => issue = NoValidStartState \/ issue = NoAcceptStates)
         (validateStructure m)
  /\ (FSM_isValid m = true
      <-> isValid (start_state_ m) = true /\ accept_states_ m <> ∅).
Proof.
  intros H.
  pose proof (graph_calls_endpoints _ _ _ H endpoints_exist_new)
    as (Ht & Ha & Hs).
  assert (flat_map
            (fun accept =>
               if negb (hasState m (mkStateID accept ""))
               then [AcceptStateMissing accept] else [])
            (elements (accept_states_ m)) = []) as E1.
  { apply flat_map_nil. apply List.Forall_forall. intros k Hk.
    apply list_elem_of_In, elem_of_elements, Ha in Hk.
    apply (hasState_true m (mkStateID k "")) in Hk. now rewrite Hk. }
  assert (flat_map
            (fun trans =>
               (if negb (hasState m (t_from trans))
                then [TransitionFromMissing (t_from trans)] else [])
               ++ (if negb (hasState m (t_to trans))
                   then [TransitionToMissing (t_to trans)] else []))
            (transitions_ m) = []) as E2.
  { apply flat_map_nil. eapply Forall_impl; [exact Ht|]. cbn beta.
    now intros t [-> ->]. }
  unfold FSM_isValid, validateStructure. rewrite E1, E2, !app_nil_r.
  destruct (isValid (start_state_ m)) eqn:Hv.
  - rewrite (Hs eq_refl). simpl.
    destruct (bool_decide (accept_states_ m = ∅)) eqn:He; simpl.
    + apply bool_decide_eq_true in He. split; [repeat (constructor; [first [left; reflexivity | right; reflexivity]|]); constructor|].
      split; [discriminate|]. intros [_ Hne]. contradiction.
    + apply bool_decide_eq_false in He. split; [constructor|].
      split; auto.
  - simpl. split.
    + destruct (bool_decide (accept_states_ m = ∅)); simpl;
        repeat (constructor; [first [left; reflexivity | right; reflexivity]|]); constructor.
    + split; [discriminate|]. intros [? _]. discriminate.
Qed.

(** X17.  Identifiers handed out by a machine that was built through
    its interface with fewer than 2^32 - 1 calls: [addState] returns a
    valid id that no state of the machine has, so that it adds a state
    and overwrites none; [addTransition] returns an id that is not 0 and
    that no transition of the machine has; no two transitions of the
    machine share their id. *)
Theorem built_graph_fresh_ids (cs : list GraphCall) (m : FSM)
    (name description : string) (type : StateType) :
  graph_calls cs FSM_new = Some m ->
  (N.of_nat (length cs) + 1 < 2 ^ 32)%N ->
  isValid (addState name description type m).1 = true
  /\ hasState m (addState name description type m).1 = false
  /\ getStateCount (addState name description type m).2
     = S (getStateCount m)
  /\ (forall from to r prio id m',
        addTransition from to r prio m = Some (id, m') ->
        id <> 0%N /\ Forall (fun t => t_id t <> id) (transitions_ m))
  /\ NoDup (map t_id (transitions_ m)).
Proof.
  intros H Hn.
  assert (0 + N.of_nat (length cs) + 1 < 2 ^ 32)%N as Hn' by lia.
  pose proof (graph_calls_ids cs FSM_new m 0 H Hn' ids_fresh_new)
    as (Hs & Hkeys & Ht & Hids & Hnd).
  assert (states_ m !! next_state_id_ m = None) as Hfresh.
  { destruct (states_ m !! next_state_id_ m) eqn:E; [|reflexivity].
    assert (is_Some (states_ m !! next_state_id_ m)) as Hk
      by (rewrite E; eauto).
    apply Hkeys in Hk. lia. }
  unfold addState; cbn [fst snd sid_id]. split; [|split; [|split; [|split]]].
  - unfold isValid; cbn. apply negb_true_iff, N.eqb_neq. lia.
  - unfold hasState; cbn. apply bool_decide_eq_false.
    rewrite Hfresh. now intros [? ?].
  - unfold getStateCount; cbn. now apply map_size_insert_None.
  - intros from to r prio id m'. unfold addTransition.
    destruct (_ || _); [discriminate|]. cbn. intros [= <- _].
    split; [lia|].
    eapply Forall_impl; [exact Hids|]. cbn beta. intros; lia.
  - exact Hnd.
Qed.

Lemma built_graph_valid_witness :
  graph_calls two_state_calls FSM_new = Some two_state_graph
  /\ Forall (fun issue => issue = NoValidStartState \/ issue = NoAcceptStates)
            (validateStructure two_state_graph)
  /\ (FSM_isValid two_state_graph = true
      <-> isValid (start_state_ two_state_graph) = true
          /\ accept_states_ two_state_graph <> ∅).
Proof.
  assert (graph_calls two_state_calls FSM_new = Some two_state_graph) as H
    by (vm_compute; reflexivity).
  split; [exact H|]. exact (built_graph_valid _ _ H).
Defined.

Lemma built_graph_fresh_ids_witness :
  isValid (addState "C" "" NORMAL two_state_graph).1 = true
  /\ hasState two_state_graph (addState "C" "" NORMAL two_state_graph).1
     = false
  /\ getStateCount (addState "C" "" NORMAL two_state_graph).2
     = S (getStateCount two_state_graph)
  /\ (forall from to r prio id m',
        addTransition from to r prio two_state_graph = Some (id, m') ->
        id <> 0%N
        /\ Forall (fun t => t_id t <> id) (transitions_ two_state_graph))
  /\ NoDup (map t_id (transitions_ two_state_graph)).
Proof.
  apply (built_graph_fresh_ids two_state_calls two_state_graph "C" ""
                               NORMAL).
  - vm_compute. reflexivity.
  - vm_compute. reflexivity.
Defined.

(** ** Machines from [FSM::Builder] *)

Section ConfigFolds.

Lemma FSM_of_config_states (config : InitialConfig) :
  states_ (FSM_of_config config)
  = fold_left (fun s st => <[sid_id (st_id st) := st]> s)
              (cfg_states config) ∅.
Proof.
  unfold FSM_of_config.
  set (step1 := fun (m : FSM) (st : State) => _).
  set (step2 := fun (m : FSM) (trans : Transition) => _).
  set (step3 := fun (m : FSM) (accept : StateID) => _).
  assert (forall l m, states_ (fold_left step3 l m) = states_ m) as H3.
  { induction l as [|x l IH]; intros m; simpl; [reflexivity|].
    now rewrite IH. }
  assert (forall l m, states_ (fold_left step2 l m) = states_ m) as H2.
  { induction l as [|x l IH]; intros m; simpl; [reflexivity|].
    now rewrite IH. }
  assert (forall l m,
            states_ (fold_left step1 l m)
            = fold_left (fun s st => <[sid_id (st_id st) := st]> s) l
                        (states_ m)) as H1.
  { induction l as [|x l IH]; intros m; simpl; [reflexivity|].
    now rewrite IH. }
  rewrite H3. cbn [states_ set_current_state_ set_start_state_].
  now rewrite H2, H1.
Qed.

Lemma FSM_of_config_transitions (config : InitialConfig) :
  transitions_ (FSM_of_config config) = cfg_transitions config.
Proof.
  unfold FSM_of_config.
  set (step1 := fun (m : FSM) (st : State) => _).
  set (step2 := fun (m : FSM) (trans : Transition) => _).
  set (step3 := fun (m : FSM) (accept : StateID) => _).
  assert (forall l m, transitions_ (fold_left step3 l m) = transitions_ m)
    as H3.
  { induction l as [|x l IH]; intros m; simpl; [reflexivity|].
    now rewrite IH. }
  assert (forall l m,
            transitions_ (fold_left step2 l m) = transitions_ m ++ l) as H2.
  { induction l as [|x l IH]; intros m; simpl; [now rewrite app_nil_r|].
    rewrite IH. cbn. now rewrite <- app_assoc. }
  assert (forall l m, transitions_ (fold_left step1 l m) = transitions_ m)
    as H1.
  { induction l as [|x l IH]; intros m; simpl; [reflexivity|].
    now rewrite IH. }
  rewrite H3. cbn [transitions_ set_current_state_ set_start_state_].
  now rewrite H2, H1.
Qed.

Lemma FSM_of_config_start (config : InitialConfig) :
  start_state_ (FSM_of_config config) = cfg_start_state config.
Proof.
  unfold FSM_of_config.
  set (m3 := set_current_state_ _ _).
  set (step3 := fun (m : FSM) (accept : StateID) => _).
  assert (forall l m, start_state_ (fold_left step3 l m) = start_state_ m)
    as H3.
  { induction l as [|x l IH]; intros m; simpl; [reflexivity|].
    now rewrite IH. }
  rewrite H3. reflexivity.
Qed.

Lemma FSM_of_config_accept (config : InitialConfig) k :
  k ∈ accept_states_ (FSM_of_config config)
  <-> k ∈ map sid_id (cfg_accept_states config).
Proof.
  unfold FSM_of_config.
  set (m3 := set_current_state_ _ _).
  set (step3 := fun (m : FSM) (accept : StateID) => _).
  assert (forall l m,
            k ∈ accept_states_ (fold_left step3 l m)
            <-> k ∈ map sid_id l \/ k ∈ accept_states_ m) as H3.
  { induction l as [|x l IH]; intros m; simpl.
    - rewrite elem_of_nil. tauto.
    - rewrite IH. cbn [accept_states_ step3 set_accept_states_].
      rewrite elem_of_union, elem_of_singleton, elem_of_cons. tauto. }
  rewrite H3.
  assert (accept_states_ m3 = ∅) as ->.
  { subst m3. cbn [accept_states_ set_current_state_ set_start_state_].
    set (step1 := fun (m : FSM) (st : State) => _).
    set (step2 := fun (m : FSM) (trans : Transition) => _).
    assert (forall l m, accept_states_ (fold_left step2 l m)
                        = accept_states_ m) as H2.
    { induction l as [|x l IH]; intros m; simpl; [reflexivity|].
      now rewrite IH. }
    assert (forall l m, accept_states_ (fold_left step1 l m)
                        = accept_states_ m) as H1.
    { induction l as [|x l IH]; intros m; simpl; [reflexivity|].
      now rewrite IH. }
    now rewrite H2, H1. }
  rewrite elem_of_empty. tauto.
Qed.

End ConfigFolds.

Lemma builder_consistent_le n n' b :
  (n <= n')%N -> builder_consistent n b -> builder_consistent n' b.
Proof.
  intros Hn (H1 & H2). split; [lia|exact H2].
Qed.

Lemma builder_consistent_update n b b' :
  builder_consistent n b ->
  Builder.next_id_ b' = Builder.next_id_ b ->
  builder_ids b' = builder_ids b ->
  Builder.name_to_id_ b' = Builder.name_to_id_ b ->
  Forall (fun t => sid_id (t_from t) ∈ builder_ids b
                   /\ sid_id (t_to t) ∈ builder_ids b)
         (Builder.transitions_ b') ->
  (forall sid, Builder.start_state_ b' = Some sid ->
               sid_id sid ∈ builder_ids b) ->
  Forall (fun sid => sid_id sid ∈ builder_ids b)
         (Builder.accept_states_ b') ->
  builder_consistent n b'.
Proof.
  intros (H1 & H2 & H3 & H4 & H5 & H6) E1 E2 E3 Ht Hs Ha.
  unfold builder_consistent. rewrite E1, E2, E3. now repeat split.
Qed.

Lemma getOrCreateState_spec name b n sid b' :
  Builder.getOrCreateState name b = (sid, b') ->
  builder_consistent n b ->
  (n + 2 < 2 ^ 32)%N ->
  builder_consistent (n + 1) b'
  /\ sid_id sid ∈ builder_ids b'
  /\ (forall k, k ∈ builder_ids b -> k ∈ builder_ids b')
  /\ Builder.transitions_ b' = Builder.transitions_ b
  /\ Builder.start_state_ b' = Builder.start_state_ b
  /\ Builder.accept_states_ b' = Builder.accept_states_ b.
Proof.
  unfold Builder.getOrCreateState. intros H Hb Hn.
  destruct (Builder.name_to_id_ b !! name) as [sid0|] eqn:E.
  - injection H as <- <-. split.
    + eapply builder_consistent_le; [|exact Hb]. lia.
    + destruct Hb as (_ & _ & H3 & _). split; [eauto|]. now repeat split.
  - injection H as <- <-.
    destruct Hb as (H1 & H2 & H3 & H4 & H5 & H6).
    assert (forall k, k ∈ builder_ids b ->
                      k ∈ builder_ids b ++ [Builder.next_id_ b]) as Hmono.
    { intros k Hk. apply elem_of_app. now left. }
    unfold builder_consistent, builder_ids; cbn.
    rewrite map_app; cbn. fold (builder_ids b).
    rewrite incr32_small by lia.
    split; [|split; [|split; [|now repeat split]]].
    + split; [lia|]. split.
      * apply Forall_app. split.
        -- eapply Forall_impl; [exact H2|]. cbn beta. intros; lia.
        -- constructor; [lia|constructor].
      * split.
        -- intros name' sid'. rewrite lookup_insert.
           destruct (decide (name = name')) as [_|_].
           ++ intros [= <-]. cbn. apply elem_of_app. right.
              apply list_elem_of_singleton. reflexivity.
           ++ intros Hl. apply Hmono. eauto.
        -- split; [|split].
           ++ eapply Forall_impl; [exact H4|]. cbn beta.
              intros t [? ?]. auto.
           ++ intros sid' Hs. auto.
           ++ eapply Forall_impl; [exact H6|]. cbn beta. auto.
    + apply elem_of_app. right. apply list_elem_of_singleton. reflexivity.
    + exact Hmono.
Qed.

Lemma change_first_ids sid change l :
  (forall st, st_id (change st) = st_id st) ->
  map (fun st => sid_id (st_id st)) (Builder.change_first sid change l)
  = map (fun st => sid_id (st_id st)) l.
Proof.
  intros Hc. induction l as [|st l IH]; simpl; [reflexivity|].
  destruct (StateID_eqb (st_id st) sid); simpl.
  - now rewrite Hc.
  - now rewrite IH.
Qed.

Lemma same_arrows_endpoints (ids : list N) l l' :
  same_arrows l l' ->
  Forall (fun t => sid_id (t_from t) ∈ ids /\ sid_id (t_to t) ∈ ids) l ->
  Forall (fun t => sid_id (t_from t) ∈ ids /\ sid_id (t_to t) ∈ ids) l'.
Proof.
  exact (same_arrows_Forall
           (fun a b => sid_id a ∈ ids /\ sid_id b ∈ ids) l l').
Qed.

Lemma machine_builder_call_consistent c b b' n :
  machine_builder_call c b = Some b' ->
  (n + 3 < 2 ^ 32)%N ->
  builder_consistent n b -> builder_consistent (n + 2) b'.
Proof.
  intros Hc Hn Hb.
  assert (forall b0, builder_consistent n b0 -> builder_consistent (n + 2) b0)
    as Hle by (intros b0; apply builder_consistent_le; lia).
  assert (forall b0, builder_consistent (n + 1) b0 ->
                     builder_consistent (n + 2) b0)
    as Hle1 by (intros b0; apply builder_consistent_le; lia).
  destruct c; simpl in Hc.
  - (* addState *)
    injection Hc as <-.
    destruct Hb as (H1 & H2 & H3 & H4 & H5 & H6).
    assert (forall k, k ∈ builder_ids b ->
                      k ∈ builder_ids b ++ [Builder.next_id_ b]) as Hmono.
    { intros k Hk. apply elem_of_app. now left. }
    unfold builder_consistent, builder_ids, Builder.addState; cbn.
    rewrite map_app; cbn. fold (builder_ids b).
    rewrite incr32_small by lia.
    split; [lia|]. split; [|split; [|split; [|split]]].
    + apply Forall_app. split.
      * eapply Forall_impl; [exact H2|]. cbn beta. intros; lia.
      * constructor; [lia|constructor].
    + intros name' sid'. rewrite lookup_insert.
      destruct (decide (name = name')) as [_|_].
      * intros [= <-]. cbn. apply elem_of_app. right.
        apply list_elem_of_singleton. reflexivity.
      * intros Hl. apply Hmono. eauto.
    + eapply Forall_impl; [exact H4|]. cbn beta. intros t [? ?]. auto.
    + intros sid' Hs. auto.
    + eapply Forall_impl; [exact H6|]. cbn beta. auto.
  - (* setStartState *)
    unfold Builder.setStartState in Hc.
    destruct (Builder.getOrCreateState name b) as [sid b1] eqn:E.
    injection Hc as <-.
    destruct (getOrCreateState_spec _ _ _ _ _ E Hb ltac:(lia))
      as (Hb1 & Hsid & _ & Et & Es & Ea).
    apply Hle1. apply (builder_consistent_update _ b1); try reflexivity.
    + exact Hb1.
    + apply Hb1.
    + intros sid' [= <-]. exact Hsid.
    + apply Hb1.
  - (* addAcceptState *)
    unfold Builder.addAcceptState in Hc.
    destruct (Builder.getOrCreateState name b) as [sid b1] eqn:E.
    injection Hc as <-.
    destruct (getOrCreateState_spec _ _ _ _ _ E Hb ltac:(lia))
      as (Hb1 & Hsid & _ & Et & Es & Ea).
    apply Hle1. apply (builder_consistent_update _ b1); try reflexivity.
    + exact Hb1.
    + apply Hb1.
    + apply Hb1.
    + cbn. apply Forall_app. split; [apply Hb1|].
      constructor; [exact Hsid|constructor].
  - (* addTransition *)
    unfold Builder.addTransition in Hc.
    destruct (Builder.getOrCreateState from b) as [from_id b1] eqn:E1.
    destruct (Builder.getOrCreateState to b1) as [to_id b2] eqn:E2.
    injection Hc as <-.
    destruct (getOrCreateState_spec _ _ _ _ _ E1 Hb ltac:(lia))
      as (Hb1 & Hf & _).
    destruct (getOrCreateState_spec _ _ _ _ _ E2 Hb1 ltac:(lia))
      as (Hb2 & Ht & Hmono & _).
    replace (n + 2)%N with (n + 1 + 1)%N by lia.
    apply (builder_consistent_update _ b2); try reflexivity.
    + exact Hb2.
    + cbn. apply Forall_app. split; [apply Hb2|].
      constructor; [|constructor]. cbn. auto.
    + apply Hb2.
    + apply Hb2.
  - (* addTransition with a description *)
    unfold Builder.addTransition_described, Builder.addTransition in Hc.
    destruct (Builder.getOrCreateState from b) as [from_id b1] eqn:E1.
    destruct (Builder.getOrCreateState to b1) as [to_id b2] eqn:E2.
    injection Hc as <-.
    destruct (getOrCreateState_spec _ _ _ _ _ E1 Hb ltac:(lia))
      as (Hb1 & Hf & _).
    destruct (getOrCreateState_spec _ _ _ _ _ E2 Hb1 ltac:(lia))
      as (Hb2 & Ht & Hmono & _).
    replace (n + 2)%N with (n + 1 + 1)%N by lia.
    apply (builder_consistent_update _ b2); try reflexivity.
    + exact Hb2.
    + cbn [Builder.transitions_ Builder.set_transitions_].
      eapply same_arrows_endpoints;
        [apply (change_back_spec (Transition_set_description description));
         intros t; now repeat split|].
      apply Forall_app. split; [apply Hb2|].
      constructor; [|constructor]. cbn. auto.
    + apply Hb2.
    + apply Hb2.
  - (* addEpsilonTransition *)
    unfold Builder.addEpsilonTransition in Hc.
    destruct (Builder.getOrCreateState from b) as [from_id b1] eqn:E1.
    destruct (Builder.getOrCreateState to b1) as [to_id b2] eqn:E2.
    injection Hc as <-.
    destruct (getOrCreateState_spec _ _ _ _ _ E1 Hb ltac:(lia))
      as (Hb1 & Hf & _).
    destruct (getOrCreateState_spec _ _ _ _ _ E2 Hb1 ltac:(lia))
      as (Hb2 & Ht & Hmono & _).
    replace (n + 2)%N with (n + 1 + 1)%N by lia.
    apply (builder_consistent_update _ b2); try reflexivity.
    + exact Hb2.
    + cbn. apply Forall_app. split; [apply Hb2|].
      constructor; [|constructor]. cbn. auto.
    + apply Hb2.
    + apply Hb2.
  - injection Hc as <-. apply Hle.
    apply (builder_consistent_update _ b);
      first [reflexivity | exact Hb | apply Hb].
  - injection Hc as <-. apply Hle.
    apply (builder_consistent_update _ b);
      first [reflexivity | exact Hb | apply Hb].
  - injection Hc as <-. apply Hle.
    apply (builder_consistent_update _ b);
      first [reflexivity | exact Hb | apply Hb].
  - (* onStateEntry *)
    unfold Builder.onStateEntry in Hc.
    destruct (Builder.getOrCreateState state_name b) as [sid b1] eqn:E.
    injection Hc as <-.
    destruct (getOrCreateState_spec _ _ _ _ _ E Hb ltac:(lia))
      as (Hb1 & _).
    apply Hle1.
    apply (builder_consistent_update _ b1);
      try first [reflexivity | exact Hb1 | apply Hb1].
    unfold builder_ids; cbn. now apply change_first_ids.
  - (* onStateExit *)
    unfold Builder.onStateExit in Hc.
    destruct (Builder.getOrCreateState state_name b) as [sid b1] eqn:E.
    injection Hc as <-.
    destruct (getOrCreateState_spec _ _ _ _ _ E Hb ltac:(lia))
      as (Hb1 & _).
    apply Hle1.
    apply (builder_consistent_update _ b1);
      try first [reflexivity | exact Hb1 | apply Hb1].
    unfold builder_ids; cbn. now apply change_first_ids.
  - (* onTransition *)
    unfold Builder.onTransition in Hc.
    pose proof (change_back_spec (Transition_set_callback callback)
                  (Builder.transitions_ b)
                  ltac:(intros t; now repeat split)) as Hsame.
    destruct (reverse (Builder.transitions_ b)) as [|back others];
      [discriminate|].
    injection Hc as <-. apply Hle.
    apply (builder_consistent_update _ b);
      try first [reflexivity | exact Hb | apply Hb].
    cbn. eapply same_arrows_endpoints; [exact Hsame|apply Hb].
  - (* markChoicePoint *)
    unfold Builder.markChoicePoint in Hc.
    destruct (Builder.getOrCreateState state_name b) as [sid b1] eqn:E.
    injection Hc as <-.
    destruct (getOrCreateState_spec _ _ _ _ _ E Hb ltac:(lia))
      as (Hb1 & _).
    apply Hle1.
    apply (builder_consistent_update _ b1);
      try first [reflexivity | exact Hb1 | apply Hb1].
    unfold builder_ids; cbn. now apply change_first_ids.
Qed.

Lemma getOrCreateState_keeps name b sid b' :
  Builder.getOrCreateState name b = (sid, b') ->
  Builder.start_state_ b' = Builder.start_state_ b
  /\ Builder.accept_states_ b' = Builder.accept_states_ b.
Proof.
  unfold Builder.getOrCreateState.
  destruct (Builder.name_to_id_ b !! name); intros [= <- <-]; now split.
Qed.

Lemma machine_builder_call_roles c b b' :
  machine_builder_call c b = Some b' ->
  (if is_setStartState c then is_Some (Builder.start_state_ b')
   else Builder.start_state_ b' = Builder.start_state_ b)
  /\ (if is_addAcceptState c then Builder.accept_states_ b' <> []
      else Builder.accept_states_ b' = Builder.accept_states_ b).
Proof.
  destruct c; simpl; intros Hc; try (injection Hc as <-; now split).
  - unfold Builder.setStartState in Hc.
    destruct (Builder.getOrCreateState name b) as [sid b1] eqn:E.
    injection Hc as <-. apply getOrCreateState_keeps in E as [_ Ea].
    split; [now eexists|exact Ea].
  - unfold Builder.addAcceptState in Hc.
    destruct (Builder.getOrCreateState name b) as [sid b1] eqn:E.
    injection Hc as <-. apply getOrCreateState_keeps in E as [Es _].
    split; [exact Es|]. cbn. now destruct (Builder.accept_states_ b1).
  - unfold Builder.addTransition in Hc.
    destruct (Builder.getOrCreateState from b) as [from_id b1] eqn:E1.
    destruct (Builder.getOrCreateState to b1) as [to_id b2] eqn:E2.
    injection Hc as <-.
    apply getOrCreateState_keeps in E1 as [Es1 Ea1].
    apply getOrCreateState_keeps in E2 as [Es2 Ea2].
    cbn. split; congruence.
  - unfold Builder.addTransition_described, Builder.addTransition in Hc.
    destruct (Builder.getOrCreateState from b) as [from_id b1] eqn:E1.
    destruct (Builder.getOrCreateState to b1) as [to_id b2] eqn:E2.
    injection Hc as <-.
    apply getOrCreateState_keeps in E1 as [Es1 Ea1].
    apply getOrCreateState_keeps in E2 as [Es2 Ea2].
    cbn. split; congruence.
  - unfold Builder.addEpsilonTransition in Hc.
    destruct (Builder.getOrCreateState from b) as [from_id b1] eqn:E1.
    destruct (Builder.getOrCreateState to b1) as [to_id b2] eqn:E2.
    injection Hc as <-.
    apply getOrCreateState_keeps in E1 as [Es1 Ea1].
    apply getOrCreateState_keeps in E2 as [Es2 Ea2].
    cbn. split; congruence.
  - unfold Builder.onStateEntry in Hc.
    destruct (Builder.getOrCreateState state_name b) as [sid b1] eqn:E.
    injection Hc as <-. now apply getOrCreateState_keeps in E.
  - unfold Builder.onStateExit in Hc.
    destruct (Builder.getOrCreateState state_name b) as [sid b1] eqn:E.
    injection Hc as <-. now apply getOrCreateState_keeps in E.
  - unfold Builder.onTransition in Hc.
    destruct (reverse (Builder.transitions_ b)); [discriminate|].
    injection Hc as <-. now split.
  - unfold Builder.markChoicePoint in Hc.
    destruct (Builder.getOrCreateState state_name b) as [sid b1] eqn:E.
    injection Hc as <-. now apply getOrCreateState_keeps in E.
Qed.

Lemma machine_builder_calls_roles cs : forall b b',
  machine_builder_calls cs b = Some b' ->
  (is_Some (Builder.start_state_ b')
   <-> is_Some (Builder.start_state_ b)
       \/ existsb is_setStartState cs = true)
  /\ (Builder.accept_states_ b' <> []
      <-> Builder.accept_states_ b <> []
          \/ existsb is_addAcceptState cs = true).
Proof.
  induction cs as [|c cs IH]; intros b b'; simpl.
  - intros [= <-]. split; split; auto; intros [?|?]; auto; discriminate.
  - destruct (machine_builder_call c b) as [b1|] eqn:Hc; [|discriminate].
    simpl. intros H. apply IH in H as [Hs Ha].
    apply machine_builder_call_roles in Hc as [Hs1 Ha1].
    rewrite Hs, Ha. clear Hs Ha. split.
    + destruct (is_setStartState c); simpl.
      * split; [intros _; now right|intros _; now left].
      * rewrite Hs1. tauto.
    + destruct (is_addAcceptState c); simpl.
      * split; [intros _; now right|intros _; now left].
      * rewrite Ha1. tauto.
Qed.

Lemma machine_builder_calls_consistent cs : forall b b' n,
  machine_builder_calls cs b = Some b' ->
  (n + 2 * N.of_nat (length cs) + 1 < 2 ^ 32)%N ->
  builder_consistent n b ->
  builder_consistent (n + 2 * N.of_nat (length cs)) b'.
Proof.
  induction cs as [|c cs IH]; intros b b' n; simpl length.
  - simpl. intros [= <-] _. now rewrite N.add_0_r.
  - simpl machine_builder_calls.
    destruct (machine_builder_call c b) as [b1|] eqn:Hc; [|discriminate].
    simpl. intros H Hn Hb.
    replace (n + 2 * N.of_nat (S (length cs)))%N
      with (n + 2 + 2 * N.of_nat (length cs))%N by lia.
    eapply IH; [exact H|lia|].
    eapply machine_builder_call_consistent; [exact Hc|lia|exact Hb].
Qed.

Lemma builder_consistent_new : builder_consistent 0 Builder.new.
Proof.
  unfold builder_consistent, builder_ids; cbn.
  split; [lia|]. split; [constructor|]. split.
  - intros name sid H. now rewrite lookup_empty in H.
  - split; [constructor|]. split; [discriminate|constructor].
Qed.

Lemma fold_insert_is_Some (l : list State) (s : gmap N State) k :
  is_Some (fold_left (fun s st => <[sid_id (st_id st) := st]> s) l s !! k)
  <-> k ∈ map (fun st => sid_id (st_id st)) l \/ is_Some (s !! k).
Proof.
  revert s. induction l as [|st l IH]; intros s; simpl.
  - rewrite elem_of_nil. tauto.
  - rewrite IH, lookup_insert_is_Some', elem_of_cons.
    intuition congruence.
Qed.

(** X18.  [FSM::Builder::build] throws exactly when [setStartState] or
    [addAcceptState] was never called on the builder, and the machine it
    returns otherwise passes [isValid]: the builder creates the states
    that its calls name, so that every transition, the start state and
    every accept state is a state of the machine.  (Builders with fewer
    than 2^31 calls, without [withInitialConfig] and without machines to
    embed.) *)
Theorem builder_build_valid (cs : list MachineBuilderCall)
    (b : Builder.Builder) :
  machine_builder_calls cs Builder.new = Some b ->
  (2 * N.of_nat (length cs) + 1 < 2 ^ 32)%N ->
  (is_Some (Builder.build b)
   <-> existsb is_setStartState cs = true
       /\ existsb is_addAcceptState cs = true)
  /\ (forall m, Builder.build b = Some m -> FSM_isValid m = true).
Proof.
  intros H Hn.
  pose proof (machine_builder_calls_roles cs _ _ H) as [Hs Ha].
  cbn in Hs, Ha.
  assert (0 + 2 * N.of_nat (length cs) + 1 < 2 ^ 32)%N as Hn' by lia.
  pose proof (machine_builder_calls_consistent cs _ _ 0 H Hn'
                builder_consistent_new)
    as (H1 & H2 & H3 & H4 & H5 & H6).
  split.
  - unfold Builder.build.
    destruct (Builder.start_state_ b) as [start|].
    + destruct (Builder.accept_states_ b) as [|a l].
      * split; [intros [? ?]; discriminate|].
        intros [_ Hacc]. exfalso.
        assert (@nil StateID <> []) as Hne by (apply Ha; now right).
        now apply Hne.
      * split; [|intros _; now eexists]. intros _. split.
        -- destruct Hs as [Hs _].
           destruct (Hs ltac:(now eexists)) as [[? ?]|?];
             [discriminate|assumption].
        -- destruct Ha as [Ha _].
           destruct (Ha ltac:(discriminate)) as [?|?];
             [contradiction|assumption].
    + split; [intros [? ?]; discriminate|].
      intros [Hst _]. exfalso.
      destruct Hs as [_ Hs]. destruct (Hs ltac:(now right)). discriminate.
  - intros m. unfold Builder.build.
    destruct (Builder.start_state_ b) as [start|] eqn:Es; [|discriminate].
    destruct (Builder.accept_states_ b) as [|a l] eqn:Ea; [discriminate|].
    intros [= <-].
    set (config := mkInitialConfig _ _ _ _).
    assert (forall s, sid_id s ∈ builder_ids b ->
                      hasState (setDebugConfig (Builder.debug_config_ b)
                                  (FSM_of_config config)) s = true) as Hhas.
    { intros s Hin. apply hasState_true.
      unfold setDebugConfig. cbn [states_ set_debug_config_].
      rewrite FSM_of_config_states. apply fold_insert_is_Some. now left. }
    unfold FSM_isValid, validateStructure, setDebugConfig.
    cbn [states_ transitions_ start_state_ accept_states_ set_debug_config_].
    fold (setDebugConfig (Builder.debug_config_ b) (FSM_of_config config)).
    rewrite FSM_of_config_start, FSM_of_config_transitions.
    cbn [cfg_start_state cfg_transitions config].
    assert (isValid start = true) as ->.
    { unfold isValid. apply negb_true_iff, N.eqb_neq.
      specialize (H5 start eq_refl).
      rewrite List.Forall_forall in H2.
      apply list_elem_of_In, H2 in H5. lia. }
    rewrite (Hhas start (H5 start eq_refl)). simpl.
    assert (accept_states_ (FSM_of_config config) <> ∅) as Hne.
    { intros E. assert (sid_id a ∈ accept_states_ (FSM_of_config config)).
      { apply FSM_of_config_accept. cbn. apply elem_of_cons. now left. }
      rewrite E in H0. now apply elem_of_empty in H0. }
    rewrite bool_decide_eq_false_2 by exact Hne. simpl.
    rewrite !flat_map_nil; [reflexivity| |].
    + eapply Forall_impl; [exact H4|]. cbn beta. intros t [Hf Ht].
      now rewrite (Hhas _ Hf), (Hhas _ Ht).
    + apply List.Forall_forall. intros k Hk.
      apply list_elem_of_In, elem_of_elements, FSM_of_config_accept in Hk.
      cbn [cfg_accept_states config] in Hk.
      apply list_elem_of_fmap in Hk as (sid & -> & Hsid).
      rewrite List.Forall_forall in H6.
      apply list_elem_of_In, H6 in Hsid.
      now rewrite (Hhas (mkStateID (sid_id sid) "") Hsid).
Qed.

Lemma builder_build_valid_witness :
  machine_builder_calls digits_builder_calls Builder.new
  = Some digits_builder
  /\ (is_Some (Builder.build digits_builder)
      <-> existsb is_setStartState digits_builder_calls = true
          /\ existsb is_addAcceptState digits_builder_calls = true)
  /\ (forall m, Builder.build digits_builder = Some m ->
                FSM_isValid m = true).
Proof.
  assert (machine_builder_calls digits_builder_calls Builder.new
          = Some digits_builder) as H by (vm_compute; reflexivity).
  split; [exact H|].
  apply (builder_build_valid digits_builder_calls digits_builder H).
  vm_compute. reflexivity.
Defined.

(** ** What a run leaves as it was *)

Lemma same_graph_refl m : same_graph m m.
Proof. now repeat split. Qed.

Lemma same_graph_trans m1 m2 m3 :
  same_graph m1 m2 -> same_graph m2 m3 -> same_graph m1 m3.
Proof.
  unfold same_graph. intros (A1 & A2 & A3 & A4 & A5 & A6 & A7 & A8)
                            (B1 & B2 & B3 & B4 & B5 & B6 & B7 & B8).
  repeat split; congruence.
Qed.

Lemma footprint_same_graph m m' : footprint m m' -> same_graph m m'.
Proof. intros ->. now repeat split. Qed.

Lemma same_graph_set_current_state v m :
  same_graph m (set_current_state_ v m).
Proof. now repeat split. Qed.
Lemma same_graph_set_trace v m : same_graph m (set_trace_ v m).
Proof. now repeat split. Qed.
Lemma same_graph_set_last_error v m : same_graph m (set_last_error_ v m).
Proof. now repeat split. Qed.
Lemma same_graph_set_metrics v m : same_graph m (set_metrics_ v m).
Proof. now repeat split. Qed.
Lemma same_graph_set_captures v m : same_graph m (set_captures_ v m).
Proof. now repeat split. Qed.
Lemma same_graph_set_active_captures v m :
  same_graph m (set_active_captures_ v m).
Proof. now repeat split. Qed.
Lemma same_graph_set_position v m :
  same_graph m (set_current_input_position_ v m).
Proof. now repeat split. Qed.
Lemma same_graph_set_current_input v m :
  same_graph m (set_current_input_ v m).
Proof. now repeat split. Qed.
Lemma same_graph_set_stream_state v m :
  same_graph m (set_stream_state_ v m).
Proof. now repeat split. Qed.
Lemma same_graph_set_streaming_mode v m :
  same_graph m (set_streaming_mode_ v m).
Proof. now repeat split. Qed.
Lemma same_graph_set_choice_stack v m :
  same_graph m (set_choice_stack_ v m).
Proof. now repeat split. Qed.
Lemma same_graph_set_backtracking_stats v m :
  same_graph m (set_backtracking_stats_ v m).
Proof. now repeat split. Qed.

(** Peels the assignments off the machine on the right, one step of
    [same_graph_trans] each. *)
Ltac same_graph_peel :=
  lazymatch goal with
  | |- same_graph _ (set_current_state_ _ _) =>
      eapply same_graph_trans; [|apply same_graph_set_current_state]
  | |- same_graph _ (set_trace_ _ _) =>
      eapply same_graph_trans; [|apply same_graph_set_trace]
  | |- same_graph _ (set_last_error_ _ _) =>
      eapply same_graph_trans; [|apply same_graph_set_last_error]
  | |- same_graph _ (set_metrics_ _ _) =>
      eapply same_graph_trans; [|apply same_graph_set_metrics]
  | |- same_graph _ (set_captures_ _ _) =>
      eapply same_graph_trans; [|apply same_graph_set_captures]
  | |- same_graph _ (set_active_captures_ _ _) =>
      eapply same_graph_trans; [|apply same_graph_set_active_captures]
  | |- same_graph _ (set_current_input_position_ _ _) =>
      eapply same_graph_trans; [|apply same_graph_set_position]
  | |- same_graph _ (set_current_input_ _ _) =>
      eapply same_graph_trans; [|apply same_graph_set_current_input]
  | |- same_graph _ (set_stream_state_ _ _) =>
      eapply same_graph_trans; [|apply same_graph_set_stream_state]
  | |- same_graph _ (set_streaming_mode_ _ _) =>
      eapply same_graph_trans; [|apply same_graph_set_streaming_mode]
  | |- same_graph _ (set_choice_stack_ _ _) =>
      eapply same_graph_trans; [|apply same_graph_set_choice_stack]
  | |- same_graph _ (set_backtracking_stats_ _ _) =>
      eapply same_graph_trans; [|apply same_graph_set_backtracking_stats]
  end.

Ltac same_graph_setters :=
  unfold updateCapturePosition, recordCharInCaptures,
         count_character_if_enabled, clearCaptures, count_path;
  repeat same_graph_peel;
  first [apply same_graph_refl | eassumption
        | match goal with |- ?G => idtac "left:" G end; fail].

Lemma same_graph_reset m : same_graph m (reset m).
Proof. rewrite reset_unfold. same_graph_setters. Qed.

Section KeepGraph.

Variable std_sort : list Transition -> list Transition.

Lemma same_graph_processCharImpl ch p m b m' :
  processCharImpl std_sort ch p m = Some (b, m') -> same_graph m m'.
Proof.
  intros H. eapply footprint_same_graph, footprint_processCharImpl, H.
Qed.

Lemma same_graph_processEpsilonTransitions p m m' :
  processEpsilonTransitions std_sort p m = Some m' -> same_graph m m'.
Proof.
  intros H.
  eapply footprint_same_graph, footprint_processEpsilonTransitions, H.
Qed.

Lemma same_graph_validate_loop x : forall i m b m',
  validate_loop std_sort x i m = Some (b, m') -> same_graph m m'.
Proof.
  induction x as [|ch rest IH]; intros i m b m'; simpl.
  - intros [= _ <-]. apply same_graph_refl.
  - destruct (processCharImpl std_sort ch i (updateCapturePosition i m))
      as [[[] m1]|] eqn:E; try discriminate;
      apply same_graph_processCharImpl in E.
    + intros H. apply IH in H.
      eapply same_graph_trans; [|exact H].
      eapply same_graph_trans; [|eapply same_graph_trans; [exact E|]];
        same_graph_setters.
    + intros [= _ <-].
      eapply same_graph_trans; [|exact E]. same_graph_setters.
Qed.

Lemma same_graph_validate_begin x m : same_graph m (validate_begin x m).
Proof.
  unfold validate_begin.
  eapply same_graph_trans; [apply same_graph_reset|]. same_graph_setters.
Qed.

Lemma same_graph_validate elapsed_ns x m b m' :
  validate std_sort elapsed_ns x m = Some (b, m') -> same_graph m m'.
Proof.
  rewrite validate_unfold.
  pose proof (same_graph_validate_begin x m) as Hb.
  destruct (negb (isValid (start_state_ m))).
  { intros [= _ <-]. eapply same_graph_trans; [exact Hb|].
    same_graph_setters. }
  destruct (validate_loop std_sort x 0 (validate_begin x m))
    as [[[] m1]|] eqn:E; try discriminate;
    apply same_graph_validate_loop in E.
  - unfold validate_end.
    destruct (processEpsilonTransitions std_sort (length x) _) as [m2|] eqn:E2;
      [|discriminate].
    apply same_graph_processEpsilonTransitions in E2.
    cbn [mbind option_bind].
    assert (same_graph m m2) as H2.
    { eapply same_graph_trans; [exact Hb|].
      eapply same_graph_trans; [exact E|].
      eapply same_graph_trans; [|exact E2]. same_graph_setters. }
    destruct (negb (isInAcceptState m2)); intros [= _ <-];
      (eapply same_graph_trans; [exact H2|]); same_graph_setters.
  - intros [= _ <-]. exact (same_graph_trans _ _ _ Hb E).
Qed.

Lemma same_graph_feed_consume ch m st m' :
  feed_consume std_sort ch m = Some (st, m') -> same_graph m m'.
Proof.
  rewrite feed_consume_unfold.
  destruct (processCharImpl std_sort ch _ _) as [[[] m1]|] eqn:E;
    try discriminate; apply same_graph_processCharImpl in E.
  - cbn zeta. intros [= _ <-].
    eapply same_graph_trans; [|eapply same_graph_trans; [exact E|]];
      same_graph_setters.
  - intros [= _ <-].
    eapply same_graph_trans; [|eapply same_graph_trans; [exact E|]];
      same_graph_setters.
Qed.

Lemma same_graph_feed ch m st m' :
  feed std_sort ch m = Some (st, m') -> same_graph m m'.
Proof.
  unfold feed. destruct (negb (streaming_mode_ m)).
  - cbn zeta. destruct (negb (isValid _)).
    + intros [= _ <-]. same_graph_setters.
    + intros H. apply same_graph_feed_consume in H.
      eapply same_graph_trans; [|exact H]. same_graph_setters.
  - intros H. apply same_graph_feed_consume in H.
    eapply same_graph_trans; [|exact H]. same_graph_setters.
Qed.

Lemma same_graph_feed_chunk chunk : forall m st m',
  feed_chunk std_sort chunk m = Some (st, m') -> same_graph m m'.
Proof.
  induction chunk as [|ch rest IH]; intros m st m'; simpl.
  - intros [= _ <-]. apply same_graph_refl.
  - destruct (feed std_sort ch m) as [[state m1]|] eqn:E; [|discriminate].
    apply same_graph_feed in E.
    destruct (StreamState_eqb state ERROR).
    + now intros [= _ <-].
    + intros H. apply IH in H. eapply same_graph_trans; eassumption.
Qed.

Lemma same_graph_endOfStream m st m' :
  endOfStream std_sort m = Some (st, m') -> same_graph m m'.
Proof.
  unfold endOfStream. destruct (negb (streaming_mode_ m)).
  - intros [= _ <-]. same_graph_setters.
  - destruct (processEpsilonTransitions std_sort _ m) as [m1|] eqn:E;
      [|discriminate].
    apply same_graph_processEpsilonTransitions in E.
    cbn [mbind option_bind].
    destruct (negb (isInAcceptState m1)); intros [= _ <-];
      (eapply same_graph_trans; [exact E|]); same_graph_setters.
Qed.

(** X19.  The greedy executor reads the graph and writes none of it:
    [validate], [feed] of a byte or of a chunk and [endOfStream] return
    with the states, the transitions, the start state, the accept states,
    the debug configuration, the depth limit and the id counters of the
    machine as they were, whatever their answer. *)
Theorem greedy_runs_keep_graph (elapsed_ns : nat) (x : list byte)
    (ch : byte) (m m' : FSM) (b : bool) (st : StreamState) :
  (validate std_sort elapsed_ns x m = Some (b, m') -> same_graph m m')
  /\ (feed std_sort ch m = Some (st, m') -> same_graph m m')
  /\ (feed_chunk std_sort x m = Some (st, m') -> same_graph m m')
  /\ (endOfStream std_sort m = Some (st, m') -> same_graph m m').
Proof.
  split; [apply same_graph_validate|].
  split; [apply same_graph_feed|].
  split; [apply same_graph_feed_chunk|apply same_graph_endOfStream].
Qed.

End KeepGraph.

Lemma greedy_runs_keep_graph_witness :
  exists m',
    validate libstdcxx_sort 42 (bytes "12a") digits_graph_traced
    = Some (false, m')
    /\ same_graph digits_graph_traced m'.
Proof.
  eexists. split; [vm_compute; reflexivity|].
  refine (proj1 (greedy_runs_keep_graph libstdcxx_sort 42 (bytes "12a") x00
                   digits_graph_traced _ false READY) _).
  vm_compute; reflexivity.
Defined.

Section KeepGraphBacktracking.

Variable std_sort : list Transition -> list Transition.

Lemma same_graph_saveChoicePoint alternatives position m :
  same_graph m (saveChoicePoint alternatives position m).
Proof.
  unfold saveChoicePoint. destruct (_ && _); same_graph_setters.
Qed.

Lemma same_graph_backtrack_loop stack : forall m,
  same_graph m (backtrack_loop stack m).2.
Proof.
  induction stack as [|cp rest IH]; intros m; simpl.
  - same_graph_setters.
  - destruct (remaining cp); [apply IH|]. simpl.
    unfold restoreFromChoicePoint. same_graph_setters.
Qed.

Lemma same_graph_backtrack m found m' :
  backtrack m = (found, m') -> same_graph m m'.
Proof.
  unfold backtrack. intros H.
  pose proof (same_graph_backtrack_loop (choice_stack_ m) m) as Hs.
  now rewrite H in Hs.
Qed.

Lemma same_graph_resume_in_loop ch m position m' :
  resume_in_loop ch m = Some (position, m') -> same_graph m m'.
Proof.
  unfold resume_in_loop.
  destruct (choice_stack_ m) as [|cp rest]; [discriminate|].
  destruct (remaining cp) as [|next_trans others]; [discriminate|].
  cbn zeta. intros [= _ <-]. same_graph_setters.
Qed.

Lemma same_graph_takeTransition trans ch p m m' :
  takeTransition trans ch p m = Some m' -> same_graph m m'.
Proof.
  intros H. eapply footprint_same_graph, footprint_takeTransition, H.
Qed.

Lemma same_graph_backtracking_loop fuel input : forall position m b m',
  backtracking_loop std_sort fuel input position m = Returned b m' ->
  same_graph m m'.
Proof.
  induction fuel as [|fuel IH]; intros position m b m'; [discriminate|].
  cbn [backtracking_loop].
  destruct (nth_error input position) as [ch|];
    [|intros [= _ <-]; apply same_graph_refl].
  cbn zeta.
  set (m1 := updateCapturePosition position m).
  assert (same_graph m m1) as H1 by (subst m1; same_graph_setters).
  destruct (getValidTransitions std_sort ch m1) as [|trans alternatives].
  - destruct (backtrack m1) as [found m2] eqn:Eb.
    apply same_graph_backtrack in Eb.
    assert (same_graph m m2) as H2 by exact (same_graph_trans _ _ _ H1 Eb).
    destruct found.
    + destruct (resume_in_loop ch m2) as [[position' m3]|] eqn:Er.
      * apply same_graph_resume_in_loop in Er. intros H. apply IH in H.
        eapply same_graph_trans; [exact H2|].
        eapply same_graph_trans; [exact Er|exact H].
      * intros [= _ <-]. eapply same_graph_trans; [exact H2|].
        same_graph_setters.
    + intros [= _ <-]. eapply same_graph_trans; [exact H2|].
      same_graph_setters.
  - set (m2 := if shouldCreateChoicePoint m1 (trans :: alternatives)
               then saveChoicePoint alternatives position m1 else m1).
    assert (same_graph m1 m2) as H2.
    { subst m2. destruct (shouldCreateChoicePoint _ _);
        [apply same_graph_saveChoicePoint|apply same_graph_refl]. }
    destruct (takeTransition trans ch position (count_path m2))
      as [m3|] eqn:Et; [|discriminate].
    apply same_graph_takeTransition in Et.
    intros H. apply IH in H.
    eapply same_graph_trans; [exact H1|].
    eapply same_graph_trans; [exact H2|].
    eapply same_graph_trans; [|exact H].
    eapply same_graph_trans; [|eapply same_graph_trans; [exact Et|]];
      same_graph_setters.
Qed.

Lemma same_graph_backtracking_begin x m :
  same_graph m (backtracking_begin x m).
Proof.
  unfold backtracking_begin.
  eapply same_graph_trans; [apply same_graph_reset|]. same_graph_setters.
Qed.

Lemma same_graph_restore_start cur m3 m4 :
  same_graph (set_start_state_ cur m3) m4 ->
  same_graph m3 (set_start_state_ (start_state_ m3) m4).
Proof.
  intros (A1 & A2 & A3 & A4 & A5 & A6 & A7 & A8).
  unfold same_graph.
  cbn [states_ transitions_ start_state_ accept_states_ debug_config_
       max_backtrack_depth_ next_state_id_ next_transition_id_
       set_start_state_] in *.
  now repeat split.
Qed.

Lemma same_graph_validateWithBacktracking_both fuel : forall x m b m',
  (validateWithBacktracking_fuel std_sort fuel x m = Returned b m' ->
   same_graph m m')
  /\ (resume_after_input std_sort fuel x m = Returned b m' ->
      same_graph m m').
Proof.
  induction fuel as [|fuel IH]; intros x m b m'; [split; discriminate|].
  assert (IHv := fun x m b m' => proj1 (IH x m b m')).
  assert (IHr := fun x m b m' => proj2 (IH x m b m')).
  clear IH. split.
  - rewrite validateWithBacktracking_unfold.
    pose proof (same_graph_backtracking_begin x m) as Hb.
    destruct (negb (isValid (start_state_ m))).
    { intros [= _ <-]. eapply same_graph_trans; [exact Hb|].
      same_graph_setters. }
    destruct (backtracking_loop std_sort fuel x 0 (backtracking_begin x m))
      as [[] m1| |] eqn:El; try discriminate;
      apply same_graph_backtracking_loop in El.
    + destruct (processEpsilonTransitions std_sort (length x) _)
        as [m2|] eqn:Ee; [|discriminate].
      apply same_graph_processEpsilonTransitions in Ee.
      assert (same_graph m m2) as H2.
      { eapply same_graph_trans; [exact Hb|].
        eapply same_graph_trans; [exact El|].
        eapply same_graph_trans; [|exact Ee]. same_graph_setters. }
      destruct (isInAcceptState m2).
      * now intros [= _ <-].
      * intros H. apply IHr in H. exact (same_graph_trans _ _ _ H2 H).
    + intros [= _ <-]. exact (same_graph_trans _ _ _ Hb El).
  - cbn [resume_after_input].
    destruct (backtrack m) as [found m1] eqn:Eb.
    apply same_graph_backtrack in Eb.
    destruct found;
      [|intros [= _ <-]; eapply same_graph_trans; [exact Eb|];
        same_graph_setters].
    destruct (choice_stack_ m1) as [|cp rest];
      [intros [= _ <-]; eapply same_graph_trans; [exact Eb|];
       same_graph_setters|].
    destruct (remaining cp) as [|next_trans others].
    + intros H. apply IHr in H.
      eapply same_graph_trans; [exact Eb|].
      eapply same_graph_trans; [|exact H]. same_graph_setters.
    + cbn zeta.
      set (m3 := set_current_state_ (t_to next_trans) _).
      assert (same_graph m m3) as H3.
      { eapply same_graph_trans; [exact Eb|]. subst m3.
        same_graph_setters. }
      destruct (length x <=? S (cp_position cp))%nat.
      * destruct (processEpsilonTransitions std_sort (length x) m3)
          as [m4|] eqn:Ee; [|discriminate].
        apply same_graph_processEpsilonTransitions in Ee.
        assert (same_graph m m4) as H4
          by exact (same_graph_trans _ _ _ H3 Ee).
        destruct (isInAcceptState m4).
        -- now intros [= _ <-].
        -- intros H. apply IHr in H. exact (same_graph_trans _ _ _ H4 H).
      * destruct (validateWithBacktracking_fuel std_sort fuel _ _)
          as [success m4| |] eqn:Ev; try discriminate.
        apply IHv in Ev. apply same_graph_restore_start in Ev.
        assert (same_graph m (set_start_state_ (start_state_ m3) m4)) as H5
          by exact (same_graph_trans _ _ _ H3 Ev).
        destruct success.
        -- now intros [= _ <-].
        -- intros H. apply IHr in H. exact (same_graph_trans _ _ _ H5 H).
Qed.

(** X20.  The backtracking executor reads the graph and leaves it as it
    was: when [validateWithBacktracking] returns, whatever its answer,
    the states, the transitions, the accept states, the debug
    configuration, the depth limit and the id counters of the machine are
    as before the call, and so is the start state, which the executor
    replaces for the calls it makes to itself and puts back after each
    of them. *)
Theorem backtracking_keeps_graph (fuel : nat) (x : list byte) (m m' : FSM)
    (b : bool) :
  validateWithBacktracking_fuel std_sort fuel x m = Returned b m' ->
  same_graph m m'.
Proof. apply same_graph_validateWithBacktracking_both. Qed.

End KeepGraphBacktracking.

Lemma backtracking_keeps_graph_witness :
  exists m',
    validateWithBacktracking_fuel libstdcxx_sort 9 (bytes "ac")
                                  late_choice_graph
    = Returned true m'
    /\ current_state_ m' = sLATE
    /\ start_state_ m' = sSTART
    /\ same_graph late_choice_graph m'.
Proof.
  eexists. split; [vm_compute; reflexivity|].
  split; [reflexivity|]. split; [reflexivity|].
  apply (backtracking_keeps_graph libstdcxx_sort 9 (bytes "ac") _ _ true).
  vm_compute. reflexivity.
Defined.

(** ** Counters *)

Lemma capture_footprint_metrics m m' :
  capture_footprint m m' -> metrics_ m' = metrics_ m.
Proof. intros ->. reflexivity. Qed.

Lemma capture_footprint_debug_config m m' :
  capture_footprint m m' -> debug_config_ m' = debug_config_ m.
Proof. intros ->. reflexivity. Qed.

Lemma takeTransition_metrics trans ch p m m' :
  takeTransition trans ch p m = Some m' ->
  metrics_ m'
  = if hasCollectMetrics (debug_config_ m)
    then count_transition
           (negb (StateID_eqb (current_state_ m) (t_to trans))) (metrics_ m)
    else metrics_ m.
Proof.
  unfold takeTransition. intros H.
  destruct (if negb _ then fire_exit _ _ _ _ else Some m) as [m1|] eqn:E1;
    simpl in H; [|discriminate].
  assert (capture_footprint m m1) as F1.
  { destruct (negb _); [eauto using capture_footprint_fire_exit|].
    injection E1 as <-. apply capture_footprint_refl. }
  destruct (fire (on_transition trans) _ m1) as [m2|] eqn:E2;
    simpl in H; [|discriminate].
  apply capture_footprint_fire in E2.
  destruct (if negb _ then fire_entry _ _ _ _ else Some _) as [m4|] eqn:E4;
    simpl in H; [|discriminate].
  assert (capture_footprint (set_current_state_ (t_to trans) m2) m4) as F4.
  { destruct (negb _); [eauto using capture_footprint_fire_entry|].
    injection E4 as <-. apply capture_footprint_refl. }
  injection H as <-.
  cbn [metrics_ set_trace_ set_metrics_].
  assert (metrics_ m4 = metrics_ m) as Hm.
  { rewrite (capture_footprint_metrics _ _ F4). cbn [metrics_ set_current_state_].
    rewrite (capture_footprint_metrics _ _ E2).
    apply (capture_footprint_metrics _ _ F1). }
  assert (debug_config_ m4 = debug_config_ m) as Hd.
  { rewrite (capture_footprint_debug_config _ _ F4).
    cbn [debug_config_ set_current_state_].
    rewrite (capture_footprint_debug_config _ _ E2).
    apply (capture_footprint_debug_config _ _ F1). }
  now rewrite Hm, Hd.
Qed.

Lemma takeEpsilon_metrics trans p m m' :
  takeEpsilon trans p m = Some m' ->
  metrics_ m'
  = if hasCollectMetrics (debug_config_ m)
    then count_epsilon (metrics_ m) else metrics_ m.
Proof.
  unfold takeEpsilon. intros H.
  destruct (fire_exit _ _ _ m) as [m1|] eqn:E1; simpl in H; [|discriminate].
  apply capture_footprint_fire_exit in E1.
  destruct (fire (on_transition trans) _ m1) as [m2|] eqn:E2;
    simpl in H; [|discriminate].
  apply capture_footprint_fire in E2.
  destruct (fire_entry _ _ _ _) as [m4|] eqn:E4; simpl in H; [|discriminate].
  apply capture_footprint_fire_entry in E4.
  injection H as <-.
  cbn [metrics_ set_trace_ set_metrics_].
  assert (metrics_ m4 = metrics_ m) as Hm.
  { rewrite (capture_footprint_metrics _ _ E4).
    cbn [metrics_ set_current_state_].
    rewrite (capture_footprint_metrics _ _ E2).
    apply (capture_footprint_metrics _ _ E1). }
  assert (debug_config_ m4 = debug_config_ m) as Hd.
  { rewrite (capture_footprint_debug_config _ _ E4).
    cbn [debug_config_ set_current_state_].
    rewrite (capture_footprint_debug_config _ _ E2).
    apply (capture_footprint_debug_config _ _ E1). }
  now rewrite Hm, Hd.
Qed.

Section Counters.

Variable std_sort : list Transition -> list Transition.

Lemma epsilon_loop_counters fuel p : forall visited m m',
  epsilon_loop std_sort fuel p visited m = Some m' ->
  byte_counters (metrics_ m') = byte_counters (metrics_ m)
  /\ (hasCollectMetrics (debug_config_ m) = false ->
      metrics_ m' = metrics_ m).
Proof.
  induction fuel as [|fuel IH]; intros visited m m'; simpl.
  - now intros [= <-].
  - destruct (next_epsilon std_sort visited m) as [trans|];
      [|now intros [= <-]].
    destruct (takeEpsilon trans p m) as [m1|] eqn:E; [|discriminate].
    cbn [mbind option_bind]. intros H. apply IH in H as [H Hoff].
    pose proof (takeEpsilon_metrics _ _ _ _ E) as Hm.
    pose proof (footprint_debug_config _ _ (footprint_takeEpsilon _ _ _ _ E))
      as Hd.
    rewrite H, Hm. split.
    + now destruct (hasCollectMetrics (debug_config_ m)).
    + intros Hf. rewrite Hoff by now rewrite Hd.
      now rewrite Hm, Hf.
Qed.

Lemma processCharImpl_counters ch p m b m' :
  processCharImpl std_sort ch p m = Some (b, m') ->
  if b
  then metrics_ m'
       = (if hasCollectMetrics (debug_config_ m)
          then count_transition
                 (negb (StateID_eqb (current_state_ m) (current_state_ m')))
                 (metrics_ m)
          else metrics_ m)
  else metrics_ m' = metrics_ m
       /\ last_error_ m' = Some (no_matching_transition p ch m).
Proof.
  rewrite processCharImpl_unfold.
  destruct (List.find _ _) as [t|].
  - destruct (takeTransition t ch p m) as [m1|] eqn:E; [|discriminate].
    intros [= <- <-].
    rewrite (takeTransition_current_state _ _ _ _ _ E).
    exact (takeTransition_metrics _ _ _ _ _ E).
  - intros [= <- <-]. now split.
Qed.

Lemma validate_loop_counters x : forall i m b m',
  validate_loop std_sort x i m = Some (b, m') ->
  if hasCollectMetrics (debug_config_ m)
  then
    exists k,
      characters_processed (metrics_ m')
      = (characters_processed (metrics_ m) + k)%nat
      /\ transitions_taken (metrics_ m')
         = (transitions_taken (metrics_ m) + k)%nat
      /\ (states_visited (metrics_ m)
          <= states_visited (metrics_ m')
          <= states_visited (metrics_ m) + k)%nat
      /\ if b then k = length x
         else (k < length x)%nat
              /\ (err_position <$> last_error_ m') = Some (i + k)%nat
  else metrics_ m' = metrics_ m
       /\ (b = false ->
           exists k, (k < length x)%nat
                     /\ (err_position <$> last_error_ m') = Some (i + k)%nat).
Proof.
  induction x as [|ch rest IH]; intros i m b m'; simpl.
  - intros [= <- <-]. destruct (hasCollectMetrics _).
    + exists 0%nat. repeat split; lia.
    + split; [reflexivity|discriminate].
  - destruct (processCharImpl std_sort ch i (updateCapturePosition i m))
      as [[[] m1]|] eqn:E; try discriminate.
    + pose proof (processCharImpl_counters _ _ _ _ _ E) as Hm.
      pose proof (footprint_debug_config _ _
                    (footprint_processCharImpl _ _ _ _ _ _ E)) as Hd.
      cbn [debug_config_ metrics_ current_state_ updateCapturePosition
           set_current_input_position_] in Hm, Hd.
      intros H. apply IH in H.
      cbn [debug_config_ metrics_ recordCharInCaptures set_active_captures_
           count_character_if_enabled set_metrics_] in H.
      rewrite Hd in H.
      destruct (hasCollectMetrics (debug_config_ m)).
      * destruct H as (k & H1 & H2 & H3 & H4). rewrite Hm in H1, H2, H3.
        cbn [characters_processed transitions_taken states_visited
             count_character count_transition] in H1, H2, H3.
        exists (S k). split; [lia|]. split; [lia|]. split.
        -- destruct (negb _); lia.
        -- destruct b.
           ++ lia.
           ++ destruct H4 as [H4 H5]. split; [lia|].
              rewrite H5. f_equal. lia.
      * destruct H as [H1 H2]. split; [congruence|].
        intros Hb. destruct (H2 Hb) as (k & Hk & Hp).
        exists (S k). split; [lia|]. rewrite Hp. f_equal. lia.
    + intros [= <- <-].
      destruct (processCharImpl_counters _ _ _ _ _ E) as [Hm He].
      cbn [metrics_ updateCapturePosition set_current_input_position_] in Hm.
      destruct (hasCollectMetrics _).
      * exists 0%nat. rewrite Hm, He. cbn.
        repeat split; try lia. f_equal. lia.
      * split; [exact Hm|]. intros _. exists 0%nat.
        rewrite He. cbn. split; [lia|]. f_equal. lia.
Qed.

End Counters.

Lemma validate_begin_metrics x m :
  metrics_ (validate_begin x m)
  = (if hasCollectMetrics (debug_config_ m)
     then Metrics_reset else metrics_ m)
  /\ debug_config_ (validate_begin x m) = debug_config_ m.
Proof. destruct m; split; reflexivity. Qed.

Lemma metrics_set_last_error v m :
  metrics_ (set_last_error_ v m) = metrics_ m.
Proof. reflexivity. Qed.
Lemma last_error_set_last_error v m : last_error_ (set_last_error_ v m) = v.
Proof. reflexivity. Qed.
Lemma metrics_set_metrics v m : metrics_ (set_metrics_ v m) = v.
Proof. reflexivity. Qed.
Lemma last_error_set_metrics v m :
  last_error_ (set_metrics_ v m) = last_error_ m.
Proof. reflexivity. Qed.

Section ValidateCounters.

Variable std_sort : list Transition -> list Transition.

(** X21.  The counters of [validate] on a machine that collects metrics:
    when it returns, [characters_processed] is the number of bytes
    consumed, which is the length of the input when [validate] accepts
    and the position of the error it reports otherwise;
    [transitions_taken] is that number too, and [states_visited] is at
    most that number; when it accepts, [validation_time_ns] is the time
    read from the clock.  On a machine that does not collect metrics
    the counters stay as they were. *)
Theorem validate_counts (elapsed_ns : nat) (x : list byte) (m m' : FSM)
    (b : bool) :
  validate std_sort elapsed_ns x m = Some (b, m') ->
  if hasCollectMetrics (debug_config_ m)
  then
    (if b
     then characters_processed (metrics_ m') = length x
          /\ validation_time_ns (metrics_ m') = elapsed_ns
     else (err_position <$> last_error_ m')
          = Some (characters_processed (metrics_ m')))
    /\ transitions_taken (metrics_ m') = characters_processed (metrics_ m')
    /\ (states_visited (metrics_ m') <= characters_processed (metrics_ m'))%nat
  else metrics_ m' = metrics_ m.
Proof.
  rewrite validate_unfold.
  destruct (validate_begin_metrics x m) as [Hbm Hbd].
  remember (validate_begin x m) as g0 eqn:Hg0. clear Hg0.
  destruct (negb (isValid (start_state_ m))).
  { intros [= <- <-].
    rewrite metrics_set_last_error, last_error_set_last_error, Hbm.
    destruct (hasCollectMetrics _); [|reflexivity].
    cbn. repeat split; lia. }
  destruct (validate_loop std_sort x 0 g0)
    as [[[] m1]|] eqn:El; try discriminate.
  - pose proof (validate_loop_counters _ _ _ _ _ _ El) as Hl.
    pose proof (same_graph_validate_loop _ _ _ _ _ _ El)
      as (_ & _ & _ & _ & Hd1 & _).
    rewrite Hbd in Hl, Hd1. unfold validate_end.
    destruct (processEpsilonTransitions std_sort (length x) _)
      as [m2|] eqn:Ee; [|discriminate].
    pose proof (epsilon_loop_counters _ _ _ _ _ _ Ee) as [He Heoff].
    pose proof (same_graph_processEpsilonTransitions _ _ _ _ Ee)
      as (_ & _ & _ & _ & Hd2 & _).
    cbn [metrics_ debug_config_ updateCapturePosition
         set_current_input_position_] in He, Heoff, Hd2.
    rewrite Hd1 in Hd2, Heoff.
    cbn [mbind option_bind].
    unfold byte_counters in He. injection He as Hc Ht Hv.
    destruct (hasCollectMetrics (debug_config_ m)) eqn:Hf.
    + destruct Hl as (k & H1 & H2 & H3 & ->).
      rewrite Hbm in H1, H2, H3. cbn in H1, H2, H3.
      destruct (negb (isInAcceptState m2)); intros [= <- <-];
        rewrite ?metrics_set_last_error, ?last_error_set_last_error,
                ?metrics_set_metrics.
      * cbn. rewrite Hc, Ht, Hv, H1, H2. repeat split; lia.
      * rewrite Hd2, Hf. cbn. rewrite Hc, Ht, Hv, H1, H2.
        repeat split; lia.
    + destruct Hl as [Hl _].
      destruct (negb (isInAcceptState m2)); intros [= <- <-];
        rewrite ?metrics_set_last_error, ?metrics_set_metrics.
      * rewrite (Heoff eq_refl), Hl. exact Hbm.
      * rewrite Hd2, Hf, (Heoff eq_refl), Hl. exact Hbm.
  - intros [= <- <-].
    pose proof (validate_loop_counters _ _ _ _ _ _ El) as Hl.
    rewrite Hbd in Hl.
    destruct (hasCollectMetrics (debug_config_ m)).
    + destruct Hl as (k & H1 & H2 & H3 & _ & H5).
      rewrite Hbm in H1, H2, H3. cbn in H1, H2, H3.
      rewrite H5, H1, H2. repeat split; lia.
    + destruct Hl as [Hl _]. now rewrite Hl.
Qed.

End ValidateCounters.

Lemma validate_counts_witness :
  exists m',
    validate libstdcxx_sort 42 (bytes "12a") digits_graph_traced
    = Some (false, m')
    /\ (err_position <$> last_error_ m')
       = Some (characters_processed (metrics_ m'))
    /\ transitions_taken (metrics_ m') = characters_processed (metrics_ m')
    /\ (states_visited (metrics_ m') <= characters_processed (metrics_ m'))%nat
    /\ characters_processed (metrics_ m') = 2%nat.
Proof.
  eexists. split; [vm_compute; reflexivity|].
  split; [|split; [|split]].
  4: vm_compute; reflexivity.
  all: refine (_ (validate_counts libstdcxx_sort 42 (bytes "12a")
                                  digits_graph_traced _ false _));
    [|vm_compute; reflexivity].
  all: intros H; apply H.
Defined.

(** ** Runs on a machine that has run before *)

Lemma unlogged_relog tr mt m : unlogged (relog tr mt m) = unlogged m.
Proof. destruct m; reflexivity. Qed.

Lemma unlogged_logged tr mt m :
  unlogged (set_trace_ tr (set_metrics_ mt m)) = unlogged m.
Proof. destruct m; reflexivity. Qed.

Lemma relog_unlogged m : relog (trace_ m) (metrics_ m) (unlogged m) = m.
Proof. destruct m; reflexivity. Qed.

Lemma relog_relog tr mt tr' mt' m :
  relog tr mt (relog tr' mt' m) = relog tr mt m.
Proof. destruct m; reflexivity. Qed.

Lemma unlogged_eq_relog m1 m2 :
  unlogged m1 = unlogged m2 -> m1 = relog (trace_ m1) (metrics_ m1) m2.
Proof.
  intros H. rewrite <- (relog_unlogged m1) at 1. rewrite H.
  unfold unlogged. apply relog_relog.
Qed.

Section Relog.

Variable tr : list TraceEntry.
Variable mt : Metrics.

Lemma relog_states m : states_ (relog tr mt m) = states_ m.
Proof. reflexivity. Qed.
Lemma relog_transitions m : transitions_ (relog tr mt m) = transitions_ m.
Proof. reflexivity. Qed.
Lemma relog_current_state m :
  current_state_ (relog tr mt m) = current_state_ m.
Proof. reflexivity. Qed.
Lemma relog_accept_states m :
  accept_states_ (relog tr mt m) = accept_states_ m.
Proof. reflexivity. Qed.
Lemma relog_debug_config m :
  debug_config_ (relog tr mt m) = debug_config_ m.
Proof. reflexivity. Qed.
Lemma relog_captures m : captures_ (relog tr mt m) = captures_ m.
Proof. reflexivity. Qed.
Lemma relog_active_captures m :
  active_captures_ (relog tr mt m) = active_captures_ m.
Proof. reflexivity. Qed.
Lemma relog_position m :
  current_input_position_ (relog tr mt m) = current_input_position_ m.
Proof. reflexivity. Qed.
Lemma relog_set_current_state v m :
  relog tr mt (set_current_state_ v m) = set_current_state_ v (relog tr mt m).
Proof. reflexivity. Qed.
Lemma relog_set_captures v m :
  relog tr mt (set_captures_ v m) = set_captures_ v (relog tr mt m).
Proof. reflexivity. Qed.
Lemma relog_set_active_captures v m :
  relog tr mt (set_active_captures_ v m)
  = set_active_captures_ v (relog tr mt m).
Proof. reflexivity. Qed.
Lemma relog_set_last_error v m :
  relog tr mt (set_last_error_ v m) = set_last_error_ v (relog tr mt m).
Proof. reflexivity. Qed.
Lemma relog_set_position v m :
  relog tr mt (set_current_input_position_ v m)
  = set_current_input_position_ v (relog tr mt m).
Proof. reflexivity. Qed.

Ltac relog_rw :=
  repeat first
    [ rewrite relog_states | rewrite relog_transitions
    | rewrite relog_current_state | rewrite relog_accept_states
    | rewrite relog_debug_config | rewrite relog_captures
    | rewrite relog_active_captures | rewrite relog_position
    | rewrite <- relog_set_current_state | rewrite <- relog_set_captures
    | rewrite <- relog_set_active_captures | rewrite <- relog_set_last_error
    | rewrite <- relog_set_position ].

Lemma relog_beginCapture name m :
  beginCapture name (relog tr mt m) = relog tr mt <$> beginCapture name m.
Proof.
  unfold beginCapture. relog_rw.
  destruct (existsb _ _); simpl; [reflexivity|].
  now relog_rw.
Qed.

Lemma relog_endCapture name m :
  endCapture name (relog tr mt m)
  = prod_map (fun c => c) (relog tr mt) <$> endCapture name m.
Proof.
  unfold endCapture. relog_rw.
  destruct (List.find _ _); simpl; [|reflexivity].
  now relog_rw.
Qed.

Lemma relog_run_op op m :
  run_op op (relog tr mt m) = relog tr mt <$> run_op op m.
Proof.
  induction op as [name|name|op IH]; simpl.
  - apply relog_beginCapture.
  - rewrite relog_endCapture. now destruct (endCapture name m) as [[c m']|].
  - rewrite IH. now destruct (run_op op m).
Qed.

Lemma relog_run_ops ops m :
  run_ops ops (relog tr mt m) = relog tr mt <$> run_ops ops m.
Proof.
  revert m. induction ops as [|op ops IH]; intros m; simpl; [reflexivity|].
  rewrite relog_run_op.
  destruct (run_op op m) as [m'|]; simpl; [apply IH|reflexivity].
Qed.

Lemma relog_fire {Ctx} (cb : option (Ctx -> list CaptureOp)) ctx m :
  fire cb ctx (relog tr mt m) = relog tr mt <$> fire cb ctx m.
Proof. destruct cb; simpl; [apply relog_run_ops|reflexivity]. Qed.

Lemma relog_fire_exit s position ch m :
  fire_exit s position ch (relog tr mt m)
  = relog tr mt <$> fire_exit s position ch m.
Proof.
  unfold fire_exit. rewrite relog_states.
  destruct (states_ m !! sid_id s); [apply relog_fire|reflexivity].
Qed.

Lemma relog_fire_entry s position ch m :
  fire_entry s position ch (relog tr mt m)
  = relog tr mt <$> fire_entry s position ch m.
Proof.
  unfold fire_entry. rewrite relog_states.
  destruct (states_ m !! sid_id s); [apply relog_fire|reflexivity].
Qed.

Lemma relog_takeTransition trans ch position m :
  unlogged <$> takeTransition trans ch position (relog tr mt m)
  = unlogged <$> takeTransition trans ch position m.
Proof.
  unfold takeTransition. rewrite relog_current_state.
  destruct (negb (StateID_eqb (current_state_ m) (t_to trans))).
  - rewrite relog_fire_exit.
    destruct (fire_exit _ _ _ m) as [m1|]; simpl; [|reflexivity].
    rewrite relog_fire.
    destruct (fire (on_transition trans) _ m1) as [m2|]; simpl; [|reflexivity].
    rewrite <- relog_set_current_state, relog_fire_entry.
    destruct (fire_entry _ _ _ _) as [m4|]; simpl; [|reflexivity].
    now rewrite !unlogged_logged, unlogged_relog.
  - simpl. rewrite relog_fire.
    destruct (fire (on_transition trans) _ m) as [m2|]; simpl; [|reflexivity].
    rewrite <- relog_set_current_state.
    now rewrite !unlogged_logged, unlogged_relog.
Qed.

Lemma relog_takeEpsilon trans position m :
  unlogged <$> takeEpsilon trans position (relog tr mt m)
  = unlogged <$> takeEpsilon trans position m.
Proof.
  unfold takeEpsilon. rewrite relog_current_state, relog_fire_exit.
  destruct (fire_exit _ _ _ m) as [m1|]; simpl; [|reflexivity].
  rewrite relog_fire.
  destruct (fire (on_transition trans) _ m1) as [m2|]; simpl; [|reflexivity].
  rewrite <- relog_set_current_state, relog_fire_entry.
  destruct (fire_entry _ _ _ _) as [m4|]; simpl; [|reflexivity].
  now rewrite !unlogged_logged, unlogged_relog.
Qed.

End Relog.

Lemma unlogged_updateCapturePosition pos m :
  unlogged (updateCapturePosition pos m)
  = updateCapturePosition pos (unlogged m).
Proof. reflexivity. Qed.

Lemma unlogged_record_count ch m :
  unlogged (recordCharInCaptures ch (count_character_if_enabled m))
  = recordCharInCaptures ch (unlogged m).
Proof. destruct m; reflexivity. Qed.

Lemma unlogged_isInAcceptState m :
  isInAcceptState (unlogged m) = isInAcceptState m.
Proof. reflexivity. Qed.

Lemma unlogged_outcome (b : bool) m :
  (b, captures_ (unlogged m), last_error_ (unlogged m),
   current_state_ (unlogged m))
  = (b, captures_ m, last_error_ m, current_state_ m).
Proof. reflexivity. Qed.

Section SameButLog.

Variable std_sort : list Transition -> list Transition.

Lemma relog_getTransitionsFrom tr mt m s :
  getTransitionsFrom std_sort (relog tr mt m) s
  = getTransitionsFrom std_sort m s.
Proof. reflexivity. Qed.

Lemma unlogged_processCharImpl ch p m1 m2 :
  unlogged m1 = unlogged m2 ->
  prod_map (fun b => b) unlogged <$> processCharImpl std_sort ch p m1
  = prod_map (fun b => b) unlogged <$> processCharImpl std_sort ch p m2.
Proof.
  intros H. apply unlogged_eq_relog in H.
  generalize dependent (trace_ m1). generalize dependent (metrics_ m1).
  intros mt tr ->.
  rewrite !processCharImpl_unfold.
  rewrite relog_getTransitionsFrom, relog_current_state.
  destruct (List.find _ _) as [t|].
  - pose proof (relog_takeTransition tr mt t ch p m2) as E.
    destruct (takeTransition t ch p (relog tr mt m2)) as [a1|],
             (takeTransition t ch p m2) as [a2|];
      try discriminate; [|reflexivity].
    apply (inj Some) in E. cbn. now rewrite E.
  - cbn. unfold no_matching_transition.
    rewrite relog_current_state, <- relog_set_last_error.
    now rewrite unlogged_relog.
Qed.

Lemma unlogged_validate_loop x : forall i m1 m2,
  unlogged m1 = unlogged m2 ->
  prod_map (fun b => b) unlogged <$> validate_loop std_sort x i m1
  = prod_map (fun b => b) unlogged <$> validate_loop std_sort x i m2.
Proof.
  induction x as [|ch rest IH]; intros i m1 m2 H; simpl.
  - now rewrite H.
  - assert (unlogged (updateCapturePosition i m1)
            = unlogged (updateCapturePosition i m2)) as Hu
      by (now rewrite !unlogged_updateCapturePosition, H).
    pose proof (unlogged_processCharImpl ch i _ _ Hu) as E.
    destruct (processCharImpl std_sort ch i (updateCapturePosition i m1))
      as [[[] a1]|],
      (processCharImpl std_sort ch i (updateCapturePosition i m2))
      as [[[] a2]|]; try discriminate; try reflexivity.
    + change (Some (true, unlogged a1) = Some (true, unlogged a2)) in E.
      assert (unlogged a1 = unlogged a2) as E' by congruence.
      apply IH. now rewrite !unlogged_record_count, E'.
    + change (Some (false, unlogged a1) = Some (false, unlogged a2)) in E.
      exact E.
Qed.

Lemma unlogged_epsilon_loop fuel p : forall visited m1 m2,
  unlogged m1 = unlogged m2 ->
  unlogged <$> epsilon_loop std_sort fuel p visited m1
  = unlogged <$> epsilon_loop std_sort fuel p visited m2.
Proof.
  induction fuel as [|fuel IH]; intros visited m1 m2 H; simpl.
  - now rewrite H.
  - assert (next_epsilon std_sort visited m1
            = next_epsilon std_sort visited m2) as ->.
    { rewrite (unlogged_eq_relog _ _ H). reflexivity. }
    destruct (next_epsilon std_sort visited m2) as [trans|];
      [|cbn; now rewrite H].
    assert (unlogged <$> takeEpsilon trans p m1
            = unlogged <$> takeEpsilon trans p m2) as E.
    { rewrite (unlogged_eq_relog _ _ H). apply relog_takeEpsilon. }
    destruct (takeEpsilon trans p m1) as [a1|],
             (takeEpsilon trans p m2) as [a2|];
      try discriminate; [|reflexivity].
    apply (inj Some) in E. cbn [mbind option_bind]. now apply IH.
Qed.

Lemma unlogged_processEpsilonTransitions p m1 m2 :
  unlogged m1 = unlogged m2 ->
  unlogged <$> processEpsilonTransitions std_sort p m1
  = unlogged <$> processEpsilonTransitions std_sort p m2.
Proof.
  intros H. unfold processEpsilonTransitions.
  assert (transitions_ m1 = transitions_ m2
          /\ current_state_ m1 = current_state_ m2) as [-> ->].
  { rewrite (unlogged_eq_relog _ _ H). now split. }
  now apply unlogged_epsilon_loop.
Qed.

Lemma outcome_of_validate_end t1 t2 x m1 m2 :
  unlogged m1 = unlogged m2 ->
  outcome_of_validate (validate_end std_sort t1 x m1)
  = outcome_of_validate (validate_end std_sort t2 x m2).
Proof.
  intros H. unfold validate_end.
  assert (unlogged (updateCapturePosition (length x) m1)
          = unlogged (updateCapturePosition (length x) m2)) as Hu
    by (now rewrite !unlogged_updateCapturePosition, H).
  pose proof (unlogged_processEpsilonTransitions (length x) _ _ Hu) as E.
  destruct (processEpsilonTransitions std_sort (length x)
              (updateCapturePosition (length x) m1)) as [a1|],
           (processEpsilonTransitions std_sort (length x)
              (updateCapturePosition (length x) m2)) as [a2|];
    try discriminate; [|reflexivity].
  apply (inj Some) in E. cbn [mbind option_bind].
  rewrite <- (unlogged_isInAcceptState a1), E, unlogged_isInAcceptState.
  apply unlogged_eq_relog in E.
  generalize dependent (trace_ a1). generalize dependent (metrics_ a1).
  intros mt tr ->.
  destruct (isInAcceptState a2); reflexivity.
Qed.

End SameButLog.

Lemma unlogged_validate_begin x m1 m2 :
  same_graph m1 m2 ->
  unlogged (validate_begin x m1) = unlogged (validate_begin x m2).
Proof.
  destruct m1, m2. unfold same_graph.
  cbn [states_ transitions_ start_state_ accept_states_ debug_config_
       max_backtrack_depth_ next_state_id_ next_transition_id_].
  intros (-> & -> & -> & -> & -> & -> & -> & ->). reflexivity.
Qed.

Section ValidateAgain.

Variable std_sort : list Transition -> list Transition.

(** X22.  What [validate] answers depends on the graph and the debug
    configuration of the machine and on the input only: on two machines
    with the same states, transitions, start state, accept states and
    configuration, whatever earlier runs left in them (current state,
    captures, error, input, stream state, choice points, trace and
    counters), [validate] throws on both or returns on both, with the
    same flag, the same captures, the same error and the same final
    state.  The clock readings do not matter either. *)
Theorem validate_forgets_earlier_runs t1 t2 x m1 m2 :
  same_graph m1 m2 ->
  outcome_of_validate (validate std_sort t1 x m1)
  = outcome_of_validate (validate std_sort t2 x m2).
Proof.
  intros H. rewrite !validate_unfold.
  pose proof (unlogged_validate_begin x _ _ H) as Hb.
  destruct H as (_ & _ & -> & _).
  destruct (negb (isValid (start_state_ m1))).
  - apply unlogged_eq_relog in Hb.
    generalize dependent (trace_ (validate_begin x m1)).
    generalize dependent (metrics_ (validate_begin x m1)).
    intros mt tr ->. generalize (validate_begin x m2). intros g.
    destruct g; reflexivity.
  - pose proof (unlogged_validate_loop std_sort x 0 _ _ Hb) as E.
    destruct (validate_loop std_sort x 0 (validate_begin x m1))
      as [[[] a1]|],
      (validate_loop std_sort x 0 (validate_begin x m2))
      as [[[] a2]|]; try discriminate; try reflexivity.
    + change (Some (true, unlogged a1) = Some (true, unlogged a2)) in E.
      apply outcome_of_validate_end. congruence.
    + change (Some (false, unlogged a1) = Some (false, unlogged a2)) in E.
      assert (unlogged a1 = unlogged a2) as E' by congruence.
      rewrite (unlogged_eq_relog _ _ E').
      generalize (trace_ a1) (metrics_ a1). intros tr mt.
      destruct a2; reflexivity.
Qed.

End ValidateAgain.

Lemma validate_forgets_earlier_runs_witness :
  exists m',
    validate libstdcxx_sort 42 (bytes "12a") digits_graph_traced
    = Some (false, m')
    /\ outcome_of_validate (validate libstdcxx_sort 7 (bytes "12") m')
       = outcome_of_validate
           (validate libstdcxx_sort 9 (bytes "12") digits_graph_traced).
Proof.
  eexists. split; [vm_compute; reflexivity|].
  apply (validate_forgets_earlier_runs libstdcxx_sort 7 9 (bytes "12")).
  vm_compute. repeat split.
Defined.
